(** * KinectFilter: GPU filtering pipelines and the frame mailbox

    A shallow embedding of the KinectFilter demo programs
    (kinectFilter.cpp, kinectFilter_clc.cpp, kinectFilter_clc++.cpp,
    kinectFilter_gl_interop_texture.cpp,
    kinectFilter_gl_interop_vertex_buffer.cpp) and of their OpenCL kernels
    (kernels.cl), followed by the properties proved about them.

    Conventions.
    - A [cl_mem] handle is a natural number; the memory of the OpenCL
      context is a finite map from handles to memory objects.  Copying a
      C++ wrapper object ([cl::Image2D (other)]) copies the handle.
    - Kernel arguments persist in the kernel object between dispatches, as
      [clSetKernelArg] has it; a dispatch uses the arguments bound at the
      time it is enqueued.
    - The command queue is in-order: the model executes a command when it is
      enqueued and records it in the queue's log.
    - Device code computes on [float]; the kernels are written over an
      interface of float operations with two instances: IEEE-754 binary32
      (round to nearest even, from [SpecFloat], with the division of the
      device as a parameter) and exact rationals.
    - [chk] terminates the process on a failed OpenCL call: [Exit]. Reading
      or writing host memory beyond the end of a buffer is [Undefined]. *)

From Stdlib Require Import ZArith QArith Qabs Qround Ascii String List Lia Lqa.
From Stdlib Require Import Floats.SpecFloat.
From stdpp Require Import base option list gmap.

Local Open Scope Z_scope.

(** ** Outcomes of host code *)

Inductive outcome (A : Type) : Type :=
| Done (a : A)
| Exit (funcName : string)
| Undefined.

Arguments Done {A} a.
Arguments Exit {A} funcName.
Arguments Undefined {A}.

Definition CL (S A : Type) : Type := S -> outcome (A * S).

Definition ret {S A : Type} (a : A) : CL S A := fun s => Done (a, s).

Definition bind {S A B : Type} (m : CL S A) (k : A -> CL S B) : CL S B :=
  fun s =>
    match m s with
    | Done (a, s') => k a s'
    | Exit fn => Exit fn
    | Undefined => Undefined
    end.

Definition gets {S A : Type} (f : S -> A) : CL S A := fun s => Done (f s, s).

Definition modify {S : Type} (f : S -> S) : CL S unit := fun s => Done (tt, f s).

Definition exit_failure {S A : Type} (funcName : string) : CL S A :=
  fun _ => Exit funcName.

Definition undefined_behaviour {S A : Type} : CL S A := fun _ => Undefined.

Declare Scope cl_scope.
Delimit Scope cl_scope with cl.
Notation "x <- m ;; k" := (bind m (fun x => k))
  (at level 100, m at next level, right associativity) : cl_scope.
Notation "m ;;; k" := (bind m (fun _ => k))
  (at level 100, right associativity) : cl_scope.

(** ** Machine integers *)

(** [uint] arithmetic wraps modulo 2^32; storing a [uint] in an [int]
    reinterprets the bits. *)
Definition uint32 (z : Z) : Z := z mod 2 ^ 32.

Definition int32 (z : Z) : Z := (z + 2 ^ 31) mod 2 ^ 32 - 2 ^ 31.

(** [convert_uchar_sat], applied by [write_imageui] to an image whose
    channel type is CL_UNSIGNED_INT8. *)
Definition convert_uchar_sat (z : Z) : Z := Z.max 0 (Z.min 255 z).

(** ** Float operations of device code *)

Class FloatOps (F : Type) : Type := {
  f_dyadic : Z -> Z -> F;          (* the literal m * 2^e *)
  f_add : F -> F -> F;
  f_sub : F -> F -> F;
  f_mul : F -> F -> F;
  f_div : F -> F -> F;
  f_to_uint : F -> Z               (* conversion to uint, toward zero *)
}.

Definition f_of_Z {F : Type} `{FloatOps F} (z : Z) : F := f_dyadic z 0.

(** *** IEEE-754 binary32 *)

Definition b32_prec : Z := 24.
Definition b32_emax : Z := 128.

Abbreviation float32 := spec_float.

Definition b32_dyadic (m e : Z) : float32 :=
  binary_normalize b32_prec b32_emax m e false.

(** Integral part of a float, when it is finite. *)
Definition b32_trunc (x : float32) : option Z :=
  match x with
  | S754_zero _ => Some 0
  | S754_finite s m e =>
      let a := match e with
               | Zneg p => Z.shiftr (Zpos m) (Zpos p)
               | _ => Z.shiftl (Zpos m) e
               end in
      Some (if s then - a else a)
  | _ => None
  end.

(** Conversion of a float to [uint]: the fractional part is discarded. When
    the integral part does not fit [uint] (or the float is an infinity or a
    NaN) the result is implementation-defined: [oor] gives it. *)
Definition b32_to_uint (oor : float32 -> Z) (x : float32) : Z :=
  match b32_trunc x with
  | Some z => if (0 <=? z) && (z <? 2 ^ 32) then z else uint32 (oor x)
  | None => uint32 (oor x)
  end.

(** Division. The programs build their kernels without options, and the
    quotient [x / y] of device code then need not be correctly rounded:
    OpenCL bounds its error by 2.5 ulp. The quotient of two finite
    non-zero numbers is therefore the device's own, [divide]; when an
    operand is a zero, an infinity or a NaN the result is the one of
    IEEE 754. *)
Definition b32_div (divide : float32 -> float32 -> float32) (x y : float32) : float32 :=
  match x, y with
  | S754_finite _ _ _, S754_finite _ _ _ => divide x y
  | _, _ => SFdiv b32_prec b32_emax x y
  end.

(** The floats of a device: addition, subtraction and multiplication are
    correctly rounded, division is [b32_div divide], and [oor] gives the
    conversions to [uint] that are out of range. *)
Definition binary32 (oor : float32 -> Z) (divide : float32 -> float32 -> float32)
    : FloatOps float32 := {|
  f_dyadic := b32_dyadic;
  f_add := SFadd b32_prec b32_emax;
  f_sub := SFsub b32_prec b32_emax;
  f_mul := SFmul b32_prec b32_emax;
  f_div := b32_div divide;
  f_to_uint := b32_to_uint oor
|}.

(** The correctly rounded quotient: the division of host code, and of a
    device that rounds its quotients correctly. *)
Definition ieee_divide : float32 -> float32 -> float32 := SFdiv b32_prec b32_emax.

(** A device on which every out-of-range conversion gives 0. *)
Definition oor_zero : float32 -> Z := fun _ => 0.

(** A device with correctly rounded division on which every out-of-range
    conversion gives 0. *)
Definition device0 : FloatOps float32 := binary32 oor_zero ieee_divide.

(** The rational number a float stands for (infinities and NaN have none). *)
Definition b32_to_Q (x : float32) : option Q :=
  match x with
  | S754_zero _ => Some 0%Q
  | S754_finite s m e =>
      let a := (inject_Z (Zpos m) * Qpower 2 e)%Q in
      Some (if s then Qopp a else a)
  | _ => None
  end.

Definition b32_is_finite (x : float32) : bool :=
  match x with
  | S754_zero _ | S754_finite _ _ _ => true
  | _ => false
  end.

(** *** Exact rational arithmetic *)

Definition Q_trunc (q : Q) : Z := Z.quot (Qnum q) (Zpos (Qden q)).

Definition Q_to_uint (oor : Q -> Z) (q : Q) : Z :=
  let z := Q_trunc q in
  if (0 <=? z) && (z <? 2 ^ 32) then z else uint32 (oor q).

Definition exactQ (oor : Q -> Z) : FloatOps Q := {|
  f_dyadic := fun m e => (inject_Z m * Qpower 2 e)%Q;
  f_add := Qplus;
  f_sub := Qminus;
  f_mul := Qmult;
  f_div := Qdiv;
  f_to_uint := Q_to_uint oor
|}.

(** ** Device images and samplers *)

Inductive addressing_mode : Type :=
| CL_ADDRESS_CLAMP_TO_EDGE
| CL_ADDRESS_CLAMP.

Inductive filter_mode : Type :=
| CL_FILTER_NEAREST
| CL_FILTER_LINEAR.

Record sampler_t : Type := Sampler {
  normalized_coords : bool;
  addressing : addressing_mode;
  filtering : filter_mode
}.

(** A single-channel image (CL_R) with 8-bit unsigned channel type
    (CL_UNSIGNED_INT8), stored row by row. *)
Record image2d_t : Type := Image2D {
  image_width : Z;
  image_height : Z;
  image_data : list Z
}.

Definition set_image_data (img : image2d_t) (data : list Z) : image2d_t :=
  {| image_width := image_width img;
     image_height := image_height img;
     image_data := data |}.

Definition in_image (img : image2d_t) (x y : Z) : bool :=
  (0 <=? x) && (x <? image_width img) && (0 <=? y) && (y <? image_height img).

Definition pixel_index (img : image2d_t) (x y : Z) : nat :=
  Z.to_nat (y * image_width img + x).

Definition pixel_at (img : image2d_t) (x y : Z) : Z :=
  nth (pixel_index img x y) (image_data img) 0.

Definition clamp (lo hi v : Z) : Z := Z.max lo (Z.min hi v).

(** [read_imageui] with integer coordinates; the [x] component of the
    [uint4] it returns (the others are 0, 0, 1 for a CL_R image). *)
Definition read_imageui (img : image2d_t) (sampler : sampler_t) (coords : Z * Z) : Z :=
  let '(x, y) := coords in
  match addressing sampler with
  | CL_ADDRESS_CLAMP_TO_EDGE =>
      pixel_at img (clamp 0 (image_width img - 1) x) (clamp 0 (image_height img - 1) y)
  | CL_ADDRESS_CLAMP =>
      if in_image img x y then pixel_at img x y else 0
  end.

(** [write_imageui] of the colour [(v, 0, 0, 0)]; a write outside the image
    is not tracked. *)
Definition write_imageui (img : image2d_t) (coords : Z * Z) (v : Z) : image2d_t :=
  let '(x, y) := coords in
  if in_image img x y
  then set_image_data img (<[pixel_index img x y := convert_uchar_sat v]> (image_data img))
  else img.

(** Image contents given pixel by pixel. *)
Definition pixels (w h : Z) (f : Z -> Z -> Z) : list Z :=
  map (fun k => f (Z.of_nat k mod w) (Z.of_nat k / w)) (seq 0 (Z.to_nat (w * h))).

(** The work-items of a two-dimensional NDRange, as
    [(get_global_id (0), get_global_id (1))]. *)
Definition work_items (global : Z * Z) : list (Z * Z) :=
  let '(g0, g1) := global in
  map (fun k => (Z.of_nat k mod g0, Z.of_nat k / g0)) (seq 0 (Z.to_nat (g0 * g1))).

(** The integers [lo], [lo + 1], ..., [hi]. *)
Definition interval (lo hi : Z) : list Z :=
  map (fun k => lo + Z.of_nat k) (seq 0 (Z.to_nat (hi - lo + 1))).

(** ** kernels.cl *)

Module Kernels.

Section WithFloat.

Context {F : Type} `{FloatOps F}.

(** [kernel void convolution]: the value of [sum] when the loops end, for
    the work-item [(column, row)]. *)
Definition convolution_sum (sourceImage : image2d_t) (filter : list F)
    (filterWidth : Z) (sampler : sampler_t) (column row : Z) : F :=
  let halfwidth := int32 (uint32 filterWidth / 2) in
  fst (fold_left
         (fun acc i =>
            let coords_y := int32 (uint32 (row + i)) in
            fold_left
              (fun '(sum, filterIdx) j =>
                 let coords_x := int32 (uint32 (column + j)) in
                 let pixel := read_imageui sourceImage sampler (coords_x, coords_y) in
                 (f_add sum (f_mul (f_of_Z pixel)
                                   (nth (Z.to_nat filterIdx) filter (f_of_Z 0))),
                  filterIdx + 1))
              (interval (- halfwidth) halfwidth) acc)
         (interval (- halfwidth) halfwidth) (f_of_Z 0, 0)).

(** [kernel void convolution], one work-item. *)
Definition convolution (sourceImage outputImage : image2d_t) (rows cols : Z)
    (filter : list F) (filterWidth : Z) (sampler : sampler_t)
    (gid : Z * Z) : image2d_t :=
  let '(column, row) := gid in
  let sum := convolution_sum sourceImage filter filterWidth sampler column row in
  if (row <? rows) && (column <? cols)
  then write_imageui outputImage (column, row) (f_to_uint sum)
  else outputImage.

(** The whole NDRange: the work-items write distinct pixels of an image
    that none of them reads. *)
Definition convolution_range (sourceImage outputImage : image2d_t) (rows cols : Z)
    (filter : list F) (filterWidth : Z) (sampler : sampler_t)
    (global : Z * Z) : image2d_t :=
  fold_left
    (fun out gid => convolution sourceImage out rows cols filter filterWidth sampler gid)
    (work_items global) outputImage.

(** The image [convolution] leaves in an output image of the size of the
    source when every pixel has its work-item. *)
Definition convolved (sourceImage : image2d_t) (filter : list F) (filterWidth : Z)
    (sampler : sampler_t) : image2d_t :=
  Image2D (image_width sourceImage) (image_height sourceImage)
    (pixels (image_width sourceImage) (image_height sourceImage)
       (fun x y =>
          convert_uchar_sat
            (f_to_uint (convolution_sum sourceImage filter filterWidth sampler x y)))).

(** [float4]. *)
Definition float4 : Type := F * F * F * F.

(** [kernel void rgb2rgba], one work-item. *)
Definition rgb2rgba (rgb : list Z) (rgba : list float4) (rows cols : Z)
    (gid : Z * Z) : list float4 :=
  let '(column, row) := gid in
  (* Flatten indices *)
  let idx := uint32 (row * cols + column) in
  (* Read pixel in: vload3 (idx, rgb) *)
  let pixel := (nth (Z.to_nat (3 * idx)) rgb 0,
                nth (Z.to_nat (3 * idx + 1)) rgb 0,
                nth (Z.to_nat (3 * idx + 2)) rgb 0) in
  if (row <? rows) && (column <? cols)
  then
    let '(r, g, b) := pixel in
    <[Z.to_nat idx := (f_div (f_of_Z r) (f_of_Z 255),
                        f_div (f_of_Z g) (f_of_Z 255),
                        f_div (f_of_Z b) (f_of_Z 255),
                        f_of_Z 1)]> rgba
  else rgba.

(** [kernel void normalizeRGB], one work-item. *)
Definition normalizeRGB (input : list float4) (out : list float4) (rows cols : Z)
    (gid : Z * Z) : list float4 :=
  let '(column, row) := gid in
  (* Flatten indices *)
  let idx := uint32 (row * cols + column) in
  (* Calculate normalizing factor *)
  let '(x, y, z, w) :=
    nth (Z.to_nat idx) input (f_of_Z 0, f_of_Z 0, f_of_Z 0, f_of_Z 0) in
  let sum := f_add (f_add x y) z in
  if (row <? rows) && (column <? cols)
  then
    (* Normalize and store *)
    let '(x, y, z, w) := (f_div x sum, f_div y sum, f_div z sum, f_div w sum) in
    <[Z.to_nat idx := (x, y, z, f_of_Z 1)]> out
  else out.

(** [kernel void depthTo3D], one work-item of the NDRange [global]. *)
Definition depthTo3D (depth : list Z) (pCloud : list float4) (f : F)
    (global : Z * Z) (gid : Z * Z) : list float4 :=
  (* Workspace dimensions *)
  let cols := uint32 (fst global) in
  let rows := uint32 (snd global) in
  (* Workspace indices *)
  let '(gX, gY) := gid in
  (* Flatten indices *)
  let idx := uint32 (gY * cols + gX) in
  let d := f_of_Z (nth (Z.to_nat idx) depth 0) in
  let point :=
    (f_div (f_mul (f_sub (f_of_Z gX) (f_div (f_of_Z (uint32 (cols - 1))) (f_of_Z 2))) d) f,
     f_div (f_mul (f_sub (f_of_Z gY) (f_div (f_of_Z (uint32 (rows - 1))) (f_of_Z 2))) d) f,
     d, f_of_Z 1) in
  <[Z.to_nat idx := point]> pCloud.

Definition rgb2rgba_range (rgb : list Z) (rgba : list float4) (rows cols : Z)
    (global : Z * Z) : list float4 :=
  fold_left (fun out gid => rgb2rgba rgb out rows cols gid) (work_items global) rgba.

Definition normalizeRGB_range (input out : list float4) (rows cols : Z)
    (global : Z * Z) : list float4 :=
  fold_left (fun out gid => normalizeRGB input out rows cols gid) (work_items global) out.

Definition depthTo3D_range (depth : list Z) (pCloud : list float4) (f : F)
    (global : Z * Z) : list float4 :=
  fold_left (fun out gid => depthTo3D depth out f global gid) (work_items global) pCloud.

End WithFloat.

End Kernels.

(** The value of [sum] when a work-item of [convolution] with a filter of
    width 3 ends, from the pixels [p j i] it reads at the offsets [(j, i)]. *)
Definition sum3x3 {F : Type} `{FloatOps F} (p : Z -> Z -> Z) (flt : list F) : F :=
  let term j i k := f_mul (f_of_Z (p j i)) (nth k flt (f_of_Z 0)) in
  f_add (f_add (f_add
  (f_add (f_add (f_add
  (f_add (f_add (f_add (f_of_Z 0)
     (term (-1) (-1) 0%nat)) (term 0 (-1) 1%nat)) (term 1 (-1) 2%nat))
     (term (-1) 0 3%nat)) (term 0 0 4%nat)) (term 1 0 5%nat))
     (term (-1) 1 6%nat)) (term 0 1 7%nat)) (term 1 1 8%nat).

(** The sum of the weights of a filter, added in the order of the array. *)
Definition f_sum {F : Type} `{FloatOps F} (flt : list F) : F :=
  fold_left f_add flt (f_of_Z 0).

(** ** OpenCL host objects *)

Definition cl_mem : Type := nat.

Inductive kernel_arg (F : Type) : Type :=
| ArgMem (m : cl_mem)
| ArgInt (z : Z)
| ArgFloat (x : F)
| ArgSampler (s : sampler_t).

Arguments ArgMem {F} m.
Arguments ArgInt {F} z.
Arguments ArgFloat {F} x.
Arguments ArgSampler {F} s.

Record cl_kernel (F : Type) : Type := Kernel {
  kernel_name : string;
  kernel_args : gmap nat (kernel_arg F)
}.

Arguments Kernel {F} kernel_name kernel_args.
Arguments kernel_name {F} c.
Arguments kernel_args {F} c.

Definition setArg {F : Type} (k : cl_kernel F) (index : nat) (a : kernel_arg F) : cl_kernel F :=
  Kernel (kernel_name k) (<[index := a]> (kernel_args k)).

(** Commands of a queue. A dispatch carries the kernel with the arguments
    bound when it was enqueued. *)
Inductive command (F : Type) : Type :=
| EnqueueWriteBuffer (buffer : cl_mem) (floats : list F)
| EnqueueWriteBytes (buffer : cl_mem) (bytes : list Z)
| EnqueueWriteImage (image : cl_mem) (region : Z * Z * Z) (pixels : list Z)
| EnqueueNDRangeKernel (k : cl_kernel F) (global : Z * Z)
| EnqueueReadImage (image : cl_mem) (region : Z * Z * Z)
| EnqueueWriteUShorts (buffer : cl_mem) (values : list Z)
| EnqueueAcquireGLObjects (objects : list cl_mem)
| EnqueueReleaseGLObjects (objects : list cl_mem)
| GlFinish
| Finish.

Arguments EnqueueWriteBuffer {F} buffer floats.
Arguments EnqueueWriteBytes {F} buffer bytes.
Arguments EnqueueWriteImage {F} image region pixels.
Arguments EnqueueNDRangeKernel {F} k global.
Arguments EnqueueReadImage {F} image region.
Arguments EnqueueAcquireGLObjects {F} objects.
Arguments EnqueueReleaseGLObjects {F} objects.
Arguments EnqueueWriteUShorts {F} buffer values.
Arguments GlFinish {F}.
Arguments Finish {F}.

(** Status codes. *)
Definition CL_SUCCESS : Z := 0.
Definition CL_INVALID_VALUE : Z := -30.
Definition CL_INVALID_MEM_OBJECT : Z := -38.
Definition CL_INVALID_ARG_INDEX : Z := -49.
Definition CL_INVALID_KERNEL_ARGS : Z := -52.

(** The image and window size of every program. *)
Definition gl_win_width : Z := 640.
Definition gl_win_height : Z := 480.

(** The [n] elements that [std::copy (src, src + n, dst.begin ())] writes,
    over the first [n] elements of [dst], when [src] and [dst] both hold
    [n] elements or more. *)
Definition std_copy {A : Type} (src : list A) (n : nat) (dst : list A) : list A :=
  firstn n src ++ skipn n dst.

(** [std::copy (first, first + n, result)] between two host buffers of
    which [src] and [dst] are all the elements from [first] and from
    [result] on: a copy that reads past the end of [src] or writes past the
    end of [dst] is undefined. *)
Definition copy_checked {S A : Type} (src : list A) (n : nat) (dst : list A)
    : CL S (list A) :=
  if (n <=? length src)%nat && (n <=? length dst)%nat
  then ret (std_copy src n dst)
  else undefined_behaviour.

(** The arguments of a dispatch of [convolution] or [convolutionGL]:
    source image, output image and filter. *)
Definition pass_of {F : Type} (c : command F) : option (string * cl_mem * cl_mem * cl_mem) :=
  match c with
  | EnqueueNDRangeKernel k _ =>
      match kernel_args k !! 0%nat, kernel_args k !! 1%nat, kernel_args k !! 4%nat with
      | Some (ArgMem src), Some (ArgMem dst), Some (ArgMem flt) =>
          Some (kernel_name k, src, dst, flt)
      | _, _, _ => None
      end
  | _ => None
  end.

Definition is_dispatch {F : Type} (c : command F) : bool :=
  match c with
  | EnqueueNDRangeKernel _ _ => true
  | _ => false
  end.

(** ** kinectFilter_clc.cpp and kinectFilter_clc++.cpp *)

Module Clc.

Section WithFloat.

Context {F : Type} `{FloatOps F}.

Inductive memobj : Type :=
| MemImage (img : image2d_t)
| MemBuffer (floats : list F).

Record cl_context : Type := MkContext {
  next_mem : cl_mem;
  objects : gmap cl_mem memobj
}.

(** [clCreateImage] and [clCreateBuffer]: a fresh handle. The contents of
    a new object are unspecified; the model fills them with zeros. *)
Definition clCreate (ctx : cl_context) (obj : memobj) : cl_mem * cl_context :=
  (next_mem ctx,
   {| next_mem := S (next_mem ctx); objects := <[next_mem ctx := obj]> (objects ctx) |}).

Definition clCreateImage (ctx : cl_context) (width height : Z) : cl_mem * cl_context :=
  clCreate ctx (MemImage (Image2D width height (pixels width height (fun _ _ => 0)))).

Definition clCreateBuffer (ctx : cl_context) (size : Z) : cl_mem * cl_context :=
  clCreate ctx (MemBuffer (repeat (f_of_Z 0) (Z.to_nat (size / 4)))).

Record Filter : Type := {
  origin : Z * Z * Z;
  region : Z * Z * Z;
  global : Z * Z;
  smoothed : bool;
  context : cl_context;
  queue : list (command F);
  sampler : sampler_t;
  bufferBoxFilter : cl_mem;
  bufferLaplacianFilter : cl_mem;
  bufferSourceImage : cl_mem;
  bufferOutputImage : cl_mem;
  bufferInterImage1 : cl_mem;
  bufferInterImage2 : cl_mem;
  kernelConv : cl_kernel F
}.

Definition set_smoothed (b : bool) (f : Filter) : Filter :=
  {| origin := origin f; region := region f; global := global f;
     smoothed := b; context := context f; queue := queue f;
     sampler := sampler f; bufferBoxFilter := bufferBoxFilter f;
     bufferLaplacianFilter := bufferLaplacianFilter f;
     bufferSourceImage := bufferSourceImage f;
     bufferOutputImage := bufferOutputImage f;
     bufferInterImage1 := bufferInterImage1 f;
     bufferInterImage2 := bufferInterImage2 f;
     kernelConv := kernelConv f |}.

Definition set_kernelConv (k : cl_kernel F) (f : Filter) : Filter :=
  {| origin := origin f; region := region f; global := global f;
     smoothed := smoothed f; context := context f; queue := queue f;
     sampler := sampler f; bufferBoxFilter := bufferBoxFilter f;
     bufferLaplacianFilter := bufferLaplacianFilter f;
     bufferSourceImage := bufferSourceImage f;
     bufferOutputImage := bufferOutputImage f;
     bufferInterImage1 := bufferInterImage1 f;
     bufferInterImage2 := bufferInterImage2 f;
     kernelConv := k |}.

(** A command is submitted: its effect on the objects of the context, and
    the command appended to the log of the queue. *)
Definition submit (c : command F) (objs : gmap cl_mem memobj) (f : Filter) : Filter :=
  {| origin := origin f; region := region f; global := global f;
     smoothed := smoothed f;
     context := {| next_mem := next_mem (context f); objects := objs |};
     queue := queue f ++ [c];
     sampler := sampler f; bufferBoxFilter := bufferBoxFilter f;
     bufferLaplacianFilter := bufferLaplacianFilter f;
     bufferSourceImage := bufferSourceImage f;
     bufferOutputImage := bufferOutputImage f;
     bufferInterImage1 := bufferInterImage1 f;
     bufferInterImage2 := bufferInterImage2 f;
     kernelConv := kernelConv f |}.

(** [chk]: any status but CL_SUCCESS ends the process. *)
Definition chk {S : Type} (funcName : string) (errNum : Z) : CL S unit :=
  if errNum =? CL_SUCCESS then ret tt else exit_failure funcName.

(** [clSetKernelArg (kernelConv, index, ...)]; [convolution] has seven
    arguments. *)
Definition clSetKernelArg (index : nat) (a : kernel_arg F) : CL Filter Z :=
  fun f =>
    if (index <? 7)%nat
    then Done (CL_SUCCESS, set_kernelConv (setArg (kernelConv f) index a) f)
    else Done (CL_INVALID_ARG_INDEX, f).

(** [clEnqueueWriteImage (queue, image, CL_FALSE, origin, region, 0, 0, ptr)]:
    [region] pixels are read from the host memory at [ptr], row by row. *)
Definition clEnqueueWriteImage (image : cl_mem) (org reg : Z * Z * Z)
    (ptr : list Z) : CL Filter Z :=
  fun f =>
    let '(ox, oy, _) := org in
    let '(rw, rh, _) := reg in
    match objects (context f) !! image with
    | Some (MemImage img) =>
        if (0 <=? ox) && (0 <=? oy) && (0 <=? rw) && (0 <=? rh)
           && (ox + rw <=? image_width img) && (oy + rh <=? image_height img)
        then
          if (Z.of_nat (length ptr) <? rw * rh) then Undefined
          else
            let data :=
              pixels (image_width img) (image_height img)
                (fun x y =>
                   if (ox <=? x) && (x <? ox + rw) && (oy <=? y) && (y <? oy + rh)
                   then nth (Z.to_nat ((y - oy) * rw + (x - ox))) ptr 0
                   else pixel_at img x y) in
            Done (CL_SUCCESS,
                  submit (EnqueueWriteImage image reg (firstn (Z.to_nat (rw * rh)) ptr))
                         (<[image := MemImage (set_image_data img data)]> (objects (context f)))
                         f)
        else Done (CL_INVALID_VALUE, f)
    | _ => Done (CL_INVALID_MEM_OBJECT, f)
    end.

(** [clEnqueueNDRangeKernel (queue, kernelConv, 2, NULL, global, NULL)]. *)
Definition clEnqueueNDRangeKernel (glob : Z * Z) : CL Filter Z :=
  fun f =>
    let args := kernel_args (kernelConv f) in
    match args !! 0%nat, args !! 1%nat, args !! 2%nat, args !! 3%nat,
          args !! 4%nat, args !! 5%nat, args !! 6%nat with
    | Some (ArgMem src), Some (ArgMem dst), Some (ArgInt rows), Some (ArgInt cols),
      Some (ArgMem flt), Some (ArgInt filterWidth), Some (ArgSampler smp) =>
        match objects (context f) !! src, objects (context f) !! dst,
              objects (context f) !! flt with
        | Some (MemImage sourceImage), Some (MemImage outputImage), Some (MemBuffer filter) =>
            if decide (src = dst) then Undefined
            else
              let out :=
                Kernels.convolution_range sourceImage outputImage (uint32 rows) (uint32 cols)
                  filter filterWidth smp glob in
              Done (CL_SUCCESS,
                    submit (EnqueueNDRangeKernel (kernelConv f) glob)
                           (<[dst := MemImage out]> (objects (context f))) f)
        | _, _, _ => Done (CL_INVALID_MEM_OBJECT, f)
        end
    | _, _, _, _, _, _, _ => Done (CL_INVALID_KERNEL_ARGS, f)
    end.

(** [clEnqueueReadImage (queue, image, CL_TRUE, origin, region, 0, 0, ptr)]:
    blocks, and returns the host memory at [ptr] after the transfer. *)
Definition clEnqueueReadImage (image : cl_mem) (org reg : Z * Z * Z)
    (ptr : list Z) : CL Filter (Z * list Z) :=
  fun f =>
    let '(ox, oy, _) := org in
    let '(rw, rh, _) := reg in
    match objects (context f) !! image with
    | Some (MemImage img) =>
        if (0 <=? ox) && (0 <=? oy) && (0 <=? rw) && (0 <=? rh)
           && (ox + rw <=? image_width img) && (oy + rh <=? image_height img)
        then
          if (Z.of_nat (length ptr) <? rw * rh) then Undefined
          else
            let data := pixels rw rh (fun x y => pixel_at img (ox + x) (oy + y)) in
            Done ((CL_SUCCESS, data ++ skipn (Z.to_nat (rw * rh)) ptr),
                  submit (EnqueueReadImage image reg) (objects (context f)) f)
        else Done ((CL_INVALID_VALUE, ptr), f)
    | _ => Done ((CL_INVALID_MEM_OBJECT, ptr), f)
    end.

(** The filters of the constructor. *)
Definition box_filter : list F :=
  [ f_dyadic 1 (-3); f_dyadic 1 (-3); f_dyadic 1 (-3);
    f_dyadic 1 (-3); f_dyadic 1 (-3); f_dyadic 1 (-3);
    f_dyadic 1 (-3); f_dyadic 1 (-3); f_dyadic 1 (-3) ].

Definition laplacian_filter : list F :=
  [ f_of_Z 1; f_of_Z 1;    f_of_Z 1;
    f_of_Z 1; f_of_Z (-8); f_of_Z 1;
    f_of_Z 1; f_of_Z 1;    f_of_Z 1 ].

Definition filterWidth : Z := 3.
Definition filterSize : Z := filterWidth * filterWidth * 4.

(** [clEnqueueWriteBuffer (queue, buffer, CL_FALSE, 0, filterSize, ptr)]
    in the constructor, on the objects and the log built so far. *)
Definition clEnqueueWriteBuffer (buffer : cl_mem) (size : Z) (ptr : list F)
    (st : cl_context * list (command F)) : Z * (cl_context * list (command F)) :=
  let '(ctx, q) := st in
  match objects ctx !! buffer with
  | Some (MemBuffer old) =>
      if Z.of_nat (length old) * 4 <? size then (CL_INVALID_VALUE, st)
      else
        let n := Z.to_nat (size / 4) in
        (CL_SUCCESS,
         ({| next_mem := next_mem ctx;
             objects := <[buffer := MemBuffer (std_copy ptr n old)]> (objects ctx) |},
          q ++ [EnqueueWriteBuffer buffer (firstn n ptr)]))
  | _ => (CL_INVALID_MEM_OBJECT, st)
  end.

(** [Filter::Filter ()]. Platform, device and program creation succeed or
    end the process before any state this model has is built; they are
    left out. *)
Definition Filter_new : outcome Filter :=
  let width := gl_win_width in
  let height := gl_win_height in
  let ctx := {| next_mem := 0%nat; objects := ∅ |} in
  let smp := Sampler false CL_ADDRESS_CLAMP_TO_EDGE CL_FILTER_NEAREST in
  let '(source, ctx) := clCreateImage ctx width height in
  let '(inter1, ctx) := clCreateImage ctx width height in
  let '(inter2, ctx) := clCreateImage ctx width height in
  let '(output, ctx) := clCreateImage ctx width height in
  let '(box, ctx) := clCreateBuffer ctx filterSize in
  let '(laplacian, ctx) := clCreateBuffer ctx filterSize in
  let '(status1, st) := clEnqueueWriteBuffer box filterSize box_filter (ctx, []) in
  if negb (status1 =? CL_SUCCESS) then Exit "clEnqueueWriteBuffer" else
  let '(status2, st) := clEnqueueWriteBuffer laplacian filterSize laplacian_filter st in
  if negb (status2 =? CL_SUCCESS) then Exit "clEnqueueWriteBuffer" else
  let k := Kernel "convolution" ∅ in
  let k := setArg k 2 (ArgInt height) in
  let k := setArg k 3 (ArgInt width) in
  let k := setArg k 5 (ArgInt filterWidth) in
  let k := setArg k 6 (ArgSampler smp) in
  Done {| origin := (0, 0, 0);
          region := (gl_win_width, gl_win_height, 1);
          global := (gl_win_width, gl_win_height);
          smoothed := true;
          context := fst st;
          queue := snd st;
          sampler := smp;
          bufferBoxFilter := box;
          bufferLaplacianFilter := laplacian;
          bufferSourceImage := source;
          bufferOutputImage := output;
          bufferInterImage1 := inter1;
          bufferInterImage2 := inter2;
          kernelConv := k |}.

(** The filter the constructor returns, written out. *)
Definition Filter_init : Filter :=
  let blank :=
    MemImage (Image2D gl_win_width gl_win_height
                (pixels gl_win_width gl_win_height (fun _ _ => 0))) in
  let zeros := MemBuffer (repeat (f_of_Z 0) (Z.to_nat (filterSize / 4))) in
  let smp := Sampler false CL_ADDRESS_CLAMP_TO_EDGE CL_FILTER_NEAREST in
  {| origin := (0, 0, 0);
     region := (gl_win_width, gl_win_height, 1);
     global := (gl_win_width, gl_win_height);
     smoothed := true;
     context :=
       {| next_mem := 6%nat;
          objects :=
            <[5%nat := MemBuffer laplacian_filter]>
            (<[4%nat := MemBuffer box_filter]>
            (<[5%nat := zeros]>
            (<[4%nat := zeros]>
            (<[3%nat := blank]>
            (<[2%nat := blank]>
            (<[1%nat := blank]>
            (<[0%nat := blank]> ∅))))))) |};
     queue := [EnqueueWriteBuffer 4%nat box_filter;
               EnqueueWriteBuffer 5%nat laplacian_filter];
     sampler := smp;
     bufferBoxFilter := 4%nat;
     bufferLaplacianFilter := 5%nat;
     bufferSourceImage := 0%nat;
     bufferOutputImage := 3%nat;
     bufferInterImage1 := 1%nat;
     bufferInterImage2 := 2%nat;
     kernelConv :=
       setArg (setArg (setArg (setArg (Kernel "convolution" ∅)
         2 (ArgInt gl_win_height)) 3 (ArgInt gl_win_width))
         5 (ArgInt filterWidth)) 6 (ArgSampler smp) |}.

Local Open Scope cl_scope.

(** [void Filter::convolve (std::vector<uint8_t> &image)]; the result is
    [image] after the call. *)
Definition convolve (image : list Z) : CL Filter (list Z) :=
  (* Copy the source image to the device *)
  f <- gets id ;;
  status <- clEnqueueWriteImage (bufferSourceImage f) (origin f) (region f) image ;;
  chk "clEnqueueWriteImage" status ;;;
  (if smoothed f then
     status0 <- clSetKernelArg 0 (ArgMem (bufferSourceImage f)) ;;
     status1 <- clSetKernelArg 1 (ArgMem (bufferInterImage1 f)) ;;
     status4 <- clSetKernelArg 4 (ArgMem (bufferBoxFilter f)) ;;
     chk "clSetKernelArg" (Z.lor (Z.lor status0 status1) status4) ;;;
     (* Apply the first box filter *)
     status <- clEnqueueNDRangeKernel (global f) ;;
     chk "clEnqueueNDRangeKernel" status ;;;
     status0 <- clSetKernelArg 0 (ArgMem (bufferInterImage1 f)) ;;
     status1 <- clSetKernelArg 1 (ArgMem (bufferInterImage2 f)) ;;
     chk "clSetKernelArg" (Z.lor status0 status1) ;;;
     (* Apply the second box filter *)
     status <- clEnqueueNDRangeKernel (global f) ;;
     chk "clEnqueueNDRangeKernel" status ;;;
     status0 <- clSetKernelArg 0 (ArgMem (bufferInterImage2 f)) ;;
     chk "clSetKernelArg" status0
   else
     status0 <- clSetKernelArg 0 (ArgMem (bufferSourceImage f)) ;;
     chk "clSetKernelArg" status0) ;;;
  status1 <- clSetKernelArg 1 (ArgMem (bufferOutputImage f)) ;;
  status4 <- clSetKernelArg 4 (ArgMem (bufferLaplacianFilter f)) ;;
  chk "clSetKernelArg" (Z.lor status1 status4) ;;;
  (* Perform the edge detection *)
  status <- clEnqueueNDRangeKernel (global f) ;;
  chk "clEnqueueNDRangeKernel" status ;;;
  (* Read back the output image *)
  r <- clEnqueueReadImage (bufferOutputImage f) (origin f) (region f) image ;;
  chk "clEnqueueReadImage" (fst r) ;;;
  ret (snd r).

(** [bool Filter::smoothing ()]. *)
Definition smoothing : CL Filter bool := gets smoothed.

(** [bool Filter::toggleSmoothing ()]. *)
Definition toggleSmoothing : CL Filter bool :=
  modify (fun f => set_smoothed (negb (smoothed f)) f) ;;;
  gets smoothed.

(** *** The capture device and the display loop *)

(** [cv::cvtColor (rgb, gray, CV_RGB2GRAY)] on a [rows] x [cols] image of
    packed RGB bytes is OpenCV's; its result is the data of [gray], from
    [gray.datastart] up to [gray.dataend]. *)
Variable cvtColor_RGB2GRAY : Z -> Z -> list Z -> list Z.

(** [freenect_find_video_mode (FREENECT_RESOLUTION_MEDIUM,
    FREENECT_VIDEO_RGB).bytes], also [getVideoBufferSize ()]. *)
Definition video_bytes : nat := Z.to_nat (640 * 480 * 3).

Record MyFreenectDevice : Type := {
  rgbBuffer : list Z;
  newRGBFrame : bool
}.

Definition MyFreenectDevice_new : MyFreenectDevice :=
  {| rgbBuffer := repeat 0 video_bytes; newRGBFrame := false |}.

(** [void VideoCallback (void *rgb, uint32_t timestamp)], under
    [rgbMutex]. *)
Definition VideoCallback (rgb : list Z) (timestamp : Z) (d : MyFreenectDevice)
    : MyFreenectDevice :=
  {| rgbBuffer := std_copy rgb video_bytes (rgbBuffer d);
     newRGBFrame := true |}.

(** The globals [device] and [opencl]. *)
Record Program : Type := {
  device : MyFreenectDevice;
  opencl : Filter
}.

Definition on_opencl {A : Type} (m : CL Filter A) : CL Program A :=
  fun p =>
    match m (opencl p) with
    | Done (a, f) => Done (a, {| device := device p; opencl := f |})
    | Exit fn => Exit fn
    | Undefined => Undefined
    end.

Definition on_device (g : MyFreenectDevice -> MyFreenectDevice) : CL Program unit :=
  modify (fun p => {| device := g (device p); opencl := opencl p |}).

(** [std::copy (first, last, buffer.data ())] from the data of a [cv::Mat]
    into the storage of the vector [dst]; [n] is [last - first]. *)
Definition copy_into_vector (src : list Z) (n : nat) (dst : list Z)
    : CL Program (list Z) :=
  copy_checked src n dst.

(** [bool getRGB (std::vector<uint8_t> &buffer)], under [rgbMutex]; the
    result is the returned flag and [buffer] after the call. The copy runs
    from [gray.datastart] to [gray.dataend + 1]: one element more than
    [gray] holds. *)
Definition getRGB (buffer : list Z) : CL Program (bool * list Z) :=
  d <- gets device ;;
  if negb (newRGBFrame d) then ret (false, buffer)
  else
    (* Transform the frame to gray-scale *)
    let gray := cvtColor_RGB2GRAY gl_win_height gl_win_width (rgbBuffer d) in
    buffer <- copy_into_vector gray (length gray + 1) buffer ;;
    (* Apply the filters to the image *)
    buffer <- on_opencl (convolve buffer) ;;
    on_device (fun d => {| rgbBuffer := rgbBuffer d; newRGBFrame := false |}) ;;;
    ret (true, buffer).

(** What happens to the program: the driver delivers a frame, the window
    is drawn ([drawGLScene] calls [getRGB] on its static [image]), or the
    F key is pressed. The mutex makes [VideoCallback] and [getRGB] atomic
    with respect to each other, so a run is a sequence of such events. *)
Inductive event : Type :=
| Video (rgb : list Z) (timestamp : Z)
| Draw
| KeyF.

(** One event; the result is the static vector [image] of [drawGLScene]
    after it. *)
Definition step (e : event) (image : list Z) : CL Program (list Z) :=
  match e with
  | Video rgb timestamp => on_device (VideoCallback rgb timestamp) ;;; ret image
  | Draw => r <- getRGB image ;; ret (snd r)
  | KeyF => on_opencl toggleSmoothing ;;; ret image
  end.

Fixpoint run (es : list event) (image : list Z) : CL Program (list Z) :=
  match es with
  | [] => ret image
  | e :: es => image <- step e image ;; run es image
  end.

(** *** What the pipeline computes *)

Definition the_sampler : sampler_t :=
  Sampler false CL_ADDRESS_CLAMP_TO_EDGE CL_FILTER_NEAREST.

Definition frame_pixels : nat := Z.to_nat (gl_win_width * gl_win_height).

(** The source image after the upload of the host vector [image]. *)
Definition uploaded (image : list Z) : image2d_t :=
  Image2D gl_win_width gl_win_height (firstn frame_pixels image).

Definition box_blur (img : image2d_t) : image2d_t :=
  Kernels.convolved img box_filter filterWidth the_sampler.

Definition laplacian (img : image2d_t) : image2d_t :=
  Kernels.convolved img laplacian_filter filterWidth the_sampler.

(** The pixels [convolve] reads back, in either mode. *)
Definition filtered (smooth : bool) (image : list Z) : list Z :=
  image_data
    (laplacian (if smooth then box_blur (box_blur (uploaded image)) else uploaded image)).


(** The object [m] is the image [img], of the size of the window. *)
Definition holds_frame (objs : gmap cl_mem memobj) (m : cl_mem) (img : image2d_t) : Prop :=
  objs !! m = Some (MemImage img)
  /\ image_width img = gl_win_width
  /\ image_height img = gl_win_height
  /\ length (image_data img) = frame_pixels.

(** The states of a filter the constructor and the member functions
    lead to. *)
Record Filter_ok (f : Filter) : Prop := {
  ok_origin : origin f = (0, 0, 0);
  ok_region : region f = (gl_win_width, gl_win_height, 1);
  ok_global : global f = (gl_win_width, gl_win_height);
  ok_source : bufferSourceImage f = 0%nat;
  ok_inter1 : bufferInterImage1 f = 1%nat;
  ok_inter2 : bufferInterImage2 f = 2%nat;
  ok_output : bufferOutputImage f = 3%nat;
  ok_box : bufferBoxFilter f = 4%nat;
  ok_laplacian : bufferLaplacianFilter f = 5%nat;
  ok_images :
    forall m, (m < 4)%nat -> exists img, holds_frame (objects (context f)) m img;
  ok_box_filter : objects (context f) !! 4%nat = Some (MemBuffer box_filter);
  ok_laplacian_filter : objects (context f) !! 5%nat = Some (MemBuffer laplacian_filter);
  ok_kernel : kernel_name (kernelConv f) = "convolution"%string;
  ok_rows : kernel_args (kernelConv f) !! 2%nat = Some (ArgInt gl_win_height);
  ok_cols : kernel_args (kernelConv f) !! 3%nat = Some (ArgInt gl_win_width);
  ok_width : kernel_args (kernelConv f) !! 5%nat = Some (ArgInt filterWidth);
  ok_sampler : kernel_args (kernelConv f) !! 6%nat = Some (ArgSampler the_sampler)
}.

(** The log entries of one call of [convolve] in either mode, for the
    handles of the constructor and the kernel object [k] the call finds. *)
Definition convolve_log (smooth : bool) (k : cl_kernel F) (image : list Z)
    : list (command F) :=
  let k1 := setArg (setArg (setArg k 0 (ArgMem 0%nat)) 1 (ArgMem 1%nat)) 4 (ArgMem 4%nat) in
  let k2 := setArg (setArg k1 0 (ArgMem 1%nat)) 1 (ArgMem 2%nat) in
  let k3 := setArg (setArg (setArg (if smooth then k2 else k) 0
                              (ArgMem (if smooth then 2%nat else 0%nat)))
                      1 (ArgMem 3%nat)) 4 (ArgMem 5%nat) in
  [EnqueueWriteImage 0%nat (gl_win_width, gl_win_height, 1) (firstn frame_pixels image)]
  ++ (if smooth
      then [EnqueueNDRangeKernel k1 (gl_win_width, gl_win_height);
            EnqueueNDRangeKernel k2 (gl_win_width, gl_win_height)]
      else [])
  ++ [EnqueueNDRangeKernel k3 (gl_win_width, gl_win_height);
      EnqueueReadImage 3%nat (gl_win_width, gl_win_height, 1)].

(** An image whose pixels depend on their column only, and what a filter
    of width 3 makes of it. *)
Definition column_image (g : Z -> Z) : image2d_t :=
  Image2D gl_win_width gl_win_height
    (pixels gl_win_width gl_win_height (fun x _ => g x)).

Definition column_filter (flt : list F) (g : Z -> Z) (x : Z) : Z :=
  convert_uchar_sat
    (f_to_uint (sum3x3 (fun j _ => g (clamp 0 (gl_win_width - 1) (x + j))) flt)).

(** Some pixel of the image differs from one of its eight neighbours. *)
Definition has_nonconstant_neighbourhood (img : image2d_t) : Prop :=
  exists x y i j,
    0 <= x < image_width img /\ 0 <= y < image_height img
    /\ -1 <= i <= 1 /\ -1 <= j <= 1
    /\ read_imageui img the_sampler (x + j, y + i) <> pixel_at img x y.

Definition is_video (e : event) : bool :=
  match e with
  | Video _ _ => true
  | _ => false
  end.

(** The program when [main] enters the event loop, given its filter. *)
Definition Program_init (f : Filter) : Program :=
  {| device := MyFreenectDevice_new; opencl := f |}.

End WithFloat.

End Clc.

(** A stand-in for [cv::cvtColor] in examples: the red channel. *)
Definition red_channel (rows cols : Z) (rgb : list Z) : list Z :=
  pixels cols rows (fun x y => nth (Z.to_nat (3 * (y * cols + x))) rgb 0).

(** Two frames of the size of the window: a step from 3 to 4 and an edge
    from 0 to 255, both between the columns 319 and 320. *)
Definition step_column (x : Z) : Z := if x <? 320 then 3 else 4.
Definition edge_column (x : Z) : Z := if x <? 320 then 0 else 255.

Definition step_frame : list Z :=
  pixels gl_win_width gl_win_height (fun x _ => step_column x).

Definition edge_frame : list Z :=
  pixels gl_win_width gl_win_height (fun x _ => edge_column x).

(** ** kinectFilter_gl_interop_texture.cpp *)

Module GLTexture.

Section WithFloat.

Context {F : Type} `{FloatOps F}.

(** The constructors of the C++ wrapper classes. [cl::Image2D (context,
    ...)], [cl::ImageGL (context, ...)] and [cl::Buffer (context, ...)]
    create a memory object and hold its handle; the copy constructor
    [cl::Image2D (other)] retains the object of [other] and holds the same
    handle. [next] counts the objects created so far. *)
Definition cl_create (next : cl_mem) : cl_mem * cl_mem := (next, S next).

Definition cl_copy (other : cl_mem) : cl_mem := other.

Record Filter : Type := {
  region : Z * Z * Z;
  global : Z * Z;
  smoothed : bool;
  queue : list (command F);
  sampler : sampler_t;
  bufferSourceImage : cl_mem;
  bufferInterImage1 : cl_mem;
  bufferInterImage2 : cl_mem;
  bufferOutputImage : list cl_mem;
  bufferBoxFilter : cl_mem;
  bufferLaplacianFilter : cl_mem;
  kernelNorm : cl_kernel F;
  kernelConv : cl_kernel F
}.

Definition set_smoothed (b : bool) (f : Filter) : Filter :=
  {| region := region f; global := global f; smoothed := b; queue := queue f;
     sampler := sampler f; bufferSourceImage := bufferSourceImage f;
     bufferInterImage1 := bufferInterImage1 f;
     bufferInterImage2 := bufferInterImage2 f;
     bufferOutputImage := bufferOutputImage f;
     bufferBoxFilter := bufferBoxFilter f;
     bufferLaplacianFilter := bufferLaplacianFilter f;
     kernelNorm := kernelNorm f; kernelConv := kernelConv f |}.

(** [kernelConv.setArg (index, value)]. *)
Definition kernelConv_setArg (index : nat) (a : kernel_arg F) (f : Filter) : Filter :=
  {| region := region f; global := global f; smoothed := smoothed f; queue := queue f;
     sampler := sampler f; bufferSourceImage := bufferSourceImage f;
     bufferInterImage1 := bufferInterImage1 f;
     bufferInterImage2 := bufferInterImage2 f;
     bufferOutputImage := bufferOutputImage f;
     bufferBoxFilter := bufferBoxFilter f;
     bufferLaplacianFilter := bufferLaplacianFilter f;
     kernelNorm := kernelNorm f; kernelConv := setArg (kernelConv f) index a |}.

(** A command is appended to the log of the queue. The images of this
    program hold floats; the model keeps the commands, not the contents. *)
Definition enqueue (c : command F) (f : Filter) : Filter :=
  {| region := region f; global := global f; smoothed := smoothed f;
     queue := queue f ++ [c];
     sampler := sampler f; bufferSourceImage := bufferSourceImage f;
     bufferInterImage1 := bufferInterImage1 f;
     bufferInterImage2 := bufferInterImage2 f;
     bufferOutputImage := bufferOutputImage f;
     bufferBoxFilter := bufferBoxFilter f;
     bufferLaplacianFilter := bufferLaplacianFilter f;
     kernelNorm := kernelNorm f; kernelConv := kernelConv f |}.

Definition box_filter : list F :=
  [ f_dyadic 1 (-3); f_dyadic 1 (-3); f_dyadic 1 (-3);
    f_dyadic 1 (-3); f_dyadic 1 (-3); f_dyadic 1 (-3);
    f_dyadic 1 (-3); f_dyadic 1 (-3); f_dyadic 1 (-3) ].

Definition laplacian_filter : list F :=
  [ f_of_Z 1; f_of_Z 1;    f_of_Z 1;
    f_of_Z 1; f_of_Z (-8); f_of_Z 1;
    f_of_Z 1; f_of_Z 1;    f_of_Z 1 ].

Definition filterWidth : Z := 3.

(** [Filter::Filter ()], from the creation of the image objects on. *)
Definition Filter_new : Filter :=
  let width := gl_win_width in
  let height := gl_win_height in
  let smp := Sampler false CL_ADDRESS_CLAMP_TO_EDGE CL_FILTER_NEAREST in
  (* Create an image instance for the source image on the device *)
  let '(source, next) := cl_create 0%nat in
  (* Create an image instances for the intermediate results on the device *)
  let '(inter1, next) := cl_create next in
  let inter2 := cl_copy inter1 in
  (* Create an image instance for the output image (shared with OpenGL) *)
  let '(output, next) := cl_create next in
  (* Create buffers for the filters on the device *)
  let '(box, next) := cl_create next in
  let '(laplacian, next) := cl_create next in
  let kn := Kernel "normalizeImg" ∅ in
  let kn := setArg kn 0 (ArgMem source) in
  let kn := setArg kn 1 (ArgMem inter1) in
  let kn := setArg kn 2 (ArgInt height) in
  let kn := setArg kn 3 (ArgInt width) in
  let kn := setArg kn 4 (ArgSampler smp) in
  let kc := Kernel "convolutionGL" ∅ in
  let kc := setArg kc 2 (ArgInt height) in
  let kc := setArg kc 3 (ArgInt width) in
  let kc := setArg kc 5 (ArgInt filterWidth) in
  let kc := setArg kc 6 (ArgSampler smp) in
  {| region := (gl_win_width, gl_win_height, 1);
     global := (gl_win_width, gl_win_height);
     smoothed := true;
     queue := [ EnqueueWriteBuffer box box_filter;
                EnqueueWriteBuffer laplacian laplacian_filter ];
     sampler := smp;
     bufferSourceImage := source;
     bufferInterImage1 := inter1;
     bufferInterImage2 := inter2;
     bufferOutputImage := [output];
     bufferBoxFilter := box;
     bufferLaplacianFilter := laplacian;
     kernelNorm := kn;
     kernelConv := kc |}.

(** [void Filter::convolve (uint8_t *image)]: the commands it submits. *)
Definition convolve (image : list Z) (f : Filter) : Filter :=
  let '(rw, rh, _) := region f in
  (* Copy the source image to the device *)
  let f := enqueue (EnqueueWriteImage (bufferSourceImage f) (region f)
                      (firstn (Z.to_nat (rw * rh)) image)) f in
  let f := enqueue GlFinish f in
  (* Take ownership of the OpenGL texture *)
  let f := enqueue (EnqueueAcquireGLObjects (bufferOutputImage f)) f in
  (* Normalize the image *)
  let f := enqueue (EnqueueNDRangeKernel (kernelNorm f) (global f)) f in
  let f :=
    if smoothed f then
      let f := kernelConv_setArg 0 (ArgMem (bufferInterImage1 f)) f in
      let f := kernelConv_setArg 1 (ArgMem (bufferInterImage2 f)) f in
      let f := kernelConv_setArg 4 (ArgMem (bufferBoxFilter f)) f in
      (* Apply the first box filter *)
      let f := enqueue (EnqueueNDRangeKernel (kernelConv f) (global f)) f in
      let f := kernelConv_setArg 0 (ArgMem (bufferInterImage2 f)) f in
      let f := kernelConv_setArg 1 (ArgMem (bufferInterImage1 f)) f in
      (* Apply the second box filter *)
      enqueue (EnqueueNDRangeKernel (kernelConv f) (global f)) f
    else f in
  let f := kernelConv_setArg 0 (ArgMem (bufferInterImage1 f)) f in
  let f := kernelConv_setArg 1 (ArgMem (nth 0 (bufferOutputImage f) 0%nat)) f in
  let f := kernelConv_setArg 4 (ArgMem (bufferLaplacianFilter f)) f in
  (* Perform the edge detection *)
  let f := enqueue (EnqueueNDRangeKernel (kernelConv f) (global f)) f in
  (* Give up ownership of the OpenGL texture *)
  let f := enqueue (EnqueueReleaseGLObjects (bufferOutputImage f)) f in
  enqueue Finish f.

(** [bool Filter::toggleSmoothing ()]. *)
Definition toggleSmoothing (f : Filter) : bool * Filter :=
  let f := set_smoothed (negb (smoothed f)) f in
  (smoothed f, f).

End WithFloat.

End GLTexture.

(** ** kinectFilter_gl_interop_vertex_buffer.cpp *)

Module GLVertex.

Definition gl_width : Z := 640.
Definition gl_height : Z := 480.

Section WithFloat.

Context {F : Type} `{FloatOps F}.

(** Buffers, by the type their kernels read them at. *)
Inductive memobj : Type :=
| MemUChar (bytes : list Z)
| MemUShort (values : list Z)
| MemFloat4 (points : list (@Kernels.float4 F)).

Record Filter : Type := {
  rgbBufferSize : Z;
  rgbaBufferSize : Z;
  depthBufferSize : Z;
  global : Z * Z;
  rgb_norm : bool;
  next_mem : cl_mem;
  objects : gmap cl_mem memobj;
  queue : list (command F);
  bufferSourceRGB : cl_mem;
  bufferInterRGBA : cl_mem;
  bufferSourceDepth : cl_mem;
  bufferGLShared : list cl_mem;
  kernelRGBA : cl_kernel F;
  kernelRGBNorm : cl_kernel F;
  kernelDepthTo3D : cl_kernel F
}.

Definition set_rgb_norm (b : bool) (f : Filter) : Filter :=
  {| rgbBufferSize := rgbBufferSize f; rgbaBufferSize := rgbaBufferSize f;
     depthBufferSize := depthBufferSize f; global := global f;
     rgb_norm := b; next_mem := next_mem f; objects := objects f; queue := queue f;
     bufferSourceRGB := bufferSourceRGB f; bufferInterRGBA := bufferInterRGBA f;
     bufferSourceDepth := bufferSourceDepth f; bufferGLShared := bufferGLShared f;
     kernelRGBA := kernelRGBA f; kernelRGBNorm := kernelRGBNorm f;
     kernelDepthTo3D := kernelDepthTo3D f |}.

(** [kernelRGBA.setArg (index, value)]. *)
Definition kernelRGBA_setArg (index : nat) (a : kernel_arg F) (f : Filter) : Filter :=
  {| rgbBufferSize := rgbBufferSize f; rgbaBufferSize := rgbaBufferSize f;
     depthBufferSize := depthBufferSize f; global := global f;
     rgb_norm := rgb_norm f; next_mem := next_mem f; objects := objects f;
     queue := queue f;
     bufferSourceRGB := bufferSourceRGB f; bufferInterRGBA := bufferInterRGBA f;
     bufferSourceDepth := bufferSourceDepth f; bufferGLShared := bufferGLShared f;
     kernelRGBA := setArg (kernelRGBA f) index a; kernelRGBNorm := kernelRGBNorm f;
     kernelDepthTo3D := kernelDepthTo3D f |}.

(** A command is submitted: its effect on the buffers, and the command
    appended to the log of the queue. *)
Definition submit (c : command F) (objs : gmap cl_mem memobj) (f : Filter) : Filter :=
  {| rgbBufferSize := rgbBufferSize f; rgbaBufferSize := rgbaBufferSize f;
     depthBufferSize := depthBufferSize f; global := global f;
     rgb_norm := rgb_norm f; next_mem := next_mem f; objects := objs;
     queue := queue f ++ [c];
     bufferSourceRGB := bufferSourceRGB f; bufferInterRGBA := bufferInterRGBA f;
     bufferSourceDepth := bufferSourceDepth f; bufferGLShared := bufferGLShared f;
     kernelRGBA := kernelRGBA f; kernelRGBNorm := kernelRGBNorm f;
     kernelDepthTo3D := kernelDepthTo3D f |}.

Definition zero4 : @Kernels.float4 F := (f_of_Z 0, f_of_Z 0, f_of_Z 0, f_of_Z 0).

(** [Filter::Filter ()], from the creation of the buffers on. The OpenGL
    buffers of [initGLObjects] hold [gl_width * gl_height] float4 each. *)
Definition Filter_new : Filter :=
  let width := gl_width in
  let height := gl_height in
  let n := Z.to_nat (width * height) in
  let sourceRGB := 0%nat in
  let interRGBA := 1%nat in
  let sharedRGB := 2%nat in
  let sourceDepth := 3%nat in
  let sharedCloud := 4%nat in
  let objs : gmap cl_mem memobj :=
    <[sharedCloud := MemFloat4 (repeat zero4 n)]>
    (<[sourceDepth := MemUShort (repeat 0 n)]>
    (<[sharedRGB := MemFloat4 (repeat zero4 n)]>
    (<[interRGBA := MemFloat4 (repeat zero4 n)]>
    (<[sourceRGB := MemUChar (repeat 0 (3 * n)%nat)]> ∅)))) in
  let kc := Kernel "rgb2rgba" ∅ in
  let kc := setArg kc 0 (ArgMem sourceRGB) in
  let kc := setArg kc 2 (ArgInt height) in
  let kc := setArg kc 3 (ArgInt width) in
  let kn := Kernel "normalizeRGB" ∅ in
  let kn := setArg kn 0 (ArgMem interRGBA) in
  let kn := setArg kn 1 (ArgMem sharedRGB) in
  let kn := setArg kn 2 (ArgInt height) in
  let kn := setArg kn 3 (ArgInt width) in
  let kd := Kernel "depthTo3D" ∅ in
  let kd := setArg kd 0 (ArgMem sourceDepth) in
  let kd := setArg kd 1 (ArgMem sharedCloud) in
  let kd := setArg kd 2 (ArgFloat (f_of_Z 595)) in
  {| rgbBufferSize := 3 * 1 * width * height;
     rgbaBufferSize := 4 * 4 * width * height;
     depthBufferSize := 2 * width * height;
     global := (gl_width, gl_height);
     rgb_norm := false;
     next_mem := 5%nat;
     objects := objs;
     queue := [];
     bufferSourceRGB := sourceRGB;
     bufferInterRGBA := interRGBA;
     bufferSourceDepth := sourceDepth;
     bufferGLShared := [sharedRGB; sharedCloud];
     kernelRGBA := kc;
     kernelRGBNorm := kn;
     kernelDepthTo3D := kd |}.

(** [queue.enqueueWriteBuffer (buffer, CL_FALSE, 0, size, ptr)] of bytes and
    of 16-bit values: [size] bytes are read from the host memory at [ptr].
    The C++ wrapper throws on a failed call, which ends the process. *)
Definition enqueueWriteBytes (buffer : cl_mem) (size : Z) (ptr : list Z) : CL Filter unit :=
  fun f =>
    match objects f !! buffer with
    | Some (MemUChar old) =>
        if Z.of_nat (length old) <? size then Exit "clEnqueueWriteBuffer"
        else if Z.of_nat (length ptr) <? size then Undefined
        else
          let n := Z.to_nat size in
          Done (tt, submit (EnqueueWriteBytes buffer (firstn n ptr))
                      (<[buffer := MemUChar (std_copy ptr n old)]> (objects f)) f)
    | _ => Exit "clEnqueueWriteBuffer"
    end.

Definition enqueueWriteUShorts (buffer : cl_mem) (size : Z) (ptr : list Z) : CL Filter unit :=
  fun f =>
    match objects f !! buffer with
    | Some (MemUShort old) =>
        if Z.of_nat (length old) * 2 <? size then Exit "clEnqueueWriteBuffer"
        else if Z.of_nat (length ptr) * 2 <? size then Undefined
        else
          let n := Z.to_nat (size / 2) in
          Done (tt, submit (EnqueueWriteUShorts buffer (firstn n ptr))
                      (<[buffer := MemUShort (std_copy ptr n old)]> (objects f)) f)
    | _ => Exit "clEnqueueWriteBuffer"
    end.

(** [queue.enqueueNDRangeKernel (kernel, cl::NullRange, global,
    cl::NullRange)] for each of the three kernels. A kernel whose input and
    output are one buffer is not given a meaning. *)
Definition enqueueRGBA : CL Filter unit :=
  fun f =>
    let args := kernel_args (kernelRGBA f) in
    match args !! 0%nat, args !! 1%nat, args !! 2%nat, args !! 3%nat with
    | Some (ArgMem src), Some (ArgMem dst), Some (ArgInt rows), Some (ArgInt cols) =>
        match objects f !! src, objects f !! dst with
        | Some (MemUChar rgb), Some (MemFloat4 rgba) =>
            let out := Kernels.rgb2rgba_range rgb rgba (uint32 rows) (uint32 cols) (global f) in
            Done (tt, submit (EnqueueNDRangeKernel (kernelRGBA f) (global f))
                        (<[dst := MemFloat4 out]> (objects f)) f)
        | _, _ => Exit "clEnqueueNDRangeKernel"
        end
    | _, _, _, _ => Exit "clEnqueueNDRangeKernel"
    end.

Definition enqueueRGBNorm : CL Filter unit :=
  fun f =>
    let args := kernel_args (kernelRGBNorm f) in
    match args !! 0%nat, args !! 1%nat, args !! 2%nat, args !! 3%nat with
    | Some (ArgMem src), Some (ArgMem dst), Some (ArgInt rows), Some (ArgInt cols) =>
        match objects f !! src, objects f !! dst with
        | Some (MemFloat4 input), Some (MemFloat4 out) =>
            if decide (src = dst) then Undefined
            else
              let out := Kernels.normalizeRGB_range input out (uint32 rows) (uint32 cols) (global f) in
              Done (tt, submit (EnqueueNDRangeKernel (kernelRGBNorm f) (global f))
                          (<[dst := MemFloat4 out]> (objects f)) f)
        | _, _ => Exit "clEnqueueNDRangeKernel"
        end
    | _, _, _, _ => Exit "clEnqueueNDRangeKernel"
    end.

Definition enqueueDepthTo3D : CL Filter unit :=
  fun f =>
    let args := kernel_args (kernelDepthTo3D f) in
    match args !! 0%nat, args !! 1%nat, args !! 2%nat with
    | Some (ArgMem src), Some (ArgMem dst), Some (ArgFloat focal) =>
        match objects f !! src, objects f !! dst with
        | Some (MemUShort depth), Some (MemFloat4 pCloud) =>
            let out := Kernels.depthTo3D_range depth pCloud focal (global f) in
            Done (tt, submit (EnqueueNDRangeKernel (kernelDepthTo3D f) (global f))
                        (<[dst := MemFloat4 out]> (objects f)) f)
        | _, _ => Exit "clEnqueueNDRangeKernel"
        end
    | _, _, _ => Exit "clEnqueueNDRangeKernel"
    end.

Definition log (c : command F) : CL Filter unit :=
  modify (fun f => submit c (objects f) f).

Local Open Scope cl_scope.

(** [void Filter::processFrames (std::vector<uint8_t> &rgb,
    std::vector<uint16_t> &depth)]. *)
Definition processFrames (rgb : list Z) (depth : list Z) : CL Filter unit :=
  f <- gets id ;;
  log GlFinish ;;;
  (* Take ownership of the OpenGL buffers *)
  log (EnqueueAcquireGLObjects (bufferGLShared f)) ;;;
  (* Copy the source images to the device *)
  enqueueWriteBytes (bufferSourceRGB f) (rgbBufferSize f) rgb ;;;
  enqueueWriteUShorts (bufferSourceDepth f) (depthBufferSize f) depth ;;;
  modify (if rgb_norm f
          then kernelRGBA_setArg 1 (ArgMem (bufferInterRGBA f))
          else kernelRGBA_setArg 1 (ArgMem (nth 0 (bufferGLShared f) 0%nat))) ;;;
  (* Restructure the data to include the A channel, and normalize *)
  enqueueRGBA ;;;
  (* Perform RGB normalization *)
  (if rgb_norm f then enqueueRGBNorm else ret tt) ;;;
  (* Transform depth image to 3D point cloud *)
  enqueueDepthTo3D ;;;
  (* Give up ownership of the OpenGL buffers *)
  log (EnqueueReleaseGLObjects (bufferGLShared f)) ;;;
  log Finish.

(** The number of pixels of a frame. *)
Definition frame_pixels : nat := Z.to_nat (gl_width * gl_height).

(** The states of the filter its constructor and member functions lead
    to. *)
Record Filter_ok (f : Filter) : Prop := {
  ok_rgbBufferSize : rgbBufferSize f = 3 * (gl_width * gl_height);
  ok_depthBufferSize : depthBufferSize f = 2 * (gl_width * gl_height);
  ok_global : global f = (gl_width, gl_height);
  ok_sourceRGB : bufferSourceRGB f = 0%nat;
  ok_interRGBA : bufferInterRGBA f = 1%nat;
  ok_sourceDepth : bufferSourceDepth f = 3%nat;
  ok_shared : bufferGLShared f = [2%nat; 4%nat];
  ok_rgb : exists bytes, objects f !! 0%nat = Some (MemUChar bytes)
                         /\ length bytes = (3 * frame_pixels)%nat;
  ok_depth : exists values, objects f !! 3%nat = Some (MemUShort values)
                            /\ length values = frame_pixels;
  ok_points :
    forall m, m = 1%nat \/ m = 2%nat \/ m = 4%nat ->
      exists points, objects f !! m = Some (MemFloat4 points)
                     /\ length points = frame_pixels;
  ok_rgba0 : kernel_args (kernelRGBA f) !! 0%nat = Some (ArgMem 0%nat);
  ok_rgba2 : kernel_args (kernelRGBA f) !! 2%nat = Some (ArgInt gl_height);
  ok_rgba3 : kernel_args (kernelRGBA f) !! 3%nat = Some (ArgInt gl_width);
  ok_norm0 : kernel_args (kernelRGBNorm f) !! 0%nat = Some (ArgMem 1%nat);
  ok_norm1 : kernel_args (kernelRGBNorm f) !! 1%nat = Some (ArgMem 2%nat);
  ok_norm2 : kernel_args (kernelRGBNorm f) !! 2%nat = Some (ArgInt gl_height);
  ok_norm3 : kernel_args (kernelRGBNorm f) !! 3%nat = Some (ArgInt gl_width);
  ok_depth0 : kernel_args (kernelDepthTo3D f) !! 0%nat = Some (ArgMem 3%nat);
  ok_depth1 : kernel_args (kernelDepthTo3D f) !! 1%nat = Some (ArgMem 4%nat);
  ok_depth2 : kernel_args (kernelDepthTo3D f) !! 2%nat = Some (ArgFloat (f_of_Z 595))
}.

(** What the kernels compute for one pixel: the colour of [rgb2rgba], the
    colour of [normalizeRGB], and the point of [depthTo3D] at the pixel
    [(x, y)] of a [cols] x [rows] grid. *)
Definition rgba_pixel (r g b : Z) : @Kernels.float4 F :=
  (f_div (f_of_Z r) (f_of_Z 255), f_div (f_of_Z g) (f_of_Z 255),
   f_div (f_of_Z b) (f_of_Z 255), f_of_Z 1).

Definition normalized_pixel (p : @Kernels.float4 F) : @Kernels.float4 F :=
  let '(x, y, z, w) := p in
  let sum := f_add (f_add x y) z in
  (f_div x sum, f_div y sum, f_div z sum, f_of_Z 1).

Definition cloud_point (cols rows : Z) (f : F) (x y d : Z) : @Kernels.float4 F :=
  (f_div (f_mul (f_sub (f_of_Z x) (f_div (f_of_Z (cols - 1)) (f_of_Z 2))) (f_of_Z d)) f,
   f_div (f_mul (f_sub (f_of_Z y) (f_div (f_of_Z (rows - 1)) (f_of_Z 2))) (f_of_Z d)) f,
   f_of_Z d, f_of_Z 1).

(** [bool Filter::toggleRGBNormalization ()]. *)
Definition toggleRGBNormalization : CL Filter bool :=
  modify (fun f => set_rgb_norm (negb (rgb_norm f)) f) ;;;
  gets rgb_norm.

End WithFloat.

(** *** The capture device *)

Record MyFreenectDevice : Type := {
  rgbBuffer : list Z;
  depthBuffer : list Z;
  newRGBFrame : bool;
  newDepthFrame : bool
}.

(** [getVideoBufferSize ()], and [getDepthBufferSize () / 2]. *)
Definition video_bytes : nat := Z.to_nat (640 * 480 * 3).
Definition depth_values : nat := Z.to_nat (640 * 480).

Definition MyFreenectDevice_new : MyFreenectDevice :=
  {| rgbBuffer := repeat 0 video_bytes;
     depthBuffer := repeat 0 depth_values;
     newRGBFrame := false;
     newDepthFrame := false |}.

(** [void VideoCallback (void *rgb, uint32_t timestamp)], under
    [rgbMutex]. *)
Definition VideoCallback (rgb : list Z) (timestamp : Z) (d : MyFreenectDevice)
    : MyFreenectDevice :=
  {| rgbBuffer := std_copy rgb video_bytes (rgbBuffer d);
     depthBuffer := depthBuffer d;
     newRGBFrame := true;
     newDepthFrame := newDepthFrame d |}.

(** [void DepthCallback (void *depth, uint32_t timestamp)], under
    [depthMutex]. *)
Definition DepthCallback (depth : list Z) (timestamp : Z) (d : MyFreenectDevice)
    : MyFreenectDevice :=
  {| rgbBuffer := rgbBuffer d;
     depthBuffer := std_copy depth depth_values (depthBuffer d);
     newRGBFrame := newRGBFrame d;
     newDepthFrame := true |}.

(** [bool getRGB (std::vector<uint8_t> &buffer)], under [rgbMutex]: the
    returned flag, [buffer] after the call, and the device. *)
Definition getRGB (buffer : list Z) (d : MyFreenectDevice)
    : bool * list Z * MyFreenectDevice :=
  if negb (newRGBFrame d) then (false, buffer, d)
  else
    (* buffer.swap (rgbBuffer) *)
    (true, rgbBuffer d,
     {| rgbBuffer := buffer;
        depthBuffer := depthBuffer d;
        newRGBFrame := false;
        newDepthFrame := newDepthFrame d |}).

(** [bool getDepth (std::vector<uint16_t> &buffer)], under [depthMutex]. *)
Definition getDepth (buffer : list Z) (d : MyFreenectDevice)
    : bool * list Z * MyFreenectDevice :=
  if negb (newDepthFrame d) then (false, buffer, d)
  else
    (true, depthBuffer d,
     {| rgbBuffer := rgbBuffer d;
        depthBuffer := buffer;
        newRGBFrame := newRGBFrame d;
        newDepthFrame := false |}).

End GLVertex.

(** ** Auxiliary definitions of the proofs *)

(** A kernel whose work-items each write one element: the buffer after
    the work-items [items]. *)
Definition scatter {A : Type} (guard : Z * Z -> bool) (index : Z * Z -> nat)
    (value : Z * Z -> A) (items : list (Z * Z)) (out : list A) : list A :=
  fold_left (fun o g => if guard g then <[index g := value g]> o else o) items out.

Definition conv_value {F : Type} `{FloatOps F} (sourceImage : image2d_t)
    (filter : list F) (filterWidth : Z) (sampler : sampler_t) (gid : Z * Z) : Z :=
  convert_uchar_sat
    (f_to_uint (Kernels.convolution_sum sourceImage filter filterWidth sampler (fst gid) (snd gid))).

Definition conv_guard (w h rows cols : Z) (gid : Z * Z) : bool :=
  (snd gid <? rows) && (fst gid <? cols)
  && ((0 <=? fst gid) && (fst gid <? w) && (0 <=? snd gid) && (snd gid <? h)).

Definition conv_index (w : Z) (gid : Z * Z) : nat := Z.to_nat (snd gid * w + fst gid).

(** The index of a work-item in a buffer with one element per pixel. *)
Definition flat_index (cols : Z) (gid : Z * Z) : nat :=
  Z.to_nat (uint32 (snd gid * cols + fst gid)).

(** A float stands for the rational number [q]. *)
Definition b32_denotes (x : float32) (q : Q) : bool :=
  match b32_to_Q x with
  | Some r => Qeq_bool r q
  | None => false
  end.

(** The test of a property of the [n] integers from [lo] on. *)
Fixpoint all_from (P : Z -> bool) (lo : Z) (n : nat) : bool :=
  match n with
  | O => true
  | S n' => P lo && all_from P (lo + 1) n'
  end.

(** Equality of two finite floats. *)
Definition b32_eqb (x y : float32) : bool :=
  match x, y with
  | S754_zero a, S754_zero b => Bool.eqb a b
  | S754_finite a m e, S754_finite b m' e' => Bool.eqb a b && Pos.eqb m m' && Z.eqb e e'
  | _, _ => false
  end.

(** The floats of the integer [n] and of [n / 8]. *)
Definition b32_int (n : Z) : float32 := b32_dyadic n 0.
Definition b32_eighths (n : Z) : float32 := b32_dyadic n (-3).

(** The sum of the nine pixels that a work-item of a filter of width 3
    reads around [(x, y)], and the response of the Laplacian filter. *)
Definition neighbourhood_sum (img : image2d_t) (x y : Z) : Z :=
  let p j i := read_imageui img Clc.the_sampler (x + j, y + i) in
  p (-1) (-1) + p 0 (-1) + p 1 (-1) + p (-1) 0 + p 0 0 + p 1 0 + p (-1) 1 + p 0 1 + p 1 1.

Definition laplacian_response (img : image2d_t) (x y : Z) : Z :=
  neighbourhood_sum img x y - 9 * read_imageui img Clc.the_sampler (x, y).

(** An image of 8-bit pixels. *)
Definition byte_image (img : image2d_t) : Prop :=
  0 < image_width img < 2 ^ 31 /\ 0 < image_height img < 2 ^ 31
  /\ length (image_data img) = Z.to_nat (image_width img * image_height img)
  /\ Forall (fun v => 0 <= v <= 255) (image_data img).
(** The test of [op x y = z] for the floats [x] of a list, [y] of a second
    one, and [z] in a third one, at [stride] times the position of [x] plus
    the position of [y]. *)
Fixpoint floats_from (f : Z -> float32) (lo : Z) (n : nat) : list float32 :=
  match n with
  | O => []
  | S n' => f lo :: floats_from f (lo + 1) n'
  end.

Fixpoint row_ok (op : float32 -> float32 -> float32) (x : float32)
    (ys zs : list float32) : bool :=
  match ys, zs with
  | [], _ => true
  | y :: ys', z :: zs' => b32_eqb (op x y) z && row_ok op x ys' zs'
  | _ :: _, [] => false
  end.

Fixpoint table_ok (op : float32 -> float32 -> float32) (stride : nat)
    (xs ys zs : list float32) : bool :=
  match xs with
  | [] => true
  | x :: xs' => row_ok op x ys zs && table_ok op stride xs' ys (skipn stride zs)
  end.

(** ** The keyboard callbacks *)

Module Keys.

(** [freenectAngle] is a [double]. *)
Definition b64_prec : Z := 53.
Definition b64_emax : Z := 1024.

Definition b64_of_Z (n : Z) : spec_float := binary_normalize b64_prec b64_emax n 0 false.

Inductive freenect_led_options : Type :=
| LED_OFF
| LED_GREEN
| LED_RED
| LED_YELLOW
| LED_BLINK_GREEN
| LED_BLINK_RED_YELLOW.

(** The calls of the callback into GLUT and libfreenect. *)
Inductive call : Type :=
| GlutDestroyWindow
| SetTiltDegrees (angle : spec_float)
| SetLed (option : freenect_led_options).

Section WithFilter.

Context {Filter : Type}.

(** The globals the callback uses, and the calls it has made. *)
Record Globals : Type := {
  freenectAngle : spec_float;
  opencl : Filter;
  calls : list call
}.

Definition on_opencl {A : Type} (m : CL Filter A) : CL Globals A :=
  fun g =>
    match m (opencl g) with
    | Done (a, f) =>
        Done (a, {| freenectAngle := freenectAngle g; opencl := f; calls := calls g |})
    | Exit fn => Exit fn
    | Undefined => Undefined
    end.

Definition make_call (c : call) : CL Globals unit :=
  modify (fun g => {| freenectAngle := freenectAngle g; opencl := opencl g;
                      calls := calls g ++ [c] |}).

Definition set_freenectAngle (a : spec_float) : CL Globals unit :=
  modify (fun g => {| freenectAngle := a; opencl := opencl g; calls := calls g |}).

Local Open Scope cl_scope.
Local Open Scope char_scope.

(** The cases of the tilt keys. *)
Definition tilt_up : CL Globals unit :=
  a <- gets freenectAngle ;;
  (* ++freenectAngle *)
  let a := SFadd b64_prec b64_emax a (b64_of_Z 1) in
  set_freenectAngle a ;;;
  (if SFltb (b64_of_Z 30) a then set_freenectAngle (b64_of_Z 30) else ret tt) ;;;
  a <- gets freenectAngle ;;
  make_call (SetTiltDegrees a).

Definition tilt_down : CL Globals unit :=
  a <- gets freenectAngle ;;
  (* --freenectAngle *)
  let a := SFsub b64_prec b64_emax a (b64_of_Z 1) in
  set_freenectAngle a ;;;
  (if SFltb a (b64_of_Z (-30)) then set_freenectAngle (b64_of_Z (-30)) else ret tt) ;;;
  a <- gets freenectAngle ;;
  make_call (SetTiltDegrees a).

Definition tilt_reset : CL Globals unit :=
  set_freenectAngle (b64_of_Z 0) ;;;
  a <- gets freenectAngle ;;
  make_call (SetTiltDegrees a).

(** [opencl->toggleSmoothing ()] or [opencl->toggleRGBNormalization ()]. *)
Variable toggle : CL Filter bool.

(** [void keyPressed (unsigned char key, int x, int y)] of
    kinectFilter_clc.cpp, kinectFilter_clc++.cpp and
    kinectFilter_gl_interop_texture.cpp. *)
Definition keyPressed_F (key : Ascii.ascii) (x y : Z) : CL Globals unit :=
  match key with
  | Ascii.Ascii true true false true true false false false (* 0x1B, ESC *)
  | "Q" | "q" => make_call GlutDestroyWindow
  | "F" | "f" => on_opencl toggle ;;; ret tt
  | "W" | "w" => tilt_up
  | "S" | "s" => tilt_down
  | "R" | "r" => tilt_reset
  | "1" => make_call (SetLed LED_GREEN)
  | "2" => make_call (SetLed LED_RED)
  | "3" => make_call (SetLed LED_YELLOW)
  | "4" | "5" => make_call (SetLed LED_BLINK_GREEN)
  | "6" => make_call (SetLed LED_BLINK_RED_YELLOW)
  | "0" => make_call (SetLed LED_OFF)
  | _ => ret tt
  end.

(** [void keyPressed (unsigned char key, int x, int y)] of
    kinectFilter_gl_interop_vertex_buffer.cpp. *)
Definition keyPressed_C (key : Ascii.ascii) (x y : Z) : CL Globals unit :=
  match key with
  | Ascii.Ascii true true false true true false false false (* 0x1B, ESC *)
  | "Q" | "q" => make_call GlutDestroyWindow
  | "C" | "c" => on_opencl toggle ;;; ret tt
  | "W" | "w" => tilt_up
  | "S" | "s" => tilt_down
  | "R" | "r" => tilt_reset
  | "1" => make_call (SetLed LED_GREEN)
  | "2" => make_call (SetLed LED_RED)
  | "3" => make_call (SetLed LED_YELLOW)
  | "4" | "5" => make_call (SetLed LED_BLINK_GREEN)
  | "6" => make_call (SetLed LED_BLINK_RED_YELLOW)
  | "0" => make_call (SetLed LED_OFF)
  | _ => ret tt
  end.

(** The keys of a run of the program, each with the position of the
    mouse. *)
Fixpoint pressed (keyPressed : Ascii.ascii -> Z -> Z -> CL Globals unit)
    (keys : list (Ascii.ascii * Z * Z)) : CL Globals unit :=
  match keys with
  | [] => ret tt
  | (key, x, y) :: keys => keyPressed key x y ;;; pressed keyPressed keys
  end.

(** The globals when [main] enters the event loop. *)
Definition Globals_init (f : Filter) : Globals :=
  {| freenectAngle := b64_of_Z 0; opencl := f; calls := [] |}.

End WithFilter.

(** The tilt angle as an integer, after a key. *)
Definition tilt_after (n : Z) (key : Ascii.ascii) : Z :=
  match key with
  | "W" | "w" => Z.min 30 (n + 1)
  | "S" | "s" => Z.max (-30) (n - 1)
  | "R" | "r" => 0
  | _ => n
  end%char.

(** The tilt angles sent to the device for a run of keys from the angle
    [n]. *)
Fixpoint tilts_sent (n : Z) (keys : list (Ascii.ascii * Z * Z)) : list Z :=
  match keys with
  | [] => []
  | (key, _, _) :: keys =>
      let n' := tilt_after n key in
      match key with
      | "W" | "w" | "S" | "s" | "R" | "r" => n' :: tilts_sent n' keys
      | _ => tilts_sent n' keys
      end%char
  end.

Definition tilt_of_call (c : call) : option spec_float :=
  match c with
  | SetTiltDegrees a => Some a
  | _ => None
  end.

(** The toggle keys among the keys of a run. *)
Definition is_key (upper lower : Ascii.ascii) (k : Ascii.ascii * Z * Z) : bool :=
  (Ascii.eqb (fst (fst k)) upper || Ascii.eqb (fst (fst k)) lower)%bool.

(** One key: the call returns with the angle that [tilt_after] gives, has
    sent the angles of [tilts_sent], and has toggled the filter or left it
    as it is. *)
Definition key_ok {Filter : Type} (toggled : Filter -> Filter) (is_toggle : bool)
    (m : CL (@Globals Filter) unit) (g : @Globals Filter) (n : Z) (key : Ascii.ascii) : Prop :=
  exists g',
    m g = Done (tt, g')
    /\ freenectAngle g' = b64_of_Z (tilt_after n key)
    /\ omap tilt_of_call (calls g')
       = omap tilt_of_call (calls g) ++ map b64_of_Z (tilts_sent n [(key, 0, 0)])
    /\ opencl g' = if is_toggle then toggled (opencl g) else opencl g.

End Keys.

(** The commands of one call of [processFrames] of the vertex buffer
    program, for the handles of the constructor. *)
Definition processFrames_log {F : Type} (f : @GLVertex.Filter F) (rgb depth : list Z)
    : list (command F) :=
  [ GlFinish;
    EnqueueAcquireGLObjects [2%nat; 4%nat];
    EnqueueWriteBytes 0%nat (firstn (3 * GLVertex.frame_pixels) rgb);
    EnqueueWriteUShorts 3%nat (firstn GLVertex.frame_pixels depth);
    EnqueueNDRangeKernel
      (setArg (GLVertex.kernelRGBA f) 1
         (ArgMem (if GLVertex.rgb_norm f then 1%nat else 2%nat)))
      (GLVertex.gl_width, GLVertex.gl_height) ]
  ++ (if GLVertex.rgb_norm f
      then [EnqueueNDRangeKernel (GLVertex.kernelRGBNorm f)
              (GLVertex.gl_width, GLVertex.gl_height)]
      else [])
  ++ [ EnqueueNDRangeKernel (GLVertex.kernelDepthTo3D f)
         (GLVertex.gl_width, GLVertex.gl_height);
       EnqueueReleaseGLObjects [2%nat; 4%nat];
       Finish ].

(** ** The display loop of the vertex buffer program *)

Module VertexMain.

Section WithFloat.

Context {F : Type} `{FloatOps F}.

(** The globals [device] and [opencl], and the static vectors [rgb] and
    [depth] of [updateFrames]. *)
Record Program : Type := {
  device : GLVertex.MyFreenectDevice;
  opencl : @GLVertex.Filter F;
  rgb : list Z;
  depth : list Z
}.

(** [void updateFrames ()]; the second operand of [&&] is evaluated when
    the first is [true] only. *)
Definition updateFrames : CL Program unit :=
  fun p =>
    let '(newRGB, rgb1, device1) := GLVertex.getRGB (rgb p) (device p) in
    if newRGB then
      let '(newDepth, depth1, device2) := GLVertex.getDepth (depth p) device1 in
      if newDepth then
        match GLVertex.processFrames rgb1 depth1 (opencl p) with
        | Done (_, f) =>
            Done (tt, {| device := device2; opencl := f; rgb := rgb1; depth := depth1 |})
        | Exit fn => Exit fn
        | Undefined => Undefined
        end
      else
        Done (tt, {| device := device2; opencl := opencl p; rgb := rgb1; depth := depth1 |})
    else
      Done (tt, {| device := device1; opencl := opencl p; rgb := rgb1; depth := depth p |}).

(** What happens to the program: the driver delivers a colour or a depth
    frame, the window is drawn ([drawGLScene] calls [updateFrames]), or the
    C key is pressed. The mutexes make the callbacks atomic with respect
    to [getRGB] and [getDepth]. *)
Inductive event : Type :=
| Video (rgb : list Z) (timestamp : Z)
| Depth (depth : list Z) (timestamp : Z)
| Draw
| KeyC.

Local Open Scope cl_scope.

Definition step (e : event) : CL Program unit :=
  match e with
  | Video v t =>
      modify (fun p => {| device := GLVertex.VideoCallback v t (device p);
                          opencl := opencl p; rgb := rgb p; depth := depth p |})
  | Depth d t =>
      modify (fun p => {| device := GLVertex.DepthCallback d t (device p);
                          opencl := opencl p; rgb := rgb p; depth := depth p |})
  | Draw => updateFrames
  | KeyC =>
      fun p =>
        match GLVertex.toggleRGBNormalization (opencl p) with
        | Done (_, f) =>
            Done (tt, {| device := device p; opencl := f; rgb := rgb p; depth := depth p |})
        | Exit fn => Exit fn
        | Undefined => Undefined
        end
  end.

Fixpoint run (es : list event) : CL Program unit :=
  match es with
  | [] => ret tt
  | e :: es => step e ;;; run es
  end.

(** The program when [main] enters the event loop. *)
Definition Program_init : Program :=
  {| device := GLVertex.MyFreenectDevice_new;
     opencl := GLVertex.Filter_new;
     rgb := repeat 0 GLVertex.video_bytes;
     depth := repeat 0 GLVertex.depth_values |}.

(** The driver delivers frames of the size of the video and depth
    modes. *)
Definition frame_ok (e : event) : Prop :=
  match e with
  | Video v _ => length v = GLVertex.video_bytes
  | Depth d _ => length d = GLVertex.depth_values
  | _ => True
  end.

(** The states of the program its events lead to. *)
Record Program_ok (p : Program) : Prop := {
  ok_opencl : GLVertex.Filter_ok (opencl p);
  ok_rgbBuffer : length (GLVertex.rgbBuffer (device p)) = GLVertex.video_bytes;
  ok_depthBuffer : length (GLVertex.depthBuffer (device p)) = GLVertex.depth_values;
  ok_rgb : length (rgb p) = GLVertex.video_bytes;
  ok_depth : length (depth p) = GLVertex.depth_values
}.

(** The colour and depth frames delivered last in a run. *)
Fixpoint last_video (es : list event) (last : option (list Z)) : option (list Z) :=
  match es with
  | [] => last
  | Video v _ :: es => last_video es (Some v)
  | _ :: es => last_video es last
  end.

Fixpoint last_depth (es : list event) (last : option (list Z)) : option (list Z) :=
  match es with
  | [] => last
  | Depth d _ :: es => last_depth es (Some d)
  | _ :: es => last_depth es last
  end.

(** The frames that the draws of a run hand to [processFrames], with the
    flag for RGB normalization at the time: a draw takes the colour frame
    when there is a new one, then the depth frame when there is a new one,
    and processes the two when there are both. [v] and [d] are the colour
    and the depth frame not taken yet. *)
Fixpoint processed (es : list event) (v d : option (list Z)) (norm : bool)
    : list (list Z * list Z * bool) :=
  match es with
  | [] => []
  | Video v' _ :: es => processed es (Some v') d norm
  | Depth d' _ :: es => processed es v (Some d') norm
  | Draw :: es =>
      match v, d with
      | Some v', Some d' => (v', d', norm) :: processed es None None norm
      | Some _, None => processed es None None norm
      | None, _ => processed es None d norm
      end
  | KeyC :: es => processed es v d (negb norm)
  end.

(** The buffers shared with OpenGL hold the colours of the frame [v],
    normalized or not, and the points of the depth frame [d]. *)
Definition shows (f : @GLVertex.Filter F) (v d : list Z) (norm : bool) : Prop :=
  exists colours cloud,
    GLVertex.objects f !! 2%nat = Some (GLVertex.MemFloat4 colours)
    /\ GLVertex.objects f !! 4%nat = Some (GLVertex.MemFloat4 cloud)
    /\ forall x y, 0 <= x < GLVertex.gl_width -> 0 <= y < GLVertex.gl_height ->
         colours !! Z.to_nat (y * GLVertex.gl_width + x)
         = Some (let pixel :=
                   GLVertex.rgba_pixel
                     (nth (Z.to_nat (3 * (y * GLVertex.gl_width + x))) v 0)
                     (nth (Z.to_nat (3 * (y * GLVertex.gl_width + x) + 1)) v 0)
                     (nth (Z.to_nat (3 * (y * GLVertex.gl_width + x) + 2)) v 0) in
                 if norm then GLVertex.normalized_pixel pixel else pixel)
         /\ cloud !! Z.to_nat (y * GLVertex.gl_width + x)
            = Some (GLVertex.cloud_point GLVertex.gl_width GLVertex.gl_height (f_of_Z 595)
                      x y (nth (Z.to_nat (y * GLVertex.gl_width + x)) d 0)).

(** The frames of the device that a draw has not taken yet are [v] and
    [d], and the flag of the filter is [norm]. *)
Definition pending (p : Program) (v d : option (list Z)) (norm : bool) : Prop :=
  match v with
  | Some v' => GLVertex.newRGBFrame (device p) = true
               /\ GLVertex.rgbBuffer (device p) = v'
  | None => GLVertex.newRGBFrame (device p) = false
  end
  /\ match d with
     | Some d' => GLVertex.newDepthFrame (device p) = true
                  /\ GLVertex.depthBuffer (device p) = d'
     | None => GLVertex.newDepthFrame (device p) = false
     end
  /\ GLVertex.rgb_norm (opencl p) = norm.

Definition is_finish (c : command F) : bool :=
  match c with
  | Finish => true
  | _ => false
  end.

End WithFloat.

End VertexMain.

(** ** kinectFilter.cpp, version 1.0, and its kernels.cl *)

Definition CL_INVALID_WORK_GROUP_SIZE : Z := -54.

Module V1.

Section WithFloat.

Context {F : Type} `{FloatOps F}.

(** The largest work-group the device runs the kernel with
    (CL_KERNEL_WORK_GROUP_SIZE). *)
Variable max_work_group_size : Z.

(** [__kernel void convolution] of version 1.0; [rows], [cols],
    [filterWidth] and the indices of the work-item are [int]. The value of
    [sum] when the loops end, for the work-item [(column, row)]. *)
Definition convolution_sum (sourceImage : image2d_t) (filter : list F)
    (filterWidth : Z) (sampler : sampler_t) (column row : Z) : F :=
  let halfwidth := Z.quot filterWidth 2 in
  fst (fold_left
         (fun acc i =>
            let coords_y := int32 (row + i) in
            fold_left
              (fun '(sum, filterIdx) j =>
                 let coords_x := int32 (column + j) in
                 let pixel := read_imageui sourceImage sampler (coords_x, coords_y) in
                 (f_add sum (f_mul (f_of_Z pixel)
                                   (nth (Z.to_nat filterIdx) filter (f_of_Z 0))),
                  filterIdx + 1))
              (interval (- halfwidth) halfwidth) acc)
         (interval (- halfwidth) halfwidth) (f_of_Z 0, 0)).

(** One work-item. *)
Definition convolution (sourceImage outputImage : image2d_t) (rows cols : Z)
    (filter : list F) (filterWidth : Z) (sampler : sampler_t)
    (gid : Z * Z) : image2d_t :=
  let column := int32 (fst gid) in
  let row := int32 (snd gid) in
  let sum := convolution_sum sourceImage filter filterWidth sampler column row in
  if (row <? rows) && (column <? cols)
  then write_imageui outputImage (column, row) (f_to_uint sum)
  else outputImage.

Definition convolution_range (sourceImage outputImage : image2d_t) (rows cols : Z)
    (filter : list F) (filterWidth : Z) (sampler : sampler_t)
    (global : Z * Z) : image2d_t :=
  fold_left
    (fun out gid => convolution sourceImage out rows cols filter filterWidth sampler gid)
    (work_items global) outputImage.

(** [class Filter]. *)
Record Filter : Type := {
  origin : Z * Z * Z;
  region : Z * Z * Z;
  global : Z * Z;
  local : Z * Z;
  context : @Clc.cl_context F;
  queue : list (command F);
  sampler : sampler_t;
  bufferFilter : cl_mem;
  bufferSourceImage : cl_mem;
  bufferOutputImage : cl_mem;
  kernel_conv : cl_kernel F
}.

(** A command is submitted: its effect on the objects of the context, and
    the command appended to the log of the queue. *)
Definition submit (c : command F) (objs : gmap cl_mem (@Clc.memobj F)) (f : Filter) : Filter :=
  {| origin := origin f; region := region f; global := global f; local := local f;
     context := {| Clc.next_mem := Clc.next_mem (context f); Clc.objects := objs |};
     queue := queue f ++ [c];
     sampler := sampler f; bufferFilter := bufferFilter f;
     bufferSourceImage := bufferSourceImage f;
     bufferOutputImage := bufferOutputImage f;
     kernel_conv := kernel_conv f |}.

(** [clEnqueueWriteImage (queue, image, CL_FALSE, origin, region, 0, 0, ptr,
    0, NULL, NULL)]. *)
Definition clEnqueueWriteImage (image : cl_mem) (org reg : Z * Z * Z)
    (ptr : list Z) : CL Filter Z :=
  fun f =>
    let '(ox, oy, _) := org in
    let '(rw, rh, _) := reg in
    match Clc.objects (context f) !! image with
    | Some (Clc.MemImage img) =>
        if (0 <=? ox) && (0 <=? oy) && (0 <=? rw) && (0 <=? rh)
           && (ox + rw <=? image_width img) && (oy + rh <=? image_height img)
        then
          if (Z.of_nat (length ptr) <? rw * rh) then Undefined
          else
            let data :=
              pixels (image_width img) (image_height img)
                (fun x y =>
                   if (ox <=? x) && (x <? ox + rw) && (oy <=? y) && (y <? oy + rh)
                   then nth (Z.to_nat ((y - oy) * rw + (x - ox))) ptr 0
                   else pixel_at img x y) in
            Done (CL_SUCCESS,
                  submit (EnqueueWriteImage image reg (firstn (Z.to_nat (rw * rh)) ptr))
                         (<[image := Clc.MemImage (set_image_data img data)]>
                            (Clc.objects (context f)))
                         f)
        else Done (CL_INVALID_VALUE, f)
    | _ => Done (CL_INVALID_MEM_OBJECT, f)
    end.

(** [clEnqueueNDRangeKernel (queue, kernel_conv, 2, NULL, global, local, 0,
    NULL, NULL)]: the work-group size has to divide the global size in
    both dimensions, and a work-group holds no more work-items than the
    device runs. *)
Definition clEnqueueNDRangeKernel (glob loc : Z * Z) : CL Filter Z :=
  fun f =>
    let args := kernel_args (kernel_conv f) in
    match args !! 0%nat, args !! 1%nat, args !! 2%nat, args !! 3%nat,
          args !! 4%nat, args !! 5%nat, args !! 6%nat with
    | Some (ArgMem src), Some (ArgMem dst), Some (ArgInt rows), Some (ArgInt cols),
      Some (ArgMem flt), Some (ArgInt filterWidth), Some (ArgSampler smp) =>
        match Clc.objects (context f) !! src, Clc.objects (context f) !! dst,
              Clc.objects (context f) !! flt with
        | Some (Clc.MemImage sourceImage), Some (Clc.MemImage outputImage),
          Some (Clc.MemBuffer filter) =>
            if (0 <? fst loc) && (0 <? snd loc)
               && (fst glob mod fst loc =? 0) && (snd glob mod snd loc =? 0)
               && (fst loc * snd loc <=? max_work_group_size)
            then
              if decide (src = dst) then Undefined
              else
                let out :=
                  convolution_range sourceImage outputImage (int32 rows) (int32 cols)
                    filter (int32 filterWidth) smp glob in
                Done (CL_SUCCESS,
                      submit (EnqueueNDRangeKernel (kernel_conv f) glob)
                             (<[dst := Clc.MemImage out]> (Clc.objects (context f))) f)
            else Done (CL_INVALID_WORK_GROUP_SIZE, f)
        | _, _, _ => Done (CL_INVALID_MEM_OBJECT, f)
        end
    | _, _, _, _, _, _, _ => Done (CL_INVALID_KERNEL_ARGS, f)
    end.

(** [clEnqueueReadImage (queue, image, CL_TRUE, origin, region, 0, 0, ptr,
    0, NULL, NULL)]: blocks, and returns the host memory at [ptr] after
    the transfer. *)
Definition clEnqueueReadImage (image : cl_mem) (org reg : Z * Z * Z)
    (ptr : list Z) : CL Filter (Z * list Z) :=
  fun f =>
    let '(ox, oy, _) := org in
    let '(rw, rh, _) := reg in
    match Clc.objects (context f) !! image with
    | Some (Clc.MemImage img) =>
        if (0 <=? ox) && (0 <=? oy) && (0 <=? rw) && (0 <=? rh)
           && (ox + rw <=? image_width img) && (oy + rh <=? image_height img)
        then
          if (Z.of_nat (length ptr) <? rw * rh) then Undefined
          else
            let data := pixels rw rh (fun x y => pixel_at img (ox + x) (oy + y)) in
            Done ((CL_SUCCESS, data ++ skipn (Z.to_nat (rw * rh)) ptr),
                  submit (EnqueueReadImage image reg) (Clc.objects (context f)) f)
        else Done ((CL_INVALID_VALUE, ptr), f)
    | _ => Done ((CL_INVALID_MEM_OBJECT, ptr), f)
    end.

(** [Filter ()]. Platform, device and program creation succeed or end the
    process before any state this model has is built; they are left
    out. *)
Definition Filter_new : outcome Filter :=
  (* Image dimensions *)
  let width := 640 in
  let height := 480 in
  (* Laplacian kernel *)
  let filter := [ f_of_Z 1; f_of_Z 1;    f_of_Z 1;
                  f_of_Z 1; f_of_Z (-8); f_of_Z 1;
                  f_of_Z 1; f_of_Z 1;    f_of_Z 1 ] in
  let filterWidth := 3 in
  let filterSize := 4 * filterWidth * filterWidth in
  let ctx := {| Clc.next_mem := 0%nat; Clc.objects := ∅ |} in
  let smp := Sampler false CL_ADDRESS_CLAMP_TO_EDGE CL_FILTER_NEAREST in
  let '(source, ctx) := Clc.clCreateImage ctx width height in
  let '(output, ctx) := Clc.clCreateImage ctx width height in
  let '(flt, ctx) := Clc.clCreateBuffer ctx filterSize in
  let '(status, st) := Clc.clEnqueueWriteBuffer flt filterSize filter (ctx, []) in
  if negb (status =? CL_SUCCESS) then Exit "clEnqueueWriteBuffer" else
  let k := Kernel "convolution" ∅ in
  let k := setArg k 0 (ArgMem source) in
  let k := setArg k 1 (ArgMem output) in
  let k := setArg k 2 (ArgInt height) in
  let k := setArg k 3 (ArgInt width) in
  let k := setArg k 4 (ArgMem flt) in
  let k := setArg k 5 (ArgInt filterWidth) in
  let k := setArg k 6 (ArgSampler smp) in
  Done {| origin := (0, 0, 0);
          region := (640, 480, 1);
          global := (640, 480);
          local := (16, 16);
          context := fst st;
          queue := snd st;
          sampler := smp;
          bufferFilter := flt;
          bufferSourceImage := source;
          bufferOutputImage := output;
          kernel_conv := k |}.

Local Open Scope cl_scope.

(** [void convolve (uint8_t *image)]; the result is the memory at [image]
    after the call. *)
Definition convolve (image : list Z) : CL Filter (list Z) :=
  f <- gets id ;;
  (* Copy the source image to the device *)
  status <- clEnqueueWriteImage (bufferSourceImage f) (origin f) (region f) image ;;
  Clc.chk "clEnqueueWriteImage" status ;;;
  (* Dispatch the kernel *)
  status <- clEnqueueNDRangeKernel (global f) (local f) ;;
  Clc.chk "clEnqueueNDRangeKernel" status ;;;
  (* Read back the output image *)
  r <- clEnqueueReadImage (bufferOutputImage f) (origin f) (region f) image ;;
  Clc.chk "clEnqueueReadImage" (fst r) ;;;
  ret (snd r).

(** The states of a filter the constructor and [convolve] lead to. *)
Record Filter_ok (f : Filter) : Prop := {
  ok_origin : origin f = (0, 0, 0);
  ok_region : region f = (gl_win_width, gl_win_height, 1);
  ok_global : global f = (gl_win_width, gl_win_height);
  ok_local : local f = (16, 16);
  ok_source : bufferSourceImage f = 0%nat;
  ok_output : bufferOutputImage f = 1%nat;
  ok_images :
    forall m, (m < 2)%nat -> exists img, Clc.holds_frame (Clc.objects (context f)) m img;
  ok_filter : Clc.objects (context f) !! 2%nat = Some (Clc.MemBuffer Clc.laplacian_filter);
  ok_arg0 : kernel_args (kernel_conv f) !! 0%nat = Some (ArgMem 0%nat);
  ok_arg1 : kernel_args (kernel_conv f) !! 1%nat = Some (ArgMem 1%nat);
  ok_arg2 : kernel_args (kernel_conv f) !! 2%nat = Some (ArgInt gl_win_height);
  ok_arg3 : kernel_args (kernel_conv f) !! 3%nat = Some (ArgInt gl_win_width);
  ok_arg4 : kernel_args (kernel_conv f) !! 4%nat = Some (ArgMem 2%nat);
  ok_arg5 : kernel_args (kernel_conv f) !! 5%nat = Some (ArgInt 3);
  ok_arg6 : kernel_args (kernel_conv f) !! 6%nat = Some (ArgSampler Clc.the_sampler)
}.

End WithFloat.

End V1.

(** ** kernels.cl: the kernels on float images *)

Module ImageKernels.

Section WithFloat.

Context {F : Type} `{FloatOps F}.

Abbreviation float4 := (@Kernels.float4 F).

Inductive channel_order : Type :=
| CL_R
| CL_RGBA.

(** An image with channel type CL_FLOAT, stored row by row: the
    intermediate images ([cl::ImageFormat (CL_R, CL_FLOAT)]) and the
    GL_RGBA32F texture of the output. A CL_R image has one channel; the
    others read as 0, 0 and 1, and the model stores them so. *)
Record imagef_t : Type := ImageF {
  imagef_order : channel_order;
  imagef_width : Z;
  imagef_height : Z;
  imagef_data : list float4
}.

Definition set_imagef_data (img : imagef_t) (data : list float4) : imagef_t :=
  {| imagef_order := imagef_order img;
     imagef_width := imagef_width img;
     imagef_height := imagef_height img;
     imagef_data := data |}.

Definition in_imagef (img : imagef_t) (x y : Z) : bool :=
  (0 <=? x) && (x <? imagef_width img) && (0 <=? y) && (y <? imagef_height img).

Definition pixelf_index (img : imagef_t) (x y : Z) : nat :=
  Z.to_nat (y * imagef_width img + x).

Definition border_colour (order : channel_order) : float4 :=
  match order with
  | CL_R => (f_of_Z 0, f_of_Z 0, f_of_Z 0, f_of_Z 1)
  | CL_RGBA => (f_of_Z 0, f_of_Z 0, f_of_Z 0, f_of_Z 0)
  end.

Definition pixelf_at (img : imagef_t) (x y : Z) : float4 :=
  nth (pixelf_index img x y) (imagef_data img) (border_colour (imagef_order img)).

(** What an image of the given channel order keeps of a colour. *)
Definition stored (order : channel_order) (colour : float4) : float4 :=
  match order with
  | CL_R => let '(x, _, _, _) := colour in (x, f_of_Z 0, f_of_Z 0, f_of_Z 1)
  | CL_RGBA => colour
  end.

(** [read_imagef] with integer coordinates. *)
Definition read_imagef (img : imagef_t) (sampler : sampler_t) (coords : Z * Z) : float4 :=
  let '(x, y) := coords in
  match addressing sampler with
  | CL_ADDRESS_CLAMP_TO_EDGE =>
      pixelf_at img (clamp 0 (imagef_width img - 1) x) (clamp 0 (imagef_height img - 1) y)
  | CL_ADDRESS_CLAMP =>
      if in_imagef img x y then pixelf_at img x y else border_colour (imagef_order img)
  end.

(** [write_imagef]; a write outside the image is not tracked. *)
Definition write_imagef (img : imagef_t) (coords : Z * Z) (colour : float4) : imagef_t :=
  let '(x, y) := coords in
  if in_imagef img x y
  then set_imagef_data img
         (<[pixelf_index img x y := stored (imagef_order img) colour]> (imagef_data img))
  else img.

(** The [x] component of a [float4]. *)
Definition float4_x (p : float4) : F := let '(x, _, _, _) := p in x.

(** [kernel void normalizeImg], one work-item. *)
Definition normalizeImg (sourceImage : image2d_t) (outputImage : imagef_t) (rows cols : Z)
    (sampler : sampler_t) (gid : Z * Z) : imagef_t :=
  let '(column, row) := gid in
  (* Coordinates for accessing the image *)
  let coords := (int32 (uint32 column), int32 (uint32 row)) in
  let pixel := (read_imageui sourceImage sampler coords, 0, 0, 1) in
  if (row <? rows) && (column <? cols)
  then
    let '(x, y, z, w) := pixel in
    let '(x, y, z, w) := (f_div (f_of_Z x) (f_of_Z 255), f_div (f_of_Z y) (f_of_Z 255),
                          f_div (f_of_Z z) (f_of_Z 255), f_div (f_of_Z w) (f_of_Z 255)) in
    let pixelf := (x, y, z, f_of_Z 1) in
    write_imagef outputImage coords pixelf
  else outputImage.

(** [kernel void convolutionGL]: the value of [sum] when the loops end, for
    the work-item [(column, row)]. *)
Definition convolutionGL_sum (sourceImage : imagef_t) (filter : list F)
    (filterWidth : Z) (sampler : sampler_t) (column row : Z) : F :=
  let halfwidth := int32 (uint32 filterWidth / 2) in
  fst (fold_left
         (fun acc i =>
            let coords_y := int32 (uint32 (row + i)) in
            fold_left
              (fun '(sum, filterIdx) j =>
                 let coords_x := int32 (uint32 (column + j)) in
                 let pixel := read_imagef sourceImage sampler (coords_x, coords_y) in
                 (f_add sum (f_mul (float4_x pixel)
                                   (nth (Z.to_nat filterIdx) filter (f_of_Z 0))),
                  filterIdx + 1))
              (interval (- halfwidth) halfwidth) acc)
         (interval (- halfwidth) halfwidth) (f_of_Z 0, 0)).

(** [kernel void convolutionGL], one work-item. *)
Definition convolutionGL (sourceImage outputImage : imagef_t) (rows cols : Z)
    (filter : list F) (filterWidth : Z) (sampler : sampler_t)
    (gid : Z * Z) : imagef_t :=
  let '(column, row) := gid in
  let sum := convolutionGL_sum sourceImage filter filterWidth sampler column row in
  if (row <? rows) && (column <? cols)
  then write_imagef outputImage (column, row) (sum, sum, sum, f_of_Z 1)
  else outputImage.

Definition normalizeImg_range (sourceImage : image2d_t) (outputImage : imagef_t)
    (rows cols : Z) (sampler : sampler_t) (global : Z * Z) : imagef_t :=
  fold_left (fun out gid => normalizeImg sourceImage out rows cols sampler gid)
    (work_items global) outputImage.

Definition convolutionGL_range (sourceImage outputImage : imagef_t) (rows cols : Z)
    (filter : list F) (filterWidth : Z) (sampler : sampler_t)
    (global : Z * Z) : imagef_t :=
  fold_left
    (fun out gid => convolutionGL sourceImage out rows cols filter filterWidth sampler gid)
    (work_items global) outputImage.

(** The dispatches of [Filter::convolve] of the texture program without
    smoothing: [normalizeImg] from the source image to an intermediate
    image, then [convolutionGL] with the Laplacian filter from there to the
    texture; all images have the size of the source. *)
Definition raw_texture (sourceImage : image2d_t) (inter texture : imagef_t) : imagef_t :=
  let width := image_width sourceImage in
  let height := image_height sourceImage in
  let inter := normalizeImg_range sourceImage inter height width Clc.the_sampler (width, height) in
  convolutionGL_range inter texture height width GLTexture.laplacian_filter
    GLTexture.filterWidth Clc.the_sampler (width, height).

(** An image of the given channel order and size. *)
Definition imagef_ok (order : channel_order) (w h : Z) (img : imagef_t) : Prop :=
  imagef_order img = order /\ imagef_width img = w /\ imagef_height img = h
  /\ length (imagef_data img) = Z.to_nat (w * h).

(** The value of [sum] when a work-item of [convolutionGL] with a filter
    of width 3 ends, from the values [p j i] it reads at the offsets
    [(j, i)]. *)
Definition sumf3x3 (p : Z -> Z -> F) (flt : list F) : F :=
  let term j i k := f_mul (p j i) (nth k flt (f_of_Z 0)) in
  f_add (f_add (f_add
  (f_add (f_add (f_add
  (f_add (f_add (f_add (f_of_Z 0)
     (term (-1) (-1) 0%nat)) (term 0 (-1) 1%nat)) (term 1 (-1) 2%nat))
     (term (-1) 0 3%nat)) (term 0 0 4%nat)) (term 1 0 5%nat))
     (term (-1) 1 6%nat)) (term 0 1 7%nat)) (term 1 1 8%nat).

(** The float [normalizeImg] makes of a pixel. *)
Definition normalized (v : Z) : F := f_div (f_of_Z v) (f_of_Z 255).

End WithFloat.

End ImageKernels.

(** A float of magnitude at most 2^-22. *)
Definition b32_small (x : float32) : bool :=
  match b32_to_Q x with
  | Some q => Qle_bool (Qabs q) (Qpower 2 (-22))
  | None => false
  end.

(** The sum [convolutionGL] computes with the Laplacian filter where all
    the pixels it reads are [n]. *)
Definition uniform_sum (n : float32) : float32 :=
  @ImageKernels.sumf3x3 _ device0 (fun _ _ => n) (@GLTexture.laplacian_filter _ device0).

(** The positive number [p * 2 ^ n]. *)
Definition pos_shl (p : positive) (n : nat) : positive := Nat.iter n xO p.

(** The binary32 float of a positive integer below 2^24, with sign [s]. *)
Definition b32_canon (s : bool) (p : positive) : float32 :=
  S754_finite s (pos_shl p (Z.to_nat (24 - Zpos (digits2_pos p))))
    (Zpos (digits2_pos p) - 24).
(** ** kinectFilter_gl_interop_vertex_buffer.cpp: the mouse callbacks *)

Module Mouse.

Section WithFloat.

Context {F : Type} `{FloatOps F}.

Definition GLUT_LEFT_BUTTON : Z := 0.
Definition GLUT_DOWN : Z := 0.
Definition GLUT_UP : Z := 1.

(** The globals of the camera. *)
Record Globals : Type := {
  mouseX : Z;
  mouseY : Z;
  angleX : F;
  angleY : F;
  zoom : F
}.

(** [int mouseX = -1, mouseY = -1; float angleX = 0.f, angleY = 0.f;
    float zoom = 1.f;] *)
Definition Globals_init : Globals :=
  {| mouseX := -1; mouseY := -1; angleX := f_of_Z 0; angleY := f_of_Z 0; zoom := f_of_Z 1 |}.

Definition set_mouse (x y : Z) (g : Globals) : Globals :=
  {| mouseX := x; mouseY := y; angleX := angleX g; angleY := angleY g; zoom := zoom g |}.

Definition set_zoom (z : F) (g : Globals) : Globals :=
  {| mouseX := mouseX g; mouseY := mouseY g; angleX := angleX g; angleY := angleY g;
     zoom := z |}.

(** [void mouseMoved (int x, int y)]. The differences are computed in
    [int] and converted to [float] for the sum; the model wraps a
    difference that does not fit [int]. *)
Definition mouseMoved (x y : Z) (g : Globals) : Globals :=
  let g :=
    if (0 <=? mouseX g) && (0 <=? mouseY g)
    then {| mouseX := mouseX g; mouseY := mouseY g;
            angleX := f_add (angleX g) (f_of_Z (int32 (x - mouseX g)));
            angleY := f_add (angleY g) (f_of_Z (int32 (y - mouseY g)));
            zoom := zoom g |}
    else g in
  set_mouse x y g.

(** [void mouseButtonPressed (int button, int state, int x, int y)];
    [1.2f] is 10066330 * 2^-23. *)
Definition mouseButtonPressed (button state x y : Z) (g : Globals) : Globals :=
  if state =? GLUT_DOWN then
    if button =? GLUT_LEFT_BUTTON then set_mouse x y g
    else if button =? 3 then (* Scroll Up *)
      set_zoom (f_mul (zoom g) (f_dyadic 10066330 (-23))) g
    else if button =? 4 then (* Scroll Down *)
      set_zoom (f_div (zoom g) (f_dyadic 10066330 (-23))) g
    else g
  else if (state =? GLUT_UP) && (button =? GLUT_LEFT_BUTTON) then set_mouse (-1) (-1) g
  else g.

(** The events GLUT delivers to the two callbacks. *)
Inductive event : Type :=
| Moved (x y : Z)
| Button (button state x y : Z).

Definition step (g : Globals) (e : event) : Globals :=
  match e with
  | Moved x y => mouseMoved x y g
  | Button button state x y => mouseButtonPressed button state x y g
  end.

Definition run (es : list event) (g : Globals) : Globals := fold_left step es g.

(** The motion events along a path of the pointer. *)
Definition moves (path : list (Z * Z)) : list event :=
  map (fun c => Moved (fst c) (snd c)) path.

(** A position of the pointer within a window of at most 2^15 pixels a
    side. *)
Definition in_window (c : Z * Z) : Prop := 0 <= fst c < 2 ^ 15 /\ 0 <= snd c < 2 ^ 15.

End WithFloat.

End Mouse.

(** A press of the given button, as [mouseButtonPressed] tests it. *)
Definition is_press (button : Z) (e : Mouse.event) : bool :=
  match e with
  | Mouse.Button b state _ _ => (state =? Mouse.GLUT_DOWN) && (b =? button)
  | Mouse.Moved _ _ => false
  end.

(** What an event makes of the zoom. *)
Definition zoom_step {F : Type} `{FloatOps F} (z : F) (e : Mouse.event) : F :=
  if is_press 3 e then f_mul z (f_dyadic 10066330 (-23))
  else if is_press 4 e then f_div z (f_dyadic 10066330 (-23))
  else z.

(** The zoom after [n] scroll events in one direction, in binary32. *)
Definition b32_zoom_in (n : nat) : float32 :=
  Nat.iter n (fun z => SFmul b32_prec b32_emax z (b32_dyadic 10066330 (-23))) (b32_int 1).

Definition b32_zoom_out (n : nat) : float32 :=
  Nat.iter n (fun z => SFdiv b32_prec b32_emax z (b32_dyadic 10066330 (-23))) (b32_int 1).

(** ** The accuracy of division on the device *)

(** Normal numbers: the finite floats with a mantissa of 24 bits. *)
Definition b32_is_normal (x : float32) : bool :=
  match x with
  | S754_finite _ m e => (Zpos (digits2_pos m) =? b32_prec) && (-149 <=? e) && (e <=? 104)
  | _ => false
  end.

Definition b32_is_finite_nonzero (x : float32) : bool :=
  match x with
  | S754_finite _ _ _ => true
  | _ => false
  end.

(** The finite floats in the order of the reals. [b32_ord] numbers them:
    zero is 0, the numbers of a float and of its opposite are opposite, and
    the float after [m * 2^e] has the next number, in the same binade
    and across the binades. [b32_of_ord] is the float of a number. *)
Definition b32_ord (x : float32) : Z :=
  match x with
  | S754_finite s m e =>
      let n := (e + 149) * 2 ^ 23 + Zpos m in
      if s then - n else n
  | _ => 0
  end.

Definition b32_of_ord (n : Z) : float32 :=
  let a := Z.abs n in
  let E := Z.max 0 (a / 2 ^ 23 - 1) in
  match a - E * 2 ^ 23 with
  | Zpos m => if E <=? 253 then S754_finite (n <? 0) m (E - 149) else S754_infinity (n <? 0)
  | _ => S754_zero (n <? 0)
  end.

(** The float [x] and the [n] floats on either side of it. *)
Definition b32_around (n : nat) (x : float32) : list float32 :=
  x :: flat_map (fun k => [b32_of_ord (b32_ord x + k); b32_of_ord (b32_ord x - k)])
         (map Z.of_nat (seq 1 n)).

(** A division whose quotients are at most four floats away from the
    correctly rounded ones, where these are normal numbers. OpenCL's bound
    of 2.5 ulp on [x / y] leaves no more: a result within 2.5 ulp of the
    exact quotient lies, in magnitude, at most three floats above the
    correctly rounded quotient and at most four below it, four where the
    floats just below a power of two lie twice as dense. The correctly
    rounded division is such a division. *)
Definition divide_accurate (divide : float32 -> float32 -> float32) : Prop :=
  forall x y,
    b32_is_normal (SFdiv b32_prec b32_emax x y) = true ->
    In (divide x y) (b32_around 4 (SFdiv b32_prec b32_emax x y)).

(** [P] holds of every float that an accurate division may give where
    the correctly rounded quotient is [r0]. *)
Definition near_all (P : float32 -> bool) (r0 : float32) : bool :=
  b32_is_normal r0 && forallb P (b32_around 4 r0).

(** A float at most [eps] away from the rational [q]. *)
Definition b32_within (q eps : Q) (x : float32) : bool :=
  match b32_to_Q x with
  | Some r => Qle_bool (Qabs (r - q)) eps
  | None => false
  end.

(** The numerator [(x - c) * d] of [depthTo3D], where [c] is the quotient
    [(cols - 1) / 2.f] the device computed. *)
Definition point_numerator (x d : Z) (c : float32) : float32 :=
  SFmul b32_prec b32_emax (SFsub b32_prec b32_emax (b32_int x) c) (b32_int d).

(** A colour component [c] computed from the byte [v]: a number that is
    not negative, at most 2^-21 away from [v / 255], and 0 for the byte 0
    only. *)
Definition colour_of_byte (c : float32) (v : Z) : Prop :=
  exists q,
    b32_to_Q c = Some q
    /\ (0 <= q)%Q
    /\ (Qabs (q - inject_Z v / 255) <= Qpower 2 (-21))%Q
    /\ ((q == 0)%Q <-> v = 0).

Definition colour_of_byte_ok (v : Z) (c : float32) : bool :=
  match b32_to_Q c with
  | Some q =>
      Qle_bool 0 q
      && Qle_bool (Qabs (q - inject_Z v / 255)) (Qpower 2 (-21))
      && Bool.eqb (Qeq_bool q 0) (v =? 0)
  | None => false
  end.

(** [P v] holds of every float that an accurate division may give for
    [v / 255.f], for every byte [v]. *)
Definition byte_quotients_ok (P : Z -> float32 -> bool) : bool :=
  P 0 (S754_zero false)
  && all_from (fun v =>
                 b32_is_finite_nonzero (b32_int v)
                 && near_all (P v) (SFdiv b32_prec b32_emax (b32_int v) (b32_int 255)))
       1 255.

(** The colour frame of nines delivered to a new device, and the device
    after the call of [getRGB] that takes it into [step_frame]. *)
Definition vertex_published : GLVertex.MyFreenectDevice :=
  GLVertex.VideoCallback (repeat 9 GLVertex.video_bytes) 0 GLVertex.MyFreenectDevice_new.

Definition vertex_taken : GLVertex.MyFreenectDevice :=
  snd (GLVertex.getRGB step_frame vertex_published).

(** * Properties *)

(** ** Machine integers and work-items *)

Lemma uint32_small (z : Z) : 0 <= z < 2 ^ 32 -> uint32 z = z.
Proof. intros Hz. unfold uint32. apply Z.mod_small. exact Hz. Qed.

Lemma int32_uint32 (z : Z) : - 2 ^ 31 <= z < 2 ^ 31 -> int32 (uint32 z) = z.
Proof.
  intros Hz. unfold int32, uint32.
  rewrite Zplus_mod_idemp_l.
  rewrite Z.mod_small by lia. lia.
Qed.

Lemma clamp_id (lo hi v : Z) : lo <= v <= hi -> clamp lo hi v = v.
Proof. unfold clamp. lia. Qed.

Lemma clamp_range (lo hi v : Z) : lo <= hi -> lo <= clamp lo hi v <= hi.
Proof. unfold clamp. lia. Qed.

Lemma work_items_elem (g0 g1 x y : Z) :
  0 <= g0 ->
  (x, y) ∈ work_items (g0, g1) <-> 0 <= x < g0 /\ 0 <= y < g1.
Proof.
  intros Hg0. unfold work_items. rewrite list_elem_of_fmap. split.
  - intros (k & Heq & Hk). apply elem_of_seq in Hk.
    injection Heq as -> ->.
    assert (0 < g0).
    { destruct (decide (g0 = 0)) as [->|]; [|lia]. rewrite Z.mul_0_l in Hk. lia. }
    assert (Z.of_nat k < g0 * g1) by lia.
    split; [apply Z.mod_pos_bound; lia|].
    split; [apply Z.div_pos; lia|].
    apply Z.div_lt_upper_bound; lia.
  - intros [Hx Hy]. exists (Z.to_nat (y * g0 + x)). split.
    + rewrite Z2Nat.id by nia. f_equal.
      * rewrite Z.add_comm, Z.mod_add by lia. symmetry. apply Z.mod_small. lia.
      * rewrite Z.add_comm, Z.div_add by lia. rewrite Z.div_small by lia. lia.
    + apply elem_of_seq. nia.
Qed.

(** ** A kernel that writes one element per work-item *)

Section FoldInsert.

Context {A : Type}.
Variable guard : Z * Z -> bool.
Variable index : Z * Z -> nat.
Variable value : Z * Z -> A.

Local Abbreviation scatter := (scatter guard index value).

Lemma scatter_length items out : length (scatter items out) = length out.
Proof.
  revert out. induction items as [|g items IH]; intros out; [reflexivity|].
  unfold scatter in *. cbn [fold_left]. rewrite IH.
  destruct (guard g); [apply length_insert|reflexivity].
Qed.

Lemma scatter_miss items out i :
  (forall g, g ∈ items -> guard g = true -> index g <> i) ->
  scatter items out !! i = out !! i.
Proof.
  revert out. induction items as [|g items IH]; intros out Hmiss; [reflexivity|].
  unfold scatter in *. cbn [fold_left]. rewrite IH.
  - destruct (guard g) eqn:Hg; [|reflexivity].
    apply list_lookup_insert_ne. apply Hmiss; [left|exact Hg].
  - intros g' Hin. apply Hmiss. right. exact Hin.
Qed.

Lemma scatter_hit items out g :
  (forall g1 g2, g1 ∈ items -> g2 ∈ items -> guard g1 = true -> guard g2 = true ->
                 index g1 = index g2 -> g1 = g2) ->
  g ∈ items -> guard g = true -> (index g < length out)%nat ->
  scatter items out !! index g = Some (value g).
Proof.
  revert out. induction items as [|g0 items IH]; intros out Hinj Hin Hg Hlen.
  - inversion Hin.
  - assert (Hinj' : forall g1 g2, g1 ∈ items -> g2 ∈ items -> guard g1 = true ->
                      guard g2 = true -> index g1 = index g2 -> g1 = g2).
    { intros g1 g2 H1 H2. apply Hinj; right; assumption. }
    destruct (decide (g ∈ items)) as [Hin'|Hnin].
    + change (scatter (g0 :: items) out)
        with (scatter items (if guard g0 then <[index g0 := value g0]> out else out)).
      apply IH; try assumption.
      destruct (guard g0); [rewrite length_insert|]; exact Hlen.
    + apply elem_of_cons in Hin as [->|Hin]; [|contradiction].
      change (scatter (g0 :: items) out)
        with (scatter items (if guard g0 then <[index g0 := value g0]> out else out)).
      rewrite Hg. rewrite scatter_miss.
      * apply list_lookup_insert_eq. exact Hlen.
      * intros g' Hg' Hgd Heq. apply Hnin.
        rewrite <- (Hinj g' g0); [exact Hg'|right; exact Hg'|left|exact Hgd|exact Hg|exact Heq].
Qed.

End FoldInsert.

(** ** Images *)

Lemma pixels_length (w h : Z) (f : Z -> Z -> Z) :
  length (pixels w h f) = Z.to_nat (w * h).
Proof. unfold pixels. rewrite length_map, length_seq. reflexivity. Qed.

Lemma index_mod (w x y : Z) : 0 <= x < w -> (y * w + x) mod w = x.
Proof.
  intros Hx. rewrite Z.add_comm, Z.mod_add by lia. apply Z.mod_small. exact Hx.
Qed.

Lemma index_div (w x y : Z) : 0 <= x < w -> (y * w + x) / w = y.
Proof.
  intros Hx. rewrite Z.add_comm, Z.div_add by lia. rewrite Z.div_small by lia. lia.
Qed.

Lemma pixels_lookup (w h : Z) (f : Z -> Z -> Z) (x y : Z) :
  0 <= x < w -> 0 <= y < h ->
  pixels w h f !! Z.to_nat (y * w + x) = Some (f x y).
Proof.
  intros Hx Hy. unfold pixels. rewrite list_lookup_fmap.
  rewrite lookup_seq_lt by nia. cbn. rewrite Z2Nat.id by nia.
  rewrite index_mod, index_div by lia. reflexivity.
Qed.

Lemma pixels_lookup_nat (w h : Z) (f : Z -> Z -> Z) (k : nat) :
  (k < Z.to_nat (w * h))%nat ->
  pixels w h f !! k = Some (f (Z.of_nat k mod w) (Z.of_nat k / w)).
Proof.
  intros Hk. unfold pixels. rewrite list_lookup_fmap.
  rewrite lookup_seq_lt by exact Hk. reflexivity.
Qed.

Lemma pixel_at_pixels (w h : Z) (f : Z -> Z -> Z) (x y : Z) :
  0 <= x < w -> 0 <= y < h ->
  pixel_at (Image2D w h (pixels w h f)) x y = f x y.
Proof.
  intros Hx Hy. unfold pixel_at, pixel_index. cbn [image_width image_data].
  rewrite nth_lookup, pixels_lookup by assumption. reflexivity.
Qed.

Lemma pixels_ext (w h : Z) (f g : Z -> Z -> Z) :
  0 <= w ->
  (forall x y, 0 <= x < w -> 0 <= y < h -> f x y = g x y) ->
  pixels w h f = pixels w h g.
Proof.
  intros Hw Hfg. unfold pixels. apply map_ext_in. intros k Hk.
  apply in_seq in Hk.
  assert (0 < w).
  { destruct (decide (w = 0)) as [->|]; [|lia]. rewrite Z.mul_0_l in Hk. lia. }
  apply Hfg.
  - apply Z.mod_pos_bound. lia.
  - split; [apply Z.div_pos; lia|]. apply Z.div_lt_upper_bound; lia.
Qed.

Lemma pixels_of_data (w h : Z) (data : list Z) :
  0 <= w -> length data = Z.to_nat (w * h) ->
  pixels w h (fun x y => nth (Z.to_nat (y * w + x)) data 0) = data.
Proof.
  intros Hw Hlen. apply list_eq. intros k.
  destruct (decide (k < Z.to_nat (w * h))%nat) as [Hk|Hk].
  - rewrite pixels_lookup_nat by exact Hk.
    assert (0 < w).
    { destruct (decide (w = 0)) as [->|]; [|lia]. rewrite Z.mul_0_l in Hk. lia. }
    replace (Z.of_nat k / w * w + Z.of_nat k mod w) with (Z.of_nat k)
      by (rewrite (Z.div_mod (Z.of_nat k) w) at 1; lia).
    rewrite Nat2Z.id. symmetry. rewrite nth_lookup.
    destruct (data !! k) eqn:E; [reflexivity|].
    apply lookup_ge_None in E. lia.
  - rewrite !lookup_ge_None_2; [reflexivity|lia|rewrite pixels_length; lia].
Qed.

Lemma set_image_data_id (img : image2d_t) : set_image_data img (image_data img) = img.
Proof. destruct img; reflexivity. Qed.

(** ** The convolution kernel over a whole NDRange *)

Section ConvolutionRange.

Context {F : Type} `{FloatOps F}.

Variable sourceImage : image2d_t.
Variable filter : list F.
Variable filterWidth : Z.
Variable sampler : sampler_t.

Local Abbreviation conv_value := (conv_value sourceImage filter filterWidth sampler).

Lemma convolution_range_scatter (rows cols : Z) (items : list (Z * Z)) (out : image2d_t) :
  fold_left
    (fun o gid => Kernels.convolution sourceImage o rows cols filter filterWidth sampler gid)
    items out
  = set_image_data out
      (scatter (conv_guard (image_width out) (image_height out) rows cols)
               (conv_index (image_width out)) conv_value items (image_data out)).
Proof.
  revert out. induction items as [|[c r] items IH]; intros out.
  - cbn. symmetry. apply set_image_data_id.
  - cbn [fold_left]. rewrite IH. unfold scatter at 2. cbn [fold_left].
    fold (scatter (conv_guard (image_width out) (image_height out) rows cols)
                  (conv_index (image_width out)) conv_value).
    unfold Kernels.convolution, write_imageui, conv_guard, in_image. cbn [fst snd].
    destruct ((r <? rows) && (c <? cols)); cbn [andb]; [|reflexivity].
    destruct ((0 <=? c) && (c <? image_width out) && (0 <=? r) && (r <? image_height out));
      reflexivity.
Qed.

Lemma convolution_range_full (w h : Z) (data : list Z) :
  0 <= w -> 0 <= h -> length data = Z.to_nat (w * h) ->
  image_width sourceImage = w -> image_height sourceImage = h ->
  Kernels.convolution_range sourceImage (Image2D w h data) h w filter filterWidth sampler (w, h)
  = Kernels.convolved sourceImage filter filterWidth sampler.
Proof.
  intros Hw Hh Hlen Hsw Hsh. unfold Kernels.convolution_range.
  rewrite convolution_range_scatter. unfold Kernels.convolved, set_image_data.
  cbn [image_width image_height image_data]. rewrite Hsw, Hsh. f_equal.
  apply list_eq. intros k.
  destruct (decide (k < Z.to_nat (w * h))%nat) as [Hk|Hk].
  - rewrite pixels_lookup_nat by exact Hk.
    assert (0 < w).
    { destruct (decide (w = 0)) as [->|]; [|lia]. rewrite Z.mul_0_l in Hk. lia. }
    set (x := Z.of_nat k mod w). set (y := Z.of_nat k / w).
    assert (Hx : 0 <= x < w) by (apply Z.mod_pos_bound; lia).
    assert (Hy : 0 <= y < h).
    { split; [apply Z.div_pos; lia|]. apply Z.div_lt_upper_bound; lia. }
    assert (Hkxy : k = conv_index w (x, y)).
    { unfold conv_index. cbn [fst snd]. unfold x, y.
      rewrite (Z.mul_comm (Z.of_nat k / w)), <- Z.div_mod by lia. lia. }
    rewrite Hkxy at 1. rewrite scatter_hit; [reflexivity|..].
    + intros [x1 y1] [x2 y2] H1 H2 _ _ Hidx.
      apply work_items_elem in H1, H2; try lia.
      unfold conv_index in Hidx. cbn [fst snd] in Hidx.
      assert (Hz : y1 * w + x1 = y2 * w + x2) by nia.
      assert (Hy12 : y1 = y2) by nia. rewrite Hy12 in *. f_equal. lia.
    + apply work_items_elem; lia.
    + unfold conv_guard. cbn [fst snd].
      repeat (apply andb_true_intro; split); lia.
    + rewrite <- Hkxy. lia.
  - rewrite !lookup_ge_None_2; [reflexivity|rewrite pixels_length; lia|].
    rewrite scatter_length. lia.
Qed.

End ConvolutionRange.

(** ** The filter of kinectFilter_clc *)

Lemma bind_done {S A B : Type} (m : CL S A) (k : A -> CL S B) (s s' : S) (a : A) :
  m s = Done (a, s') -> bind m k s = k a s'.
Proof. intros Hm. unfold bind. rewrite Hm. reflexivity. Qed.

Lemma bind_assoc {S A B C : Type} (m : CL S A) (k1 : A -> CL S B) (k2 : B -> CL S C) (s : S) :
  bind (bind m k1) k2 s = bind m (fun x => bind (k1 x) k2) s.
Proof. unfold bind. destruct (m s) as [[a s']| |]; reflexivity. Qed.

Lemma firstn_nth_lt {A : Type} (l : list A) (n i : nat) (d : A) :
  (i < n)%nat -> nth i (firstn n l) d = nth i l d.
Proof.
  intros Hi. rewrite !nth_lookup. rewrite (lookup_take_lt l n i) by exact Hi. reflexivity.
Qed.

Lemma win_size :
  0 < gl_win_width < 2 ^ 31 /\ 0 < gl_win_height < 2 ^ 31
  /\ gl_win_width * gl_win_height < 2 ^ 31.
Proof. unfold gl_win_width, gl_win_height. lia. Qed.

Lemma win_width_val : gl_win_width = 640.
Proof. reflexivity. Qed.

Lemma win_height_val : gl_win_height = 480.
Proof. reflexivity. Qed.

Lemma frame_pixels_eq : Clc.frame_pixels = Z.to_nat (gl_win_width * gl_win_height).
Proof. reflexivity. Qed.

(** The proofs use the size of the window through [win_size] only. *)
Opaque gl_win_width gl_win_height Clc.frame_pixels.

Ltac win_size :=
  pose proof win_size as (? & ? & ?); pose proof frame_pixels_eq.

Section ClcFilter.

Context {F : Type} `{FloatOps F}.

Local Abbreviation w := gl_win_width.
Local Abbreviation h := gl_win_height.

Lemma region_checks :
  (0 <=? 0) && (0 <=? 0) && (0 <=? w) && (0 <=? h) && (0 + w <=? w) && (0 + h <=? h) = true.
Proof. win_size. repeat (apply andb_true_intro; split); lia. Qed.

Lemma clEnqueueWriteImage_ok (f : @Clc.Filter F) (m : cl_mem) (img0 : image2d_t)
    (image : list Z) :
  Clc.holds_frame (Clc.objects (Clc.context f)) m img0 ->
  (Clc.frame_pixels <= length image)%nat ->
  Clc.clEnqueueWriteImage m (0, 0, 0) (w, h, 1) image f
  = Done (CL_SUCCESS,
          Clc.submit (EnqueueWriteImage m (w, h, 1) (firstn Clc.frame_pixels image))
            (<[m := @Clc.MemImage F (Clc.uploaded image)]> (Clc.objects (Clc.context f))) f).
Proof.
  intros (Hm & Hw0 & Hh0 & _) Hlen. unfold Clc.clEnqueueWriteImage. rewrite Hm.
  destruct img0 as [w0 h0 data0]. cbn [image_width image_height] in *. subst w0 h0.
  rewrite region_checks. win_size.
  destruct (Z.ltb_spec (Z.of_nat (length image)) (w * h)) as [Hlt|_]; [lia|].
  unfold Clc.uploaded, set_image_data. cbn [image_width image_height].
  rewrite <- (pixels_of_data w h (firstn Clc.frame_pixels image)) at 2;
    [|lia|rewrite length_take; lia].
  rewrite (pixels_ext w h _ (fun x y => nth (Z.to_nat (y * w + x)) (firstn Clc.frame_pixels image) 0));
    [reflexivity|lia|].
  intros x y Hx Hy.
  replace ((0 <=? x) && (x <? 0 + w) && (0 <=? y) && (y <? 0 + h)) with true
    by (symmetry; repeat (apply andb_true_intro; split); lia).
  rewrite !Z.sub_0_r. symmetry. apply firstn_nth_lt. nia.
Qed.

Lemma clEnqueueNDRangeKernel_ok (f : @Clc.Filter F) (src dst flt : cl_mem)
    (simg dimg : image2d_t) (fl : list F) :
  kernel_args (Clc.kernelConv f) !! 0%nat = Some (ArgMem src) ->
  kernel_args (Clc.kernelConv f) !! 1%nat = Some (ArgMem dst) ->
  kernel_args (Clc.kernelConv f) !! 2%nat = Some (ArgInt h) ->
  kernel_args (Clc.kernelConv f) !! 3%nat = Some (ArgInt w) ->
  kernel_args (Clc.kernelConv f) !! 4%nat = Some (ArgMem flt) ->
  kernel_args (Clc.kernelConv f) !! 5%nat = Some (ArgInt Clc.filterWidth) ->
  kernel_args (Clc.kernelConv f) !! 6%nat = Some (ArgSampler Clc.the_sampler) ->
  Clc.holds_frame (Clc.objects (Clc.context f)) src simg ->
  Clc.holds_frame (Clc.objects (Clc.context f)) dst dimg ->
  Clc.objects (Clc.context f) !! flt = Some (Clc.MemBuffer fl) ->
  src <> dst ->
  Clc.clEnqueueNDRangeKernel (w, h) f
  = Done (CL_SUCCESS,
          Clc.submit (EnqueueNDRangeKernel (Clc.kernelConv f) (w, h))
            (<[dst := @Clc.MemImage F (Kernels.convolved simg fl Clc.filterWidth Clc.the_sampler)]>
               (Clc.objects (Clc.context f))) f).
Proof.
  intros H0 H1 H2 H3 H4 H5 H6 (Hsrc & Hsw & Hsh & _) (Hdst & Hdw & Hdh & Hlen) Hflt Hne.
  destruct dimg as [dw dh ddata]. cbn [image_width image_height image_data] in *.
  subst dw dh.
  unfold Clc.clEnqueueNDRangeKernel.
  rewrite H0, H1, H2, H3, H4, H5, H6, Hsrc, Hdst, Hflt.
  destruct (decide (src = dst)) as [|_]; [contradiction|].
  win_size. rewrite !uint32_small by lia.
  rewrite convolution_range_full; try assumption; try lia.
  reflexivity.
Qed.

Lemma clEnqueueReadImage_ok (f : @Clc.Filter F) (m : cl_mem) (img : image2d_t)
    (ptr : list Z) :
  Clc.holds_frame (Clc.objects (Clc.context f)) m img ->
  (Clc.frame_pixels <= length ptr)%nat ->
  Clc.clEnqueueReadImage m (0, 0, 0) (w, h, 1) ptr f
  = Done ((CL_SUCCESS, image_data img ++ skipn Clc.frame_pixels ptr),
          Clc.submit (EnqueueReadImage m (w, h, 1)) (Clc.objects (Clc.context f)) f).
Proof.
  intros (Hm & Hiw & Hih & Hdata) Hlen. unfold Clc.clEnqueueReadImage. rewrite Hm.
  destruct img as [iw ih data]. cbn [image_width image_height image_data] in *.
  subst iw ih.
  rewrite region_checks. win_size.
  destruct (Z.ltb_spec (Z.of_nat (length ptr)) (w * h)) as [Hlt|_]; [lia|].
  assert (E : pixels w h (fun x y => pixel_at (Image2D w h data) (0 + x) (0 + y)) = data).
  { etransitivity; [|apply (pixels_of_data w h data); lia].
    apply pixels_ext; [lia|]. intros x y Hx Hy.
    unfold pixel_at, pixel_index. cbn [image_width image_data].
    rewrite !Z.add_0_l. reflexivity. }
  rewrite E. rewrite <- frame_pixels_eq. reflexivity.
Qed.

Lemma convolved_length (src : image2d_t) (fl : list F) (fw : Z) (smp : sampler_t) :
  image_width src = w -> image_height src = h ->
  length (image_data (Kernels.convolved src fl fw smp)) = Clc.frame_pixels.
Proof.
  intros Hsw Hsh. unfold Kernels.convolved. cbn [image_data].
  rewrite pixels_length, Hsw, Hsh. symmetry. apply frame_pixels_eq.
Qed.

Lemma bind_chk_success {S B : Type} (funcName : string) (k : unit -> CL S B) (s : S) :
  bind (Clc.chk funcName CL_SUCCESS) k s = k tt s.
Proof. reflexivity. Qed.

Lemma bind_clSetKernelArg {B : Type} (index : nat) (a : kernel_arg F)
    (k : Z -> CL (@Clc.Filter F) B) (f : @Clc.Filter F) :
  (index < 7)%nat ->
  bind (Clc.clSetKernelArg index a) k f
  = k CL_SUCCESS (Clc.set_kernelConv (setArg (Clc.kernelConv f) index a) f).
Proof.
  intros Hi. unfold bind, Clc.clSetKernelArg.
  destruct (Nat.ltb_spec index 7) as [_|Hge]; [reflexivity|lia].
Qed.

Ltac norm :=
  cbn [Clc.submit Clc.set_kernelConv Clc.origin Clc.region Clc.global Clc.smoothed
       Clc.context Clc.queue Clc.sampler Clc.bufferBoxFilter Clc.bufferLaplacianFilter
       Clc.bufferSourceImage Clc.bufferOutputImage Clc.bufferInterImage1
       Clc.bufferInterImage2 Clc.kernelConv Clc.objects Clc.next_mem
       setArg kernel_args kernel_name].

Ltac exec :=
  repeat first
    [ rewrite bind_assoc
    | rewrite bind_clSetKernelArg by lia; norm
    | rewrite bind_chk_success
    | progress change (Z.lor CL_SUCCESS CL_SUCCESS) with CL_SUCCESS ].

Lemma holds_frame_insert_ne (objs : gmap cl_mem (@Clc.memobj F)) (m m' : cl_mem)
    (o : @Clc.memobj F) (img : image2d_t) :
  m' <> m -> Clc.holds_frame objs m img -> Clc.holds_frame (<[m' := o]> objs) m img.
Proof.
  intros Hne (Hm & Hrest). split; [|exact Hrest].
  rewrite lookup_insert_ne by exact Hne. exact Hm.
Qed.

Lemma holds_frame_uploaded (objs : gmap cl_mem (@Clc.memobj F)) (m : cl_mem) (image : list Z) :
  (Clc.frame_pixels <= length image)%nat ->
  Clc.holds_frame (<[m := Clc.MemImage (Clc.uploaded image)]> objs) m (Clc.uploaded image).
Proof.
  intros Hlen. split; [apply lookup_insert_eq|]. split; [reflexivity|]. split; [reflexivity|].
  unfold Clc.uploaded. cbn [image_data]. rewrite length_take. lia.
Qed.

Lemma holds_frame_convolved (objs : gmap cl_mem (@Clc.memobj F)) (m : cl_mem)
    (src : image2d_t) (fl : list F) (fw : Z) (smp : sampler_t) :
  image_width src = w -> image_height src = h ->
  Clc.holds_frame (<[m := Clc.MemImage (Kernels.convolved src fl fw smp)]> objs) m
    (Kernels.convolved src fl fw smp).
Proof.
  intros Hsw Hsh. split; [apply lookup_insert_eq|].
  split; [exact Hsw|]. split; [exact Hsh|]. apply convolved_length; assumption.
Qed.

Ltac frames :=
  cbn [Clc.kernelConv Clc.set_kernelConv Clc.submit Clc.context Clc.objects];
  repeat (apply holds_frame_insert_ne; [discriminate|]);
  first [ eassumption
        | apply holds_frame_uploaded; assumption
        | apply holds_frame_convolved; reflexivity ].

Ltac lookup_args :=
  cbn [Clc.kernelConv Clc.set_kernelConv Clc.submit Clc.context Clc.objects
       Clc.global Clc.origin Clc.region kernel_args kernel_name setArg];
  lazymatch goal with
  | |- Clc.holds_frame _ _ _ => frames
  | |- _ <> _ => discriminate
  | |- _ =>
      repeat first
        [ rewrite lookup_insert_eq
        | rewrite lookup_insert_ne by (intro; discriminate) ];
      first [ eassumption | reflexivity ]
  end.

Lemma convolve_spec (f : @Clc.Filter F) (image : list Z) :
  Clc.Filter_ok f -> (Clc.frame_pixels <= length image)%nat ->
  exists f',
    Clc.convolve image f
    = Done (Clc.filtered (Clc.smoothed f) image ++ skipn Clc.frame_pixels image, f')
    /\ Clc.Filter_ok f'
    /\ Clc.smoothed f' = Clc.smoothed f
    /\ Clc.queue f' = Clc.queue f ++ Clc.convolve_log (Clc.smoothed f) (Clc.kernelConv f) image.
Proof.
  intros Hok Hlen.
  destruct Hok as [Horg Hreg Hglob Hsrc Hi1 Hi2 Hout Hbox Hlap Himgs Hbf Hlf Hkn Hrows Hcols
                   Hfw Hsmp].
  destruct (Himgs 0%nat ltac:(lia)) as (d0 & Hd0).
  destruct (Himgs 1%nat ltac:(lia)) as (d1 & Hd1).
  destruct (Himgs 2%nat ltac:(lia)) as (d2 & Hd2).
  destruct (Himgs 3%nat ltac:(lia)) as (d3 & Hd3).
  destruct f as [org reg glob sm [nxt objs] q smp bbox blap bsrc bout bi1 bi2 k].
  cbn [Clc.origin Clc.region Clc.global Clc.smoothed Clc.context Clc.queue Clc.sampler
       Clc.bufferBoxFilter Clc.bufferLaplacianFilter Clc.bufferSourceImage
       Clc.bufferOutputImage Clc.bufferInterImage1 Clc.bufferInterImage2
       Clc.kernelConv Clc.objects] in *.
  subst org reg glob bsrc bi1 bi2 bout bbox blap.
  unfold Clc.convolve.
  unfold bind at 1. unfold gets at 1. cbn beta iota.
  cbn [Clc.origin Clc.region Clc.global Clc.smoothed Clc.context Clc.queue Clc.sampler
       Clc.bufferBoxFilter Clc.bufferLaplacianFilter Clc.bufferSourceImage
       Clc.bufferOutputImage Clc.bufferInterImage1 Clc.bufferInterImage2
       Clc.kernelConv Clc.objects id].
  erewrite bind_done; [|eapply (clEnqueueWriteImage_ok _ 0%nat d0); lookup_args].
  norm. rewrite bind_chk_success.
  destruct sm.
  - (* smoothed *)
    exec.
    erewrite bind_done;
      [|eapply (clEnqueueNDRangeKernel_ok _ 0%nat 1%nat 4%nat); lookup_args].
    norm. exec.
    erewrite bind_done;
      [|eapply (clEnqueueNDRangeKernel_ok _ 1%nat 2%nat 4%nat); lookup_args].
    norm. exec.
    erewrite bind_done;
      [|eapply (clEnqueueNDRangeKernel_ok _ 2%nat 3%nat 5%nat); lookup_args].
    norm. exec.
    erewrite bind_done; [|eapply (clEnqueueReadImage_ok _ 3%nat); lookup_args].
    norm. cbn [fst snd]. exec.
    eexists. split; [reflexivity|]. split; [|split; [reflexivity|]].
    + constructor; try lookup_args.
      intros m Hm.
      destruct m as [|[|[|[|m]]]]; [| | | |lia]; eexists; frames.
    + cbn [Clc.queue Clc.submit Clc.set_kernelConv Clc.kernelConv].
      unfold Clc.convolve_log. rewrite <- !app_assoc. reflexivity.
  - (* raw *)
    exec.
    erewrite bind_done;
      [|eapply (clEnqueueNDRangeKernel_ok _ 0%nat 3%nat 5%nat); lookup_args].
    norm. exec.
    erewrite bind_done; [|eapply (clEnqueueReadImage_ok _ 3%nat); lookup_args].
    norm. cbn [fst snd]. exec.
    eexists. split; [reflexivity|]. split; [|split; [reflexivity|]].
    + constructor; try lookup_args.
      intros m Hm.
      destruct m as [|[|[|[|m]]]]; [| | | |lia]; eexists; frames.
    + cbn [Clc.queue Clc.submit Clc.set_kernelConv Clc.kernelConv].
      unfold Clc.convolve_log. rewrite <- !app_assoc. reflexivity.
Qed.

End ClcFilter.

Section ClcConstructor.

Context {F : Type} `{FloatOps F}.

Lemma blank_frame (objs : gmap cl_mem (@Clc.memobj F)) (m : cl_mem) :
  Clc.holds_frame
    (<[m := Clc.MemImage (Image2D gl_win_width gl_win_height
                            (pixels gl_win_width gl_win_height (fun _ _ => 0)))]> objs)
    m (Image2D gl_win_width gl_win_height (pixels gl_win_width gl_win_height (fun _ _ => 0))).
Proof.
  split; [apply lookup_insert_eq|]. split; [reflexivity|]. split; [reflexivity|].
  cbn [image_data]. rewrite pixels_length. symmetry. apply frame_pixels_eq.
Qed.

Lemma Filter_new_init : @Clc.Filter_new F _ = Done Clc.Filter_init.
Proof.
  unfold Clc.Filter_new, Clc.clCreateImage, Clc.clCreateBuffer, Clc.clCreate.
  cbn [Clc.next_mem Clc.objects].
  unfold Clc.clEnqueueWriteBuffer. cbn [Clc.next_mem Clc.objects].
  rewrite lookup_insert_ne by discriminate. rewrite lookup_insert_eq.
  change (Z.of_nat (length (repeat (f_of_Z 0) (Z.to_nat (Clc.filterSize / 4)))) * 4 <? Clc.filterSize)
    with false.
  cbn [negb Z.eqb CL_SUCCESS Clc.next_mem Clc.objects].
  rewrite lookup_insert_ne by discriminate. rewrite lookup_insert_eq.
  change (Z.of_nat (length (repeat (f_of_Z 0) (Z.to_nat (Clc.filterSize / 4)))) * 4 <? Clc.filterSize)
    with false.
  cbn [negb Z.eqb CL_SUCCESS fst snd].
  reflexivity.
Qed.

Lemma Filter_init_ok : @Clc.Filter_ok F _ Clc.Filter_init.
Proof.
  constructor;
    cbn [Clc.Filter_init Clc.origin Clc.region Clc.global Clc.context Clc.objects
         Clc.bufferSourceImage
         Clc.bufferInterImage1 Clc.bufferInterImage2 Clc.bufferOutputImage
         Clc.bufferBoxFilter Clc.bufferLaplacianFilter Clc.kernelConv
         kernel_args kernel_name setArg];
    try reflexivity.
  intros m Hm.
  destruct m as [|[|[|[|m]]]]; [| | | |lia]; eexists;
      repeat (apply holds_frame_insert_ne; [discriminate|]); apply blank_frame.
Qed.

End ClcConstructor.

(** ** The passes of [convolve] *)

Section ClcPasses.

Context {F : Type} `{FloatOps F}.



End ClcPasses.

(** ** Filters of width 3 *)

Section Width3.

Context {F : Type} `{FloatOps F}.

Lemma convolution_sum_3 (src : image2d_t) (flt : list F) (smp : sampler_t) (column row : Z) :
  Kernels.convolution_sum src flt 3 smp column row
  = sum3x3 (fun j i => read_imageui src smp
                         (int32 (uint32 (column + j)), int32 (uint32 (row + i)))) flt.
Proof.
  unfold Kernels.convolution_sum. cbv zeta.
  change (int32 (uint32 3 / 2)) with 1. change (interval (Z.opp 1) 1) with [-1; 0; 1].
  reflexivity.
Qed.

Lemma read_pixels_clamp (w h : Z) (g : Z -> Z -> Z) (x y : Z) :
  0 < w -> 0 < h ->
  read_imageui (Image2D w h (pixels w h g)) Clc.the_sampler (x, y)
  = g (clamp 0 (w - 1) x) (clamp 0 (h - 1) y).
Proof.
  intros Hw Hh. unfold read_imageui. cbn [addressing Clc.the_sampler image_width image_height].
  apply pixel_at_pixels.
  - pose proof (clamp_range 0 (w - 1) x). lia.
  - pose proof (clamp_range 0 (h - 1) y). lia.
Qed.

Lemma convolved_column (flt : list F) (g : Z -> Z) :
  Kernels.convolved (Clc.column_image g) flt 3 Clc.the_sampler
  = Clc.column_image (Clc.column_filter flt g).
Proof.
  unfold Kernels.convolved, Clc.column_image. cbn [image_width image_height].
  win_size.
  rewrite (pixels_ext gl_win_width gl_win_height _ (fun x _ => Clc.column_filter flt g x));
    [reflexivity|lia|].
  intros x y Hx Hy.
  unfold Clc.column_filter.
  rewrite convolution_sum_3. unfold sum3x3.
  rewrite !int32_uint32 by lia.
  rewrite !read_pixels_clamp by lia. reflexivity.
Qed.

End Width3.

(** ** Smoothing in binary32 arithmetic *)

Section Smoothing.

Variable oor : float32 -> Z.
Variable divide : float32 -> float32 -> float32.

Local Abbreviation B := (binary32 oor divide).

Ltac by_columns :=
  unfold Clc.column_filter, sum3x3, step_column, edge_column, clamp;
  rewrite win_width_val;
  repeat match goal with
    | |- context [?a <? ?b] => destruct (Z.ltb_spec a b)
    end;
  try lia; vm_compute; reflexivity.

Lemma box_step (x : Z) :
  0 <= x < gl_win_width ->
  @Clc.column_filter _ B (@Clc.box_filter _ B) step_column x = step_column x.
Proof. intros Hx. rewrite win_width_val in Hx. by_columns. Qed.

Lemma box_blur_step :
  @Clc.box_blur _ B (Clc.column_image step_column) = Clc.column_image step_column.
Proof.
  unfold Clc.box_blur. change Clc.filterWidth with 3. rewrite convolved_column.
  unfold Clc.column_image. win_size.
  rewrite (pixels_ext gl_win_width gl_win_height _ (fun x _ => step_column x));
    [reflexivity|lia|].
  intros x y Hx _. apply box_step. exact Hx.
Qed.

Lemma uploaded_column (g : Z -> Z) :
  Clc.uploaded (pixels gl_win_width gl_win_height (fun x _ => g x)) = Clc.column_image g.
Proof.
  unfold Clc.uploaded, Clc.column_image. rewrite firstn_all2; [reflexivity|].
  rewrite pixels_length, frame_pixels_eq. lia.
Qed.

Lemma filtered_step :
  @Clc.filtered _ B true step_frame = @Clc.filtered _ B false step_frame.
Proof.
  unfold Clc.filtered, step_frame. rewrite uploaded_column, !box_blur_step. reflexivity.
Qed.

Lemma column_image_lookup (g : Z -> Z) (x y : Z) :
  0 <= x < gl_win_width -> 0 <= y < gl_win_height ->
  image_data (Clc.column_image g) !! Z.to_nat (y * gl_win_width + x) = Some (g x).
Proof. intros Hx Hy. unfold Clc.column_image. cbn [image_data]. apply pixels_lookup; assumption. Qed.

Lemma filtered_edge :
  @Clc.filtered _ B true edge_frame <> @Clc.filtered _ B false edge_frame.
Proof.
  unfold Clc.filtered, edge_frame. rewrite uploaded_column.
  unfold Clc.laplacian, Clc.box_blur. change Clc.filterWidth with 3.
  rewrite !convolved_column. intros Heq.
  apply (f_equal (fun l => l !! Z.to_nat (0 * gl_win_width + 317))) in Heq.
  win_size. rewrite !column_image_lookup in Heq by (rewrite ?win_width_val; lia).
  revert Heq. unfold Clc.column_filter, sum3x3, edge_column, clamp.
  rewrite win_width_val. vm_compute. discriminate.
Qed.

Lemma step_nonconstant : Clc.has_nonconstant_neighbourhood (Clc.uploaded step_frame).
Proof.
  unfold step_frame. rewrite uploaded_column. win_size.
  exists 319, 0, 0, 1. unfold Clc.column_image. cbn [image_width image_height].
  rewrite win_width_val in *.
  repeat (split; [lia|]).
  rewrite read_pixels_clamp by lia.
  rewrite pixel_at_pixels by lia.
  unfold step_column, clamp. discriminate.
Qed.

End Smoothing.

Section Toggle.

Context {F : Type} `{FloatOps F}.

Lemma toggleSmoothing_eq (f : @Clc.Filter F) :
  Clc.toggleSmoothing f
  = Done (negb (Clc.smoothed f), Clc.set_smoothed (negb (Clc.smoothed f)) f).
Proof. reflexivity. Qed.

Lemma set_smoothed_ok (b : bool) (f : @Clc.Filter F) :
  Clc.Filter_ok f -> Clc.Filter_ok (Clc.set_smoothed b f).
Proof. intros []. constructor; assumption. Qed.

Lemma set_smoothed_same (f : @Clc.Filter F) : Clc.set_smoothed (Clc.smoothed f) f = f.
Proof. destruct f; reflexivity. Qed.

Lemma toggle_twice (f : @Clc.Filter F) :
  bind Clc.toggleSmoothing (fun _ => Clc.toggleSmoothing) f = Done (Clc.smoothed f, f).
Proof.
  unfold bind. rewrite !toggleSmoothing_eq. destruct f as [? ? ? sm ? ? ? ? ? ? ? ? ? ?].
  destruct sm; reflexivity.
Qed.

End Toggle.

(** ** Smoothing on and off *)

(** C3, as stated, fails: the step frame has a non-constant neighbourhood,
    and the constructed filter returns the same image for it with smoothing
    on and, after [toggleSmoothing], with smoothing off. *)
Lemma smoothing_same_output :
  length step_frame = Clc.frame_pixels
  /\ Clc.has_nonconstant_neighbourhood (Clc.uploaded step_frame)
  /\ exists (f0 : @Clc.Filter float32) out fa fb,
       @Clc.Filter_new _ (binary32 oor_zero ieee_divide) = Done f0
       /\ Clc.smoothed f0 = true
       /\ @Clc.convolve _ (binary32 oor_zero ieee_divide) step_frame f0 = Done (out, fa)
       /\ bind (@Clc.toggleSmoothing _)
               (fun _ => @Clc.convolve _ (binary32 oor_zero ieee_divide) step_frame) f0
          = Done (out, fb)
       /\ Clc.smoothed fa = true /\ Clc.smoothed fb = false.
Proof.
  assert (Hlen : length step_frame = Clc.frame_pixels).
  { unfold step_frame. rewrite pixels_length. symmetry. apply frame_pixels_eq. }
  split; [exact Hlen|]. split; [apply step_nonconstant|].
  pose (f0 := @Clc.Filter_init _ (binary32 oor_zero ieee_divide)).
  assert (Hnew : @Clc.Filter_new _ (binary32 oor_zero ieee_divide) = Done f0) by apply Filter_new_init.
  assert (Hok : Clc.Filter_ok f0) by apply Filter_init_ok.
  assert (Hsm : Clc.smoothed f0 = true) by reflexivity.
  assert (Hle : (Clc.frame_pixels <= length step_frame)%nat) by lia.
  destruct (convolve_spec f0 step_frame Hok Hle) as (fa & Ha & _ & Hsa & _).
  destruct (convolve_spec (Clc.set_smoothed false f0) step_frame
              (set_smoothed_ok false f0 Hok) Hle) as (fb & Hb & _ & Hsb & _).
  exists f0,
    (@Clc.filtered _ (binary32 oor_zero ieee_divide) true step_frame
     ++ skipn Clc.frame_pixels step_frame), fa, fb.
  split; [exact Hnew|]. split; [exact Hsm|]. split; [|split; [|split]].
  - rewrite Ha, Hsm. reflexivity.
  - unfold bind. rewrite toggleSmoothing_eq, Hsm. cbn [negb].
    rewrite Hb. cbn [Clc.smoothed Clc.set_smoothed].
    rewrite (filtered_step oor_zero ieee_divide). reflexivity.
  - rewrite Hsa. exact Hsm.
  - rewrite Hsb. reflexivity.
Qed.

(** C3, amended. With smoothing off [convolve] returns the Laplacian of the
    frame, with smoothing on the Laplacian of the frame after two box
    filters. [toggleSmoothing] flips the flag and changes nothing else of
    the filter, so that it shows in the next [convolve] only, and two
    calls of it restore the filter. The two modes return different images
    for some frames (the edge frame) and the same image for others, also
    non-constant ones (the step frame). *)
Theorem smoothing_modes (oor : float32 -> Z) (divide : float32 -> float32 -> float32)
    (f : @Clc.Filter float32) (image : list Z) :
  @Clc.Filter_ok _ (binary32 oor divide) f -> (Clc.frame_pixels <= length image)%nat ->
  (exists f',
      @Clc.convolve _ (binary32 oor divide) image f
      = Done (image_data
                (@Clc.laplacian _ (binary32 oor divide)
                   (if Clc.smoothed f
                    then @Clc.box_blur _ (binary32 oor divide)
                           (@Clc.box_blur _ (binary32 oor divide) (Clc.uploaded image))
                    else Clc.uploaded image))
              ++ skipn Clc.frame_pixels image, f')
      /\ Clc.smoothed f' = Clc.smoothed f)
  /\ (exists f1,
        Clc.toggleSmoothing f = Done (negb (Clc.smoothed f), f1)
        /\ Clc.smoothed f1 = negb (Clc.smoothed f)
        /\ Clc.context f1 = Clc.context f
        /\ Clc.queue f1 = Clc.queue f
        /\ Clc.kernelConv f1 = Clc.kernelConv f
        /\ @Clc.Filter_ok _ (binary32 oor divide) f1)
  /\ bind Clc.toggleSmoothing (fun _ => Clc.toggleSmoothing) f = Done (Clc.smoothed f, f)
  /\ @Clc.filtered _ (binary32 oor divide) true edge_frame
     <> @Clc.filtered _ (binary32 oor divide) false edge_frame
  /\ @Clc.filtered _ (binary32 oor divide) true step_frame
     = @Clc.filtered _ (binary32 oor divide) false step_frame.
Proof.
  intros Hok Hlen. split.
  { destruct (@convolve_spec _ (binary32 oor divide) f image Hok Hlen) as (f' & Hrun & _ & Hsm & _).
    exists f'. split; [exact Hrun|exact Hsm]. }
  split.
  { exists (Clc.set_smoothed (negb (Clc.smoothed f)) f).
    split; [apply toggleSmoothing_eq|].
    repeat (split; [reflexivity|]). apply set_smoothed_ok. exact Hok. }
  split; [apply toggle_twice|].
  split; [apply filtered_edge|apply filtered_step].
Qed.

Local Existing Instance device0.

Local Abbreviation init0 := (@Clc.Filter_init float32 device0).

Lemma step_frame_length : length step_frame = Clc.frame_pixels.
Proof. unfold step_frame. rewrite pixels_length. symmetry. apply frame_pixels_eq. Qed.


Lemma smoothing_modes_witness :
  Clc.Filter_ok init0
  /\ (Clc.frame_pixels <= length edge_frame)%nat
  /\ bind Clc.toggleSmoothing (fun _ => Clc.toggleSmoothing)
       init0
     = Done (true, init0).
Proof.
  assert (Hok : Clc.Filter_ok init0) by apply Filter_init_ok.
  assert (Hlen : (Clc.frame_pixels <= length edge_frame)%nat).
  { unfold edge_frame. rewrite pixels_length, frame_pixels_eq. apply Nat.le_refl. }
  split; [exact Hok|]. split; [exact Hlen|].
  exact (proj1 (proj2 (proj2 (smoothing_modes oor_zero ieee_divide init0 edge_frame Hok Hlen)))).
Defined.

(** ** Frames of another size *)

Section FrameSize.

Context {F : Type} `{FloatOps F}.

Lemma uploaded_firstn (image : list Z) :
  Clc.uploaded (firstn Clc.frame_pixels image) = Clc.uploaded image.
Proof. unfold Clc.uploaded. rewrite take_take, Nat.min_id. reflexivity. Qed.

Lemma filtered_firstn (smooth : bool) (image : list Z) :
  Clc.filtered smooth (firstn Clc.frame_pixels image) = Clc.filtered smooth image.
Proof. unfold Clc.filtered. rewrite uploaded_firstn. reflexivity. Qed.

Lemma convolve_short (f : @Clc.Filter F) (image : list Z) :
  Clc.Filter_ok f -> (length image < Clc.frame_pixels)%nat ->
  Clc.convolve image f = Undefined.
Proof.
  intros Hok Hlen.
  destruct Hok as [Horg Hreg Hglob Hsrc Hi1 Hi2 Hout Hbox Hlap Himgs Hbf Hlf Hkn Hrows Hcols
                   Hfw Hsmp].
  destruct (Himgs 0%nat ltac:(lia)) as ([w0 h0 d0] & Hd0 & Hw0 & Hh0 & _).
  cbn [image_width image_height] in Hw0, Hh0. subst w0 h0.
  unfold Clc.convolve. unfold bind at 1. unfold gets at 1. cbn beta iota. unfold id.
  unfold bind at 1. unfold Clc.clEnqueueWriteImage.
  rewrite Hsrc, Horg, Hreg, Hd0. cbn [image_width image_height].
  rewrite region_checks. win_size.
  destruct (Z.ltb_spec (Z.of_nat (length image)) (gl_win_width * gl_win_height)) as [_|Hge];
    [reflexivity|lia].
Qed.

(** C6, amended. [convolve] makes no check of the size of the frame. A
    frame of at least 640 x 480 bytes is accepted whatever its size: its
    first 640 x 480 bytes are taken to be the image, and the bytes beyond
    them are left as they are. For a shorter frame the upload reads past
    the end of the buffer, and the behaviour is undefined. *)
Theorem convolve_any_size (f : @Clc.Filter F) (image : list Z) :
  Clc.Filter_ok f ->
  ((Clc.frame_pixels <= length image)%nat ->
     exists f',
       Clc.convolve image f
       = Done (Clc.filtered (Clc.smoothed f) (firstn Clc.frame_pixels image)
               ++ skipn Clc.frame_pixels image, f')
       /\ Clc.Filter_ok f')
  /\ ((length image < Clc.frame_pixels)%nat -> Clc.convolve image f = Undefined).
Proof.
  intros Hok. split.
  - intros Hlen. destruct (convolve_spec f image Hok Hlen) as (f' & Hrun & Hok' & _).
    exists f'. rewrite filtered_firstn. split; assumption.
  - apply convolve_short. exact Hok.
Qed.

End FrameSize.


(** C6, as stated, fails: a frame of 640 x 480 + 1 bytes is accepted by the
    constructed filter, which returns for it what it returns for its first
    640 x 480 bytes, the last byte left in place. *)
Lemma oversized_frame_accepted :
  length (step_frame ++ [7]) <> Z.to_nat (640 * 480)
  /\ exists out f' f'',
       Clc.convolve (step_frame ++ [7]) init0 = Done (out ++ [7], f')
       /\ Clc.convolve step_frame init0 = Done (out, f'').
Proof.
  split.
  { rewrite length_app, step_frame_length, frame_pixels_eq, win_width_val, win_height_val.
    cbn [length]. lia. }
  assert (Hok : Clc.Filter_ok init0) by apply Filter_init_ok.
  pose proof step_frame_length as Hlen.
  destruct (convolve_spec init0 (step_frame ++ [7]) Hok) as (f' & Hrun' & _).
  { rewrite length_app. lia. }
  destruct (convolve_spec init0 step_frame Hok) as (f'' & Hrun'' & _); [lia|].
  assert (E1 : skipn Clc.frame_pixels (step_frame ++ [7]) = [7]).
  { rewrite <- Hlen. apply drop_app_length. }
  assert (E2 : forall sm, Clc.filtered sm (step_frame ++ [7]) = Clc.filtered sm step_frame).
  { intros sm. rewrite <- (filtered_firstn sm (step_frame ++ [7])).
    rewrite <- Hlen at 1. rewrite take_app_length. reflexivity. }
  assert (E3 : skipn Clc.frame_pixels step_frame = []).
  { rewrite <- Hlen. apply drop_all. }
  exists (Clc.filtered true step_frame), f', f''. split.
  - rewrite Hrun', E1, E2. reflexivity.
  - rewrite Hrun'', E3, app_nil_r. reflexivity.
Qed.

Lemma convolve_any_size_witness :
  Clc.Filter_ok init0
  /\ (exists f',
        Clc.convolve step_frame init0
        = Done (Clc.filtered true (firstn Clc.frame_pixels step_frame)
                ++ skipn Clc.frame_pixels step_frame, f')
        /\ Clc.Filter_ok f').
Proof.
  assert (Hok : Clc.Filter_ok init0) by apply Filter_init_ok.
  split; [exact Hok|].
  apply (proj1 (convolve_any_size init0 step_frame Hok)).
  rewrite step_frame_length. apply Nat.le_refl.
Defined.

(** ** The frame mailbox of kinectFilter_clc *)

Section ClcMailbox.

Context {F : Type} `{FloatOps F}.

Variable cvtColor : Z -> Z -> list Z -> list Z.

Local Abbreviation getRGB := (Clc.getRGB cvtColor).
Local Abbreviation step := (Clc.step cvtColor).
Local Abbreviation run := (Clc.run cvtColor).

Lemma std_copy_all {A : Type} (src dst : list A) (n : nat) :
  length src = n -> length dst = n -> std_copy src n dst = src.
Proof.
  intros Hs Hd. unfold std_copy.
  rewrite firstn_all2 by lia. rewrite skipn_all2 by lia. apply app_nil_r.
Qed.

(** A copy of one element more than the source holds. *)
Lemma copy_checked_past_end {S A : Type} (src dst : list A) (s : S) :
  copy_checked src (length src + 1) dst s = Undefined.
Proof.
  unfold copy_checked.
  replace (length src + 1 <=? length src)%nat with false
    by (symmetry; apply Nat.leb_gt; lia).
  reflexivity.
Qed.

Lemma getRGB_none (buffer : list Z) (p : @Clc.Program F) :
  Clc.newRGBFrame (Clc.device p) = false ->
  getRGB buffer p = Done ((false, buffer), p).
Proof.
  intros Hnew. unfold Clc.getRGB. unfold bind at 1. unfold gets at 1. cbn beta iota.
  rewrite Hnew. reflexivity.
Qed.

Lemma getRGB_some (buffer : list Z) (p : @Clc.Program F) :
  Clc.newRGBFrame (Clc.device p) = true -> getRGB buffer p = Undefined.
Proof.
  intros Hnew. unfold Clc.getRGB. unfold bind at 1. unfold gets at 1. cbn beta iota.
  rewrite Hnew. cbn [negb]. unfold bind at 1. unfold Clc.copy_into_vector.
  rewrite copy_checked_past_end. reflexivity.
Qed.

Lemma getRGB_cases (buffer : list Z) (p : @Clc.Program F) :
  getRGB buffer p
  = if Clc.newRGBFrame (Clc.device p) then Undefined else Done ((false, buffer), p).
Proof.
  destruct (Clc.newRGBFrame (Clc.device p)) eqn:Hnew.
  - apply getRGB_some. exact Hnew.
  - apply getRGB_none. exact Hnew.
Qed.

Lemma run_cons (e : Clc.event) (es : list Clc.event) (image : list Z) (p : @Clc.Program F) :
  run (e :: es) image p = bind (step e image) (fun image => run es image) p.
Proof. reflexivity. Qed.

Lemma step_video (rgb : list Z) (t : Z) (image : list Z) (p : @Clc.Program F) :
  step (Clc.Video rgb t) image p
  = Done (image, {| Clc.device := Clc.VideoCallback rgb t (Clc.device p);
                    Clc.opencl := Clc.opencl p |}).
Proof. reflexivity. Qed.

Lemma step_keyF (image : list Z) (p : @Clc.Program F) :
  step Clc.KeyF image p
  = Done (image, {| Clc.device := Clc.device p;
                    Clc.opencl := Clc.set_smoothed (negb (Clc.smoothed (Clc.opencl p)))
                                    (Clc.opencl p) |}).
Proof. reflexivity. Qed.

Lemma step_draw (image : list Z) (p : @Clc.Program F) :
  step Clc.Draw image p
  = if Clc.newRGBFrame (Clc.device p) then Undefined else Done (image, p).
Proof.
  unfold Clc.step, bind. rewrite getRGB_cases.
  destruct (Clc.newRGBFrame (Clc.device p)); reflexivity.
Qed.

(** With a frame in the mailbox, a run ends at its first draw. *)
Lemma run_pending (es1 es2 : list Clc.event) :
  forall (image : list Z) (p : @Clc.Program F),
    Clc.newRGBFrame (Clc.device p) = true ->
    run (es1 ++ Clc.Draw :: es2) image p = Undefined.
Proof.
  induction es1 as [|e es1 IH]; intros image p Hnew.
  - cbn [app]. rewrite run_cons. unfold bind. rewrite step_draw, Hnew. reflexivity.
  - cbn [app]. rewrite run_cons. unfold bind. destruct e as [rgb t| |].
    + rewrite step_video. apply IH. reflexivity.
    + rewrite step_draw, Hnew. reflexivity.
    + rewrite step_keyF. apply IH. exact Hnew.
Qed.

Lemma run_video_draw (es1 es2 es3 : list Clc.event) (rgb : list Z) (t : Z) :
  forall (image : list Z) (p : @Clc.Program F),
    run (es1 ++ Clc.Video rgb t :: es2 ++ Clc.Draw :: es3) image p = Undefined.
Proof.
  induction es1 as [|e es1 IH]; intros image p.
  - cbn [app]. rewrite run_cons. unfold bind. rewrite step_video.
    apply run_pending. reflexivity.
  - cbn [app]. rewrite run_cons. unfold bind. destruct e as [rgb' t'| |].
    + rewrite step_video. apply IH.
    + rewrite step_draw. destruct (Clc.newRGBFrame (Clc.device p)); [reflexivity|apply IH].
    + rewrite step_keyF. apply IH.
Qed.

(** Without a frame in the mailbox, draws and presses of the F key leave
    the image and the flag as they are. *)
Lemma run_no_video (es : list Clc.event) :
  forall (image : list Z) (p : @Clc.Program F),
    Clc.newRGBFrame (Clc.device p) = false ->
    Forall (fun e => Clc.is_video e = false) es ->
    exists p2,
      run es image p = Done (image, p2)
      /\ Clc.newRGBFrame (Clc.device p2) = false.
Proof.
  induction es as [|e es IH]; intros image p Hflag Hes.
  - exists p. split; [reflexivity|exact Hflag].
  - inversion Hes as [|? ? He Hes']; subst.
    rewrite run_cons. unfold bind. destruct e as [rgb t| |]; [discriminate| |].
    + rewrite step_draw, Hflag. apply IH; assumption.
    + rewrite step_keyF. apply IH; assumption.
Qed.

Lemma videos_overwrite (rgb1 rgb2 : list Z) (t1 t2 : Z) (image : list Z) (f : @Clc.Filter F) :
  length rgb1 = Clc.video_bytes -> length rgb2 = Clc.video_bytes ->
  run [Clc.Video rgb1 t1; Clc.Video rgb2 t2] image (Clc.Program_init f)
  = Done (image, {| Clc.device := {| Clc.rgbBuffer := rgb2; Clc.newRGBFrame := true |};
                    Clc.opencl := f |}).
Proof.
  intros H1 H2. rewrite run_cons. unfold bind. rewrite step_video.
  rewrite run_cons. unfold bind. rewrite step_video.
  unfold Clc.VideoCallback, Clc.Program_init, Clc.MyFreenectDevice_new.
  cbn [Clc.run ret Clc.device Clc.opencl Clc.rgbBuffer].
  rewrite (std_copy_all rgb1) by (try apply repeat_length; assumption).
  rewrite (std_copy_all rgb2) by assumption.
  reflexivity.
Qed.

End ClcMailbox.

(** C2. In kinectFilter_clc the mailbox does not hand a frame over:
    [getRGB] copies the bytes from [gray.datastart] up to and including
    [gray.dataend], one more than [gray] holds and than the vector of the
    caller takes. A call of [getRGB] that finds a frame is therefore
    undefined, in every state and for every buffer, and a call returns, with
    [false] and the buffer as it was, only when no frame is pending: no call
    returns [true]. Every run in which the window is drawn after a frame
    was delivered is undefined. The delivery itself works as the claim has
    it: of two frames delivered in a row the second overwrites the first
    and is the one pending. *)
Theorem mailbox_overrun :
  forall (F : Type) (ops : FloatOps F) (cvtColor : Z -> Z -> list Z -> list Z),
    (forall buffer (p : @Clc.Program F),
        Clc.getRGB cvtColor buffer p
        = if Clc.newRGBFrame (Clc.device p) then Undefined
          else Done ((false, buffer), p))
    /\ (forall es1 rgb t es2 es3 image (p : @Clc.Program F),
          Clc.run cvtColor (es1 ++ Clc.Video rgb t :: es2 ++ Clc.Draw :: es3) image p
          = Undefined)
    /\ (forall rgb t image (f : @Clc.Filter F),
          Clc.run cvtColor [Clc.Video rgb t; Clc.Draw] image (Clc.Program_init f)
          = Undefined)
    /\ (forall rgb1 t1 rgb2 t2 image (f : @Clc.Filter F),
          length rgb1 = Clc.video_bytes -> length rgb2 = Clc.video_bytes ->
          Clc.run cvtColor [Clc.Video rgb1 t1; Clc.Video rgb2 t2] image (Clc.Program_init f)
          = Done (image,
                  {| Clc.device := {| Clc.rgbBuffer := rgb2; Clc.newRGBFrame := true |};
                     Clc.opencl := f |})).
Proof.
  intros F ops cvtColor. split; [|split; [|split]].
  - intros buffer p. apply getRGB_cases.
  - intros es1 rgb t es2 es3 image p. apply run_video_draw.
  - intros rgb t image f. exact (run_video_draw cvtColor [] [] [] rgb t image _).
  - intros rgb1 t1 rgb2 t2 image f. apply videos_overwrite.
Qed.

(** ** The frame mailbox of kinectFilter_gl_interop_vertex_buffer *)

Lemma vertex_getRGB_none (buffer : list Z) (d : GLVertex.MyFreenectDevice) :
  GLVertex.newRGBFrame d = false -> GLVertex.getRGB buffer d = (false, buffer, d).
Proof. intros Hnew. unfold GLVertex.getRGB. rewrite Hnew. reflexivity. Qed.

Lemma vertex_getRGB_clears (buffer b : list Z) (d d1 : GLVertex.MyFreenectDevice) :
  GLVertex.getRGB buffer d = (true, b, d1) -> GLVertex.newRGBFrame d1 = false.
Proof.
  unfold GLVertex.getRGB. destruct (GLVertex.newRGBFrame d); cbn [negb]; [|discriminate].
  intros Heq. injection Heq as _ <-. reflexivity.
Qed.

(** C8. A call of [getRGB] when no frame has been delivered since the call
    that returned [true] last, or since the start, returns [false] and
    leaves the buffer of the caller, and the device, as they are.
    In kinectFilter_clc, lines 389 to 394: whenever no frame is pending,
    as at the start, the call returns [false] with the buffer untouched,
    and so does every further call, whatever else happens but the delivery
    of a video frame (no call returns [true] there: the copy of a pending
    frame overruns the buffers).
    In kinectFilter_gl_interop_vertex_buffer: the same at the start, and
    after a call that returned [true], also when a depth frame is delivered
    or taken in between. *)
Theorem getRGB_no_new_frame :
  (forall (F : Type) (ops : FloatOps F) cvtColor,
      (forall f buffer,
          Clc.getRGB cvtColor buffer (Clc.Program_init f)
          = Done ((false, buffer), @Clc.Program_init F f))
      /\ (forall image (p : @Clc.Program F) es,
            Clc.newRGBFrame (Clc.device p) = false ->
            Forall (fun e => Clc.is_video e = false) es ->
            exists p2,
              Clc.run cvtColor es image p = Done (image, p2)
              /\ forall buffer',
                   Clc.getRGB cvtColor buffer' p2 = Done ((false, buffer'), p2)))
  /\ (forall buffer,
        GLVertex.getRGB buffer GLVertex.MyFreenectDevice_new
        = (false, buffer, GLVertex.MyFreenectDevice_new))
  /\ (forall buffer b d d1,
        GLVertex.getRGB buffer d = (true, b, d1) ->
        forall buffer' depth t,
          GLVertex.getRGB buffer' d1 = (false, buffer', d1)
          /\ GLVertex.getRGB buffer' (GLVertex.DepthCallback depth t d1)
             = (false, buffer', GLVertex.DepthCallback depth t d1)
          /\ GLVertex.getRGB buffer' (snd (GLVertex.getDepth depth d1))
             = (false, buffer', snd (GLVertex.getDepth depth d1))).
Proof.
  split; [|split].
  - intros F ops cvtColor. split.
    + intros f buffer. apply getRGB_none. reflexivity.
    + intros image p es Hflag Hes.
      destruct (run_no_video cvtColor es image p Hflag Hes) as (p2 & Hrun & Hflag2).
      exists p2. split; [exact Hrun|]. intros buffer'. apply getRGB_none. exact Hflag2.
  - intros buffer. apply vertex_getRGB_none. reflexivity.
  - intros buffer b d d1 Hget buffer' depth t.
    pose proof (vertex_getRGB_clears _ _ _ _ Hget) as Hflag.
    split; [|split]; apply vertex_getRGB_none.
    + exact Hflag.
    + exact Hflag.
    + unfold GLVertex.getDepth. destruct (GLVertex.newDepthFrame d1); exact Hflag.
Qed.

Lemma mailbox_overrun_witness :
  length (repeat 9 Clc.video_bytes) = Clc.video_bytes
  /\ length (repeat 7 Clc.video_bytes) = Clc.video_bytes
  /\ Clc.run red_channel [Clc.Video (repeat 9 Clc.video_bytes) 0;
                          Clc.Video (repeat 7 Clc.video_bytes) 1]
       step_frame (Clc.Program_init init0)
     = Done (step_frame,
             {| Clc.device := {| Clc.rgbBuffer := repeat 7 Clc.video_bytes;
                                 Clc.newRGBFrame := true |};
                Clc.opencl := init0 |}).
Proof.
  split; [apply repeat_length|]. split; [apply repeat_length|].
  apply (proj2 (proj2 (proj2 (mailbox_overrun float32 device0 red_channel)))).
  - apply repeat_length.
  - apply repeat_length.
Defined.

Lemma getRGB_no_new_frame_witness :
  (Clc.newRGBFrame (Clc.device (Clc.Program_init init0)) = false
   /\ Forall (fun e => Clc.is_video e = false) [Clc.Draw; Clc.KeyF; Clc.Draw]
   /\ exists p2,
        Clc.run red_channel [Clc.Draw; Clc.KeyF; Clc.Draw] step_frame (Clc.Program_init init0)
        = Done (step_frame, p2)
        /\ forall buffer', Clc.getRGB red_channel buffer' p2 = Done ((false, buffer'), p2))
  /\ GLVertex.getRGB step_frame vertex_published
     = (true, GLVertex.rgbBuffer vertex_published, vertex_taken)
  /\ GLVertex.getRGB (GLVertex.rgbBuffer vertex_published) vertex_taken
     = (false, GLVertex.rgbBuffer vertex_published, vertex_taken)
  /\ GLVertex.getRGB (GLVertex.rgbBuffer vertex_published)
       (GLVertex.DepthCallback (repeat 1000 GLVertex.depth_values) 0 vertex_taken)
     = (false, GLVertex.rgbBuffer vertex_published,
        GLVertex.DepthCallback (repeat 1000 GLVertex.depth_values) 0 vertex_taken).
Proof.
  assert (Hes : Forall (fun e => Clc.is_video e = false) [Clc.Draw; Clc.KeyF; Clc.Draw]).
  { repeat apply List.Forall_cons; try apply List.Forall_nil; reflexivity. }
  assert (Htake : GLVertex.getRGB step_frame vertex_published
                  = (true, GLVertex.rgbBuffer vertex_published, vertex_taken))
    by reflexivity.
  split; [|split; [exact Htake|]].
  - split; [reflexivity|]. split; [exact Hes|].
    exact (proj2 (proj1 getRGB_no_new_frame float32 device0 red_channel)
             step_frame (Clc.Program_init init0) [Clc.Draw; Clc.KeyF; Clc.Draw]
             eq_refl Hes).
  - destruct (proj2 (proj2 getRGB_no_new_frame)
                step_frame (GLVertex.rgbBuffer vertex_published) vertex_published
                vertex_taken Htake (GLVertex.rgbBuffer vertex_published)
                (repeat 1000 GLVertex.depth_values) 0) as (H1 & H2 & _).
    split; [exact H1|exact H2].
Defined.

(** ** A 1 x 1 image *)

Lemma read_single_pixel (v x y : Z) :
  read_imageui (Image2D 1 1 [v]) Clc.the_sampler (x, y) = v.
Proof.
  unfold read_imageui. cbn [addressing Clc.the_sampler image_width image_height].
  replace (clamp 0 (1 - 1) x) with 0 by (unfold clamp; lia).
  replace (clamp 0 (1 - 1) y) with 0 by (unfold clamp; lia).
  reflexivity.
Qed.

Lemma single_pixel_sum {F : Type} `{FloatOps F} (v : Z) (flt : list F) :
  Kernels.convolution_sum (Image2D 1 1 [v]) flt 3 Clc.the_sampler 0 0
  = sum3x3 (fun _ _ => v) flt.
Proof.
  rewrite convolution_sum_3. unfold sum3x3. rewrite !read_single_pixel. reflexivity.
Qed.

Lemma single_pixel_range {F : Type} `{FloatOps F} (v o : Z) (flt : list F) :
  Kernels.convolution_range (Image2D 1 1 [v]) (Image2D 1 1 [o]) 1 1 flt 3
    Clc.the_sampler (1, 1)
  = Image2D 1 1 [convert_uchar_sat (f_to_uint (sum3x3 (fun _ _ => v) flt))].
Proof.
  unfold Kernels.convolution_range, work_items.
  change (seq 0 (Z.to_nat (1 * 1))) with [0%nat]. cbn [map fold_left].
  change (Z.of_nat 0 mod 1) with 0. change (Z.of_nat 0 / 1) with 0.
  unfold Kernels.convolution. rewrite single_pixel_sum. reflexivity.
Qed.

Lemma Qeq_zero_num (q : Q) : (q == 0)%Q -> Qnum q = 0.
Proof. unfold Qeq. cbn. lia. Qed.

Lemma exact_to_uint_zero (oor : Q -> Z) (q : Q) : (q == 0)%Q -> Q_to_uint oor q = 0.
Proof.
  intros Hq. unfold Q_to_uint, Q_trunc. rewrite (Qeq_zero_num q Hq).
  rewrite Z.quot_0_l by discriminate. reflexivity.
Qed.

(** The test of a property of all 8-bit values. *)
Lemma all_bytes (P : Z -> bool) :
  forallb P (interval 0 255) = true -> forall v, 0 <= v <= 255 -> P v = true.
Proof.
  intros Hall v Hv. rewrite forallb_forall in Hall. apply Hall.
  unfold interval. apply in_map_iff. exists (Z.to_nat v). split; [lia|].
  apply in_seq. lia.
Qed.

(** C4. The convolution of a 1 x 1 image, with clamp-to-edge addressing.
    In exact arithmetic, for every pixel value and every nine weights, the
    sum of the single work-item is the value times the sum of the weights;
    with the Laplacian weights it is 0, and the pixel written is 0. In
    binary32 arithmetic, for every 8-bit pixel value, the sum with the
    Laplacian weights is the float 0 and the pixel written is 0, and the
    sum with the box weights is the value times 9/8, without rounding
    error. *)
Theorem single_pixel_image :
  (forall (oor : Q -> Z) (v : Z) (w0 w1 w2 w3 w4 w5 w6 w7 w8 : Q),
      (@Kernels.convolution_sum _ (exactQ oor) (Image2D 1 1 [v])
         [w0; w1; w2; w3; w4; w5; w6; w7; w8] 3 Clc.the_sampler 0 0
       == inject_Z v * (w0 + w1 + w2 + w3 + w4 + w5 + w6 + w7 + w8))%Q)
  /\ (forall (oor : Q -> Z) (v o : Z),
        (@Kernels.convolution_sum _ (exactQ oor) (Image2D 1 1 [v])
           (@Clc.laplacian_filter _ (exactQ oor)) 3 Clc.the_sampler 0 0 == 0)%Q
        /\ @Kernels.convolution_range _ (exactQ oor) (Image2D 1 1 [v]) (Image2D 1 1 [o]) 1 1
             (@Clc.laplacian_filter _ (exactQ oor)) 3 Clc.the_sampler (1, 1)
           = Image2D 1 1 [0])
  /\ (forall (oor : float32 -> Z) (divide : float32 -> float32 -> float32) (v o : Z),
        0 <= v <= 255 ->
        @Kernels.convolution_sum _ (binary32 oor divide) (Image2D 1 1 [v])
          (@Clc.laplacian_filter _ (binary32 oor divide)) 3 Clc.the_sampler 0 0
        = S754_zero false
        /\ @Kernels.convolution_range _ (binary32 oor divide) (Image2D 1 1 [v]) (Image2D 1 1 [o]) 1 1
             (@Clc.laplacian_filter _ (binary32 oor divide)) 3 Clc.the_sampler (1, 1)
           = Image2D 1 1 [0]
        /\ exists q,
             b32_to_Q (@Kernels.convolution_sum _ (binary32 oor divide) (Image2D 1 1 [v])
                         (@Clc.box_filter _ (binary32 oor divide)) 3 Clc.the_sampler 0 0)
             = Some q
             /\ (q == inject_Z v * (9 # 8))%Q)
  /\ (forall oor : Q -> Z, (@f_sum _ (exactQ oor) (@Clc.laplacian_filter _ (exactQ oor)) == 0)%Q)
  /\ (forall (oor : float32 -> Z) (divide : float32 -> float32 -> float32),
        @f_sum _ (binary32 oor divide) (@Clc.laplacian_filter _ (binary32 oor divide))
        = S754_zero false).
Proof.
  split; [|split; [|split; [|split]]];
    [| | |intros oor; vm_compute; reflexivity|intros oor divide; vm_compute; reflexivity].
  - intros oor v w0 w1 w2 w3 w4 w5 w6 w7 w8.
    rewrite single_pixel_sum. unfold sum3x3, f_of_Z. cbn. ring.
  - intros oor v o.
    assert (Hz : (@sum3x3 _ (exactQ oor) (fun _ _ => v) (@Clc.laplacian_filter _ (exactQ oor))
                  == 0)%Q).
    { unfold sum3x3, Clc.laplacian_filter, f_of_Z. cbn. ring. }
    split.
    + rewrite single_pixel_sum. exact Hz.
    + rewrite single_pixel_range.
      change (@f_to_uint Q (exactQ oor)) with (Q_to_uint oor).
      rewrite (exact_to_uint_zero oor _ Hz). reflexivity.
  - intros oor divide v o Hv.
    assert (Hz : @sum3x3 _ (binary32 oor divide) (fun _ _ => v)
                   (@Clc.laplacian_filter _ (binary32 oor divide))
                 = S754_zero false).
    { apply (all_bytes (fun v =>
               match @sum3x3 _ (binary32 oor divide) (fun _ _ => v)
                       (@Clc.laplacian_filter _ (binary32 oor divide)) with
               | S754_zero false => true
               | _ => false
               end)) in Hv.
      - destruct (sum3x3 _ _) as [[|]| | |]; try discriminate. reflexivity.
      - vm_compute. reflexivity. }
    split; [|split].
    + rewrite single_pixel_sum. exact Hz.
    + rewrite single_pixel_range, Hz. reflexivity.
    + rewrite single_pixel_sum.
      apply (all_bytes (fun v =>
               match b32_to_Q (@sum3x3 _ (binary32 oor divide) (fun _ _ => v)
                                 (@Clc.box_filter _ (binary32 oor divide))) with
               | Some q => Qeq_bool q (inject_Z v * (9 # 8))
               | None => false
               end)) in Hv.
      * destruct (b32_to_Q _) as [q|]; [|discriminate].
        exists q. split; [reflexivity|]. apply Qeq_bool_eq. exact Hv.
      * vm_compute. reflexivity.
Qed.

Lemma single_pixel_image_witness :
  0 <= 200 <= 255
  /\ @Kernels.convolution_sum _ device0 (Image2D 1 1 [200])
       Clc.laplacian_filter 3 Clc.the_sampler 0 0
     = S754_zero false.
Proof.
  assert (Hv : 0 <= 200 <= 255) by lia.
  split; [exact Hv|].
  exact (proj1 (proj1 (proj2 (proj2 single_pixel_image)) oor_zero ieee_divide 200 0 Hv)).
Defined.

(** ** The box filter *)

Lemma box_constant (oor : float32 -> Z) (divide : float32 -> float32 -> float32) (v x : Z) :
  0 <= v <= 255 ->
  @Clc.column_filter _ (binary32 oor divide) (@Clc.box_filter _ (binary32 oor divide)) (fun _ => v) x
  = Z.min 255 (9 * v / 8).
Proof.
  intros Hv. unfold Clc.column_filter.
  apply Z.eqb_eq.
  apply (all_bytes (fun v =>
           convert_uchar_sat
             (@f_to_uint _ (binary32 oor divide)
                (@sum3x3 _ (binary32 oor divide) (fun _ _ => v) (@Clc.box_filter _ (binary32 oor divide))))
           =? Z.min 255 (9 * v / 8))); [|exact Hv].
  vm_compute. reflexivity.
Qed.

(** C5. The box filter of the constructor is nine weights, each the float
    0.125; their sum is 9/8, in binary32 and in exact arithmetic, and not
    1. These are the weights the constructors of kinectFilter_clc and of
    the texture program write to the box filter buffer. The filter
    brightens: it turns a constant image of value [v] into the constant
    image of value [min 255 (9 v / 8)]. *)
Theorem box_filter_weights :
  (forall (oor : float32 -> Z) (divide : float32 -> float32 -> float32),
      @Clc.box_filter _ (binary32 oor divide) = repeat (S754_finite false 8388608 (-26)) 9
      /\ b32_to_Q (S754_finite false 8388608 (-26)) = Some (8388608 # 67108864)
      /\ (8388608 # 67108864 == 1 # 8)%Q
      /\ exists q,
           b32_to_Q (@f_sum _ (binary32 oor divide) (@Clc.box_filter _ (binary32 oor divide))) = Some q
           /\ (q == 9 # 8)%Q /\ ~ (q == 1)%Q)
  /\ (forall oor : Q -> Z,
        Forall (fun w => (w == 1 # 8)%Q) (@Clc.box_filter _ (exactQ oor))
        /\ length (@Clc.box_filter _ (exactQ oor)) = 9%nat
        /\ (@f_sum _ (exactQ oor) (@Clc.box_filter _ (exactQ oor)) == 9 # 8)%Q
        /\ ~ (@f_sum _ (exactQ oor) (@Clc.box_filter _ (exactQ oor)) == 1)%Q)
  /\ (forall (F : Type) (ops : FloatOps F),
        @Clc.Filter_new F ops = Done Clc.Filter_init
        /\ Clc.objects (Clc.context (@Clc.Filter_init F ops))
             !! Clc.bufferBoxFilter (@Clc.Filter_init F ops)
           = Some (Clc.MemBuffer Clc.box_filter)
        /\ In (EnqueueWriteBuffer (Clc.bufferBoxFilter (@Clc.Filter_init F ops)) Clc.box_filter)
              (Clc.queue (@Clc.Filter_init F ops))
        /\ In (EnqueueWriteBuffer (GLTexture.bufferBoxFilter (@GLTexture.Filter_new F ops))
                 Clc.box_filter)
              (GLTexture.queue (@GLTexture.Filter_new F ops)))
  /\ (forall (oor : float32 -> Z) (divide : float32 -> float32 -> float32) (v : Z),
        0 <= v <= 255 ->
        @Clc.box_blur _ (binary32 oor divide) (Clc.column_image (fun _ => v))
        = Clc.column_image (fun _ => Z.min 255 (9 * v / 8))).
Proof.
  split; [|split; [|split]].
  - intros oor divide. split; [reflexivity|]. split; [reflexivity|]. split; [reflexivity|].
    eexists. split; [vm_compute; reflexivity|]. split; [reflexivity|discriminate].
  - intros oor. split; [|split; [reflexivity|split]].
    + repeat constructor.
    + vm_compute. reflexivity.
    + vm_compute. discriminate.
  - intros F ops. split; [apply Filter_new_init|]. split; [reflexivity|].
    split; [left; reflexivity|left; reflexivity].
  - intros oor divide v Hv. unfold Clc.box_blur. change Clc.filterWidth with 3.
    rewrite convolved_column. unfold Clc.column_image. win_size.
    rewrite (pixels_ext gl_win_width gl_win_height _ (fun _ _ => Z.min 255 (9 * v / 8)));
      [reflexivity|lia|].
    intros x y _ _. apply box_constant. exact Hv.
Qed.

Lemma box_filter_weights_witness :
  0 <= 200 <= 255
  /\ @Clc.box_blur _ device0 (Clc.column_image (fun _ => 200))
     = Clc.column_image (fun _ => Z.min 255 (9 * 200 / 8)).
Proof.
  assert (Hv : 0 <= 200 <= 255) by lia.
  split; [exact Hv|].
  exact (proj2 (proj2 (proj2 box_filter_weights)) oor_zero ieee_divide 200 Hv).
Defined.

(** ** The intermediate images of the texture program *)

Section Texture.

Context {F : Type} `{FloatOps F}.

Lemma texture_convolve_log (image : list Z) (f : @GLTexture.Filter F) :
  GLTexture.smoothed f = true ->
  exists k1 k2 k3,
    GLTexture.queue (GLTexture.convolve image f)
    = GLTexture.queue f
      ++ [ EnqueueWriteImage (GLTexture.bufferSourceImage f) (GLTexture.region f)
             (firstn (Z.to_nat (fst (fst (GLTexture.region f)) * snd (fst (GLTexture.region f))))
                image);
           GlFinish;
           EnqueueAcquireGLObjects (GLTexture.bufferOutputImage f);
           EnqueueNDRangeKernel (GLTexture.kernelNorm f) (GLTexture.global f);
           EnqueueNDRangeKernel k1 (GLTexture.global f);
           EnqueueNDRangeKernel k2 (GLTexture.global f);
           EnqueueNDRangeKernel k3 (GLTexture.global f);
           EnqueueReleaseGLObjects (GLTexture.bufferOutputImage f);
           Finish ]
    /\ pass_of (EnqueueNDRangeKernel k1 (GLTexture.global f))
       = Some (kernel_name (GLTexture.kernelConv f), GLTexture.bufferInterImage1 f,
               GLTexture.bufferInterImage2 f, GLTexture.bufferBoxFilter f)
    /\ pass_of (EnqueueNDRangeKernel k2 (GLTexture.global f))
       = Some (kernel_name (GLTexture.kernelConv f), GLTexture.bufferInterImage2 f,
               GLTexture.bufferInterImage1 f, GLTexture.bufferBoxFilter f)
    /\ pass_of (EnqueueNDRangeKernel k3 (GLTexture.global f))
       = Some (kernel_name (GLTexture.kernelConv f), GLTexture.bufferInterImage1 f,
               nth 0 (GLTexture.bufferOutputImage f) 0%nat,
               GLTexture.bufferLaplacianFilter f).
Proof.
  intros Hsm. destruct f as [[[rw rh] rd] g sm q smp src i1 i2 out box lap kn kc].
  cbn [GLTexture.smoothed] in Hsm. subst sm.
  unfold GLTexture.convolve.
  cbn [GLTexture.region GLTexture.global GLTexture.smoothed GLTexture.queue
       GLTexture.sampler GLTexture.bufferSourceImage GLTexture.bufferInterImage1
       GLTexture.bufferInterImage2 GLTexture.bufferOutputImage GLTexture.bufferBoxFilter
       GLTexture.bufferLaplacianFilter GLTexture.kernelNorm GLTexture.kernelConv
       GLTexture.enqueue GLTexture.kernelConv_setArg fst snd].
  eexists _, _, _. split.
  - rewrite <- !app_assoc. cbn [app]. reflexivity.
  - cbn [pass_of kernel_args kernel_name setArg].
    repeat first
      [ rewrite lookup_insert_eq
      | rewrite lookup_insert_ne by (intro; discriminate) ].
    repeat split; reflexivity.
Qed.

End Texture.

(** C9. In the texture program [bufferInterImage2] is constructed as a copy
    of [bufferInterImage1]: the two names hold one handle, for one image
    of the device, and neither [convolve] nor [toggleSmoothing] changes a
    handle. A call of [convolve] with smoothing enabled dispatches the
    normalization and then three passes of the convolution kernel; the
    first box filter pass reads [bufferInterImage1] and writes
    [bufferInterImage2], the second reads [bufferInterImage2] and writes
    [bufferInterImage1]; the two being one image, each box filter pass reads
    and writes the same image. *)
Theorem texture_intermediate_alias (F : Type) (ops : FloatOps F) :
  GLTexture.bufferInterImage2 (@GLTexture.Filter_new F ops)
  = GLTexture.bufferInterImage1 (@GLTexture.Filter_new F ops)
  /\ (forall image (f : @GLTexture.Filter F),
        GLTexture.bufferInterImage1 (GLTexture.convolve image f)
        = GLTexture.bufferInterImage1 f
        /\ GLTexture.bufferInterImage2 (GLTexture.convolve image f)
           = GLTexture.bufferInterImage2 f
        /\ GLTexture.bufferInterImage1 (snd (GLTexture.toggleSmoothing f))
           = GLTexture.bufferInterImage1 f
        /\ GLTexture.bufferInterImage2 (snd (GLTexture.toggleSmoothing f))
           = GLTexture.bufferInterImage2 f)
  /\ (forall image (f : @GLTexture.Filter F),
        GLTexture.bufferInterImage2 f = GLTexture.bufferInterImage1 f ->
        GLTexture.smoothed f = true ->
        exists before k1 k2 k3 after,
          GLTexture.queue (GLTexture.convolve image f)
          = GLTexture.queue f
            ++ before
            ++ [ EnqueueNDRangeKernel (GLTexture.kernelNorm f) (GLTexture.global f);
                 EnqueueNDRangeKernel k1 (GLTexture.global f);
                 EnqueueNDRangeKernel k2 (GLTexture.global f);
                 EnqueueNDRangeKernel k3 (GLTexture.global f) ]
            ++ after
          /\ Forall (fun c => is_dispatch c = false) (before ++ after)
          /\ pass_of (EnqueueNDRangeKernel k1 (GLTexture.global f))
             = Some (kernel_name (GLTexture.kernelConv f), GLTexture.bufferInterImage1 f,
                     GLTexture.bufferInterImage1 f, GLTexture.bufferBoxFilter f)
          /\ pass_of (EnqueueNDRangeKernel k2 (GLTexture.global f))
             = Some (kernel_name (GLTexture.kernelConv f), GLTexture.bufferInterImage1 f,
                     GLTexture.bufferInterImage1 f, GLTexture.bufferBoxFilter f)
          /\ pass_of (EnqueueNDRangeKernel k3 (GLTexture.global f))
             = Some (kernel_name (GLTexture.kernelConv f), GLTexture.bufferInterImage1 f,
                     nth 0 (GLTexture.bufferOutputImage f) 0%nat,
                     GLTexture.bufferLaplacianFilter f)).
Proof.
  split; [reflexivity|]. split.
  - intros image f. destruct f as [[[rw rh] rd] g sm q smp src i1 i2 out box lap kn kc].
    destruct sm; repeat split; reflexivity.
  - intros image f Halias Hsm.
    destruct (texture_convolve_log image f Hsm) as (k1 & k2 & k3 & Hq & H1 & H2 & H3).
    rewrite Halias in H1, H2.
    eexists [_; _; _], k1, k2, k3, [_; _].
    split; [exact Hq|]. split; [repeat constructor|].
    split; [exact H1|]. split; [exact H2|exact H3].
Qed.

Lemma texture_intermediate_alias_witness :
  GLTexture.bufferInterImage2 (@GLTexture.Filter_new _ device0)
  = GLTexture.bufferInterImage1 (@GLTexture.Filter_new _ device0)
  /\ GLTexture.smoothed (@GLTexture.Filter_new _ device0) = true
  /\ exists before k1 k2 k3 after,
       GLTexture.queue (GLTexture.convolve step_frame (@GLTexture.Filter_new _ device0))
       = GLTexture.queue (@GLTexture.Filter_new _ device0)
         ++ before
         ++ [ EnqueueNDRangeKernel (GLTexture.kernelNorm (@GLTexture.Filter_new _ device0))
                (gl_win_width, gl_win_height);
              EnqueueNDRangeKernel k1 (gl_win_width, gl_win_height);
              EnqueueNDRangeKernel k2 (gl_win_width, gl_win_height);
              EnqueueNDRangeKernel k3 (gl_win_width, gl_win_height) ]
         ++ after
       /\ pass_of (EnqueueNDRangeKernel k1 (gl_win_width, gl_win_height))
          = Some ("convolutionGL"%string, 1%nat, 1%nat, 3%nat)
       /\ pass_of (EnqueueNDRangeKernel k2 (gl_win_width, gl_win_height))
          = Some ("convolutionGL"%string, 1%nat, 1%nat, 3%nat).
Proof.
  split; [reflexivity|]. split; [reflexivity|].
  destruct (proj2 (proj2 (texture_intermediate_alias float32 device0))
              step_frame GLTexture.Filter_new eq_refl eq_refl)
    as (before & k1 & k2 & k3 & after & Hq & _ & H1 & H2 & _).
  exists before, k1, k2, k3, after. split; [exact Hq|]. split; [exact H1|exact H2].
Defined.

(** ** The kernels of the vertex buffer program over a whole NDRange *)

Lemma fold_left_ext_in {A B : Type} (f g : A -> B -> A) (l : list B) (a : A) :
  (forall a b, In b l -> f a b = g a b) -> fold_left f l a = fold_left g l a.
Proof.
  revert a. induction l as [|b l IH]; intros a Hfg; [reflexivity|].
  cbn [fold_left]. rewrite Hfg by (left; reflexivity).
  apply IH. intros a' b' Hb'. apply Hfg. right. exact Hb'.
Qed.

Lemma scatter_range_lookup {A : Type} (guard : Z * Z -> bool) (value : Z * Z -> A)
    (cols rows x y : Z) (out : list A) :
  0 <= x < cols -> 0 <= y < rows -> rows * cols < 2 ^ 32 ->
  length out = Z.to_nat (cols * rows) ->
  (forall g, In g (work_items (cols, rows)) -> guard g = true) ->
  scatter guard (flat_index cols) value (work_items (cols, rows)) out
    !! Z.to_nat (y * cols + x)
  = Some (value (x, y)).
Proof.
  intros Hx Hy Hsize Hlen Hguard.
  assert (Hidx : forall x' y', 0 <= x' < cols -> 0 <= y' < rows ->
                   flat_index cols (x', y') = Z.to_nat (y' * cols + x')).
  { intros x' y' Hx' Hy'. unfold flat_index. cbn [fst snd].
    rewrite uint32_small by nia. reflexivity. }
  rewrite <- (Hidx x y Hx Hy).
  apply scatter_hit.
  - intros [x1 y1] [x2 y2] H1 H2 _ _ Heq.
    apply work_items_elem in H1, H2; try lia.
    rewrite !Hidx in Heq by lia.
    assert (Hz : y1 * cols + x1 = y2 * cols + x2) by nia.
    assert (Hy12 : y1 = y2) by nia. rewrite Hy12 in *. f_equal. lia.
  - apply work_items_elem; lia.
  - apply Hguard. apply list_elem_of_In. apply work_items_elem; lia.
  - rewrite Hidx by lia. nia.
Qed.

Section VertexKernels.

Context {F : Type} `{FloatOps F}.

Variables cols rows : Z.
Hypothesis grid_size : 0 < cols /\ 0 < rows /\ rows * cols < 2 ^ 32.

Lemma in_work_items (g : Z * Z) :
  In g (work_items (cols, rows)) -> 0 <= fst g < cols /\ 0 <= snd g < rows.
Proof.
  destruct g as [x y]. intros Hin. apply list_elem_of_In in Hin.
  apply work_items_elem in Hin; [exact Hin|lia].
Qed.

Lemma rgb2rgba_lookup (rgb : list Z) (rgba : list (@Kernels.float4 F)) (x y : Z) :
  0 <= x < cols -> 0 <= y < rows -> length rgba = Z.to_nat (cols * rows) ->
  Kernels.rgb2rgba_range rgb rgba rows cols (cols, rows) !! Z.to_nat (y * cols + x)
  = Some (GLVertex.rgba_pixel
            (nth (Z.to_nat (3 * (y * cols + x))) rgb 0)
            (nth (Z.to_nat (3 * (y * cols + x) + 1)) rgb 0)
            (nth (Z.to_nat (3 * (y * cols + x) + 2)) rgb 0)).
Proof.
  intros Hx Hy Hlen. unfold Kernels.rgb2rgba_range.
  rewrite (fold_left_ext_in _
             (fun o g =>
                if (snd g <? rows) && (fst g <? cols)
                then <[flat_index cols g :=
                         GLVertex.rgba_pixel
                           (nth (Z.to_nat (3 * uint32 (snd g * cols + fst g))) rgb 0)
                           (nth (Z.to_nat (3 * uint32 (snd g * cols + fst g) + 1)) rgb 0)
                           (nth (Z.to_nat (3 * uint32 (snd g * cols + fst g) + 2)) rgb 0)]> o
                else o)).
  - change (fold_left _ (work_items (cols, rows)) rgba)
      with (scatter (fun g => (snd g <? rows) && (fst g <? cols)) (flat_index cols)
              (fun g => GLVertex.rgba_pixel
                          (nth (Z.to_nat (3 * uint32 (snd g * cols + fst g))) rgb 0)
                          (nth (Z.to_nat (3 * uint32 (snd g * cols + fst g) + 1)) rgb 0)
                          (nth (Z.to_nat (3 * uint32 (snd g * cols + fst g) + 2)) rgb 0))
              (work_items (cols, rows)) rgba).
    rewrite scatter_range_lookup; try lia.
    + cbn [fst snd]. rewrite uint32_small by nia. reflexivity.
    + intros g Hg. apply in_work_items in Hg. apply andb_true_intro. split; lia.
  - intros o [c r] _. reflexivity.
Qed.

Lemma normalizeRGB_lookup (input out : list (@Kernels.float4 F)) (x y : Z) :
  0 <= x < cols -> 0 <= y < rows -> length out = Z.to_nat (cols * rows) ->
  Kernels.normalizeRGB_range input out rows cols (cols, rows) !! Z.to_nat (y * cols + x)
  = Some (GLVertex.normalized_pixel
            (nth (Z.to_nat (y * cols + x)) input GLVertex.zero4)).
Proof.
  intros Hx Hy Hlen. unfold Kernels.normalizeRGB_range.
  rewrite (fold_left_ext_in _
             (fun o g =>
                if (snd g <? rows) && (fst g <? cols)
                then <[flat_index cols g :=
                         GLVertex.normalized_pixel
                           (nth (Z.to_nat (uint32 (snd g * cols + fst g))) input
                              GLVertex.zero4)]> o
                else o)).
  - change (fold_left _ (work_items (cols, rows)) out)
      with (scatter (fun g => (snd g <? rows) && (fst g <? cols)) (flat_index cols)
              (fun g => GLVertex.normalized_pixel
                          (nth (Z.to_nat (uint32 (snd g * cols + fst g))) input
                             GLVertex.zero4))
              (work_items (cols, rows)) out).
    rewrite scatter_range_lookup; try lia.
    + cbn [fst snd]. rewrite uint32_small by nia. reflexivity.
    + intros g Hg. apply in_work_items in Hg. apply andb_true_intro. split; lia.
  - intros o [c r] _. unfold Kernels.normalizeRGB, GLVertex.normalized_pixel, GLVertex.zero4.
    cbn [fst snd]. unfold flat_index. cbn [fst snd].
    destruct (nth _ input _) as [[[px py] pz] pw]. reflexivity.
Qed.

Lemma depthTo3D_lookup (depth : list Z) (pCloud : list (@Kernels.float4 F)) (f : F)
    (x y : Z) :
  0 <= x < cols -> 0 <= y < rows -> length pCloud = Z.to_nat (cols * rows) ->
  Kernels.depthTo3D_range depth pCloud f (cols, rows) !! Z.to_nat (y * cols + x)
  = Some (GLVertex.cloud_point cols rows f x y (nth (Z.to_nat (y * cols + x)) depth 0)).
Proof.
  intros Hx Hy Hlen. unfold Kernels.depthTo3D_range.
  rewrite (fold_left_ext_in _
             (fun o g =>
                if true
                then <[flat_index cols g :=
                         GLVertex.cloud_point cols rows f (fst g) (snd g)
                           (nth (Z.to_nat (uint32 (snd g * cols + fst g))) depth 0)]> o
                else o)).
  - change (fold_left _ (work_items (cols, rows)) pCloud)
      with (scatter (fun _ => true) (flat_index cols)
              (fun g => GLVertex.cloud_point cols rows f (fst g) (snd g)
                          (nth (Z.to_nat (uint32 (snd g * cols + fst g))) depth 0))
              (work_items (cols, rows)) pCloud).
    rewrite scatter_range_lookup; try lia.
    cbn [fst snd]. rewrite uint32_small by nia. reflexivity.
  - intros o [c r] _. unfold Kernels.depthTo3D, GLVertex.cloud_point, flat_index.
    cbn [fst snd].
    assert (Hcols : 0 <= cols < 2 ^ 32) by nia.
    assert (Hrows : 0 <= rows < 2 ^ 32) by nia.
    rewrite !(uint32_small cols), !(uint32_small rows) by assumption.
    rewrite (uint32_small (cols - 1)), (uint32_small (rows - 1)) by lia.
    reflexivity.
Qed.

End VertexKernels.

Lemma fold_left_length_inv {A B : Type} (f : list A -> B -> list A) (l : list B)
    (o : list A) :
  (forall o b, length (f o b) = length o) -> length (fold_left f l o) = length o.
Proof.
  intros Hf. revert o. induction l as [|b l IH]; intros o; [reflexivity|].
  cbn [fold_left]. rewrite IH. apply Hf.
Qed.

Lemma rgb2rgba_range_length {F : Type} `{FloatOps F} (rgb : list Z)
    (rgba : list (@Kernels.float4 F)) (rows cols : Z) (global : Z * Z) :
  length (Kernels.rgb2rgba_range rgb rgba rows cols global) = length rgba.
Proof.
  apply fold_left_length_inv. intros o [c r]. unfold Kernels.rgb2rgba.
  destruct ((r <? rows) && (c <? cols)); [apply length_insert|reflexivity].
Qed.

Lemma normalizeRGB_range_length {F : Type} `{FloatOps F}
    (input out : list (@Kernels.float4 F)) (rows cols : Z) (global : Z * Z) :
  length (Kernels.normalizeRGB_range input out rows cols global) = length out.
Proof.
  apply fold_left_length_inv. intros o [c r]. unfold Kernels.normalizeRGB.
  destruct (nth _ input _) as [[[px py] pz] pw].
  destruct ((r <? rows) && (c <? cols)); [apply length_insert|reflexivity].
Qed.

Lemma depthTo3D_range_length {F : Type} `{FloatOps F} (depth : list Z)
    (pCloud : list (@Kernels.float4 F)) (f : F) (global : Z * Z) :
  length (Kernels.depthTo3D_range depth pCloud f global) = length pCloud.
Proof.
  apply fold_left_length_inv. intros o [c r]. unfold Kernels.depthTo3D.
  apply length_insert.
Qed.

Lemma std_copy_length {A : Type} (src dst : list A) (n : nat) :
  (n <= length src)%nat -> (n <= length dst)%nat ->
  length (std_copy src n dst) = length dst.
Proof.
  intros Hs Hd. unfold std_copy. rewrite length_app, length_take, length_drop. lia.
Qed.

Lemma std_copy_nth {A : Type} (src dst : list A) (n i : nat) (d : A) :
  (n <= length src)%nat -> (i < n)%nat -> nth i (std_copy src n dst) d = nth i src d.
Proof.
  intros Hs Hi. unfold std_copy.
  rewrite app_nth1 by (rewrite length_take; lia).
  apply firstn_nth_lt. exact Hi.
Qed.

(** ** The vertex buffer program: [processFrames] *)

Lemma vertex_size :
  GLVertex.gl_width = 640 /\ GLVertex.gl_height = 480.
Proof. split; reflexivity. Qed.

Lemma vertex_frame_pixels :
  Z.of_nat GLVertex.frame_pixels = GLVertex.gl_width * GLVertex.gl_height.
Proof.
  unfold GLVertex.frame_pixels. rewrite Z2Nat.id; [reflexivity|].
  unfold GLVertex.gl_width, GLVertex.gl_height. lia.
Qed.

Lemma vertex_frame_pixels_eq :
  Z.to_nat (GLVertex.gl_width * GLVertex.gl_height) = GLVertex.frame_pixels.
Proof. reflexivity. Qed.

Opaque GLVertex.gl_width GLVertex.gl_height GLVertex.frame_pixels.

Ltac vertex_norm :=
  cbn [GLVertex.submit GLVertex.kernelRGBA_setArg GLVertex.set_rgb_norm
       GLVertex.rgbBufferSize GLVertex.rgbaBufferSize GLVertex.depthBufferSize
       GLVertex.global GLVertex.rgb_norm GLVertex.next_mem GLVertex.objects
       GLVertex.queue GLVertex.bufferSourceRGB GLVertex.bufferInterRGBA
       GLVertex.bufferSourceDepth GLVertex.bufferGLShared GLVertex.kernelRGBA
       GLVertex.kernelRGBNorm GLVertex.kernelDepthTo3D
       setArg kernel_args kernel_name].

Ltac vertex_lookup :=
  vertex_norm;
  lazymatch goal with
  | |- _ <> _ => discriminate
  | |- _ =>
      repeat first [rewrite lookup_insert_eq | rewrite lookup_insert_ne by lia];
      first [assumption | reflexivity]
  end.

Section VertexFilter.

Context {F : Type} `{FloatOps F}.

Local Abbreviation Filter := (@GLVertex.Filter F).
Local Abbreviation MemUChar := (@GLVertex.MemUChar F).
Local Abbreviation MemUShort := (@GLVertex.MemUShort F).
Local Abbreviation MemFloat4 := (@GLVertex.MemFloat4 F).

Lemma bind_gets {S A B : Type} (g : S -> A) (k : A -> CL S B) (s : S) :
  bind (gets g) k s = k (g s) s.
Proof. reflexivity. Qed.

Lemma bind_modify {S B : Type} (g : S -> S) (k : unit -> CL S B) (s : S) :
  bind (modify g) k s = k tt (g s).
Proof. reflexivity. Qed.

Lemma bind_ret {S A B : Type} (a : A) (k : A -> CL S B) (s : S) :
  bind (ret a) k s = k a s.
Proof. reflexivity. Qed.

Lemma bind_log {B : Type} (c : command F) (k : unit -> CL Filter B) (s : Filter) :
  bind (GLVertex.log c) k s = k tt (GLVertex.submit c (GLVertex.objects s) s).
Proof. reflexivity. Qed.

Lemma bind_enqueueWriteBytes {B : Type} (buffer : cl_mem) (size : Z) (ptr old : list Z)
    (k : unit -> CL Filter B) (s : Filter) :
  GLVertex.objects s !! buffer = Some (MemUChar old) ->
  size <= Z.of_nat (length old) -> size <= Z.of_nat (length ptr) ->
  bind (GLVertex.enqueueWriteBytes buffer size ptr) k s
  = k tt (GLVertex.submit (EnqueueWriteBytes buffer (firstn (Z.to_nat size) ptr))
            (<[buffer := MemUChar (std_copy ptr (Z.to_nat size) old)]>
               (GLVertex.objects s)) s).
Proof.
  intros Hm Hold Hptr. unfold bind, GLVertex.enqueueWriteBytes. rewrite Hm.
  rewrite (proj2 (Z.ltb_ge _ _) Hold), (proj2 (Z.ltb_ge _ _) Hptr). reflexivity.
Qed.

Lemma bind_enqueueWriteUShorts {B : Type} (buffer : cl_mem) (size : Z)
    (ptr old : list Z) (k : unit -> CL Filter B) (s : Filter) :
  GLVertex.objects s !! buffer = Some (MemUShort old) ->
  size <= Z.of_nat (length old) * 2 -> size <= Z.of_nat (length ptr) * 2 ->
  bind (GLVertex.enqueueWriteUShorts buffer size ptr) k s
  = k tt (GLVertex.submit (EnqueueWriteUShorts buffer (firstn (Z.to_nat (size / 2)) ptr))
            (<[buffer := MemUShort (std_copy ptr (Z.to_nat (size / 2)) old)]>
               (GLVertex.objects s)) s).
Proof.
  intros Hm Hold Hptr. unfold bind, GLVertex.enqueueWriteUShorts. rewrite Hm.
  rewrite (proj2 (Z.ltb_ge _ _) Hold), (proj2 (Z.ltb_ge _ _) Hptr). reflexivity.
Qed.

Lemma bind_enqueueRGBA {B : Type} (src dst : cl_mem) (rows cols : Z) (rgb : list Z)
    (rgba : list (@Kernels.float4 F)) (k : unit -> CL Filter B) (s : Filter) :
  kernel_args (GLVertex.kernelRGBA s) !! 0%nat = Some (ArgMem src) ->
  kernel_args (GLVertex.kernelRGBA s) !! 1%nat = Some (ArgMem dst) ->
  kernel_args (GLVertex.kernelRGBA s) !! 2%nat = Some (ArgInt rows) ->
  kernel_args (GLVertex.kernelRGBA s) !! 3%nat = Some (ArgInt cols) ->
  GLVertex.objects s !! src = Some (MemUChar rgb) ->
  GLVertex.objects s !! dst = Some (MemFloat4 rgba) ->
  bind GLVertex.enqueueRGBA k s
  = k tt (GLVertex.submit
            (EnqueueNDRangeKernel (GLVertex.kernelRGBA s) (GLVertex.global s))
            (<[dst := MemFloat4 (Kernels.rgb2rgba_range rgb rgba (uint32 rows)
                                   (uint32 cols) (GLVertex.global s))]>
               (GLVertex.objects s)) s).
Proof.
  intros H0 H1 H2 H3 Hsrc Hdst. unfold bind, GLVertex.enqueueRGBA. cbv zeta.
  rewrite H0, H1, H2, H3, Hsrc, Hdst. reflexivity.
Qed.

Lemma bind_enqueueRGBNorm {B : Type} (src dst : cl_mem) (rows cols : Z)
    (input out : list (@Kernels.float4 F)) (k : unit -> CL Filter B) (s : Filter) :
  kernel_args (GLVertex.kernelRGBNorm s) !! 0%nat = Some (ArgMem src) ->
  kernel_args (GLVertex.kernelRGBNorm s) !! 1%nat = Some (ArgMem dst) ->
  kernel_args (GLVertex.kernelRGBNorm s) !! 2%nat = Some (ArgInt rows) ->
  kernel_args (GLVertex.kernelRGBNorm s) !! 3%nat = Some (ArgInt cols) ->
  GLVertex.objects s !! src = Some (MemFloat4 input) ->
  GLVertex.objects s !! dst = Some (MemFloat4 out) ->
  src <> dst ->
  bind GLVertex.enqueueRGBNorm k s
  = k tt (GLVertex.submit
            (EnqueueNDRangeKernel (GLVertex.kernelRGBNorm s) (GLVertex.global s))
            (<[dst := MemFloat4 (Kernels.normalizeRGB_range input out (uint32 rows)
                                   (uint32 cols) (GLVertex.global s))]>
               (GLVertex.objects s)) s).
Proof.
  intros H0 H1 H2 H3 Hsrc Hdst Hne. unfold bind, GLVertex.enqueueRGBNorm. cbv zeta.
  rewrite H0, H1, H2, H3, Hsrc, Hdst.
  destruct (decide (src = dst)) as [Heq|_]; [contradiction|reflexivity].
Qed.

Lemma bind_enqueueDepthTo3D {B : Type} (src dst : cl_mem) (focal : F) (depth : list Z)
    (pCloud : list (@Kernels.float4 F)) (k : unit -> CL Filter B) (s : Filter) :
  kernel_args (GLVertex.kernelDepthTo3D s) !! 0%nat = Some (ArgMem src) ->
  kernel_args (GLVertex.kernelDepthTo3D s) !! 1%nat = Some (ArgMem dst) ->
  kernel_args (GLVertex.kernelDepthTo3D s) !! 2%nat = Some (ArgFloat focal) ->
  GLVertex.objects s !! src = Some (MemUShort depth) ->
  GLVertex.objects s !! dst = Some (MemFloat4 pCloud) ->
  bind GLVertex.enqueueDepthTo3D k s
  = k tt (GLVertex.submit
            (EnqueueNDRangeKernel (GLVertex.kernelDepthTo3D s) (GLVertex.global s))
            (<[dst := MemFloat4 (Kernels.depthTo3D_range depth pCloud focal
                                   (GLVertex.global s))]>
               (GLVertex.objects s)) s).
Proof.
  intros H0 H1 H2 Hsrc Hdst. unfold bind, GLVertex.enqueueDepthTo3D. cbv zeta.
  rewrite H0, H1, H2, Hsrc, Hdst. reflexivity.
Qed.

End VertexFilter.

Section VertexProcess.

Context {F : Type} `{FloatOps F}.

Local Abbreviation Filter := (@GLVertex.Filter F).
Local Abbreviation MemUChar := (@GLVertex.MemUChar F).
Local Abbreviation MemUShort := (@GLVertex.MemUShort F).
Local Abbreviation MemFloat4 := (@GLVertex.MemFloat4 F).
Local Abbreviation gw := GLVertex.gl_width.
Local Abbreviation gh := GLVertex.gl_height.

Lemma vertex_grid : 0 < gw /\ 0 < gh /\ gh * gw < 2 ^ 32.
Proof. destruct vertex_size as [-> ->]. lia. Qed.

(** One call of [processFrames]: it returns, and the two buffers shared
    with OpenGL hold the colours and the points of the frames. *)
Lemma processFrames_spec (f : Filter) (rgb depth : list Z) :
  GLVertex.Filter_ok f ->
  (3 * GLVertex.frame_pixels <= length rgb)%nat ->
  (GLVertex.frame_pixels <= length depth)%nat ->
  exists f' colours cloud,
    GLVertex.processFrames rgb depth f = Done (tt, f')
    /\ GLVertex.rgb_norm f' = GLVertex.rgb_norm f
    /\ GLVertex.objects f' !! 2%nat = Some (MemFloat4 colours)
    /\ GLVertex.objects f' !! 4%nat = Some (MemFloat4 cloud)
    /\ forall x y, 0 <= x < gw -> 0 <= y < gh ->
         colours !! Z.to_nat (y * gw + x)
         = Some (let pixel :=
                   GLVertex.rgba_pixel
                     (nth (Z.to_nat (3 * (y * gw + x))) rgb 0)
                     (nth (Z.to_nat (3 * (y * gw + x) + 1)) rgb 0)
                     (nth (Z.to_nat (3 * (y * gw + x) + 2)) rgb 0) in
                 if GLVertex.rgb_norm f then GLVertex.normalized_pixel pixel else pixel)
         /\ cloud !! Z.to_nat (y * gw + x)
            = Some (GLVertex.cloud_point gw gh (f_of_Z 595) x y
                      (nth (Z.to_nat (y * gw + x)) depth 0)).
Proof.
  intros Hok Hrgb Hdepth.
  destruct Hok as [Hrs Hds Hg HsRGB HiRGBA HsD Hsh (bytes & Hbytes & Hblen)
                   (values & Hvalues & Hvlen) Hpoints
                   Ha0 Ha2 Ha3 Hn0 Hn1 Hn2 Hn3 Hd0 Hd1 Hd2].
  destruct (Hpoints 1%nat) as (inter & Hinter & Hilen); [tauto|].
  destruct (Hpoints 2%nat) as (shared & Hshared & Hslen); [tauto|].
  destruct (Hpoints 4%nat) as (points & Hcloud & Hplen); [tauto|].
  pose proof vertex_grid as Hgrid. pose proof vertex_frame_pixels as Hfp.
  unfold GLVertex.processFrames. rewrite bind_gets. unfold id.
  rewrite HsRGB, HiRGBA, HsD, Hsh, Hrs, Hds. cbn [nth].
  rewrite !bind_log. vertex_norm.
  rewrite (bind_enqueueWriteBytes _ _ _ bytes); [|exact Hbytes|lia|lia]. vertex_norm.
  rewrite (bind_enqueueWriteUShorts _ _ _ values);
    [|vertex_norm; rewrite lookup_insert_ne by lia; exact Hvalues|lia|lia].
  vertex_norm. rewrite bind_modify.
  replace (Z.to_nat (3 * (gw * gh))) with (3 * GLVertex.frame_pixels)%nat by lia.
  replace (Z.to_nat (2 * (gw * gh) / 2)) with GLVertex.frame_pixels
    by (rewrite Z.mul_comm, Z.div_mul by lia; lia).
  assert (Hbl : length (std_copy rgb (3 * GLVertex.frame_pixels) bytes)
                = (3 * GLVertex.frame_pixels)%nat)
    by (rewrite std_copy_length by lia; exact Hblen).
  assert (Hdl : length (std_copy depth GLVertex.frame_pixels values)
                = GLVertex.frame_pixels)
    by (rewrite std_copy_length by lia; exact Hvlen).
  set (rgb' := std_copy rgb (3 * GLVertex.frame_pixels) bytes) in *.
  set (depth' := std_copy depth GLVertex.frame_pixels values) in *.
  assert (Hcolour : forall x y, 0 <= x < gw -> 0 <= y < gh ->
            GLVertex.rgba_pixel
              (nth (Z.to_nat (3 * (y * gw + x))) rgb' 0)
              (nth (Z.to_nat (3 * (y * gw + x) + 1)) rgb' 0)
              (nth (Z.to_nat (3 * (y * gw + x) + 2)) rgb' 0)
            = GLVertex.rgba_pixel
                (nth (Z.to_nat (3 * (y * gw + x))) rgb 0)
                (nth (Z.to_nat (3 * (y * gw + x) + 1)) rgb 0)
                (nth (Z.to_nat (3 * (y * gw + x) + 2)) rgb 0)).
  { intros x y Hx Hy. unfold rgb'. rewrite !std_copy_nth by nia. reflexivity. }
  assert (Hdist : forall x y, 0 <= x < gw -> 0 <= y < gh ->
            nth (Z.to_nat (y * gw + x)) depth' 0 = nth (Z.to_nat (y * gw + x)) depth 0).
  { intros x y Hx Hy. unfold depth'. rewrite std_copy_nth by nia. reflexivity. }
  clearbody rgb' depth'.
  destruct (GLVertex.rgb_norm f) eqn:Hnorm.
  - rewrite (bind_enqueueRGBA 0%nat 1%nat gh gw rgb' inter); [|vertex_lookup..].
    vertex_norm.
    erewrite (bind_enqueueRGBNorm 1%nat 2%nat gh gw _ shared); [|vertex_lookup..].
    vertex_norm.
    rewrite (bind_enqueueDepthTo3D 3%nat 4%nat (f_of_Z 595) depth' points);
      [|vertex_lookup..].
    vertex_norm. rewrite bind_log. vertex_norm.
    unfold GLVertex.log, modify. vertex_norm.
    eexists _, _, _. split; [reflexivity|]. vertex_norm.
    split; [exact Hnorm|].
    split; [rewrite lookup_insert_ne by lia; rewrite lookup_insert_eq; reflexivity|].
    split; [rewrite lookup_insert_eq; reflexivity|].
    intros x y Hx Hy. rewrite Hg.
    rewrite !(uint32_small gw), !(uint32_small gh) by lia.
    split.
    + rewrite (normalizeRGB_lookup gw gh Hgrid) by (try lia; rewrite Hslen; lia).
      rewrite nth_lookup.
      rewrite (rgb2rgba_lookup gw gh Hgrid) by (try lia; rewrite Hilen; lia).
      cbn [default from_option]. rewrite Hcolour by lia. reflexivity.
    + rewrite (depthTo3D_lookup gw gh Hgrid) by (try lia; rewrite Hplen; lia).
      rewrite Hdist by lia. reflexivity.
  - rewrite (bind_enqueueRGBA 0%nat 2%nat gh gw rgb' shared); [|vertex_lookup..].
    vertex_norm. rewrite bind_ret.
    rewrite (bind_enqueueDepthTo3D 3%nat 4%nat (f_of_Z 595) depth' points);
      [|vertex_lookup..].
    vertex_norm. rewrite bind_log. vertex_norm.
    unfold GLVertex.log, modify. vertex_norm.
    eexists _, _, _. split; [reflexivity|]. vertex_norm.
    split; [exact Hnorm|].
    split; [rewrite lookup_insert_ne by lia; rewrite lookup_insert_eq; reflexivity|].
    split; [rewrite lookup_insert_eq; reflexivity|].
    intros x y Hx Hy. rewrite Hg.
    rewrite !(uint32_small gw), !(uint32_small gh) by lia.
    split.
    + rewrite (rgb2rgba_lookup gw gh Hgrid) by (try lia; rewrite Hslen; lia).
      rewrite Hcolour by lia. reflexivity.
    + rewrite (depthTo3D_lookup gw gh Hgrid) by (try lia; rewrite Hplen; lia).
      rewrite Hdist by lia. reflexivity.
Qed.

End VertexProcess.

Section VertexInit.

Context {F : Type} `{FloatOps F}.

Ltac insert_lookup :=
  repeat first [rewrite lookup_insert_eq | rewrite lookup_insert_ne by lia].

(** The constructor establishes [Filter_ok]. *)
Lemma vertex_Filter_new_ok : GLVertex.Filter_ok (@GLVertex.Filter_new F _).
Proof.
  unfold GLVertex.Filter_new. cbv zeta. rewrite vertex_frame_pixels_eq.
  split; vertex_norm.
  - lia.
  - lia.
  - reflexivity.
  - reflexivity.
  - reflexivity.
  - reflexivity.
  - reflexivity.
  - eexists. split; [insert_lookup; reflexivity|]. apply repeat_length.
  - eexists. split; [insert_lookup; reflexivity|]. apply repeat_length.
  - intros m [-> | [-> | ->]];
      (eexists; split; [insert_lookup; reflexivity|]; apply repeat_length).
  - insert_lookup. reflexivity.
  - insert_lookup. reflexivity.
  - insert_lookup. reflexivity.
  - insert_lookup. reflexivity.
  - insert_lookup. reflexivity.
  - insert_lookup. reflexivity.
  - insert_lookup. reflexivity.
  - insert_lookup. reflexivity.
  - insert_lookup. reflexivity.
  - insert_lookup. reflexivity.
Qed.

(** [toggleRGBNormalization] keeps [Filter_ok], flips the flag and returns
    its new value. *)
Lemma toggleRGBNormalization_spec (f : @GLVertex.Filter F) :
  GLVertex.Filter_ok f ->
  exists f', GLVertex.toggleRGBNormalization f = Done (negb (GLVertex.rgb_norm f), f')
             /\ GLVertex.rgb_norm f' = negb (GLVertex.rgb_norm f)
             /\ GLVertex.Filter_ok f'.
Proof.
  intros Hok. eexists. split; [reflexivity|]. split; [reflexivity|].
  destruct Hok. split; vertex_norm; assumption.
Qed.

End VertexInit.

(** ** Quotients of an accurate division *)

Lemma b32_div_nonzero (divide : float32 -> float32 -> float32) (x y : float32) :
  b32_is_finite_nonzero x = true -> b32_is_finite_nonzero y = true ->
  b32_div divide x y = divide x y.
Proof.
  destruct x as [sx|sx| |sx mx ex]; try discriminate.
  destruct y as [sy|sy| |sy my ey]; try discriminate.
  reflexivity.
Qed.

(** With the correctly rounded division the device divides as IEEE 754
    has it. *)
Lemma b32_div_ieee (x y : float32) :
  b32_div ieee_divide x y = SFdiv b32_prec b32_emax x y.
Proof. destruct x, y; reflexivity. Qed.

Lemma ieee_divide_accurate : divide_accurate ieee_divide.
Proof. intros x y _. left. reflexivity. Qed.

Lemma near_all_spec (divide : float32 -> float32 -> float32) (P : float32 -> bool)
    (x y : float32) :
  divide_accurate divide ->
  near_all P (SFdiv b32_prec b32_emax x y) = true -> P (divide x y) = true.
Proof.
  intros Hacc Hall. unfold near_all in Hall. apply andb_prop in Hall as [Hn Hall].
  apply (proj1 (forallb_forall P _) Hall). apply Hacc. exact Hn.
Qed.

Lemma b32_within_spec (q eps : Q) (x : float32) :
  b32_within q eps x = true ->
  exists r, b32_to_Q x = Some r /\ (Qabs (r - q) <= eps)%Q.
Proof.
  unfold b32_within. destruct (b32_to_Q x) as [r|]; [|discriminate].
  intros Hle. exists r. split; [reflexivity|]. apply Qle_bool_iff. exact Hle.
Qed.

Lemma digits2_pos_bounds (p : positive) :
  2 ^ (Zpos (digits2_pos p) - 1) <= Zpos p < 2 ^ Zpos (digits2_pos p).
Proof.
  assert (Hstep : forall d, 0 < d ->
            2 ^ (Z.succ d - 1) = 2 * 2 ^ (d - 1) /\ 2 ^ Z.succ d = 2 * 2 ^ d).
  { intros d Hd. split; [|apply Z.pow_succ_r; lia].
    replace (Z.succ d - 1) with (Z.succ (d - 1)) by lia. apply Z.pow_succ_r. lia. }
  induction p as [p IH|p IH|]; cbn [digits2_pos].
  - rewrite Pos2Z.inj_succ. change (Zpos p~1) with (2 * Zpos p + 1).
    destruct (Hstep (Zpos (digits2_pos p)) ltac:(lia)) as [-> ->]. lia.
  - rewrite Pos2Z.inj_succ. change (Zpos p~0) with (2 * Zpos p).
    destruct (Hstep (Zpos (digits2_pos p)) ltac:(lia)) as [-> ->]. lia.
  - cbn. lia.
Qed.

(** The number of a normal float is the number of that float only. *)
Lemma b32_of_ord_ord (x : float32) :
  b32_is_normal x = true -> b32_of_ord (b32_ord x) = x.
Proof.
  destruct x as [s|s| |s m e]; try discriminate. cbn [b32_is_normal].
  intros Hn. apply andb_prop in Hn as [Hn He2]. apply andb_prop in Hn as [Hd He1].
  apply Z.eqb_eq in Hd. apply Z.leb_le in He1, He2.
  assert (Hm : 2 ^ 23 <= Zpos m < 2 ^ 24).
  { pose proof (digits2_pos_bounds m) as Hb. unfold b32_prec in Hd. rewrite Hd in Hb.
    exact Hb. }
  set (n := (e + 149) * 2 ^ 23 + Zpos m).
  assert (Hq : n / 2 ^ 23 = e + 150).
  { symmetry. apply (Z.div_unique n (2 ^ 23) (e + 150) (Zpos m - 2 ^ 23)); [lia|].
    unfold n. ring. }
  assert (Hgen : forall k, Z.abs k = n -> (k <? 0) = s ->
                   b32_of_ord k = S754_finite s m e).
  { intros k Hk Hs. unfold b32_of_ord. rewrite Hk, Hq, Hs.
    replace (Z.max 0 (e + 150 - 1)) with (e + 149) by lia.
    replace (n - (e + 149) * 2 ^ 23) with (Zpos m) by (unfold n; ring).
    replace (e + 149 <=? 253) with true by (symmetry; apply Z.leb_le; lia).
    f_equal. lia. }
  cbn [b32_ord]. fold n. destruct s.
  - apply Hgen; [lia|]. apply Z.ltb_lt. lia.
  - apply Hgen; [lia|]. apply Z.ltb_ge. lia.
Qed.

Lemma b32_normal_mantissa (s : bool) (m : positive) (e : Z) :
  b32_is_normal (S754_finite s m e) = true ->
  2 ^ 23 <= Zpos m < 2 ^ 24 /\ -149 <= e <= 104.
Proof.
  cbn [b32_is_normal]. intros Hn.
  apply andb_prop in Hn as [Hn He2]. apply andb_prop in Hn as [Hd He1].
  apply Z.eqb_eq in Hd. apply Z.leb_le in He1, He2.
  pose proof (digits2_pos_bounds m) as Hb. unfold b32_prec in Hd. rewrite Hd in Hb.
  split; [exact Hb|lia].
Qed.

(** The float of a number [n] that lies in the binade of exponent [e]. *)
Lemma b32_of_ord_binade (n m e : Z) :
  2 ^ 23 <= m < 2 ^ 24 -> -149 <= e <= 104 -> n = (e + 149) * 2 ^ 23 + m ->
  b32_of_ord n = S754_finite false (Z.to_pos m) e.
Proof.
  intros Hm He ->. unfold b32_of_ord.
  assert (Hpos : 0 < (e + 149) * 2 ^ 23 + m) by nia.
  rewrite Z.abs_eq by lia.
  assert (Hq : ((e + 149) * 2 ^ 23 + m) / 2 ^ 23 = e + 150).
  { symmetry. apply (Z.div_unique _ (2 ^ 23) (e + 150) (m - 2 ^ 23)); [lia|ring]. }
  rewrite Hq. replace (Z.max 0 (e + 150 - 1)) with (e + 149) by lia.
  replace ((e + 149) * 2 ^ 23 + m - (e + 149) * 2 ^ 23) with m by ring.
  destruct m as [|m|m]; try lia.
  replace (e + 149 <=? 253) with true by (symmetry; apply Z.leb_le; lia).
  replace ((e + 149) * 2 ^ 23 + Zpos m <? 0) with false by (symmetry; apply Z.ltb_ge; lia).
  f_equal. lia.
Qed.

(** The float after a positive normal float has the next number. *)
Lemma b32_of_ord_succ (m : positive) (e : Z) :
  b32_is_normal (S754_finite false m e) = true -> e < 104 ->
  b32_of_ord (b32_ord (S754_finite false m e) + 1)
  = if Zpos m + 1 <? 2 ^ 24 then S754_finite false (m + 1) e
    else S754_finite false 8388608 (e + 1).
Proof.
  intros Hn He. apply b32_normal_mantissa in Hn as [Hm He'].
  cbn [b32_ord]. destruct (Zpos m + 1 <? 2 ^ 24) eqn:Hlt.
  - apply Z.ltb_lt in Hlt.
    rewrite (b32_of_ord_binade _ (Zpos m + 1) e); [|lia|lia|ring].
    f_equal; lia.
  - apply Z.ltb_ge in Hlt.
    rewrite (b32_of_ord_binade _ (2 ^ 23) (e + 1)); [reflexivity|lia|lia|].
    replace (Zpos m) with (2 ^ 24 - 1) by lia. ring.
Qed.

(** The float before a positive normal float has the previous number: in
    the binade below, where the float is a power of two, the floats lie
    twice as dense. *)
Lemma b32_of_ord_pred (m : positive) (e : Z) :
  b32_is_normal (S754_finite false m e) = true -> -149 < e ->
  b32_of_ord (b32_ord (S754_finite false m e) - 1)
  = if 2 ^ 23 <? Zpos m then S754_finite false (m - 1) e
    else S754_finite false 16777215 (e - 1).
Proof.
  intros Hn He. apply b32_normal_mantissa in Hn as [Hm He'].
  cbn [b32_ord]. destruct (2 ^ 23 <? Zpos m) eqn:Hlt.
  - apply Z.ltb_lt in Hlt.
    rewrite (b32_of_ord_binade _ (Zpos m - 1) e); [|lia|lia|ring].
    f_equal; lia.
  - apply Z.ltb_ge in Hlt.
    rewrite (b32_of_ord_binade _ (2 ^ 24 - 1) (e - 1)); [reflexivity|lia|lia|].
    replace (Zpos m) with (2 ^ 23) by lia. ring.
Qed.

(** The numbers of opposite floats are opposite. *)
Lemma b32_of_ord_opp (n : Z) : n <> 0 -> b32_of_ord (- n) = SFopp (b32_of_ord n).
Proof.
  intros Hn. unfold b32_of_ord. rewrite Z.abs_opp.
  assert (Hs : (- n <? 0) = negb (n <? 0)).
  { destruct (Z.ltb_spec n 0), (Z.ltb_spec (- n) 0); try reflexivity; lia. }
  rewrite Hs.
  destruct (Z.abs n - Z.max 0 (Z.abs n / 2 ^ 23 - 1) * 2 ^ 23); cbn [SFopp]; try reflexivity.
  destruct (Z.max 0 (Z.abs n / 2 ^ 23 - 1) <=? 253); reflexivity.
Qed.

Lemma b32_ord_opp (x : float32) : b32_ord (SFopp x) = - b32_ord x.
Proof.
  destruct x as [s|s| |s m e]; cbn [SFopp b32_ord]; try reflexivity.
  destruct s; cbn [negb]; lia.
Qed.

(** The numbering follows the order of the reals: of two positive normal
    floats [m1 * 2^e1] and [m2 * 2^e2] the smaller has the smaller number.
    The two sides of the comparison are the floats times 2^149. *)
Lemma b32_ord_lt (m1 m2 : positive) (e1 e2 : Z) :
  b32_is_normal (S754_finite false m1 e1) = true ->
  b32_is_normal (S754_finite false m2 e2) = true ->
  b32_ord (S754_finite false m1 e1) < b32_ord (S754_finite false m2 e2)
  <-> Zpos m1 * 2 ^ (e1 + 149) < Zpos m2 * 2 ^ (e2 + 149).
Proof.
  intros H1 H2. apply b32_normal_mantissa in H1 as [Hm1 He1].
  apply b32_normal_mantissa in H2 as [Hm2 He2]. cbn [b32_ord].
  assert (Hstep : forall a b, 0 <= a -> a < b -> 2 * 2 ^ a <= 2 ^ b).
  { intros a b Ha Hab. rewrite <- Z.pow_succ_r by lia. apply Z.pow_le_mono_r; lia. }
  destruct (Z.lt_trichotomy e1 e2) as [Hlt|[Heq|Hgt]].
  - pose proof (Hstep (e1 + 149) (e2 + 149) ltac:(lia) ltac:(lia)) as Hp.
    assert (0 < 2 ^ (e1 + 149)) by (apply Z.pow_pos_nonneg; lia).
    split; intros _; nia.
  - subst e2. assert (0 < 2 ^ (e1 + 149)) by (apply Z.pow_pos_nonneg; lia).
    split; intros Hlt; nia.
  - pose proof (Hstep (e2 + 149) (e1 + 149) ltac:(lia) ltac:(lia)) as Hp.
    assert (0 < 2 ^ (e2 + 149)) by (apply Z.pow_pos_nonneg; lia).
    split; intros Hlt; nia.
Qed.

(** ** Binary32 values of the vertex buffer program *)

Lemma all_from_spec (P : Z -> bool) (n : nat) (lo : Z) :
  all_from P lo n = true -> forall v, lo <= v < lo + Z.of_nat n -> P v = true.
Proof.
  revert lo. induction n as [|n IH]; intros lo Hall v Hv; [lia|].
  cbn [all_from] in Hall. apply andb_prop in Hall as [Hlo Hrest].
  destruct (Z.eq_dec v lo) as [->|Hne]; [exact Hlo|].
  apply (IH (lo + 1)); [exact Hrest|lia].
Qed.

(** Every 16-bit value converts to a float without rounding. *)
Lemma ushort_exact (d : Z) :
  0 <= d < 65536 -> b32_denotes (b32_dyadic d 0) (inject_Z d) = true.
Proof.
  intros Hd.
  apply (all_from_spec (fun d => b32_denotes (b32_dyadic d 0) (inject_Z d))
           (Z.to_nat 65536) 0); [vm_compute; reflexivity|lia].
Qed.

Lemma vertex_set_rgb_norm_ok {F : Type} `{FloatOps F} (b : bool) (f : @GLVertex.Filter F) :
  GLVertex.Filter_ok f -> GLVertex.Filter_ok (GLVertex.set_rgb_norm b f).
Proof. intros Hok. destruct Hok. split; vertex_norm; assumption. Qed.

Section VertexBinary32.

Variable oor : float32 -> Z.
Variable divide : float32 -> float32 -> float32.

Local Abbreviation B32 := (binary32 oor divide).
Local Abbreviation num := (@f_of_Z float32 (binary32 oor divide)).
Local Abbreviation fadd := (@f_add float32 (binary32 oor divide)).
Local Abbreviation fsub := (@f_sub float32 (binary32 oor divide)).
Local Abbreviation fmul := (@f_mul float32 (binary32 oor divide)).
Local Abbreviation fdiv := (@f_div float32 (binary32 oor divide)).

(** C10. A call of [processFrames] with RGB normalization enabled returns,
    and for every pixel of the 640 x 480 grid, whose bytes in the frame are
    [r], [g] and [b], the colour buffer shared with OpenGL then holds at
    that pixel the colour [(px / s, py / s, pz / s, 1)], where
    [(px, py, pz) = (r / 255, g / 255, b / 255)] is the pixel that
    [rgb2rgba] wrote and [s = (px + py) + pz]; with normalization disabled
    it holds [(px, py, pz, 1)]. The statement has no hypothesis on [s]: the
    kernel divides by it for every pixel. For a black pixel the three
    colour components are NaN. *)
Theorem normalizeRGB_pixel (f : @GLVertex.Filter float32) (rgb depth : list Z)
    (x y r g b : Z) :
  @GLVertex.Filter_ok float32 B32 f ->
  (3 * GLVertex.frame_pixels <= length rgb)%nat ->
  (GLVertex.frame_pixels <= length depth)%nat ->
  0 <= x < 640 -> 0 <= y < 480 ->
  nth (Z.to_nat (3 * (y * 640 + x))) rgb 0 = r ->
  nth (Z.to_nat (3 * (y * 640 + x) + 1)) rgb 0 = g ->
  nth (Z.to_nat (3 * (y * 640 + x) + 2)) rgb 0 = b ->
  let px := fdiv (num r) (num 255) in
  let py := fdiv (num g) (num 255) in
  let pz := fdiv (num b) (num 255) in
  let s := fadd (fadd px py) pz in
  exists f' colours,
    @GLVertex.processFrames float32 B32 rgb depth f = Done (tt, f')
    /\ GLVertex.objects f' !! 2%nat = Some (GLVertex.MemFloat4 colours)
    /\ colours !! Z.to_nat (y * 640 + x)
       = Some (if GLVertex.rgb_norm f
               then (fdiv px s, fdiv py s, fdiv pz s, num 1)
               else (px, py, pz, num 1))
    /\ (r = 0 -> g = 0 -> b = 0 ->
        fdiv px s = S754_nan /\ fdiv py s = S754_nan /\ fdiv pz s = S754_nan
        /\ b32_is_finite (fdiv px s) = false).
Proof.
  intros Hok Hrgb Hdepth Hx Hy Hr Hg Hb px py pz s.
  destruct vertex_size as [Hw Hh].
  destruct (processFrames_spec f rgb depth Hok Hrgb Hdepth)
    as (f' & colours & cloud & Hrun & _ & Hcolours & _ & Hpix).
  exists f', colours.
  split; [exact Hrun|]. split; [exact Hcolours|].
  split.
  { destruct (Hpix x y) as [Hpt _]; [lia|lia|].
    rewrite Hw in Hpt. rewrite Hr, Hg, Hb in Hpt. refine (eq_trans Hpt _).
    destruct (GLVertex.rgb_norm f); reflexivity. }
  intros -> -> ->. subst s px py pz.
  split; [vm_compute; reflexivity|].
  split; [vm_compute; reflexivity|].
  split; vm_compute; reflexivity.
Qed.

End VertexBinary32.

Lemma normalizeRGB_pixel_witness :
  exists f' colours,
    @GLVertex.processFrames float32 device0
      (repeat 0 (3 * GLVertex.frame_pixels)) (repeat 0 GLVertex.frame_pixels)
      (GLVertex.set_rgb_norm true GLVertex.Filter_new) = Done (tt, f')
    /\ GLVertex.objects f' !! 2%nat = Some (GLVertex.MemFloat4 colours)
    /\ colours !! Z.to_nat (0 * 640 + 0)
       = Some (S754_nan, S754_nan, S754_nan, S754_finite false 8388608 (-23)).
Proof.
  destruct (normalizeRGB_pixel oor_zero ieee_divide (GLVertex.set_rgb_norm true GLVertex.Filter_new)
              (repeat 0 (3 * GLVertex.frame_pixels)) (repeat 0 GLVertex.frame_pixels)
              0 0 0 0 0)
    as (f' & colours & Hrun & Hcolours & Hpt & _).
  - apply vertex_set_rgb_norm_ok. apply vertex_Filter_new_ok.
  - rewrite repeat_length. lia.
  - rewrite repeat_length. lia.
  - lia.
  - lia.
  - apply nth_repeat.
  - apply nth_repeat.
  - apply nth_repeat.
  - exists f', colours. split; [exact Hrun|]. split; [exact Hcolours|].
    exact Hpt.
Defined.

(** ** The kernels of the vertex buffer program in exact arithmetic *)

Section VertexExact.

Variable oorq : Q -> Z.

Local Abbreviation QF := (exactQ oorq).

Lemma Q_of_Z_exact (z : Z) : (@f_of_Z Q QF z == inject_Z z)%Q.
Proof. unfold f_of_Z. cbn [f_dyadic exactQ]. change (Qpower 2 0) with 1%Q. ring. Qed.

(** Without rounding, [depthTo3D] computes [(x - cx) * d / f],
    [(y - cy) * d / f] and [d], with [cx = 639/2] and [cy = 479/2] on the
    640 x 480 grid. *)
Lemma cloud_point_exact (x y d : Z) :
  let '(X, Y, Zc, W) := @GLVertex.cloud_point Q QF 640 480 (@f_of_Z Q QF 595) x y d in
  (X == (inject_Z x - (639 # 2)) * inject_Z d / 595
   /\ Y == (inject_Z y - (479 # 2)) * inject_Z d / 595
   /\ Zc == inject_Z d /\ W == 1)%Q.
Proof.
  unfold GLVertex.cloud_point. rewrite !Q_of_Z_exact. cbn [f_sub f_mul f_div exactQ].
  change (inject_Z (640 - 1)) with (639 # 1). change (inject_Z (480 - 1)) with (479 # 1).
  change (inject_Z 2) with (2 # 1). change (inject_Z 595) with (595 # 1).
  change (inject_Z 1) with (1 # 1).
  repeat split; try reflexivity; field.
Qed.

(** Without rounding, [normalizeRGB] after [rgb2rgba] gives each channel
    its share of the sum of the three, when the sum is not zero. *)
Lemma normalized_pixel_exact (r g b : Z) :
  r + g + b <> 0 ->
  let '(X, Y, Zc, W) :=
    @GLVertex.normalized_pixel Q QF (@GLVertex.rgba_pixel Q QF r g b) in
  (X == inject_Z r / inject_Z (r + g + b)
   /\ Y == inject_Z g / inject_Z (r + g + b)
   /\ Zc == inject_Z b / inject_Z (r + g + b) /\ W == 1)%Q.
Proof.
  intros Hsum. unfold GLVertex.normalized_pixel, GLVertex.rgba_pixel.
  rewrite !Q_of_Z_exact. cbn [f_add f_div exactQ].
  change (inject_Z 255) with (255 # 1). change (inject_Z 1) with (1 # 1).
  assert (Hs : ~ (inject_Z r + inject_Z g + inject_Z b == 0)%Q).
  { rewrite <- !inject_Z_plus. intros H0. apply Hsum.
    unfold Qeq in H0. cbn in H0. lia. }
  rewrite !inject_Z_plus.
  repeat split; try reflexivity; field; exact Hs.
Qed.

End VertexExact.

Section VertexPoint.

Variable oor : float32 -> Z.
Variable divide : float32 -> float32 -> float32.

Hypothesis divide_ok : divide_accurate divide.

Local Abbreviation B32 := (binary32 oor divide).
Local Abbreviation num := (@f_of_Z float32 (binary32 oor divide)).
Local Abbreviation fsub := (@f_sub float32 (binary32 oor divide)).
Local Abbreviation fmul := (@f_mul float32 (binary32 oor divide)).
Local Abbreviation fdiv := (@f_div float32 (binary32 oor divide)).

(** The centre [(n - 1) / 2.f] of a side of 640 or of 480 pixels. *)
Lemma centre_near (n : Z) (q eps : Q) :
  near_all (b32_within q eps) (SFdiv b32_prec b32_emax (b32_int (n - 1)) (b32_int 2)) = true ->
  b32_is_finite_nonzero (b32_int (n - 1)) = true ->
  exists r, b32_to_Q (fdiv (num (n - 1)) (num 2)) = Some r /\ (Qabs (r - q) <= eps)%Q.
Proof.
  intros Hall Hfin. apply b32_within_spec.
  change (fdiv (num (n - 1)) (num 2)) with (b32_div divide (b32_int (n - 1)) (b32_int 2)).
  rewrite b32_div_nonzero by (exact Hfin || reflexivity).
  apply (near_all_spec divide _ _ _ divide_ok Hall).
Qed.

(** The coordinate [(x - c) * d / f] of a pixel, where [c] is the centre
    that the device computed. *)
Lemma coordinate_near (n x d : Z) (P : float32 -> bool) :
  near_all (fun c =>
              b32_is_finite_nonzero (point_numerator x d c)
              && near_all P (SFdiv b32_prec b32_emax (point_numerator x d c) (b32_int 595)))
    (SFdiv b32_prec b32_emax (b32_int (n - 1)) (b32_int 2)) = true ->
  b32_is_finite_nonzero (b32_int (n - 1)) = true ->
  P (fdiv (fmul (fsub (num x) (fdiv (num (n - 1)) (num 2))) (num d)) (num 595)) = true.
Proof.
  intros Hall Hfin.
  change (fdiv (num (n - 1)) (num 2)) with (b32_div divide (b32_int (n - 1)) (b32_int 2)).
  rewrite b32_div_nonzero by (exact Hfin || reflexivity).
  pose proof (near_all_spec divide _ _ _ divide_ok Hall) as Hc. cbv beta in Hc.
  apply andb_prop in Hc as [Hnum Hc].
  change (fmul (fsub (num x) (divide (b32_int (n - 1)) (b32_int 2))) (num d))
    with (point_numerator x d (divide (b32_int (n - 1)) (b32_int 2))).
  change (fdiv (point_numerator x d (divide (b32_int (n - 1)) (b32_int 2))) (num 595))
    with (b32_div divide (point_numerator x d (divide (b32_int (n - 1)) (b32_int 2)))
            (b32_int 595)).
  rewrite b32_div_nonzero by (exact Hnum || reflexivity).
  apply (near_all_spec divide _ _ _ divide_ok Hc).
Qed.

End VertexPoint.

(** C7. A call of [processFrames] returns, and for every pixel [(x, y)] of
    the 640 x 480 grid with the 16-bit depth value [d] the buffer of the
    point cloud then holds at that pixel the point [(X, Y, Z, 1)] with
    [X = (x - cx) * d / f], [Y = (y - cy) * d / f] and [Z = d], each
    operation being the one of the device, where [cx = (640 - 1) / 2],
    [cy = (480 - 1) / 2] and [f = 595]; [f], [x], [y] and [d] convert to
    floats without rounding, so that [Z] is [d]. Where the quotients of
    the device are accurate, [cx] and [cy] are within 2^-13 of 319.5 and
    of 239.5, and at pixel (319, 239) with [d = 1000], [X] and [Y] are
    within 1/4000 of -0.5 * 1000 / 595 = -100/119 and within 0.001 of
    -0.84, and [Z] is 1000. In exact arithmetic [X], [Y] and [Z] are the
    rational numbers of these formulas, -100/119 at that pixel. *)
Theorem depthTo3D_point :
  (forall (oor : float32 -> Z) (divide : float32 -> float32 -> float32)
          (f : @GLVertex.Filter float32) (rgb depth : list Z) (x y d : Z),
      let B32 := binary32 oor divide in
      let num := @f_of_Z float32 B32 in
      @GLVertex.Filter_ok float32 B32 f ->
      (3 * GLVertex.frame_pixels <= length rgb)%nat ->
      (GLVertex.frame_pixels <= length depth)%nat ->
      0 <= x < 640 -> 0 <= y < 480 ->
      nth (Z.to_nat (y * 640 + x)) depth 0 = d -> 0 <= d < 65536 ->
      let cx := @f_div _ B32 (num (640 - 1)) (num 2) in
      let cy := @f_div _ B32 (num (480 - 1)) (num 2) in
      let focal := num 595 in
      let X := @f_div _ B32 (@f_mul _ B32 (@f_sub _ B32 (num x) cx) (num d)) focal in
      let Y := @f_div _ B32 (@f_mul _ B32 (@f_sub _ B32 (num y) cy) (num d)) focal in
      exists f' cloud,
        @GLVertex.processFrames float32 B32 rgb depth f = Done (tt, f')
        /\ GLVertex.objects f' !! 4%nat = Some (GLVertex.MemFloat4 cloud)
        /\ cloud !! Z.to_nat (y * 640 + x) = Some (X, Y, num d, num 1)
        /\ b32_denotes focal 595 = true
        /\ b32_denotes (num x) (inject_Z x) = true
        /\ b32_denotes (num y) (inject_Z y) = true
        /\ b32_denotes (num d) (inject_Z d) = true
        /\ b32_denotes (num 1) 1 = true
        /\ (divide_accurate divide ->
            (exists qx qy,
                b32_to_Q cx = Some qx /\ b32_to_Q cy = Some qy
                /\ (Qabs (qx - (639 # 2)) <= 1 # 8192)%Q
                /\ (Qabs (qy - (479 # 2)) <= 1 # 8192)%Q)
            /\ (x = 319 -> y = 239 -> d = 1000 ->
                exists qX qY,
                  b32_to_Q X = Some qX /\ b32_to_Q Y = Some qY
                  /\ (Qabs (qX - (- 100 # 119)) <= 1 # 4000)%Q
                  /\ (Qabs (qY - (- 100 # 119)) <= 1 # 4000)%Q
                  /\ (Qabs (qX - (- 84 # 100)) <= 1 # 1000)%Q
                  /\ (Qabs (qY - (- 84 # 100)) <= 1 # 1000)%Q)))
  /\ (forall (oorq : Q -> Z) (x y d : Z),
        let '(X, Y, Zc, W) :=
          @GLVertex.cloud_point Q (exactQ oorq) 640 480 (@f_of_Z Q (exactQ oorq) 595) x y d in
        (X == (inject_Z x - (639 # 2)) * inject_Z d / 595
         /\ Y == (inject_Z y - (479 # 2)) * inject_Z d / 595
         /\ Zc == inject_Z d /\ W == 1
         /\ ((x = 319)%Z -> (y = 239)%Z -> (d = 1000)%Z ->
             X == - 100 # 119 /\ Y == - 100 # 119))%Q).
Proof.
  split.
  - intros oor divide f rgb depth x y d B32 num Hok Hrgb Hdepth Hx Hy Hd Hd16 cx cy focal X Y.
    destruct vertex_size as [Hw Hh].
    destruct (@processFrames_spec float32 B32 f rgb depth Hok Hrgb Hdepth)
      as (f' & colours & cloud & Hrun & _ & _ & Hcloud & Hpix).
    exists f', cloud.
    split; [exact Hrun|]. split; [exact Hcloud|].
    split.
    { destruct (Hpix x y) as [_ Hpt]; [lia|lia|].
      rewrite Hw, Hh in Hpt. rewrite Hd in Hpt. exact Hpt. }
    split; [vm_compute; reflexivity|].
    split.
    { apply (all_from_spec (fun x => b32_denotes (b32_dyadic x 0) (inject_Z x))
               (Z.to_nat 640) 0); [vm_compute; reflexivity|lia]. }
    split.
    { apply (all_from_spec (fun y => b32_denotes (b32_dyadic y 0) (inject_Z y))
               (Z.to_nat 480) 0); [vm_compute; reflexivity|lia]. }
    split; [apply ushort_exact; exact Hd16|].
    split; [vm_compute; reflexivity|].
    intros Hacc. split.
    + destruct (centre_near oor divide Hacc 640 (639 # 2) (1 # 8192))
        as (qx & Hqx & Hbx); [vm_compute; reflexivity|reflexivity|].
      destruct (centre_near oor divide Hacc 480 (479 # 2) (1 # 8192))
        as (qy & Hqy & Hby); [vm_compute; reflexivity|reflexivity|].
      exists qx, qy. split; [exact Hqx|]. split; [exact Hqy|]. split; assumption.
    + intros -> -> Hd1000. subst X Y cx cy focal. rewrite Hd1000.
      pose (P := fun X => b32_within (- 100 # 119) (1 # 4000) X
                          && b32_within (- 84 # 100) (1 # 1000) X).
      pose proof (coordinate_near oor divide Hacc 640 319 1000 P
                    ltac:(vm_compute; reflexivity) eq_refl) as HX.
      pose proof (coordinate_near oor divide Hacc 480 239 1000 P
                    ltac:(vm_compute; reflexivity) eq_refl) as HY.
      unfold P in HX, HY.
      apply andb_prop in HX as [HX1 HX2]. apply andb_prop in HY as [HY1 HY2].
      apply b32_within_spec in HX1 as (qX & HqX & HX1).
      apply b32_within_spec in HX2 as (qX' & HqX' & HX2).
      apply b32_within_spec in HY1 as (qY & HqY & HY1).
      apply b32_within_spec in HY2 as (qY' & HqY' & HY2).
      rewrite HqX in HqX'. injection HqX' as <-.
      rewrite HqY in HqY'. injection HqY' as <-.
      exists qX, qY. split; [exact HqX|]. split; [exact HqY|].
      split; [exact HX1|]. split; [exact HY1|]. split; [exact HX2|exact HY2].
  - intros oorq x y d.
    pose proof (cloud_point_exact oorq x y d) as Hex.
    destruct (GLVertex.cloud_point 640 480 (f_of_Z 595) x y d) as [[[X Y] Zc] W].
    destruct Hex as (HX & HY & HZ & HW).
    split; [exact HX|]. split; [exact HY|]. split; [exact HZ|]. split; [exact HW|].
    intros -> -> ->. rewrite HX, HY. split; reflexivity.
Qed.

Lemma depthTo3D_point_witness :
  divide_accurate ieee_divide
  /\ exists f' cloud,
       @GLVertex.processFrames float32 device0
         (repeat 0 (3 * GLVertex.frame_pixels)) (repeat 1000 GLVertex.frame_pixels)
         GLVertex.Filter_new = Done (tt, f')
       /\ GLVertex.objects f' !! 4%nat = Some (GLVertex.MemFloat4 cloud)
       /\ (exists X Y,
             cloud !! Z.to_nat (239 * 640 + 319)
             = Some (X, Y, @f_of_Z float32 device0 1000, @f_of_Z float32 device0 1)
             /\ exists qX qY,
                  b32_to_Q X = Some qX /\ b32_to_Q Y = Some qY
                  /\ (Qabs (qX - (- 84 # 100)) <= 1 # 1000)%Q
                  /\ (Qabs (qY - (- 84 # 100)) <= 1 # 1000)%Q).
Proof.
  split; [exact ieee_divide_accurate|].
  destruct (proj1 depthTo3D_point oor_zero ieee_divide GLVertex.Filter_new
              (repeat 0 (3 * GLVertex.frame_pixels)) (repeat 1000 GLVertex.frame_pixels)
              319 239 1000)
    as (f' & cloud & Hrun & Hcloud & Hpt & _ & _ & _ & _ & _ & Hnear).
  - apply vertex_Filter_new_ok.
  - rewrite repeat_length. lia.
  - rewrite repeat_length. lia.
  - lia.
  - lia.
  - apply nth_repeat_lt.
    pose proof vertex_frame_pixels as Hfp. destruct vertex_size as [Hw Hh].
    rewrite Hw, Hh in Hfp. lia.
  - lia.
  - exists f', cloud. split; [exact Hrun|]. split; [exact Hcloud|].
    destruct (proj2 (Hnear ieee_divide_accurate) eq_refl eq_refl eq_refl)
      as (qX & qY & HqX & HqY & _ & _ & HX & HY).
    eexists _, _. split; [exact Hpt|].
    exists qX, qY. split; [exact HqX|]. split; [exact HqY|]. split; [exact HX|exact HY].
Defined.


Lemma b32_eqb_eq (x y : float32) : b32_eqb x y = true -> x = y.
Proof.
  destruct x as [a| | |a m e], y as [b| | |b m' e']; cbn; try discriminate.
  - intros Hab. apply Bool.eqb_prop in Hab. congruence.
  - intros Hab. apply andb_prop in Hab as [Hab He]. apply andb_prop in Hab as [Hab Hm].
    apply Bool.eqb_prop in Hab. apply Pos.eqb_eq in Hm. apply Z.eqb_eq in He. congruence.
Qed.

Lemma all_from_2 (P : Z -> Z -> bool) (lo1 lo2 : Z) (n1 n2 : nat) :
  all_from (fun a => all_from (P a) lo2 n2) lo1 n1 = true ->
  forall a b, lo1 <= a < lo1 + Z.of_nat n1 -> lo2 <= b < lo2 + Z.of_nat n2 -> P a b = true.
Proof.
  intros Hall a b Ha Hb.
  apply (all_from_spec (P a) n2 lo2); [|exact Hb].
  apply (all_from_spec (fun a => all_from (P a) lo2 n2) n1 lo1 Hall a Ha).
Qed.

Lemma floats_from_lookup (f : Z -> float32) (n : nat) (lo : Z) (i : nat) :
  (i < n)%nat -> floats_from f lo n !! i = Some (f (lo + Z.of_nat i)).
Proof.
  revert lo i. induction n as [|n IH]; intros lo i Hi; [lia|].
  destruct i as [|i]; cbn [floats_from].
  - cbn. f_equal. f_equal. lia.
  - cbn [lookup list_lookup]. rewrite IH by lia. f_equal. f_equal. lia.
Qed.

Lemma row_ok_spec (op : float32 -> float32 -> float32) (x : float32)
    (ys zs : list float32) (j : nat) (y : float32) :
  row_ok op x ys zs = true -> ys !! j = Some y -> zs !! j = Some (op x y).
Proof.
  revert zs j. induction ys as [|y0 ys IH]; intros zs j Hrow Hy; [discriminate|].
  destruct zs as [|z zs]; [discriminate|]. cbn [row_ok] in Hrow.
  apply andb_prop in Hrow as [Hz Hrow]. apply b32_eqb_eq in Hz.
  destruct j as [|j].
  - cbn in Hy |- *. congruence.
  - cbn in Hy |- *. apply IH; assumption.
Qed.

Lemma table_ok_lookup (op : float32 -> float32 -> float32) (stride : nat)
    (xs ys zs : list float32) (i j : nat) (x y : float32) :
  table_ok op stride xs ys zs = true -> xs !! i = Some x -> ys !! j = Some y ->
  zs !! (stride * i + j)%nat = Some (op x y).
Proof.
  revert zs i. induction xs as [|x0 xs IH]; intros zs i Htab Hx Hy; [discriminate|].
  cbn [table_ok] in Htab. apply andb_prop in Htab as [Hrow Htab].
  destruct i as [|i].
  - cbn in Hx. injection Hx as ->. rewrite Nat.mul_0_r.
    apply (row_ok_spec op x ys zs j y Hrow Hy).
  - cbn in Hx. pose proof (IH (skipn stride zs) i Htab Hx Hy) as Hz.
    rewrite lookup_drop in Hz. rewrite <- Hz. f_equal. rewrite Nat.mul_succ_r. lia.
Qed.

(** A table of [op (f a) (g b) = h (stride * a + b)]. *)
Lemma table_ok_spec (op : float32 -> float32 -> float32) (stride : nat)
    (f g h : Z -> float32) (lo1 lo2 : Z) (n1 n2 : nat) :
  table_ok op stride (floats_from f lo1 n1) (floats_from g lo2 n2)
    (floats_from h (Z.of_nat stride * lo1 + lo2) (stride * n1 + n2)) = true ->
  forall a b, lo1 <= a < lo1 + Z.of_nat n1 -> lo2 <= b < lo2 + Z.of_nat n2 ->
    op (f a) (g b) = h (Z.of_nat stride * a + b).
Proof.
  intros Htab a b Ha Hb.
  pose proof (table_ok_lookup op stride _ _ _ (Z.to_nat (a - lo1)) (Z.to_nat (b - lo2))
                (f a) (g b) Htab) as Hz.
  rewrite !floats_from_lookup in Hz by nia.
  replace (lo1 + Z.of_nat (Z.to_nat (a - lo1))) with a in Hz by lia.
  replace (lo2 + Z.of_nat (Z.to_nat (b - lo2))) with b in Hz by lia.
  specialize (Hz eq_refl eq_refl). injection Hz as Hz. rewrite <- Hz. f_equal.
  rewrite Nat2Z.inj_add, Nat2Z.inj_mul, !Z2Nat.id by lia. ring.
Qed.

Section Exact32.

Variable oor : float32 -> Z.
Variable divide : float32 -> float32 -> float32.

Local Abbreviation B32 := (binary32 oor divide).
Local Abbreviation num := (@f_of_Z float32 (binary32 oor divide)).
Local Abbreviation fadd := (@f_add float32 (binary32 oor divide)).
Local Abbreviation fmul := (@f_mul float32 (binary32 oor divide)).

Lemma mul_eighth (v : Z) :
  0 <= v <= 255 -> fmul (num v) (@f_dyadic _ B32 1 (-3)) = b32_eighths v.
Proof.
  intros Hv. apply b32_eqb_eq.
  apply (all_from_spec
           (fun v => b32_eqb (SFmul b32_prec b32_emax (b32_dyadic v 0) (b32_dyadic 1 (-3)))
                       (b32_eighths v)) (Z.to_nat 256) 0); [vm_compute; reflexivity|lia].
Qed.

Lemma add_eighths (a b : Z) :
  0 <= a <= 2040 -> 0 <= b <= 255 ->
  fadd (b32_eighths a) (b32_eighths b) = b32_eighths (a + b).
Proof.
  intros Ha Hb.
  pose proof (table_ok_spec (SFadd b32_prec b32_emax) 1 b32_eighths b32_eighths
                b32_eighths 0 0 (Z.to_nat 2041) (Z.to_nat 256)
                ltac:(vm_cast_no_check (eq_refl true)) a b) as Htab.
  change (Z.of_nat 1) with 1 in Htab. rewrite Z.mul_1_l in Htab. apply Htab; lia.
Qed.

Lemma trunc_eighths (s : Z) :
  0 <= s <= 2295 -> b32_trunc (b32_eighths s) = Some (s / 8).
Proof.
  intros Hs.
  assert (Hb : match b32_trunc (b32_eighths s) with
               | Some z => z =? s / 8
               | None => false
               end = true).
  { apply (all_from_spec
             (fun s => match b32_trunc (b32_eighths s) with
                       | Some z => z =? s / 8
                       | None => false
                       end) (Z.to_nat 2296) 0); [vm_compute; reflexivity|lia]. }
  destruct (b32_trunc (b32_eighths s)) as [z|]; [|discriminate].
  apply Z.eqb_eq in Hb. congruence.
Qed.

Lemma to_uint_eighths (s : Z) :
  0 <= s <= 2295 -> @f_to_uint _ B32 (b32_eighths s) = s / 8.
Proof.
  intros Hs. cbn [f_to_uint binary32]. unfold b32_to_uint.
  rewrite trunc_eighths by exact Hs.
  assert (0 <= s / 8 < 2 ^ 32).
  { split; [apply Z.div_pos; lia|]. apply Z.div_lt_upper_bound; lia. }
  destruct (Z.leb_spec 0 (s / 8)); [|lia].
  destruct (Z.ltb_spec (s / 8) (2 ^ 32)); [reflexivity|lia].
Qed.

(** The sum of a work-item of a box filter pass, for 8-bit pixels. *)
Lemma sum3x3_box (p : Z -> Z -> Z) :
  (forall j i, 0 <= p j i <= 255) ->
  @sum3x3 _ B32 p (@Clc.box_filter _ B32)
  = b32_eighths (p (-1) (-1) + p 0 (-1) + p 1 (-1) + p (-1) 0 + p 0 0 + p 1 0
                 + p (-1) 1 + p 0 1 + p 1 1).
Proof.
  intros Hp. unfold sum3x3, Clc.box_filter. cbn [nth].
  pose proof (Hp (-1) (-1)). pose proof (Hp 0 (-1)). pose proof (Hp 1 (-1)).
  pose proof (Hp (-1) 0). pose proof (Hp 0 0). pose proof (Hp 1 0).
  pose proof (Hp (-1) 1). pose proof (Hp 0 1). pose proof (Hp 1 1).
  rewrite !mul_eighth by auto.
  change (num 0) with (b32_eighths 0).
  rewrite !add_eighths by lia.
  reflexivity.
Qed.

Lemma mul_one (v : Z) :
  0 <= v <= 255 -> fmul (num v) (num 1) = b32_int v.
Proof.
  intros Hv. apply b32_eqb_eq.
  apply (all_from_spec
           (fun v => b32_eqb (SFmul b32_prec b32_emax (b32_dyadic v 0) (b32_dyadic 1 0))
                       (b32_int v)) (Z.to_nat 256) 0); [vm_compute; reflexivity|lia].
Qed.

Lemma add_ints (a b : Z) :
  -2040 <= a <= 1785 -> 0 <= b <= 255 -> fadd (b32_int a) (b32_int b) = b32_int (a + b).
Proof.
  intros Ha Hb.
  pose proof (table_ok_spec (SFadd b32_prec b32_emax) 1 b32_int b32_int b32_int
                (-2040) 0 (Z.to_nat 3826) (Z.to_nat 256)
                ltac:(vm_cast_no_check (eq_refl true)) a b) as Htab.
  change (Z.of_nat 1) with 1 in Htab. rewrite Z.mul_1_l in Htab. apply Htab; lia.
Qed.

(** The fifth term of a Laplacian pass, the centre pixel with the weight
    -8, added to the sum of the four terms before it. *)
Lemma add_centre (a v : Z) :
  0 <= a <= 1020 -> 0 <= v <= 255 ->
  fadd (b32_int a) (fmul (num v) (num (-8))) = b32_int (a - 8 * v).
Proof.
  intros Ha Hv.
  pose proof (table_ok_spec (fun x y => SFadd b32_prec b32_emax y x) 8
                (fun k => SFmul b32_prec b32_emax (b32_dyadic (- k) 0) (b32_dyadic (-8) 0))
                b32_int b32_int (-255) 0 (Z.to_nat 256) (Z.to_nat 1021)
                ltac:(vm_cast_no_check (eq_refl true)) (- v) a) as Htab.
  cbv beta in Htab. rewrite Z.opp_involutive in Htab.
  replace (a - 8 * v) with (Z.of_nat 8 * - v + a) by lia.
  apply Htab; lia.
Qed.

Lemma trunc_int (l : Z) : -2040 <= l <= 2040 -> b32_trunc (b32_int l) = Some l.
Proof.
  intros Hl.
  assert (Hb : match b32_trunc (b32_int l) with
               | Some z => z =? l
               | None => false
               end = true).
  { apply (all_from_spec
             (fun l => match b32_trunc (b32_int l) with
                       | Some z => z =? l
                       | None => false
                       end) (Z.to_nat 4081) (-2040)); [vm_compute; reflexivity|lia]. }
  destruct (b32_trunc (b32_int l)) as [z|]; [|discriminate].
  apply Z.eqb_eq in Hb. congruence.
Qed.

Lemma to_uint_int (l : Z) :
  -2040 <= l <= 2040 ->
  @f_to_uint _ B32 (b32_int l) = if 0 <=? l then l else uint32 (oor (b32_int l)).
Proof.
  intros Hl. cbn [f_to_uint binary32]. unfold b32_to_uint.
  rewrite trunc_int by exact Hl.
  destruct (Z.leb_spec 0 l); [|reflexivity].
  destruct (Z.ltb_spec l (2 ^ 32)); [reflexivity|lia].
Qed.

(** The sum of a work-item of the Laplacian pass, for 8-bit pixels. *)
Lemma sum3x3_laplacian (p : Z -> Z -> Z) :
  (forall j i, 0 <= p j i <= 255) ->
  @sum3x3 _ B32 p (@Clc.laplacian_filter _ B32)
  = b32_int (p (-1) (-1) + p 0 (-1) + p 1 (-1) + p (-1) 0 - 8 * p 0 0 + p 1 0
             + p (-1) 1 + p 0 1 + p 1 1).
Proof.
  intros Hp. unfold sum3x3, Clc.laplacian_filter. cbn [nth].
  pose proof (Hp (-1) (-1)). pose proof (Hp 0 (-1)). pose proof (Hp 1 (-1)).
  pose proof (Hp (-1) 0). pose proof (Hp 0 0). pose proof (Hp 1 0).
  pose proof (Hp (-1) 1). pose proof (Hp 0 1). pose proof (Hp 1 1).
  rewrite !mul_one by auto.
  change (num 0) with (b32_int 0).
  rewrite (add_ints 0) by lia. rewrite (add_ints (0 + _)) by lia.
  rewrite (add_ints (0 + _ + _)) by lia. rewrite (add_ints (0 + _ + _ + _)) by lia.
  rewrite add_centre by lia.
  rewrite !add_ints by lia.
  f_equal; lia.
Qed.

End Exact32.

(** ** The two filters of the programs on images of 8-bit pixels *)

Lemma sum3x3_ext {F : Type} `{FloatOps F} (p q : Z -> Z -> Z) (flt : list F) :
  (forall j i, -1 <= j <= 1 -> -1 <= i <= 1 -> p j i = q j i) ->
  sum3x3 p flt = sum3x3 q flt.
Proof. intros Hpq. unfold sum3x3. rewrite !Hpq by lia. reflexivity. Qed.

Lemma read_byte (img : image2d_t) (x y : Z) :
  byte_image img -> 0 <= read_imageui img Clc.the_sampler (x, y) <= 255.
Proof.
  intros (Hw & Hh & Hlen & Hbytes). unfold read_imageui.
  cbn [addressing Clc.the_sampler]. unfold pixel_at, pixel_index.
  pose proof (clamp_range 0 (image_width img - 1) x ltac:(lia)) as Hcx.
  pose proof (clamp_range 0 (image_height img - 1) y ltac:(lia)) as Hcy.
  set (cx := clamp 0 (image_width img - 1) x) in *.
  set (cy := clamp 0 (image_height img - 1) y) in *.
  rewrite nth_lookup.
  destruct (image_data img !! Z.to_nat (cy * image_width img + cx)) as [v|] eqn:Hv.
  - cbn. exact (proj1 (Forall_lookup _ _) Hbytes _ _ Hv).
  - cbn. lia.
Qed.

Lemma convolved_byte_image {F : Type} `{FloatOps F} (img : image2d_t) (flt : list F)
    (fw : Z) (smp : sampler_t) :
  byte_image img -> byte_image (Kernels.convolved img flt fw smp).
Proof.
  intros (Hw & Hh & Hlen & Hbytes). unfold Kernels.convolved, byte_image.
  cbn [image_width image_height image_data].
  split; [exact Hw|]. split; [exact Hh|]. split; [apply pixels_length|].
  apply List.Forall_forall. intros v Hv. unfold pixels in Hv.
  apply in_map_iff in Hv as (k & <- & _). unfold convert_uchar_sat. lia.
Qed.

Lemma convolved_pixel {F : Type} `{FloatOps F} (img : image2d_t) (flt : list F) (x y : Z) :
  byte_image img -> 0 <= x < image_width img -> 0 <= y < image_height img ->
  pixel_at (Kernels.convolved img flt 3 Clc.the_sampler) x y
  = convert_uchar_sat
      (f_to_uint (sum3x3 (fun j i => read_imageui img Clc.the_sampler (x + j, y + i)) flt)).
Proof.
  intros (Hw & Hh & _) Hx Hy. unfold Kernels.convolved.
  rewrite pixel_at_pixels by assumption. rewrite convolution_sum_3.
  f_equal. f_equal. apply sum3x3_ext. intros j i Hj Hi.
  rewrite !int32_uint32 by lia. reflexivity.
Qed.

Section Passes.

Variable oor : float32 -> Z.
Variable divide : float32 -> float32 -> float32.

Local Abbreviation B32 := (binary32 oor divide).

Lemma box_pixel (img : image2d_t) (x y : Z) :
  byte_image img -> 0 <= x < image_width img -> 0 <= y < image_height img ->
  pixel_at (@Kernels.convolved _ B32 img (@Clc.box_filter _ B32) 3 Clc.the_sampler) x y
  = Z.min 255 (neighbourhood_sum img x y / 8).
Proof.
  intros Himg Hx Hy. rewrite convolved_pixel by assumption.
  rewrite sum3x3_box by (intros j i; apply read_byte; exact Himg).
  unfold neighbourhood_sum. cbv zeta.
  pose proof (read_byte img (x + -1) (y + -1) Himg).
  pose proof (read_byte img (x + 0) (y + -1) Himg).
  pose proof (read_byte img (x + 1) (y + -1) Himg).
  pose proof (read_byte img (x + -1) (y + 0) Himg).
  pose proof (read_byte img (x + 0) (y + 0) Himg).
  pose proof (read_byte img (x + 1) (y + 0) Himg).
  pose proof (read_byte img (x + -1) (y + 1) Himg).
  pose proof (read_byte img (x + 0) (y + 1) Himg).
  pose proof (read_byte img (x + 1) (y + 1) Himg).
  rewrite to_uint_eighths by lia.
  unfold convert_uchar_sat.
  match goal with |- Z.max 0 (Z.min 255 (?s / 8)) = _ =>
    assert (0 <= s / 8) by (apply Z.div_pos; lia) end.
  lia.
Qed.

(** A pass of the box filter writes the sum of the nine pixels around the
    pixel, clamped to the edges of the image, divided by 8 and rounded
    down, and 255 when that is more; the conversion of the device for
    out-of-range values plays no part. *)
Theorem box_pass (img : image2d_t) (x y : Z) :
  byte_image img -> 0 <= x < image_width img -> 0 <= y < image_height img ->
  pixel_at (@Kernels.convolved _ B32 img (@Clc.box_filter _ B32) 3 Clc.the_sampler) x y
  = Z.min 255 (neighbourhood_sum img x y / 8).
Proof. exact (box_pixel img x y). Qed.

Lemma laplacian_pixel (img : image2d_t) (x y : Z) :
  byte_image img -> 0 <= x < image_width img -> 0 <= y < image_height img ->
  pixel_at (@Kernels.convolved _ B32 img (@Clc.laplacian_filter _ B32) 3 Clc.the_sampler) x y
  = if 0 <=? laplacian_response img x y
    then Z.min 255 (laplacian_response img x y)
    else convert_uchar_sat (uint32 (oor (b32_int (laplacian_response img x y)))).
Proof.
  intros Himg Hx Hy. rewrite convolved_pixel by assumption.
  rewrite sum3x3_laplacian by (intros j i; apply read_byte; exact Himg).
  unfold laplacian_response, neighbourhood_sum. cbv zeta.
  pose proof (read_byte img (x + -1) (y + -1) Himg).
  pose proof (read_byte img (x + 0) (y + -1) Himg).
  pose proof (read_byte img (x + 1) (y + -1) Himg).
  pose proof (read_byte img (x + -1) (y + 0) Himg).
  pose proof (read_byte img (x + 0) (y + 0) Himg).
  pose proof (read_byte img (x + 1) (y + 0) Himg).
  pose proof (read_byte img (x + -1) (y + 1) Himg).
  pose proof (read_byte img (x + 0) (y + 1) Himg).
  pose proof (read_byte img (x + 1) (y + 1) Himg).
  replace (x + 0) with x in * by lia. replace (y + 0) with y in * by lia.
  match goal with |- context [b32_int ?l] => set (l1 := l) end.
  match goal with |- context [0 <=? ?l] => set (l2 := l) end.
  assert (Hl : l1 = l2) by (unfold l1, l2; lia).
  rewrite to_uint_int by (unfold l1; lia). rewrite Hl.
  destruct (Z.leb_spec 0 l2); [|reflexivity].
  unfold convert_uchar_sat. lia.
Qed.

(** A pass of the Laplacian filter: when the response, the sum of the
    eight pixels around the pixel minus eight times the pixel, is not
    negative, it is written, and 255 when it is more; when it is negative,
    the pixel written is what the device makes of the conversion of a
    negative float to [uint]. *)
Theorem laplacian_pass (img : image2d_t) (x y : Z) :
  byte_image img -> 0 <= x < image_width img -> 0 <= y < image_height img ->
  pixel_at (@Kernels.convolved _ B32 img (@Clc.laplacian_filter _ B32) 3 Clc.the_sampler) x y
  = if 0 <=? laplacian_response img x y
    then Z.min 255 (laplacian_response img x y)
    else convert_uchar_sat (uint32 (oor (b32_int (laplacian_response img x y)))).
Proof. exact (laplacian_pixel img x y). Qed.

End Passes.

(** ** The image [convolve] returns, pixel by pixel *)

Lemma uploaded_byte_image (image : list Z) :
  Forall (fun v => 0 <= v <= 255) image -> (Clc.frame_pixels <= length image)%nat ->
  byte_image (Clc.uploaded image).
Proof.
  intros Hbytes Hlen. pose proof win_size as (Hw & Hh & _).
  unfold byte_image, Clc.uploaded. cbn [image_width image_height image_data].
  split; [exact Hw|]. split; [exact Hh|].
  split; [rewrite length_take, <- frame_pixels_eq; lia|].
  apply Forall_take. exact Hbytes.
Qed.

Lemma image_data_pixel (img : image2d_t) (x y : Z) :
  nth (Z.to_nat (y * image_width img + x)) (image_data img) 0 = pixel_at img x y.
Proof. reflexivity. Qed.

Section ConvolvePixels.

Variable oor : float32 -> Z.
Variable divide : float32 -> float32 -> float32.

Local Abbreviation B32 := (binary32 oor divide).

Lemma convolve_frame (f : @Clc.Filter float32) (image : list Z) :
  @Clc.Filter_ok _ B32 f -> (Clc.frame_pixels <= length image)%nat ->
  Forall (fun v => 0 <= v <= 255) image ->
  exists b f',
    @Clc.convolve _ B32 image f = Done (b, f')
    /\ length b = length image
    /\ forall x y, 0 <= x < gl_win_width -> 0 <= y < gl_win_height ->
         let img := if Clc.smoothed f
                    then @Clc.box_blur _ B32 (@Clc.box_blur _ B32 (Clc.uploaded image))
                    else Clc.uploaded image in
         nth (Z.to_nat (y * gl_win_width + x)) b 0
         = if 0 <=? laplacian_response img x y
           then Z.min 255 (laplacian_response img x y)
           else convert_uchar_sat (uint32 (oor (b32_int (laplacian_response img x y)))).
Proof.
  intros Hok Hlen Hbytes.
  destruct (convolve_spec f image Hok Hlen) as (f' & Hrun & _).
  pose proof win_size as (Hw & Hh & Hwh).
  eexists _, f'. split; [exact Hrun|].
  assert (Hfl : forall s, length (@Clc.filtered _ B32 s image) = Clc.frame_pixels).
  { intros s. unfold Clc.filtered, Clc.laplacian, Kernels.convolved. cbn [image_data].
    rewrite pixels_length. destruct s; symmetry; apply frame_pixels_eq. }
  split.
  { rewrite length_app, Hfl, length_drop. lia. }
  intros x y Hx Hy img.
  rewrite app_nth1 by (rewrite Hfl, frame_pixels_eq; nia).
  assert (Himg : byte_image img /\ image_width img = gl_win_width
                 /\ image_height img = gl_win_height).
  { unfold img. destruct (Clc.smoothed f).
    - split; [|split; reflexivity].
      unfold Clc.box_blur. do 2 apply convolved_byte_image.
      apply uploaded_byte_image; assumption.
    - split; [|split; reflexivity]. apply uploaded_byte_image; assumption. }
  destruct Himg as (Himg & Hiw & Hih).
  unfold Clc.filtered. fold img. unfold Clc.laplacian.
  change Clc.filterWidth with 3.
  rewrite <- (laplacian_pixel oor divide img x y Himg) by (rewrite ?Hiw, ?Hih; assumption).
  rewrite <- image_data_pixel. rewrite <- Hiw. reflexivity.
Qed.

(** What [convolve] returns for a frame of 8-bit pixels: each pixel is
    the response of the Laplacian filter, on the frame or, with smoothing,
    on the frame after two passes of the box filter, cut off at 255; where
    the response is negative the pixel is what the device makes of the
    conversion of a negative float to [uint]. The vector keeps its
    length. *)
Theorem convolve_pixels (f : @Clc.Filter float32) (image : list Z) :
  @Clc.Filter_ok _ B32 f -> (Clc.frame_pixels <= length image)%nat ->
  Forall (fun v => 0 <= v <= 255) image ->
  exists b f',
    @Clc.convolve _ B32 image f = Done (b, f')
    /\ length b = length image
    /\ forall x y, 0 <= x < gl_win_width -> 0 <= y < gl_win_height ->
         let img := if Clc.smoothed f
                    then @Clc.box_blur _ B32 (@Clc.box_blur _ B32 (Clc.uploaded image))
                    else Clc.uploaded image in
         nth (Z.to_nat (y * gl_win_width + x)) b 0
         = if 0 <=? laplacian_response img x y
           then Z.min 255 (laplacian_response img x y)
           else convert_uchar_sat (uint32 (oor (b32_int (laplacian_response img x y)))).
Proof. exact (convolve_frame f image). Qed.

Lemma read_clamped (img : image2d_t) (x y : Z) :
  0 < image_width img -> 0 < image_height img ->
  exists x' y', 0 <= x' < image_width img /\ 0 <= y' < image_height img
                /\ read_imageui img Clc.the_sampler (x, y) = pixel_at img x' y'.
Proof.
  intros Hw Hh.
  exists (clamp 0 (image_width img - 1) x), (clamp 0 (image_height img - 1) y).
  pose proof (clamp_range 0 (image_width img - 1) x ltac:(lia)).
  pose proof (clamp_range 0 (image_height img - 1) y ltac:(lia)).
  split; [lia|]. split; [lia|]. reflexivity.
Qed.

Lemma uniform_read (img : image2d_t) (c : Z) :
  0 < image_width img -> 0 < image_height img ->
  (forall x y, 0 <= x < image_width img -> 0 <= y < image_height img ->
               pixel_at img x y = c) ->
  forall x y, read_imageui img Clc.the_sampler (x, y) = c.
Proof.
  intros Hw Hh Hc x y.
  destruct (read_clamped img x y Hw Hh) as (x' & y' & Hx' & Hy' & ->).
  apply Hc; assumption.
Qed.

Lemma uniform_box (img : image2d_t) (c : Z) :
  byte_image img ->
  (forall x y, read_imageui img Clc.the_sampler (x, y) = c) ->
  forall x y, read_imageui (@Clc.box_blur _ B32 img) Clc.the_sampler (x, y)
              = Z.min 255 (9 * c / 8).
Proof.
  intros Himg Hc. pose proof Himg as (Hw & Hh & _).
  apply uniform_read; [exact (proj1 Hw)|exact (proj1 Hh)|].
  intros x y Hx Hy. unfold Clc.box_blur. change Clc.filterWidth with 3.
  rewrite (box_pixel oor divide img x y Himg) by assumption.
  unfold neighbourhood_sum. cbv zeta. rewrite !Hc. f_equal. f_equal. lia.
Qed.

Lemma uniform_response (img : image2d_t) (c : Z) :
  (forall x y, read_imageui img Clc.the_sampler (x, y) = c) ->
  forall x y, laplacian_response img x y = 0.
Proof.
  intros Hc x y. unfold laplacian_response, neighbourhood_sum. cbv zeta.
  rewrite !Hc. lia.
Qed.

(** A frame of one colour gives a black image, with or without
    smoothing, on every device. *)
Theorem convolve_uniform (f : @Clc.Filter float32) (v : Z) :
  @Clc.Filter_ok _ B32 f -> 0 <= v <= 255 ->
  exists f',
    @Clc.convolve _ B32 (repeat v Clc.frame_pixels) f
    = Done (repeat 0 Clc.frame_pixels, f').
Proof.
  intros Hok Hv.
  assert (Hbytes : Forall (fun v => 0 <= v <= 255) (repeat v Clc.frame_pixels)).
  { apply List.Forall_forall. intros u Hu. apply repeat_spec in Hu. lia. }
  assert (Hlen : (Clc.frame_pixels <= length (repeat v Clc.frame_pixels))%nat)
    by (rewrite repeat_length; lia).
  destruct (convolve_frame f _ Hok Hlen Hbytes) as (b & f' & Hrun & Hb & Hpix).
  exists f'. rewrite Hrun. f_equal. f_equal.
  rewrite repeat_length in Hb.
  pose proof win_size as (Hw & Hh & Hwh).
  pose proof (uploaded_byte_image _ Hbytes Hlen) as Hup.
  assert (Hu : forall x y,
             read_imageui (Clc.uploaded (repeat v Clc.frame_pixels)) Clc.the_sampler (x, y)
             = v).
  { apply uniform_read; [exact (proj1 Hw)|exact (proj1 Hh)|].
    intros x y Hx Hy. unfold Clc.uploaded, pixel_at, pixel_index in *.
    cbn [image_width image_height image_data] in *.
    rewrite firstn_all2 by (rewrite repeat_length; lia).
    apply nth_repeat_lt. rewrite frame_pixels_eq. nia. }
  apply (nth_ext _ _ 0 0); [rewrite Hb, repeat_length; reflexivity|].
  intros k Hk. rewrite Hb in Hk. rewrite frame_pixels_eq in Hk.
  rewrite nth_repeat_lt by (rewrite frame_pixels_eq; exact Hk).
  assert (0 < gl_win_width) by lia.
  pose proof (Z.mod_pos_bound (Z.of_nat k) gl_win_width ltac:(lia)) as Hx.
  assert (Hy : 0 <= Z.of_nat k / gl_win_width < gl_win_height).
  { split; [apply Z.div_pos; lia|]. apply Z.div_lt_upper_bound; lia. }
  specialize (Hpix _ _ Hx Hy). cbv zeta in Hpix.
  replace (Z.to_nat (Z.of_nat k / gl_win_width * gl_win_width + Z.of_nat k mod gl_win_width))
    with k in Hpix
    by (rewrite Z.mul_comm, <- Z.div_mod by lia; lia).
  rewrite Hpix.
  rewrite (uniform_response _ (if Clc.smoothed f
                               then Z.min 255 (9 * Z.min 255 (9 * v / 8) / 8) else v)).
  - reflexivity.
  - destruct (Clc.smoothed f); [|exact Hu].
    apply uniform_box; [apply convolved_byte_image; exact Hup|].
    apply uniform_box; [exact Hup|exact Hu].
Qed.

End ConvolvePixels.

Lemma box_pass_witness :
  pixel_at (@Kernels.convolved _ device0 (Image2D 2 2 [10; 20; 30; 40])
              (@Clc.box_filter _ device0) 3 Clc.the_sampler) 0 0 = 22.
Proof.
  refine (eq_trans (box_pass oor_zero ieee_divide (Image2D 2 2 [10; 20; 30; 40]) 0 0 _ _ _) _).
  - unfold byte_image. cbn [image_width image_height image_data length].
    repeat split; try lia. repeat constructor; lia.
  - cbn [image_width]. lia.
  - cbn [image_height]. lia.
  - reflexivity.
Defined.

Lemma laplacian_pass_witness :
  pixel_at (@Kernels.convolved _ device0 (Image2D 2 2 [10; 20; 30; 40])
              (@Clc.laplacian_filter _ device0) 3 Clc.the_sampler) 0 0 = 90
  /\ pixel_at (@Kernels.convolved _ device0 (Image2D 2 2 [10; 20; 30; 40])
                 (@Clc.laplacian_filter _ device0) 3 Clc.the_sampler) 1 1 = 0.
Proof.
  assert (Himg : byte_image (Image2D 2 2 [10; 20; 30; 40])).
  { unfold byte_image. cbn [image_width image_height image_data length].
    repeat split; try lia. repeat constructor; lia. }
  split.
  - refine (eq_trans (laplacian_pass oor_zero ieee_divide (Image2D 2 2 [10; 20; 30; 40]) 0 0 Himg _ _) _).
    + cbn [image_width]. lia.
    + cbn [image_height]. lia.
    + reflexivity.
  - refine (eq_trans (laplacian_pass oor_zero ieee_divide (Image2D 2 2 [10; 20; 30; 40]) 1 1 Himg _ _) _).
    + cbn [image_width]. lia.
    + cbn [image_height]. lia.
    + reflexivity.
Defined.

Lemma convolve_pixels_witness :
  exists b f',
    @Clc.convolve _ device0 (repeat 7 Clc.frame_pixels) (@Clc.Filter_init _ device0) = Done (b, f')
    /\ length b = Clc.frame_pixels.
Proof.
  destruct (convolve_pixels oor_zero ieee_divide (@Clc.Filter_init _ device0) (repeat 7 Clc.frame_pixels))
    as (b & f' & Hrun & Hlen & _).
  - apply Filter_init_ok.
  - rewrite repeat_length. lia.
  - apply List.Forall_forall. intros u Hu. apply repeat_spec in Hu. lia.
  - exists b, f'. split; [exact Hrun|]. rewrite Hlen. apply repeat_length.
Defined.

Lemma convolve_uniform_witness :
  exists f',
    @Clc.convolve _ device0 (repeat 7 Clc.frame_pixels) (@Clc.Filter_init _ device0)
    = Done (repeat 0 Clc.frame_pixels, f').
Proof.
  apply (convolve_uniform oor_zero ieee_divide (@Clc.Filter_init _ device0) 7).
  - apply Filter_init_ok.
  - lia.
Defined.

(** ** The keyboard callbacks *)

Lemma tilt_after_range (n : Z) (key : Ascii.ascii) :
  -30 <= n <= 30 -> -30 <= Keys.tilt_after n key <= 30.
Proof.
  intros Hn. unfold Keys.tilt_after.
  repeat match goal with |- context [match ?x with _ => _ end] => destruct x end; lia.
Qed.

Lemma tilt_up_exact (n : Z) :
  -30 <= n <= 30 ->
  (if SFltb (Keys.b64_of_Z 30)
        (SFadd Keys.b64_prec Keys.b64_emax (Keys.b64_of_Z n) (Keys.b64_of_Z 1))
   then Keys.b64_of_Z 30
   else SFadd Keys.b64_prec Keys.b64_emax (Keys.b64_of_Z n) (Keys.b64_of_Z 1))
  = Keys.b64_of_Z (Z.min 30 (n + 1)).
Proof.
  intros Hn. apply b32_eqb_eq.
  apply (all_from_spec
           (fun n =>
              b32_eqb
                (if SFltb (Keys.b64_of_Z 30)
                      (SFadd Keys.b64_prec Keys.b64_emax (Keys.b64_of_Z n) (Keys.b64_of_Z 1))
                 then Keys.b64_of_Z 30
                 else SFadd Keys.b64_prec Keys.b64_emax (Keys.b64_of_Z n) (Keys.b64_of_Z 1))
                (Keys.b64_of_Z (Z.min 30 (n + 1))))
           (Z.to_nat 61) (-30)); [vm_compute; reflexivity|lia].
Qed.

Lemma tilt_down_exact (n : Z) :
  -30 <= n <= 30 ->
  (if SFltb (SFsub Keys.b64_prec Keys.b64_emax (Keys.b64_of_Z n) (Keys.b64_of_Z 1))
        (Keys.b64_of_Z (-30))
   then Keys.b64_of_Z (-30)
   else SFsub Keys.b64_prec Keys.b64_emax (Keys.b64_of_Z n) (Keys.b64_of_Z 1))
  = Keys.b64_of_Z (Z.max (-30) (n - 1)).
Proof.
  intros Hn. apply b32_eqb_eq.
  apply (all_from_spec
           (fun n =>
              b32_eqb
                (if SFltb (SFsub Keys.b64_prec Keys.b64_emax (Keys.b64_of_Z n)
                             (Keys.b64_of_Z 1)) (Keys.b64_of_Z (-30))
                 then Keys.b64_of_Z (-30)
                 else SFsub Keys.b64_prec Keys.b64_emax (Keys.b64_of_Z n) (Keys.b64_of_Z 1))
                (Keys.b64_of_Z (Z.max (-30) (n - 1))))
           (Z.to_nat 61) (-30)); [vm_compute; reflexivity|lia].
Qed.

Section KeyPressed.

Context {Filter : Type}.
Variable toggle : CL Filter bool.
Variable toggled : Filter -> Filter.
Hypothesis toggle_returns : forall f, exists b, toggle f = Done (b, toggled f).

Local Abbreviation Globals := (@Keys.Globals Filter).

Lemma omap_tilt_app (l : list Keys.call) (c : Keys.call) :
  omap Keys.tilt_of_call (l ++ [c])
  = omap Keys.tilt_of_call l ++ match Keys.tilt_of_call c with Some a => [a] | None => [] end.
Proof. rewrite omap_app. cbn. destruct (Keys.tilt_of_call c); reflexivity. Qed.

Lemma tilt_up_ok (g : Globals) (n : Z) :
  Keys.freenectAngle g = Keys.b64_of_Z n -> -30 <= n <= 30 ->
  exists g',
    Keys.tilt_up g = Done (tt, g')
    /\ Keys.freenectAngle g' = Keys.b64_of_Z (Z.min 30 (n + 1))
    /\ omap Keys.tilt_of_call (Keys.calls g')
       = omap Keys.tilt_of_call (Keys.calls g) ++ [Keys.b64_of_Z (Z.min 30 (n + 1))]
    /\ Keys.opencl g' = Keys.opencl g.
Proof.
  intros Ha Hn. pose proof (tilt_up_exact n Hn) as Hup.
  unfold Keys.tilt_up, bind, gets, Keys.set_freenectAngle, Keys.make_call, modify, ret.
  cbn [Keys.freenectAngle Keys.opencl Keys.calls]. rewrite Ha.
  destruct (SFltb _ _); cbn [Keys.freenectAngle Keys.opencl Keys.calls];
    (eexists; split; [reflexivity|]; cbn [Keys.freenectAngle Keys.opencl Keys.calls];
     rewrite omap_tilt_app; cbn [Keys.tilt_of_call]; rewrite Hup; auto).
Qed.

Lemma tilt_down_ok (g : Globals) (n : Z) :
  Keys.freenectAngle g = Keys.b64_of_Z n -> -30 <= n <= 30 ->
  exists g',
    Keys.tilt_down g = Done (tt, g')
    /\ Keys.freenectAngle g' = Keys.b64_of_Z (Z.max (-30) (n - 1))
    /\ omap Keys.tilt_of_call (Keys.calls g')
       = omap Keys.tilt_of_call (Keys.calls g) ++ [Keys.b64_of_Z (Z.max (-30) (n - 1))]
    /\ Keys.opencl g' = Keys.opencl g.
Proof.
  intros Ha Hn. pose proof (tilt_down_exact n Hn) as Hdown.
  unfold Keys.tilt_down, bind, gets, Keys.set_freenectAngle, Keys.make_call, modify, ret.
  cbn [Keys.freenectAngle Keys.opencl Keys.calls]. rewrite Ha.
  destruct (SFltb _ _); cbn [Keys.freenectAngle Keys.opencl Keys.calls];
    (eexists; split; [reflexivity|]; cbn [Keys.freenectAngle Keys.opencl Keys.calls];
     rewrite omap_tilt_app; cbn [Keys.tilt_of_call]; rewrite Hdown; auto).
Qed.

Lemma tilt_reset_ok (g : Globals) :
  exists g',
    Keys.tilt_reset g = Done (tt, g')
    /\ Keys.freenectAngle g' = Keys.b64_of_Z 0
    /\ omap Keys.tilt_of_call (Keys.calls g')
       = omap Keys.tilt_of_call (Keys.calls g) ++ [Keys.b64_of_Z 0]
    /\ Keys.opencl g' = Keys.opencl g.
Proof.
  eexists. split; [reflexivity|]. cbn [Keys.freenectAngle Keys.opencl Keys.calls].
  rewrite omap_tilt_app. auto.
Qed.

Lemma other_call_ok (g : Globals) (c : Keys.call) :
  Keys.tilt_of_call c = None ->
  exists g',
    Keys.make_call c g = Done (tt, g')
    /\ Keys.freenectAngle g' = Keys.freenectAngle g
    /\ omap Keys.tilt_of_call (Keys.calls g') = omap Keys.tilt_of_call (Keys.calls g) ++ []
    /\ Keys.opencl g' = Keys.opencl g.
Proof.
  intros Hc. eexists. split; [reflexivity|]. cbn [Keys.freenectAngle Keys.opencl Keys.calls].
  rewrite omap_tilt_app, Hc. auto.
Qed.

Lemma toggle_ok (g : Globals) :
  exists g',
    bind (Keys.on_opencl toggle) (fun _ => ret tt) g = Done (tt, g')
    /\ Keys.freenectAngle g' = Keys.freenectAngle g
    /\ omap Keys.tilt_of_call (Keys.calls g') = omap Keys.tilt_of_call (Keys.calls g) ++ []
    /\ Keys.opencl g' = toggled (Keys.opencl g).
Proof.
  destruct (toggle_returns (Keys.opencl g)) as (b & Ht).
  unfold bind, Keys.on_opencl, ret. rewrite Ht.
  eexists. split; [reflexivity|]. cbn [Keys.freenectAngle Keys.opencl Keys.calls].
  rewrite app_nil_r. auto.
Qed.

Lemma no_key_ok (g : Globals) :
  exists g',
    @ret Globals unit tt g = Done (tt, g')
    /\ Keys.freenectAngle g' = Keys.freenectAngle g
    /\ omap Keys.tilt_of_call (Keys.calls g') = omap Keys.tilt_of_call (Keys.calls g) ++ []
    /\ Keys.opencl g' = Keys.opencl g.
Proof. exists g. rewrite app_nil_r. auto. Qed.

Lemma keyPressed_F_ok (key : Ascii.ascii) (x y : Z) (g : Globals) (n : Z) :
  Keys.freenectAngle g = Keys.b64_of_Z n -> -30 <= n <= 30 ->
  Keys.key_ok toggled (Keys.is_key "F" "f" (key, x, y)) (Keys.keyPressed_F toggle key x y)
    g n key.
Proof.
  intros Ha Hn. unfold Keys.key_ok.
  destruct key as [b0 b1 b2 b3 b4 b5 b6 b7].
  destruct b0, b1, b2, b3, b4, b5, b6, b7;
    cbn [Keys.keyPressed_F Keys.tilt_after Keys.tilts_sent Keys.is_key fst snd
         Ascii.eqb Bool.eqb orb andb map];
    first
      [ rewrite <- Ha; apply no_key_ok
      | rewrite <- Ha; apply toggle_ok
      | rewrite <- Ha; apply other_call_ok; reflexivity
      | apply tilt_up_ok; assumption
      | apply tilt_down_ok; assumption
      | apply tilt_reset_ok ].
Qed.

Lemma keyPressed_C_ok (key : Ascii.ascii) (x y : Z) (g : Globals) (n : Z) :
  Keys.freenectAngle g = Keys.b64_of_Z n -> -30 <= n <= 30 ->
  Keys.key_ok toggled (Keys.is_key "C" "c" (key, x, y)) (Keys.keyPressed_C toggle key x y)
    g n key.
Proof.
  intros Ha Hn. unfold Keys.key_ok.
  destruct key as [b0 b1 b2 b3 b4 b5 b6 b7].
  destruct b0, b1, b2, b3, b4, b5, b6, b7;
    cbn [Keys.keyPressed_C Keys.tilt_after Keys.tilts_sent Keys.is_key fst snd
         Ascii.eqb Bool.eqb orb andb map];
    first
      [ rewrite <- Ha; apply no_key_ok
      | rewrite <- Ha; apply toggle_ok
      | rewrite <- Ha; apply other_call_ok; reflexivity
      | apply tilt_up_ok; assumption
      | apply tilt_down_ok; assumption
      | apply tilt_reset_ok ].
Qed.

Lemma tilts_sent_cons (n : Z) (key : Ascii.ascii) (x y : Z)
    (keys : list (Ascii.ascii * Z * Z)) :
  Keys.tilts_sent n ((key, x, y) :: keys)
  = Keys.tilts_sent n [(key, 0, 0)] ++ Keys.tilts_sent (Keys.tilt_after n key) keys.
Proof.
  cbn [Keys.tilts_sent]. cbv zeta.
  repeat match goal with |- context [match ?b with _ => _ end] => destruct b end;
    reflexivity.
Qed.

Lemma tilts_sent_range (keys : list (Ascii.ascii * Z * Z)) (n : Z) :
  -30 <= n <= 30 -> Forall (fun m => -30 <= m <= 30) (Keys.tilts_sent n keys).
Proof.
  revert n. induction keys as [|[[key x] y] keys IH]; intros n Hn; [constructor|].
  pose proof (tilt_after_range n key Hn) as Hn'.
  cbn [Keys.tilts_sent]. cbv zeta.
  repeat match goal with |- context [match ?b with _ => _ end] => destruct b end;
    first [apply IH; exact Hn' | constructor; [exact Hn'|apply IH; exact Hn']].
Qed.

(** A run of keys, for a callback each of whose calls is as [key_ok]
    says. *)
Lemma pressed_ok (keyPressed : Ascii.ascii -> Z -> Z -> CL Globals unit)
    (is_toggle : Ascii.ascii * Z * Z -> bool) :
  (forall key x y g n,
      Keys.freenectAngle g = Keys.b64_of_Z n -> -30 <= n <= 30 ->
      Keys.key_ok toggled (is_toggle (key, x, y)) (keyPressed key x y) g n key) ->
  forall keys g n,
    Keys.freenectAngle g = Keys.b64_of_Z n -> -30 <= n <= 30 ->
    exists g',
      Keys.pressed keyPressed keys g = Done (tt, g')
      /\ Keys.freenectAngle g'
         = Keys.b64_of_Z (fold_left Keys.tilt_after (map (fun k => fst (fst k)) keys) n)
      /\ omap Keys.tilt_of_call (Keys.calls g')
         = omap Keys.tilt_of_call (Keys.calls g) ++ map Keys.b64_of_Z (Keys.tilts_sent n keys)
      /\ Keys.opencl g'
         = Nat.iter (length (List.filter is_toggle keys)) toggled (Keys.opencl g).
Proof.
  intros Hkey keys. induction keys as [|[[key x] y] keys IH]; intros g n Ha Hn.
  - exists g. cbn. rewrite app_nil_r. auto.
  - destruct (Hkey key x y g n Ha Hn) as (g1 & Hrun1 & Ha1 & Hc1 & Hf1).
    destruct (IH g1 _ Ha1 (tilt_after_range n key Hn)) as (g' & Hrun & Ha' & Hc' & Hf').
    exists g'. cbn [Keys.pressed]. unfold bind at 1. rewrite Hrun1.
    split; [exact Hrun|]. split; [exact Ha'|]. split.
    + rewrite Hc', Hc1, (tilts_sent_cons n key x y keys), map_app, app_assoc. reflexivity.
    + rewrite Hf', Hf1. cbn [List.filter].
      destruct (is_toggle (key, x, y)); [|reflexivity].
      cbn [length]. rewrite Nat.iter_succ_r. reflexivity.
Qed.

End KeyPressed.

Lemma tilt_after_fold_range (keys : list Ascii.ascii) (n : Z) :
  -30 <= n <= 30 -> -30 <= fold_left Keys.tilt_after keys n <= 30.
Proof.
  revert n. induction keys as [|key keys IH]; intros n Hn; [exact Hn|].
  cbn [fold_left]. apply IH. apply tilt_after_range. exact Hn.
Qed.

(** The tilt angle is a whole number of degrees between -30 and 30: in
    every run of keys from the start of a program, each call of
    [keyPressed] returns, [freenectAngle] is the angle that counting the
    W and S keys, held at 30 and at -30, and restarting at 0 with R gives,
    without rounding, and the angles sent to the device with
    [setTiltDegrees] are those the tilt keys give, in their order. This
    holds for the callback of the programs with the F key and for the one
    of the program with the C key. *)
Theorem tilt_keys {F : Type} `{FloatOps F} (keys : list (Ascii.ascii * Z * Z))
    (f1 : @Clc.Filter F) (f2 : @GLVertex.Filter F) :
  let final := fold_left Keys.tilt_after (map (fun k => fst (fst k)) keys) 0 in
  (exists g',
      Keys.pressed (Keys.keyPressed_F Clc.toggleSmoothing) keys (Keys.Globals_init f1)
      = Done (tt, g')
      /\ Keys.freenectAngle g' = Keys.b64_of_Z final
      /\ omap Keys.tilt_of_call (Keys.calls g')
         = map Keys.b64_of_Z (Keys.tilts_sent 0 keys))
  /\ (exists g',
        Keys.pressed (Keys.keyPressed_C GLVertex.toggleRGBNormalization) keys
          (Keys.Globals_init f2)
        = Done (tt, g')
        /\ Keys.freenectAngle g' = Keys.b64_of_Z final
        /\ omap Keys.tilt_of_call (Keys.calls g')
           = map Keys.b64_of_Z (Keys.tilts_sent 0 keys))
  /\ -30 <= final <= 30
  /\ Forall (fun m => -30 <= m <= 30) (Keys.tilts_sent 0 keys).
Proof.
  intros final. split; [|split; [|split]].
  - destruct (pressed_ok (fun f => Clc.set_smoothed (negb (Clc.smoothed f)) f) _ _
                (keyPressed_F_ok Clc.toggleSmoothing _
                   ltac:(intros f; eexists; reflexivity))
                keys (Keys.Globals_init f1) 0 eq_refl ltac:(lia))
      as (g' & Hrun & Ha & Hc & _).
    exists g'. split; [exact Hrun|]. split; [exact Ha|exact Hc].
  - destruct (pressed_ok
                (fun f => GLVertex.set_rgb_norm (negb (GLVertex.rgb_norm f)) f) _ _
                (keyPressed_C_ok GLVertex.toggleRGBNormalization _
                   ltac:(intros f; eexists; reflexivity))
                keys (Keys.Globals_init f2) 0 eq_refl ltac:(lia))
      as (g' & Hrun & Ha & Hc & _).
    exists g'. split; [exact Hrun|]. split; [exact Ha|exact Hc].
  - apply tilt_after_fold_range. lia.
  - apply tilts_sent_range. lia.
Qed.

Lemma iter_set_smoothed {F : Type} (k : nat) (f : @Clc.Filter F) :
  Clc.smoothed (Nat.iter k (fun f => Clc.set_smoothed (negb (Clc.smoothed f)) f) f)
  = xorb (Clc.smoothed f) (Nat.odd k)
  /\ forall b, Clc.set_smoothed b
                 (Nat.iter k (fun f => Clc.set_smoothed (negb (Clc.smoothed f)) f) f)
               = Clc.set_smoothed b f.
Proof.
  induction k as [|k [IHs IHf]].
  - cbn. split; [destruct (Clc.smoothed f); reflexivity|reflexivity].
  - rewrite Nat.odd_succ, <- Nat.negb_odd. rewrite Nat.iter_succ.
    split.
    + cbn [Clc.smoothed Clc.set_smoothed]. rewrite IHs.
      destruct (Clc.smoothed f), (Nat.odd k); reflexivity.
    + intros b. rewrite <- (IHf b). reflexivity.
Qed.

Lemma iter_set_rgb_norm {F : Type} (k : nat) (f : @GLVertex.Filter F) :
  GLVertex.rgb_norm
    (Nat.iter k (fun f => GLVertex.set_rgb_norm (negb (GLVertex.rgb_norm f)) f) f)
  = xorb (GLVertex.rgb_norm f) (Nat.odd k)
  /\ forall b, GLVertex.set_rgb_norm b
                 (Nat.iter k (fun f => GLVertex.set_rgb_norm (negb (GLVertex.rgb_norm f)) f)
                    f)
               = GLVertex.set_rgb_norm b f.
Proof.
  induction k as [|k [IHs IHf]].
  - cbn. split; [destruct (GLVertex.rgb_norm f); reflexivity|reflexivity].
  - rewrite Nat.odd_succ, <- Nat.negb_odd. rewrite Nat.iter_succ.
    split.
    + cbn [GLVertex.rgb_norm GLVertex.set_rgb_norm]. rewrite IHs.
      destruct (GLVertex.rgb_norm f), (Nat.odd k); reflexivity.
    + intros b. rewrite <- (IHf b). reflexivity.
Qed.

(** Of the keys, only F (C in the vertex buffer program) changes the
    filter, and only its flag: after a run of keys the flag is the one at
    the start when the number of presses of the key, in either case, is
    even, and the opposite one when it is odd; the queue, the memory
    objects and the kernels of the filter are as they were. *)
Theorem toggle_keys {F : Type} `{FloatOps F} (keys : list (Ascii.ascii * Z * Z))
    (f1 : @Clc.Filter F) (f2 : @GLVertex.Filter F) :
  (exists g',
      Keys.pressed (Keys.keyPressed_F Clc.toggleSmoothing) keys (Keys.Globals_init f1)
      = Done (tt, g')
      /\ Clc.smoothed (Keys.opencl g')
         = xorb (Clc.smoothed f1)
             (Nat.odd (length (List.filter (Keys.is_key "F" "f") keys)))
      /\ forall b, Clc.set_smoothed b (Keys.opencl g') = Clc.set_smoothed b f1)
  /\ (exists g',
        Keys.pressed (Keys.keyPressed_C GLVertex.toggleRGBNormalization) keys
          (Keys.Globals_init f2)
        = Done (tt, g')
        /\ GLVertex.rgb_norm (Keys.opencl g')
           = xorb (GLVertex.rgb_norm f2)
               (Nat.odd (length (List.filter (Keys.is_key "C" "c") keys)))
        /\ forall b, GLVertex.set_rgb_norm b (Keys.opencl g') = GLVertex.set_rgb_norm b f2).
Proof.
  split.
  - destruct (pressed_ok (fun f => Clc.set_smoothed (negb (Clc.smoothed f)) f) _ _
                (keyPressed_F_ok Clc.toggleSmoothing _
                   ltac:(intros f; eexists; reflexivity))
                keys (Keys.Globals_init f1) 0 eq_refl ltac:(lia))
      as (g' & Hrun & _ & _ & Hf).
    exists g'. split; [exact Hrun|]. rewrite Hf. cbn [Keys.opencl Keys.Globals_init].
    apply iter_set_smoothed.
  - destruct (pressed_ok
                (fun f => GLVertex.set_rgb_norm (negb (GLVertex.rgb_norm f)) f) _ _
                (keyPressed_C_ok GLVertex.toggleRGBNormalization _
                   ltac:(intros f; eexists; reflexivity))
                keys (Keys.Globals_init f2) 0 eq_refl ltac:(lia))
      as (g' & Hrun & _ & _ & Hf).
    exists g'. split; [exact Hrun|]. rewrite Hf. cbn [Keys.opencl Keys.Globals_init].
    apply iter_set_rgb_norm.
Qed.

(** ** [processFrames] keeps the filter in order *)

Section VertexInvariant.

Context {F : Type} `{FloatOps F}.

Local Abbreviation Filter := (@GLVertex.Filter F).
Local Abbreviation MemUChar := (@GLVertex.MemUChar F).
Local Abbreviation MemUShort := (@GLVertex.MemUShort F).
Local Abbreviation MemFloat4 := (@GLVertex.MemFloat4 F).
Local Abbreviation gw := GLVertex.gl_width.
Local Abbreviation gh := GLVertex.gl_height.

Ltac insert_lookup :=
  repeat first [rewrite lookup_insert_eq | rewrite lookup_insert_ne by lia].

Lemma processFrames_ok (f : Filter) (rgb depth : list Z) :
  GLVertex.Filter_ok f ->
  (3 * GLVertex.frame_pixels <= length rgb)%nat ->
  (GLVertex.frame_pixels <= length depth)%nat ->
  exists f',
    GLVertex.processFrames rgb depth f = Done (tt, f')
    /\ GLVertex.Filter_ok f'
    /\ GLVertex.rgb_norm f' = GLVertex.rgb_norm f
    /\ GLVertex.queue f' = GLVertex.queue f ++ processFrames_log f rgb depth.
Proof.
  intros Hok Hrgb Hdepth.
  destruct Hok as [Hrs Hds Hg HsRGB HiRGBA HsD Hsh (bytes & Hbytes & Hblen)
                   (values & Hvalues & Hvlen) Hpoints
                   Ha0 Ha2 Ha3 Hn0 Hn1 Hn2 Hn3 Hd0 Hd1 Hd2].
  destruct (Hpoints 1%nat) as (inter & Hinter & Hilen); [tauto|].
  destruct (Hpoints 2%nat) as (shared & Hshared & Hslen); [tauto|].
  destruct (Hpoints 4%nat) as (points & Hcloud & Hplen); [tauto|].
  pose proof vertex_frame_pixels as Hfp.
  unfold GLVertex.processFrames. rewrite bind_gets. unfold id.
  rewrite HsRGB, HiRGBA, HsD, Hsh, Hrs, Hds. cbn [nth].
  rewrite !bind_log. vertex_norm.
  rewrite (bind_enqueueWriteBytes _ _ _ bytes); [|exact Hbytes|lia|lia]. vertex_norm.
  rewrite (bind_enqueueWriteUShorts _ _ _ values);
    [|vertex_norm; rewrite lookup_insert_ne by lia; exact Hvalues|lia|lia].
  vertex_norm. rewrite bind_modify.
  replace (Z.to_nat (3 * (gw * gh))) with (3 * GLVertex.frame_pixels)%nat by lia.
  replace (Z.to_nat (2 * (gw * gh) / 2)) with GLVertex.frame_pixels
    by (rewrite Z.mul_comm, Z.div_mul by lia; lia).
  assert (Hbl : length (std_copy rgb (3 * GLVertex.frame_pixels) bytes)
                = (3 * GLVertex.frame_pixels)%nat)
    by (rewrite std_copy_length by lia; exact Hblen).
  assert (Hdl : length (std_copy depth GLVertex.frame_pixels values)
                = GLVertex.frame_pixels)
    by (rewrite std_copy_length by lia; exact Hvlen).
  set (rgb' := std_copy rgb (3 * GLVertex.frame_pixels) bytes) in *.
  set (depth' := std_copy depth GLVertex.frame_pixels values) in *.
  clearbody rgb' depth'.
  unfold processFrames_log.
  destruct (GLVertex.rgb_norm f) eqn:Hnorm.
  - rewrite (bind_enqueueRGBA 0%nat 1%nat gh gw rgb' inter); [|vertex_lookup..].
    vertex_norm.
    erewrite (bind_enqueueRGBNorm 1%nat 2%nat gh gw _ shared); [|vertex_lookup..].
    vertex_norm.
    rewrite (bind_enqueueDepthTo3D 3%nat 4%nat (f_of_Z 595) depth' points);
      [|vertex_lookup..].
    vertex_norm. rewrite bind_log. vertex_norm.
    unfold GLVertex.log, modify. vertex_norm.
    eexists. split; [reflexivity|]. split; [|split].
    + split; vertex_norm; try assumption.
      * eexists. split; [insert_lookup; reflexivity|exact Hbl].
      * eexists. split; [insert_lookup; reflexivity|exact Hdl].
      * intros m [-> | [-> | ->]]; eexists; (split; [insert_lookup; reflexivity|]).
        -- rewrite rgb2rgba_range_length. exact Hilen.
        -- rewrite normalizeRGB_range_length. exact Hslen.
        -- rewrite depthTo3D_range_length. exact Hplen.
      * rewrite lookup_insert_ne by lia. exact Ha0.
      * rewrite lookup_insert_ne by lia. exact Ha2.
      * rewrite lookup_insert_ne by lia. exact Ha3.
    + vertex_norm. exact Hnorm.
    + vertex_norm. rewrite Hg. rewrite <- !app_assoc. reflexivity.
  - rewrite (bind_enqueueRGBA 0%nat 2%nat gh gw rgb' shared); [|vertex_lookup..].
    vertex_norm. rewrite bind_ret.
    rewrite (bind_enqueueDepthTo3D 3%nat 4%nat (f_of_Z 595) depth' points);
      [|vertex_lookup..].
    vertex_norm. rewrite bind_log. vertex_norm.
    unfold GLVertex.log, modify. vertex_norm.
    eexists. split; [reflexivity|]. split; [|split].
    + split; vertex_norm; try assumption.
      * eexists. split; [insert_lookup; reflexivity|exact Hbl].
      * eexists. split; [insert_lookup; reflexivity|exact Hdl].
      * intros m [-> | [-> | ->]]; eexists; (split; [insert_lookup; try eassumption; reflexivity|]).
        -- exact Hilen.
        -- rewrite rgb2rgba_range_length. exact Hslen.
        -- rewrite depthTo3D_range_length. exact Hplen.
      * rewrite lookup_insert_ne by lia. exact Ha0.
      * rewrite lookup_insert_ne by lia. exact Ha2.
      * rewrite lookup_insert_ne by lia. exact Ha3.
    + vertex_norm. exact Hnorm.
    + vertex_norm. rewrite Hg. rewrite <- !app_assoc. reflexivity.
Qed.

End VertexInvariant.

(** ** The display loop of the vertex buffer program *)

Lemma vertex_video_bytes : GLVertex.video_bytes = (3 * GLVertex.frame_pixels)%nat.
Proof.
  unfold GLVertex.video_bytes. rewrite <- vertex_frame_pixels_eq.
  destruct vertex_size as [-> ->]. lia.
Qed.

Lemma vertex_depth_values : GLVertex.depth_values = GLVertex.frame_pixels.
Proof.
  unfold GLVertex.depth_values. rewrite <- vertex_frame_pixels_eq.
  destruct vertex_size as [-> ->]. reflexivity.
Qed.

Opaque GLVertex.video_bytes GLVertex.depth_values.

Section VertexLoop.

Context {F : Type} `{FloatOps F}.

Local Abbreviation Program := (@VertexMain.Program F).

Lemma shows_objects (f f' : @GLVertex.Filter F) (v d : list Z) (norm : bool) :
  GLVertex.objects f' = GLVertex.objects f ->
  VertexMain.shows f v d norm -> VertexMain.shows f' v d norm.
Proof. intros Hobj. unfold VertexMain.shows. rewrite Hobj. auto. Qed.

Lemma count_finish_log (f : @GLVertex.Filter F) (v d : list Z) :
  length (List.filter VertexMain.is_finish (processFrames_log f v d)) = 1%nat.
Proof. unfold processFrames_log. destruct (GLVertex.rgb_norm f); reflexivity. Qed.

(** A draw when a colour and a depth frame are new. *)
Lemma updateFrames_both (p : Program) (v d : list Z) (norm : bool) :
  VertexMain.Program_ok p -> VertexMain.pending p (Some v) (Some d) norm ->
  exists p',
    VertexMain.updateFrames p = Done (tt, p')
    /\ VertexMain.Program_ok p'
    /\ VertexMain.pending p' None None norm
    /\ VertexMain.shows (VertexMain.opencl p') v d norm
    /\ length (List.filter VertexMain.is_finish (GLVertex.queue (VertexMain.opencl p')))
       = S (length (List.filter VertexMain.is_finish
                      (GLVertex.queue (VertexMain.opencl p)))).
Proof.
  intros [Hf Hrb Hdb Hr Hd] ((Hnv & Hv) & (Hnd & Hdd) & Hnorm).
  assert (Hlv : (3 * GLVertex.frame_pixels <= length v)%nat)
    by (rewrite <- Hv, Hrb, vertex_video_bytes; lia).
  assert (Hld : (GLVertex.frame_pixels <= length d)%nat)
    by (rewrite <- Hdd, Hdb, vertex_depth_values; lia).
  destruct (processFrames_ok _ v d Hf Hlv Hld) as (f' & Hrun & Hok' & Hnorm' & Hq).
  destruct (processFrames_spec _ v d Hf Hlv Hld)
    as (f2 & colours & cloud & Hrun2 & _ & Hc & Hp & Hpix).
  rewrite Hrun in Hrun2. injection Hrun2 as <-.
  unfold VertexMain.updateFrames, GLVertex.getRGB. rewrite Hnv. cbn [negb].
  unfold GLVertex.getDepth.
  cbn [GLVertex.newDepthFrame GLVertex.depthBuffer GLVertex.rgbBuffer
       GLVertex.newRGBFrame].
  rewrite Hnd. cbn [negb]. rewrite Hv, Hdd, Hrun.
  eexists. split; [reflexivity|]. split; [|split; [|split]].
  - split; cbn [VertexMain.opencl VertexMain.device VertexMain.rgb VertexMain.depth
                GLVertex.rgbBuffer GLVertex.depthBuffer]; congruence.
  - unfold VertexMain.pending.
    cbn [VertexMain.opencl VertexMain.device GLVertex.newRGBFrame GLVertex.newDepthFrame].
    split; [reflexivity|]. split; [reflexivity|]. congruence.
  - cbn [VertexMain.opencl]. exists colours, cloud.
    split; [exact Hc|]. split; [exact Hp|]. rewrite <- Hnorm. exact Hpix.
  - cbn [VertexMain.opencl]. rewrite Hq, List.filter_app, length_app, count_finish_log. lia.
Qed.

Local Abbreviation finishes :=
  (fun p : Program =>
     length (List.filter VertexMain.is_finish (GLVertex.queue (VertexMain.opencl p)))).

Lemma vertex_run_cons (e : VertexMain.event) (es : list VertexMain.event) (p p1 : Program) :
  VertexMain.step e p = Done (tt, p1) ->
  VertexMain.run (e :: es) p = VertexMain.run es p1.
Proof. intros Hstep. cbn [VertexMain.run]. unfold bind. rewrite Hstep. reflexivity. Qed.

Lemma vertex_run_spec (es : list VertexMain.event) :
  forall (p : Program) (v d : option (list Z)) (norm : bool),
    VertexMain.Program_ok p -> VertexMain.pending p v d norm ->
    Forall VertexMain.frame_ok es ->
    exists p',
      VertexMain.run es p = Done (tt, p')
      /\ VertexMain.Program_ok p'
      /\ finishes p' = (finishes p + length (VertexMain.processed es v d norm))%nat
      /\ (forall v' d' b,
            last (VertexMain.processed es v d norm) = Some (v', d', b) ->
            VertexMain.shows (VertexMain.opencl p') v' d' b)
      /\ (VertexMain.processed es v d norm = [] ->
          GLVertex.objects (VertexMain.opencl p') = GLVertex.objects (VertexMain.opencl p)).
Proof.
  induction es as [|e es IH]; intros p v d norm Hok Hpend Hes.
  - exists p. split; [reflexivity|]. split; [exact Hok|]. cbn.
    split; [lia|]. split; [discriminate|reflexivity].
  - inversion Hes as [|? ? He Hes']; subst.
    pose proof Hok as [Hf Hrb Hdb Hr Hd].
    pose proof Hpend as (Hpv & Hpd & Hnorm).
    destruct e as [v1 t|d1 t| |].
    + (* a colour frame arrives *)
      cbn [VertexMain.frame_ok] in He.
      destruct (IH {| VertexMain.device := GLVertex.VideoCallback v1 t (VertexMain.device p);
                      VertexMain.opencl := VertexMain.opencl p;
                      VertexMain.rgb := VertexMain.rgb p;
                      VertexMain.depth := VertexMain.depth p |} (Some v1) d norm)
        as (p' & Hrun & Hok' & Hcount & Hshow & Hnone); [| |exact Hes'|].
      * split; cbn [VertexMain.opencl VertexMain.device VertexMain.rgb VertexMain.depth
                    GLVertex.VideoCallback GLVertex.rgbBuffer GLVertex.depthBuffer];
          [exact Hf|rewrite (std_copy_all v1 _ _ He Hrb); exact He|exact Hdb|exact Hr
          |exact Hd].
      * unfold VertexMain.pending.
        cbn [VertexMain.opencl VertexMain.device GLVertex.VideoCallback
             GLVertex.rgbBuffer GLVertex.depthBuffer GLVertex.newRGBFrame
             GLVertex.newDepthFrame].
        split; [split; [reflexivity|exact (std_copy_all v1 _ _ He Hrb)]|].
        split; [exact Hpd|exact Hnorm].
      * exists p'. erewrite vertex_run_cons; [|reflexivity].
        split; [exact Hrun|]. split; [exact Hok'|]. cbn [VertexMain.processed].
        split; [exact Hcount|]. split; [exact Hshow|exact Hnone].
    + (* a depth frame arrives *)
      cbn [VertexMain.frame_ok] in He.
      destruct (IH {| VertexMain.device := GLVertex.DepthCallback d1 t (VertexMain.device p);
                      VertexMain.opencl := VertexMain.opencl p;
                      VertexMain.rgb := VertexMain.rgb p;
                      VertexMain.depth := VertexMain.depth p |} v (Some d1) norm)
        as (p' & Hrun & Hok' & Hcount & Hshow & Hnone); [| |exact Hes'|].
      * split; cbn [VertexMain.opencl VertexMain.device VertexMain.rgb VertexMain.depth
                    GLVertex.DepthCallback GLVertex.rgbBuffer GLVertex.depthBuffer];
          [exact Hf|exact Hrb|rewrite (std_copy_all d1 _ _ He Hdb); exact He|exact Hr
          |exact Hd].
      * unfold VertexMain.pending.
        cbn [VertexMain.opencl VertexMain.device GLVertex.DepthCallback
             GLVertex.rgbBuffer GLVertex.depthBuffer GLVertex.newRGBFrame
             GLVertex.newDepthFrame].
        split; [exact Hpv|].
        split; [split; [reflexivity|exact (std_copy_all d1 _ _ He Hdb)]|exact Hnorm].
      * exists p'. erewrite vertex_run_cons; [|reflexivity].
        split; [exact Hrun|]. split; [exact Hok'|]. cbn [VertexMain.processed].
        split; [exact Hcount|]. split; [exact Hshow|exact Hnone].
    + (* the window is drawn *)
      destruct v as [v0|].
      * destruct d as [d0|].
        -- destruct (updateFrames_both p v0 d0 norm Hok Hpend)
             as (p1 & Hstep & Hok1 & Hpend1 & Hshow1 & Hcount1).
           destruct (IH p1 None None norm Hok1 Hpend1 Hes')
             as (p' & Hrun & Hok' & Hcount & Hshow & Hnone).
           exists p'. rewrite (vertex_run_cons VertexMain.Draw es p p1 Hstep).
           split; [exact Hrun|]. split; [exact Hok'|]. cbn [VertexMain.processed].
           split; [rewrite Hcount, Hcount1; cbn [length]; lia|].
           split; [|discriminate].
           intros v' d' b Hlast. rewrite last_cons in Hlast.
           destruct (last (VertexMain.processed es None None norm)) as [[[v2 d2] b2]|] eqn:Hl.
           ++ injection Hlast as <- <- <-. apply Hshow. reflexivity.
           ++ injection Hlast as <- <- <-.
              apply (shows_objects (VertexMain.opencl p1)); [|exact Hshow1].
              apply Hnone. apply last_None. exact Hl.
        -- destruct Hpv as [Hnv Hv]. cbn in Hpd.
           destruct (IH {| VertexMain.device :=
                             {| GLVertex.rgbBuffer := VertexMain.rgb p;
                                GLVertex.depthBuffer := GLVertex.depthBuffer (VertexMain.device p);
                                GLVertex.newRGBFrame := false;
                                GLVertex.newDepthFrame :=
                                  GLVertex.newDepthFrame (VertexMain.device p) |};
                           VertexMain.opencl := VertexMain.opencl p;
                           VertexMain.rgb := GLVertex.rgbBuffer (VertexMain.device p);
                           VertexMain.depth := VertexMain.depth p |} None None norm)
             as (p' & Hrun & Hok' & Hcount & Hshow & Hnone); [| |exact Hes'|].
           ++ split; cbn [VertexMain.opencl VertexMain.device VertexMain.rgb
                          VertexMain.depth GLVertex.rgbBuffer GLVertex.depthBuffer];
                [exact Hf|exact Hr|exact Hdb|exact Hrb|exact Hd].
           ++ unfold VertexMain.pending.
              cbn [VertexMain.opencl VertexMain.device GLVertex.newRGBFrame
                   GLVertex.newDepthFrame].
              split; [reflexivity|]. split; [exact Hpd|exact Hnorm].
           ++ exists p'. erewrite vertex_run_cons; [|].
              { split; [exact Hrun|]. split; [exact Hok'|]. cbn [VertexMain.processed].
                split; [exact Hcount|]. split; [exact Hshow|exact Hnone]. }
              cbn [VertexMain.step]. unfold VertexMain.updateFrames, GLVertex.getRGB.
              rewrite Hnv. cbn [negb]. unfold GLVertex.getDepth.
              cbn [GLVertex.newDepthFrame]. rewrite Hpd. cbn [negb]. reflexivity.
      * cbn in Hpv.
        destruct (IH {| VertexMain.device := VertexMain.device p;
                        VertexMain.opencl := VertexMain.opencl p;
                        VertexMain.rgb := VertexMain.rgb p;
                        VertexMain.depth := VertexMain.depth p |} None d norm)
          as (p' & Hrun & Hok' & Hcount & Hshow & Hnone); [| |exact Hes'|].
        -- split; [exact Hf|exact Hrb|exact Hdb|exact Hr|exact Hd].
        -- unfold VertexMain.pending. cbn [VertexMain.opencl VertexMain.device].
           split; [exact Hpv|]. split; [exact Hpd|exact Hnorm].
        -- exists p'. erewrite vertex_run_cons; [|].
           { split; [exact Hrun|]. split; [exact Hok'|]. cbn [VertexMain.processed].
             split; [exact Hcount|]. split; [exact Hshow|exact Hnone]. }
           cbn [VertexMain.step]. unfold VertexMain.updateFrames, GLVertex.getRGB.
           rewrite Hpv. reflexivity.
    + (* the C key *)
      destruct (IH {| VertexMain.device := VertexMain.device p;
                      VertexMain.opencl :=
                        GLVertex.set_rgb_norm (negb (GLVertex.rgb_norm (VertexMain.opencl p)))
                          (VertexMain.opencl p);
                      VertexMain.rgb := VertexMain.rgb p;
                      VertexMain.depth := VertexMain.depth p |} v d (negb norm))
        as (p' & Hrun & Hok' & Hcount & Hshow & Hnone); [| |exact Hes'|].
      * split; cbn [VertexMain.opencl VertexMain.device VertexMain.rgb VertexMain.depth];
          [apply vertex_set_rgb_norm_ok; exact Hf|exact Hrb|exact Hdb|exact Hr|exact Hd].
      * unfold VertexMain.pending. cbn [VertexMain.opencl VertexMain.device].
        split; [exact Hpv|]. split; [exact Hpd|].
        cbn [GLVertex.rgb_norm GLVertex.set_rgb_norm]. rewrite Hnorm. reflexivity.
      * exists p'. erewrite vertex_run_cons; [|reflexivity].
        split; [exact Hrun|]. split; [exact Hok'|]. cbn [VertexMain.processed].
        split; [exact Hcount|]. split; [exact Hshow|exact Hnone].
Qed.

End VertexLoop.

Section VertexDraws.

Context {F : Type} `{FloatOps F}.

Lemma vertex_Program_init_ok : VertexMain.Program_ok (@VertexMain.Program_init F _).
Proof.
  split; cbn [VertexMain.Program_init VertexMain.opencl VertexMain.device VertexMain.rgb
              VertexMain.depth GLVertex.MyFreenectDevice_new GLVertex.rgbBuffer
              GLVertex.depthBuffer];
    [apply vertex_Filter_new_ok|apply repeat_length..].
Qed.

(** In every run of the vertex buffer program from its start, made of
    colour and depth frames that the driver delivers, of draws and of
    presses of the C key: every call returns; [processFrames] is called
    once for each pair of frames in [processed], and for no other; and
    after the run the buffers shared with OpenGL hold the colours and the
    points of the pair processed last, the colours normalized when the flag
    was set at that draw. When no pair was processed the memory objects are
    those of the constructor. *)
Theorem vertex_draws (es : list VertexMain.event) :
  Forall VertexMain.frame_ok es ->
  exists p',
    VertexMain.run es (@VertexMain.Program_init F _) = Done (tt, p')
    /\ VertexMain.Program_ok p'
    /\ length (List.filter VertexMain.is_finish (GLVertex.queue (VertexMain.opencl p')))
       = length (VertexMain.processed es None None false)
    /\ (forall v d b,
          last (VertexMain.processed es None None false) = Some (v, d, b) ->
          VertexMain.shows (VertexMain.opencl p') v d b)
    /\ (VertexMain.processed es None None false = [] ->
        GLVertex.objects (VertexMain.opencl p') = GLVertex.objects (@GLVertex.Filter_new F _)).
Proof.
  intros Hes.
  destruct (vertex_run_spec es VertexMain.Program_init None None false
              vertex_Program_init_ok) as (p' & Hrun & Hok & Hcount & Hshow & Hnone).
  - split; [reflexivity|]. split; reflexivity.
  - exact Hes.
  - exists p'. split; [exact Hrun|]. split; [exact Hok|].
    split; [exact Hcount|]. split; [exact Hshow|exact Hnone].
Qed.

(** A colour frame that a draw takes while no depth frame is new is never
    processed: when the depth frame arrives the next draw finds no new
    colour frame and leaves it, and the draw after the next colour frame
    processes that frame with it. *)
Theorem colour_frame_skipped (v1 d1 v2 : list Z) (t1 t2 t3 : Z) :
  length v1 = GLVertex.video_bytes -> length d1 = GLVertex.depth_values ->
  length v2 = GLVertex.video_bytes ->
  exists p',
    VertexMain.run
      [VertexMain.Video v1 t1; VertexMain.Draw; VertexMain.Depth d1 t2; VertexMain.Draw;
       VertexMain.Video v2 t3; VertexMain.Draw] (@VertexMain.Program_init F _)
    = Done (tt, p')
    /\ length (List.filter VertexMain.is_finish (GLVertex.queue (VertexMain.opencl p')))
       = 1%nat
    /\ VertexMain.shows (VertexMain.opencl p') v2 d1 false.
Proof.
  intros Hv1 Hd1 Hv2.
  destruct (vertex_run_spec
              [VertexMain.Video v1 t1; VertexMain.Draw; VertexMain.Depth d1 t2;
               VertexMain.Draw; VertexMain.Video v2 t3; VertexMain.Draw]
              VertexMain.Program_init None None false
              vertex_Program_init_ok) as (p' & Hrun & Hok & Hcount & Hshow & Hnone).
  - split; [reflexivity|]. split; reflexivity.
  - repeat apply List.Forall_cons; try apply List.Forall_nil;
      [exact Hv1|exact I|exact Hd1|exact I|exact Hv2|exact I].
  - exists p'. split; [exact Hrun|]. split; [exact Hcount|].
    apply Hshow. reflexivity.
Qed.

End VertexDraws.

Lemma vertex_draws_witness :
  exists p',
    VertexMain.run
      [VertexMain.Video (repeat 9 GLVertex.video_bytes) 0;
       VertexMain.Depth (repeat 1000 GLVertex.depth_values) 0; VertexMain.Draw]
      (@VertexMain.Program_init float32 device0)
    = Done (tt, p')
    /\ VertexMain.shows (VertexMain.opencl p') (repeat 9 GLVertex.video_bytes)
         (repeat 1000 GLVertex.depth_values) false.
Proof.
  destruct (@vertex_draws float32 device0
              [VertexMain.Video (repeat 9 GLVertex.video_bytes) 0;
               VertexMain.Depth (repeat 1000 GLVertex.depth_values) 0; VertexMain.Draw])
    as (p' & Hrun & _ & _ & Hshow & _).
  - repeat apply List.Forall_cons; try apply List.Forall_nil;
      [apply repeat_length|apply repeat_length|exact I].
  - exists p'. split; [exact Hrun|]. apply Hshow. reflexivity.
Defined.

Lemma colour_frame_skipped_witness :
  exists p',
    VertexMain.run
      [VertexMain.Video (repeat 9 GLVertex.video_bytes) 0; VertexMain.Draw;
       VertexMain.Depth (repeat 1000 GLVertex.depth_values) 1; VertexMain.Draw;
       VertexMain.Video (repeat 7 GLVertex.video_bytes) 2; VertexMain.Draw]
      (@VertexMain.Program_init float32 device0)
    = Done (tt, p')
    /\ VertexMain.shows (VertexMain.opencl p') (repeat 7 GLVertex.video_bytes)
         (repeat 1000 GLVertex.depth_values) false.
Proof.
  destruct (@colour_frame_skipped float32 device0 (repeat 9 GLVertex.video_bytes)
              (repeat 1000 GLVertex.depth_values) (repeat 7 GLVertex.video_bytes) 0 1 2)
    as (p' & Hrun & _ & Hshow).
  - apply repeat_length.
  - apply repeat_length.
  - apply repeat_length.
  - exists p'. split; [exact Hrun|exact Hshow].
Defined.

Section VertexCommands.

Context {F : Type} `{FloatOps F}.

Lemma bind_enqueueWriteBytes_short {B : Type} (buffer : cl_mem) (size : Z)
    (ptr old : list Z) (k : unit -> CL (@GLVertex.Filter F) B) (s : @GLVertex.Filter F) :
  GLVertex.objects s !! buffer = Some (GLVertex.MemUChar old) ->
  size <= Z.of_nat (length old) -> Z.of_nat (length ptr) < size ->
  bind (GLVertex.enqueueWriteBytes buffer size ptr) k s = Undefined.
Proof.
  intros Hm Hold Hptr. unfold bind, GLVertex.enqueueWriteBytes. rewrite Hm.
  rewrite (proj2 (Z.ltb_ge _ _) Hold), (proj2 (Z.ltb_lt _ _) Hptr). reflexivity.
Qed.

Lemma bind_enqueueWriteUShorts_short {B : Type} (buffer : cl_mem) (size : Z)
    (ptr old : list Z) (k : unit -> CL (@GLVertex.Filter F) B) (s : @GLVertex.Filter F) :
  GLVertex.objects s !! buffer = Some (GLVertex.MemUShort old) ->
  size <= Z.of_nat (length old) * 2 -> Z.of_nat (length ptr) * 2 < size ->
  bind (GLVertex.enqueueWriteUShorts buffer size ptr) k s = Undefined.
Proof.
  intros Hm Hold Hptr. unfold bind, GLVertex.enqueueWriteUShorts. rewrite Hm.
  rewrite (proj2 (Z.ltb_ge _ _) Hold), (proj2 (Z.ltb_lt _ _) Hptr). reflexivity.
Qed.

Lemma processFrames_short (f : @GLVertex.Filter F) (rgb depth : list Z) :
  GLVertex.Filter_ok f ->
  (length rgb < 3 * GLVertex.frame_pixels)%nat
  \/ (length depth < GLVertex.frame_pixels)%nat ->
  GLVertex.processFrames rgb depth f = Undefined.
Proof.
  intros Hok Hshort.
  destruct Hok as [Hrs Hds Hg HsRGB HiRGBA HsD Hsh (bytes & Hbytes & Hblen)
                   (values & Hvalues & Hvlen) Hpoints
                   Ha0 Ha2 Ha3 Hn0 Hn1 Hn2 Hn3 Hd0 Hd1 Hd2].
  pose proof vertex_frame_pixels as Hfp.
  unfold GLVertex.processFrames. rewrite bind_gets. unfold id.
  rewrite HsRGB, HiRGBA, HsD, Hsh, Hrs, Hds. cbn [nth].
  rewrite !bind_log. vertex_norm.
  destruct (decide (length rgb < 3 * GLVertex.frame_pixels)%nat) as [Hr|Hr].
  - apply (bind_enqueueWriteBytes_short _ _ _ bytes); [exact Hbytes|lia|lia].
  - destruct Hshort as [Hs|Hs]; [contradiction|].
    rewrite (bind_enqueueWriteBytes _ _ _ bytes); [|exact Hbytes|lia|lia]. vertex_norm.
    apply (bind_enqueueWriteUShorts_short _ _ _ values);
      [vertex_norm; rewrite lookup_insert_ne by lia; exact Hvalues|lia|lia].
Qed.

(** The commands of [processFrames]. A call with frames of the size of
    the buffers or longer returns, leaves the filter as the next call needs
    it, and has appended to the queue: [glFinish], the acquisition of the
    two buffers shared with OpenGL, the two writes of the first bytes of
    the frames, the dispatch of [rgb2rgba] into the intermediate buffer
    when normalization is on and into the shared colour buffer when it is
    off, the dispatch of [normalizeRGB] when normalization is on, the
    dispatch of [depthTo3D], the release of the shared buffers and
    [finish]. With a shorter colour or depth frame a write reads past the
    end of the frame, and the behaviour is undefined. *)
Theorem processFrames_commands (f : @GLVertex.Filter F) (rgb depth : list Z) :
  GLVertex.Filter_ok f ->
  ((3 * GLVertex.frame_pixels <= length rgb)%nat ->
   (GLVertex.frame_pixels <= length depth)%nat ->
   exists f',
     GLVertex.processFrames rgb depth f = Done (tt, f')
     /\ GLVertex.Filter_ok f'
     /\ GLVertex.rgb_norm f' = GLVertex.rgb_norm f
     /\ GLVertex.queue f' = GLVertex.queue f ++ processFrames_log f rgb depth)
  /\ ((length rgb < 3 * GLVertex.frame_pixels)%nat
      \/ (length depth < GLVertex.frame_pixels)%nat ->
      GLVertex.processFrames rgb depth f = Undefined).
Proof.
  intros Hok. split.
  - apply processFrames_ok. exact Hok.
  - apply processFrames_short. exact Hok.
Qed.

End VertexCommands.

Lemma processFrames_commands_witness :
  (exists f',
      @GLVertex.processFrames float32 device0
        (repeat 9 (3 * GLVertex.frame_pixels)) (repeat 1000 GLVertex.frame_pixels)
        GLVertex.Filter_new = Done (tt, f')
      /\ length (GLVertex.queue f') = 8%nat)
  /\ @GLVertex.processFrames float32 device0 [] [] GLVertex.Filter_new = Undefined.
Proof.
  destruct (@processFrames_commands float32 device0 GLVertex.Filter_new
              (repeat 9 (3 * GLVertex.frame_pixels)) (repeat 1000 GLVertex.frame_pixels)
              vertex_Filter_new_ok) as [Hrun _].
  destruct (@processFrames_commands float32 device0 GLVertex.Filter_new [] []
              vertex_Filter_new_ok) as [_ Hshort].
  split.
  - destruct Hrun as (f' & Hrun & _ & _ & Hq).
    + rewrite repeat_length. lia.
    + rewrite repeat_length. lia.
    + exists f'. split; [exact Hrun|]. rewrite Hq. reflexivity.
  - apply Hshort. left. cbn [length].
    pose proof vertex_frame_pixels as Hfp. destruct vertex_size as [Hw Hh].
    rewrite Hw, Hh in Hfp. lia.
Defined.

(** ** Colours and points of special pixels *)

Lemma colour_of_byte_spec (v : Z) (c : float32) :
  colour_of_byte_ok v c = true -> colour_of_byte c v.
Proof.
  unfold colour_of_byte_ok, colour_of_byte.
  destruct (b32_to_Q c) as [q|]; [|discriminate].
  intros Hok. apply andb_prop in Hok as [Hok Hz]. apply andb_prop in Hok as [H0 Hb].
  apply Qle_bool_iff in H0, Hb. apply Bool.eqb_prop in Hz.
  exists q. split; [reflexivity|]. split; [exact H0|]. split; [exact Hb|].
  rewrite <- Qeq_bool_iff, Hz. apply Z.eqb_eq.
Qed.

Section ByteQuotients.

Variable divide : float32 -> float32 -> float32.

Hypothesis divide_ok : divide_accurate divide.

(** The quotient [v / 255.f] of a byte [v] on the device. *)
Lemma byte_quotient (P : Z -> float32 -> bool) (v : Z) :
  byte_quotients_ok P = true -> 0 <= v <= 255 ->
  P v (b32_div divide (b32_int v) (b32_int 255)) = true.
Proof.
  intros Hall Hv. unfold byte_quotients_ok in Hall. apply andb_prop in Hall as [H0 Hall].
  destruct (Z.eq_dec v 0) as [->|Hne]; [exact H0|].
  pose proof (all_from_spec _ _ _ Hall v ltac:(lia)) as Ht. cbv beta in Ht.
  apply andb_prop in Ht as [Hfin Ht].
  rewrite b32_div_nonzero by (exact Hfin || reflexivity).
  apply (near_all_spec divide _ _ _ divide_ok Ht).
Qed.

Lemma colour_table : byte_quotients_ok colour_of_byte_ok = true.
Proof. vm_compute. reflexivity. Qed.

Lemma byte_colour (v : Z) :
  0 <= v <= 255 -> colour_of_byte (b32_div divide (b32_int v) (b32_int 255)) v.
Proof.
  intros Hv. apply colour_of_byte_spec. apply (byte_quotient _ v colour_table Hv).
Qed.

End ByteQuotients.

Section VertexPixels.

Variable oor : float32 -> Z.
Variable divide : float32 -> float32 -> float32.

Hypothesis divide_ok : divide_accurate divide.

Local Abbreviation B32 := (binary32 oor divide).
Local Abbreviation num := (@f_of_Z float32 (binary32 oor divide)).
Local Abbreviation fdiv := (@f_div float32 (binary32 oor divide)).

(** Without RGB normalization the colour buffer shared with OpenGL holds,
    for every pixel of a frame of bytes, on a device whose quotients are
    accurate: three components that are not negative, each at most 2^-21
    away from its byte divided by 255 and 0 for the byte 0 only, and the
    alpha component 1. *)
Theorem colours_normalized (f : @GLVertex.Filter float32) (rgb depth : list Z)
    (x y : Z) :
  @GLVertex.Filter_ok float32 B32 f -> GLVertex.rgb_norm f = false ->
  (3 * GLVertex.frame_pixels <= length rgb)%nat ->
  (GLVertex.frame_pixels <= length depth)%nat ->
  Forall (fun v => 0 <= v <= 255) rgb ->
  0 <= x < GLVertex.gl_width -> 0 <= y < GLVertex.gl_height ->
  exists f' colours cr cg cb,
    @GLVertex.processFrames float32 B32 rgb depth f = Done (tt, f')
    /\ GLVertex.objects f' !! 2%nat = Some (GLVertex.MemFloat4 colours)
    /\ colours !! Z.to_nat (y * GLVertex.gl_width + x) = Some (cr, cg, cb, num 1)
    /\ b32_denotes (num 1) 1 = true
    /\ colour_of_byte cr (nth (Z.to_nat (3 * (y * GLVertex.gl_width + x))) rgb 0)
    /\ colour_of_byte cg (nth (Z.to_nat (3 * (y * GLVertex.gl_width + x) + 1)) rgb 0)
    /\ colour_of_byte cb (nth (Z.to_nat (3 * (y * GLVertex.gl_width + x) + 2)) rgb 0).
Proof.
  intros Hok Hnorm Hrgb Hdepth Hbytes Hx Hy.
  destruct (processFrames_spec f rgb depth Hok Hrgb Hdepth)
    as (f' & colours & cloud & Hrun & _ & Hcolours & _ & Hpix).
  destruct (Hpix x y Hx Hy) as [Hpt _]. rewrite Hnorm in Hpt. cbv zeta in Hpt.
  unfold GLVertex.rgba_pixel in Hpt.
  pose proof vertex_frame_pixels as Hfp. pose proof vertex_grid as Hgrid.
  assert (Hbyte : forall k, (k < 3 * GLVertex.frame_pixels)%nat -> 0 <= nth k rgb 0 <= 255).
  { intros k Hk. rewrite nth_lookup.
    destruct (rgb !! k) as [v|] eqn:Hv; cbn; [|lia].
    exact (proj1 (Forall_lookup _ _) Hbytes _ _ Hv). }
  pose proof (byte_colour divide divide_ok _
                (Hbyte (Z.to_nat (3 * (y * GLVertex.gl_width + x))) ltac:(nia))) as Hr.
  pose proof (byte_colour divide divide_ok _
                (Hbyte (Z.to_nat (3 * (y * GLVertex.gl_width + x) + 1)) ltac:(nia))) as Hg.
  pose proof (byte_colour divide divide_ok _
                (Hbyte (Z.to_nat (3 * (y * GLVertex.gl_width + x) + 2)) ltac:(nia))) as Hb.
  eexists f', colours, _, _, _.
  split; [exact Hrun|]. split; [exact Hcolours|]. split; [exact Hpt|].
  split; [vm_compute; reflexivity|].
  split; [exact Hr|]. split; [exact Hg|exact Hb].
Qed.

(** The coordinate [(x - c) * 0 / 595] of a pixel without a depth
    reading, for each centre [c] that the device may have computed: a zero
    with the sign of [x - c]. *)
Lemma no_depth_coordinate (n x : Z) :
  near_all (fun c =>
              all_from (fun x => b32_eqb (b32_div divide (point_numerator x 0 c) (b32_int 595))
                                   (S754_zero (x <? n / 2)))
                0 (Z.to_nat n))
    (SFdiv b32_prec b32_emax (b32_int (n - 1)) (b32_int 2)) = true ->
  b32_is_finite_nonzero (b32_int (n - 1)) = true ->
  0 <= x < n ->
  fdiv (@f_mul _ B32 (@f_sub _ B32 (num x) (fdiv (num (n - 1)) (num 2))) (num 0)) (num 595)
  = S754_zero (x <? n / 2).
Proof.
  intros Hall Hfin Hx.
  change (fdiv (num (n - 1)) (num 2)) with (b32_div divide (b32_int (n - 1)) (b32_int 2)).
  rewrite b32_div_nonzero by (exact Hfin || reflexivity).
  pose proof (near_all_spec divide _ _ _ divide_ok Hall) as Hc. cbv beta in Hc.
  apply b32_eqb_eq. exact (all_from_spec _ _ _ Hc x ltac:(lia)).
Qed.

Lemma no_depth_point (x y : Z) :
  0 <= x < 640 -> 0 <= y < 480 ->
  @GLVertex.cloud_point float32 B32 640 480 (num 595) x y 0
  = (S754_zero (x <? 320), S754_zero (y <? 240), S754_zero false, num 1).
Proof.
  intros Hx Hy. unfold GLVertex.cloud_point.
  rewrite (no_depth_coordinate 640 x ltac:(vm_compute; reflexivity) eq_refl Hx).
  rewrite (no_depth_coordinate 480 y ltac:(vm_compute; reflexivity) eq_refl Hy).
  reflexivity.
Qed.

(** A pixel without a depth reading, whose depth value is 0, gets the
    point at the origin: its X, Y and Z are zeros, X negative in the left
    half of the image and Y negative in its upper half. The centre of the
    image is a quotient of the device, taken as accurate. *)
Theorem no_depth_origin (f : @GLVertex.Filter float32) (rgb depth : list Z) (x y : Z) :
  @GLVertex.Filter_ok float32 B32 f ->
  (3 * GLVertex.frame_pixels <= length rgb)%nat ->
  (GLVertex.frame_pixels <= length depth)%nat ->
  0 <= x < 640 -> 0 <= y < 480 ->
  nth (Z.to_nat (y * 640 + x)) depth 0 = 0 ->
  exists f' cloud,
    @GLVertex.processFrames float32 B32 rgb depth f = Done (tt, f')
    /\ GLVertex.objects f' !! 4%nat = Some (GLVertex.MemFloat4 cloud)
    /\ cloud !! Z.to_nat (y * 640 + x)
       = Some (S754_zero (x <? 320), S754_zero (y <? 240), S754_zero false, num 1).
Proof.
  intros Hok Hrgb Hdepth Hx Hy Hd.
  destruct vertex_size as [Hw Hh].
  destruct (processFrames_spec f rgb depth Hok Hrgb Hdepth)
    as (f' & colours & cloud & Hrun & _ & _ & Hcloud & Hpix).
  exists f', cloud. split; [exact Hrun|]. split; [exact Hcloud|].
  destruct (Hpix x y) as [_ Hpt]; [lia|lia|].
  rewrite Hw, Hh in Hpt. rewrite Hd in Hpt. refine (eq_trans Hpt _).
  f_equal. apply no_depth_point; assumption.
Qed.

End VertexPixels.

Lemma colours_normalized_witness :
  divide_accurate ieee_divide
  /\ exists f' colours,
       @GLVertex.processFrames float32 device0
         (repeat 255 (3 * GLVertex.frame_pixels)) (repeat 0 GLVertex.frame_pixels)
         GLVertex.Filter_new = Done (tt, f')
       /\ GLVertex.objects f' !! 2%nat = Some (GLVertex.MemFloat4 colours)
       /\ exists cr cg cb,
            colours !! Z.to_nat (0 * GLVertex.gl_width + 0)
            = Some (cr, cg, cb, @f_of_Z float32 device0 1)
            /\ colour_of_byte cr 255 /\ colour_of_byte cg 255 /\ colour_of_byte cb 255.
Proof.
  split; [exact ieee_divide_accurate|].
  destruct (colours_normalized oor_zero ieee_divide ieee_divide_accurate GLVertex.Filter_new
              (repeat 255 (3 * GLVertex.frame_pixels)) (repeat 0 GLVertex.frame_pixels) 0 0)
    as (f' & colours & cr & cg & cb & Hrun & Hc & Hpt & _ & Hr & Hg & Hb).
  - apply vertex_Filter_new_ok.
  - reflexivity.
  - rewrite repeat_length. lia.
  - rewrite repeat_length. lia.
  - apply List.Forall_forall. intros u Hu. apply repeat_spec in Hu. lia.
  - destruct vertex_size as [-> _]. lia.
  - destruct vertex_size as [_ ->]. lia.
  - exists f', colours. split; [exact Hrun|]. split; [exact Hc|].
    exists cr, cg, cb. split; [exact Hpt|].
    pose proof vertex_frame_pixels as Hfp.
    destruct vertex_size as [Hw Hh]. rewrite Hw, Hh in Hfp. rewrite Hw in Hr, Hg, Hb.
    rewrite nth_repeat_lt in Hr by lia. rewrite nth_repeat_lt in Hg by lia.
    rewrite nth_repeat_lt in Hb by lia.
    split; [exact Hr|]. split; [exact Hg|exact Hb].
Defined.

Lemma no_depth_origin_witness :
  divide_accurate ieee_divide
  /\ exists f' cloud,
       @GLVertex.processFrames float32 device0
         (repeat 0 (3 * GLVertex.frame_pixels)) (repeat 0 GLVertex.frame_pixels)
         GLVertex.Filter_new = Done (tt, f')
       /\ GLVertex.objects f' !! 4%nat = Some (GLVertex.MemFloat4 cloud)
       /\ cloud !! Z.to_nat (0 * 640 + 0)
          = Some (S754_zero true, S754_zero true, S754_zero false, @f_of_Z float32 device0 1).
Proof.
  split; [exact ieee_divide_accurate|].
  destruct (no_depth_origin oor_zero ieee_divide ieee_divide_accurate GLVertex.Filter_new
              (repeat 0 (3 * GLVertex.frame_pixels)) (repeat 0 GLVertex.frame_pixels) 0 0)
    as (f' & cloud & Hrun & Hc & Hpt).
  - apply vertex_Filter_new_ok.
  - rewrite repeat_length. lia.
  - rewrite repeat_length. lia.
  - lia.
  - lia.
  - apply nth_repeat.
  - exists f', cloud. split; [exact Hrun|]. split; [exact Hc|exact Hpt].
Defined.

(** ** The commands of [convolve] in the texture program *)

Section TextureCommands.

Context {F : Type} `{FloatOps F}.

(** In the texture program a call of [convolve] appends to the queue the
    upload of the frame, [glFinish], the acquisition of the OpenGL texture,
    the dispatch of [normalizeImg], the dispatches of the convolution
    kernel, three with smoothing and one without, the release of the
    texture and [finish]: every dispatch lies between the acquisition and
    the release. The last dispatch reads [bufferInterImage1], the image
    that [normalizeImg] writes, and writes the texture with the Laplacian
    filter. *)
Theorem texture_convolve_commands (image : list Z) (f : @GLTexture.Filter F) :
  exists ks k,
    GLTexture.queue (GLTexture.convolve image f)
    = GLTexture.queue f
      ++ [ EnqueueWriteImage (GLTexture.bufferSourceImage f) (GLTexture.region f)
             (firstn (Z.to_nat (fst (fst (GLTexture.region f))
                                * snd (fst (GLTexture.region f)))) image);
           GlFinish;
           EnqueueAcquireGLObjects (GLTexture.bufferOutputImage f) ]
      ++ map (fun k => EnqueueNDRangeKernel k (GLTexture.global f))
           (GLTexture.kernelNorm f :: ks ++ [k])
      ++ [ EnqueueReleaseGLObjects (GLTexture.bufferOutputImage f); Finish ]
    /\ length ks = (if GLTexture.smoothed f then 2%nat else 0%nat)
    /\ Forall (fun k' =>
                 exists source output,
                   pass_of (EnqueueNDRangeKernel k' (GLTexture.global f))
                   = Some (kernel_name (GLTexture.kernelConv f), source, output,
                           GLTexture.bufferBoxFilter f)) ks
    /\ pass_of (EnqueueNDRangeKernel k (GLTexture.global f))
       = Some (kernel_name (GLTexture.kernelConv f), GLTexture.bufferInterImage1 f,
               nth 0 (GLTexture.bufferOutputImage f) 0%nat,
               GLTexture.bufferLaplacianFilter f).
Proof.
  destruct (GLTexture.smoothed f) eqn:Hsm.
  - destruct (texture_convolve_log image f Hsm) as (k1 & k2 & k3 & Hq & H1 & H2 & H3).
    exists [k1; k2], k3. split; [exact Hq|]. split; [reflexivity|].
    split; [|exact H3].
    apply List.Forall_cons; [eexists _, _; exact H1|].
    apply List.Forall_cons; [eexists _, _; exact H2|apply List.Forall_nil].
  - destruct f as [[[rw rh] rd] g sm q smp src i1 i2 out box lap kn kc].
    cbn [GLTexture.smoothed] in Hsm. subst sm.
    unfold GLTexture.convolve.
    cbn [GLTexture.region GLTexture.global GLTexture.smoothed GLTexture.queue
         GLTexture.sampler GLTexture.bufferSourceImage GLTexture.bufferInterImage1
         GLTexture.bufferInterImage2 GLTexture.bufferOutputImage GLTexture.bufferBoxFilter
         GLTexture.bufferLaplacianFilter GLTexture.kernelNorm GLTexture.kernelConv
         GLTexture.enqueue GLTexture.kernelConv_setArg fst snd].
    eexists [], _. split; [rewrite <- !app_assoc; cbn [app map]; reflexivity|].
    split; [reflexivity|]. split; [apply List.Forall_nil|].
    cbn [pass_of kernel_args kernel_name setArg].
    repeat first [rewrite lookup_insert_eq | rewrite lookup_insert_ne by lia].
    reflexivity.
Qed.

End TextureCommands.

(** ** The symmetry of the point cloud *)

Section VertexMirror.

Variable oorq : Q -> Z.

Local Abbreviation QF := (exactQ oorq).



End VertexMirror.


(** ** Version 1.0 *)

Lemma int32_small (z : Z) : - 2 ^ 31 <= z < 2 ^ 31 -> int32 z = z.
Proof. intros Hz. unfold int32. rewrite Z.mod_small by lia. lia. Qed.

Lemma fold_left_ext_elem {A B : Type} (g1 g2 : A -> B -> A) (l : list B) (a : A) :
  (forall a b, b ∈ l -> g1 a b = g2 a b) -> fold_left g1 l a = fold_left g2 l a.
Proof.
  revert a. induction l as [|b l IH]; intros a Hg; [reflexivity|].
  cbn [fold_left]. rewrite (Hg a b) by apply list_elem_of_here.
  apply IH. intros a' b' Hb'. apply Hg. apply list_elem_of_further. exact Hb'.
Qed.

Lemma win_groups : gl_win_width mod 16 = 0 /\ gl_win_height mod 16 = 0.
Proof. rewrite win_width_val, win_height_val. split; reflexivity. Qed.

Section Version1.

Context {F : Type} `{FloatOps F}.

Variable limit : Z.

Local Abbreviation w := gl_win_width.
Local Abbreviation h := gl_win_height.

Lemma v1_convolution_sum_3 (src : image2d_t) (flt : list F) (smp : sampler_t) (column row : Z) :
  V1.convolution_sum src flt 3 smp column row
  = sum3x3 (fun j i => read_imageui src smp (int32 (column + j), int32 (row + i))) flt.
Proof.
  unfold V1.convolution_sum. cbv zeta.
  change (Z.quot 3 2) with 1. change (interval (Z.opp 1) 1) with [-1; 0; 1].
  reflexivity.
Qed.

Lemma v1_work_item (src out : image2d_t) (rows cols : Z) (flt : list F) (smp : sampler_t)
    (c r : Z) :
  0 <= c < 2 ^ 31 - 1 -> 0 <= r < 2 ^ 31 - 1 ->
  0 <= rows < 2 ^ 31 -> 0 <= cols < 2 ^ 31 ->
  V1.convolution src out (int32 rows) (int32 cols) flt (int32 3) smp (c, r)
  = Kernels.convolution src out (uint32 rows) (uint32 cols) flt 3 smp (c, r).
Proof.
  intros Hc Hr Hrows Hcols. unfold V1.convolution, Kernels.convolution. cbn [fst snd].
  change (int32 3) with 3.
  rewrite !(int32_small c), !(int32_small r), (int32_small rows), (int32_small cols) by lia.
  rewrite !uint32_small by lia.
  rewrite v1_convolution_sum_3, convolution_sum_3.
  rewrite (sum3x3_ext
             (fun j i => read_imageui src smp (int32 (c + j), int32 (r + i)))
             (fun j i => read_imageui src smp (int32 (uint32 (c + j)), int32 (uint32 (r + i))))).
  - reflexivity.
  - intros j i Hj Hi. rewrite !int32_uint32, !int32_small by lia. reflexivity.
Qed.

Lemma v1_range (src out : image2d_t) (flt : list F) (smp : sampler_t) :
  V1.convolution_range src out (int32 h) (int32 w) flt (int32 3) smp (w, h)
  = Kernels.convolution_range src out (uint32 h) (uint32 w) flt 3 smp (w, h).
Proof.
  win_size. unfold V1.convolution_range, Kernels.convolution_range.
  apply fold_left_ext_elem. intros o [c r] Hin.
  apply work_items_elem in Hin; [|lia].
  apply v1_work_item; lia.
Qed.

Lemma v1_clEnqueueWriteImage_ok (f : @V1.Filter F) (m : cl_mem) (img0 : image2d_t)
    (image : list Z) :
  Clc.holds_frame (Clc.objects (V1.context f)) m img0 ->
  (Clc.frame_pixels <= length image)%nat ->
  V1.clEnqueueWriteImage m (0, 0, 0) (w, h, 1) image f
  = Done (CL_SUCCESS,
          V1.submit (EnqueueWriteImage m (w, h, 1) (firstn Clc.frame_pixels image))
            (<[m := @Clc.MemImage F (Clc.uploaded image)]> (Clc.objects (V1.context f))) f).
Proof.
  intros (Hm & Hw0 & Hh0 & _) Hlen. unfold V1.clEnqueueWriteImage. rewrite Hm.
  destruct img0 as [w0 h0 data0]. cbn [image_width image_height] in *. subst w0 h0.
  rewrite region_checks. win_size.
  destruct (Z.ltb_spec (Z.of_nat (length image)) (w * h)) as [Hlt|_]; [lia|].
  unfold Clc.uploaded, set_image_data. cbn [image_width image_height].
  rewrite <- (pixels_of_data w h (firstn Clc.frame_pixels image)) at 2;
    [|lia|rewrite length_take; lia].
  rewrite (pixels_ext w h _ (fun x y => nth (Z.to_nat (y * w + x)) (firstn Clc.frame_pixels image) 0));
    [reflexivity|lia|].
  intros x y Hx Hy.
  replace ((0 <=? x) && (x <? 0 + w) && (0 <=? y) && (y <? 0 + h)) with true
    by (symmetry; repeat (apply andb_true_intro; split); lia).
  rewrite !Z.sub_0_r. symmetry. apply firstn_nth_lt. nia.
Qed.

Lemma v1_clEnqueueReadImage_ok (f : @V1.Filter F) (m : cl_mem) (img : image2d_t)
    (ptr : list Z) :
  Clc.holds_frame (Clc.objects (V1.context f)) m img ->
  (Clc.frame_pixels <= length ptr)%nat ->
  V1.clEnqueueReadImage m (0, 0, 0) (w, h, 1) ptr f
  = Done ((CL_SUCCESS, image_data img ++ skipn Clc.frame_pixels ptr),
          V1.submit (EnqueueReadImage m (w, h, 1)) (Clc.objects (V1.context f)) f).
Proof.
  intros (Hm & Hiw & Hih & Hdata) Hlen. unfold V1.clEnqueueReadImage. rewrite Hm.
  destruct img as [iw ih data]. cbn [image_width image_height image_data] in *.
  subst iw ih.
  rewrite region_checks. win_size.
  destruct (Z.ltb_spec (Z.of_nat (length ptr)) (w * h)) as [Hlt|_]; [lia|].
  assert (E : pixels w h (fun x y => pixel_at (Image2D w h data) (0 + x) (0 + y)) = data).
  { etransitivity; [|apply (pixels_of_data w h data); lia].
    apply pixels_ext; [lia|]. intros x y Hx Hy.
    unfold pixel_at, pixel_index. cbn [image_width image_data].
    rewrite !Z.add_0_l. reflexivity. }
  rewrite E. rewrite <- frame_pixels_eq. reflexivity.
Qed.

Lemma v1_group_checks (b : bool) :
  (0 <? 16) && (0 <? 16) && (w mod 16 =? 0) && (h mod 16 =? 0) && b = b.
Proof.
  destruct win_groups as [-> ->]. reflexivity.
Qed.

Lemma v1_clEnqueueNDRangeKernel_ok (f : @V1.Filter F) (simg dimg : image2d_t) :
  V1.Filter_ok f ->
  Clc.holds_frame (Clc.objects (V1.context f)) 0%nat simg ->
  Clc.holds_frame (Clc.objects (V1.context f)) 1%nat dimg ->
  256 <= limit ->
  V1.clEnqueueNDRangeKernel limit (w, h) (16, 16) f
  = Done (CL_SUCCESS,
          V1.submit (EnqueueNDRangeKernel (V1.kernel_conv f) (w, h))
            (<[1%nat := @Clc.MemImage F
                          (Kernels.convolved simg Clc.laplacian_filter 3 Clc.the_sampler)]>
               (Clc.objects (V1.context f))) f).
Proof.
  intros Hok (Hsrc & Hsw & Hsh & _) (Hdst & Hdw & Hdh & Hlen) Hlimit.
  destruct dimg as [dw dh ddata]. cbn [image_width image_height image_data] in *.
  subst dw dh.
  unfold V1.clEnqueueNDRangeKernel.
  rewrite (V1.ok_arg0 _ Hok), (V1.ok_arg1 _ Hok), (V1.ok_arg2 _ Hok), (V1.ok_arg3 _ Hok),
    (V1.ok_arg4 _ Hok), (V1.ok_arg5 _ Hok), (V1.ok_arg6 _ Hok).
  pose proof (V1.ok_filter _ Hok) as Hflt. unfold cl_mem in *.
  rewrite Hsrc, Hdst, Hflt.
  cbn [fst snd]. rewrite v1_group_checks.
  change (16 * 16) with 256.
  destruct (Z.leb_spec 256 limit) as [_|Hlt]; [|lia].
  destruct (decide (0%nat = 1%nat)) as [Heq|_]; [discriminate Heq|].
  rewrite v1_range.
  win_size. rewrite !uint32_small by lia.
  rewrite convolution_range_full; try assumption; try lia.
  reflexivity.
Qed.

Lemma v1_clEnqueueNDRangeKernel_small (f : @V1.Filter F) (simg dimg : image2d_t) :
  V1.Filter_ok f ->
  Clc.holds_frame (Clc.objects (V1.context f)) 0%nat simg ->
  Clc.holds_frame (Clc.objects (V1.context f)) 1%nat dimg ->
  limit < 256 ->
  V1.clEnqueueNDRangeKernel limit (w, h) (16, 16) f = Done (CL_INVALID_WORK_GROUP_SIZE, f).
Proof.
  intros Hok (Hsrc & _) (Hdst & _) Hlimit.
  unfold V1.clEnqueueNDRangeKernel.
  rewrite (V1.ok_arg0 _ Hok), (V1.ok_arg1 _ Hok), (V1.ok_arg2 _ Hok), (V1.ok_arg3 _ Hok),
    (V1.ok_arg4 _ Hok), (V1.ok_arg5 _ Hok), (V1.ok_arg6 _ Hok).
  pose proof (V1.ok_filter _ Hok) as Hflt. unfold cl_mem in *.
  rewrite Hsrc, Hdst, Hflt.
  cbn [fst snd]. rewrite v1_group_checks.
  change (16 * 16) with 256.
  destruct (Z.leb_spec 256 limit) as [Hge|_]; [lia|]. reflexivity.
Qed.

Lemma v1_Filter_new_ok : exists f : @V1.Filter F, V1.Filter_new = Done f /\ V1.Filter_ok f.
Proof.
  unfold V1.Filter_new. cbv zeta.
  rewrite <- win_width_val, <- win_height_val.
  unfold Clc.clCreateImage, Clc.clCreateBuffer, Clc.clCreate.
  cbn [Clc.next_mem Clc.objects].
  unfold Clc.clEnqueueWriteBuffer. cbn [Clc.next_mem Clc.objects].
  rewrite lookup_insert_eq.
  change (Z.of_nat (length (repeat (@f_of_Z F _ 0) (Z.to_nat ((4 * 3 * 3) / 4)))) * 4 <? 4 * 3 * 3)
    with false.
  cbn [negb Z.eqb CL_SUCCESS fst snd].
  eexists. split; [reflexivity|].
  constructor;
    cbn [V1.origin V1.region V1.global V1.local V1.context Clc.objects
         V1.bufferSourceImage V1.bufferOutputImage V1.kernel_conv
         kernel_args kernel_name setArg];
    try reflexivity.
  intros m Hm.
  destruct m as [|[|m]]; [| |lia]; eexists;
    repeat (apply holds_frame_insert_ne; [discriminate|]); apply blank_frame.
Qed.

Lemma v1_submit_ok (c : command F) (objs : gmap cl_mem (@Clc.memobj F)) (f : @V1.Filter F) :
  V1.Filter_ok f ->
  (forall m, (m < 2)%nat -> exists img, Clc.holds_frame objs m img) ->
  objs !! 2%nat = Some (Clc.MemBuffer Clc.laplacian_filter) ->
  V1.Filter_ok (V1.submit c objs f).
Proof.
  intros [Horg Hreg Hglob Hloc Hsrc Hout _ _ H0 H1 H2 H3 H4 H5 H6] Himgs Hflt.
  constructor;
    cbn [V1.submit V1.origin V1.region V1.global V1.local V1.context Clc.objects
         V1.bufferSourceImage V1.bufferOutputImage V1.kernel_conv];
    assumption.
Qed.

Lemma v1_convolve_spec (f : @V1.Filter F) (image : list Z) :
  V1.Filter_ok f -> (Clc.frame_pixels <= length image)%nat -> 256 <= limit ->
  exists f',
    V1.convolve limit image f
    = Done (Clc.filtered false image ++ skipn Clc.frame_pixels image, f')
    /\ V1.Filter_ok f'.
Proof.
  intros Hok Hlen Hlimit.
  destruct (V1.ok_images _ Hok 0%nat ltac:(lia)) as (d0 & Hd0).
  destruct (V1.ok_images _ Hok 1%nat ltac:(lia)) as (d1 & Hd1).
  pose proof (V1.ok_filter _ Hok) as Hflt.
  unfold V1.convolve.
  unfold bind at 1. unfold gets at 1. cbn beta iota. unfold id.
  rewrite (V1.ok_source _ Hok), (V1.ok_output _ Hok), (V1.ok_origin _ Hok),
    (V1.ok_region _ Hok), (V1.ok_global _ Hok), (V1.ok_local _ Hok).
  rewrite (bind_done _ _ _ _ _ (v1_clEnqueueWriteImage_ok f 0%nat d0 image Hd0 Hlen)).
  rewrite bind_chk_success.
  match goal with |- context [V1.submit ?c ?objs f] => set (f1 := V1.submit c objs f) end.
  assert (Hu0 : Clc.holds_frame (Clc.objects (V1.context f1)) 0%nat (Clc.uploaded image)).
  { apply holds_frame_uploaded. exact Hlen. }
  assert (Hu1 : Clc.holds_frame (Clc.objects (V1.context f1)) 1%nat d1).
  { apply holds_frame_insert_ne; [discriminate|exact Hd1]. }
  assert (Hok1 : V1.Filter_ok f1).
  { apply v1_submit_ok; [exact Hok| |].
    - intros m Hm. destruct m as [|[|m]]; [| |lia]; eexists; [exact Hu0|exact Hu1].
    - rewrite lookup_insert_ne by discriminate. exact Hflt. }
  rewrite (bind_done _ _ _ _ _
             (v1_clEnqueueNDRangeKernel_ok f1 (Clc.uploaded image) d1 Hok1 Hu0 Hu1 Hlimit)).
  rewrite bind_chk_success.
  match goal with |- context [V1.submit ?c ?objs f1] => set (f2 := V1.submit c objs f1) end.
  set (out := Kernels.convolved (Clc.uploaded image) Clc.laplacian_filter 3 Clc.the_sampler).
  assert (Hc1 : Clc.holds_frame (Clc.objects (V1.context f2)) 1%nat out).
  { unfold f2, out. cbn [V1.submit V1.context Clc.objects].
    apply holds_frame_convolved; reflexivity. }
  assert (Hc0 : Clc.holds_frame (Clc.objects (V1.context f2)) 0%nat (Clc.uploaded image)).
  { apply holds_frame_insert_ne; [discriminate|exact Hu0]. }
  assert (Hok2 : V1.Filter_ok f2).
  { apply v1_submit_ok; [exact Hok1| |].
    - intros m Hm. destruct m as [|[|m]]; [| |lia]; eexists; [exact Hc0|exact Hc1].
    - rewrite lookup_insert_ne by discriminate. exact (V1.ok_filter _ Hok1). }
  rewrite (bind_done _ _ _ _ _ (v1_clEnqueueReadImage_ok f2 1%nat out image Hc1 Hlen)).
  cbn [fst snd]. rewrite bind_chk_success.
  eexists. split; [reflexivity|].
  apply v1_submit_ok; [exact Hok2| |exact (V1.ok_filter _ Hok2)].
  intros m Hm. destruct m as [|[|m]]; [| |lia]; eexists; [exact Hc0|exact Hc1].
Qed.

Lemma v1_convolve_small (f : @V1.Filter F) (image : list Z) :
  V1.Filter_ok f -> (Clc.frame_pixels <= length image)%nat -> limit < 256 ->
  V1.convolve limit image f = Exit "clEnqueueNDRangeKernel".
Proof.
  intros Hok Hlen Hlimit.
  destruct (V1.ok_images _ Hok 0%nat ltac:(lia)) as (d0 & Hd0).
  destruct (V1.ok_images _ Hok 1%nat ltac:(lia)) as (d1 & Hd1).
  pose proof (V1.ok_filter _ Hok) as Hflt.
  unfold V1.convolve.
  unfold bind at 1. unfold gets at 1. cbn beta iota. unfold id.
  rewrite (V1.ok_source _ Hok), (V1.ok_output _ Hok), (V1.ok_origin _ Hok),
    (V1.ok_region _ Hok), (V1.ok_global _ Hok), (V1.ok_local _ Hok).
  rewrite (bind_done _ _ _ _ _ (v1_clEnqueueWriteImage_ok f 0%nat d0 image Hd0 Hlen)).
  rewrite bind_chk_success.
  match goal with |- context [V1.submit ?c ?objs f] => set (f1 := V1.submit c objs f) end.
  assert (Hu0 : Clc.holds_frame (Clc.objects (V1.context f1)) 0%nat (Clc.uploaded image)).
  { apply holds_frame_uploaded. exact Hlen. }
  assert (Hu1 : Clc.holds_frame (Clc.objects (V1.context f1)) 1%nat d1).
  { apply holds_frame_insert_ne; [discriminate|exact Hd1]. }
  assert (Hok1 : V1.Filter_ok f1).
  { apply v1_submit_ok; [exact Hok| |].
    - intros m Hm. destruct m as [|[|m]]; [| |lia]; eexists; [exact Hu0|exact Hu1].
    - rewrite lookup_insert_ne by discriminate. exact Hflt. }
  rewrite (bind_done _ _ _ _ _
             (v1_clEnqueueNDRangeKernel_small f1 (Clc.uploaded image) d1 Hok1 Hu0 Hu1 Hlimit)).
  reflexivity.
Qed.

End Version1.

(** Version 1.0 of the program returns, for every frame, the image the
    later programs return with smoothing off, provided the device runs
    work-groups of 16 x 16 work-items; on a device that does not, the
    dispatch fails and the first frame ends the process. *)
Theorem v1_convolve {F : Type} `{FloatOps F} (limit : Z) (f1 : @V1.Filter F)
    (f2 : @Clc.Filter F) (image : list Z) :
  V1.Filter_ok f1 -> Clc.Filter_ok f2 -> Clc.smoothed f2 = false ->
  (Clc.frame_pixels <= length image)%nat ->
  if 256 <=? limit
  then exists b f1' f2',
         V1.convolve limit image f1 = Done (b, f1')
         /\ V1.Filter_ok f1'
         /\ Clc.convolve image f2 = Done (b, f2')
  else V1.convolve limit image f1 = Exit "clEnqueueNDRangeKernel".
Proof.
  intros Hok1 Hok2 Hraw Hlen. destruct (Z.leb_spec 256 limit) as [Hlimit|Hlimit].
  - destruct (v1_convolve_spec limit f1 image Hok1 Hlen Hlimit) as (f1' & Hrun1 & Hok1').
    destruct (convolve_spec f2 image Hok2 Hlen) as (f2' & Hrun2 & _).
    rewrite Hraw in Hrun2.
    eexists _, f1', f2'. split; [exact Hrun1|]. split; [exact Hok1'|exact Hrun2].
  - exact (v1_convolve_small limit f1 image Hok1 Hlen Hlimit).
Qed.

Lemma v1_convolve_witness :
  exists f1 b f1' f2',
    @V1.Filter_new float32 device0 = Done f1
    /\ V1.convolve 256 (repeat 7 Clc.frame_pixels) f1 = Done (b, f1')
    /\ Clc.convolve (repeat 7 Clc.frame_pixels)
         (Clc.set_smoothed false (@Clc.Filter_init float32 device0))
       = Done (b, f2').
Proof.
  destruct (@v1_Filter_new_ok float32 device0) as (f1 & Hnew & Hok1).
  pose proof (@v1_convolve float32 device0 256 f1
                (Clc.set_smoothed false (@Clc.Filter_init float32 device0))
                (repeat 7 Clc.frame_pixels) Hok1
                (set_smoothed_ok false _ Filter_init_ok) eq_refl
                ltac:(rewrite repeat_length; lia)) as Hrun.
  change (256 <=? 256) with true in Hrun. cbv iota in Hrun.
  destruct Hrun as (b & f1' & f2' & Hrun1 & _ & Hrun2).
  exists f1, b, f1', f2'. split; [exact Hnew|]. split; [exact Hrun1|exact Hrun2].
Defined.

(** ** The float images of the texture program *)

Lemma scatter_image_lookup {A : Type} (guard : Z * Z -> bool) (value : Z * Z -> A)
    (w h x y : Z) (out : list A) :
  0 <= x < w -> 0 <= y < h -> length out = Z.to_nat (w * h) ->
  (forall g, g ∈ work_items (w, h) -> guard g = true) ->
  scatter guard (conv_index w) value (work_items (w, h)) out !! Z.to_nat (y * w + x)
  = Some (value (x, y)).
Proof.
  intros Hx Hy Hlen Hguard.
  change (Z.to_nat (y * w + x)) with (conv_index w (x, y)).
  apply scatter_hit.
  - intros [x1 y1] [x2 y2] H1 H2 _ _ Hidx.
    apply work_items_elem in H1, H2; try lia.
    unfold conv_index in Hidx. cbn [fst snd] in Hidx.
    assert (Hz : y1 * w + x1 = y2 * w + x2) by nia.
    assert (Hy12 : y1 = y2) by nia. rewrite Hy12 in *. f_equal. lia.
  - apply work_items_elem; lia.
  - apply Hguard. apply work_items_elem; lia.
  - unfold conv_index. cbn [fst snd]. rewrite Hlen. nia.
Qed.

Section FloatImages.

Context {F : Type} `{FloatOps F}.

Lemma set_imagef_data_id (img : @ImageKernels.imagef_t F) :
  ImageKernels.set_imagef_data img (ImageKernels.imagef_data img) = img.
Proof. destruct img. reflexivity. Qed.

(** A kernel that writes the colour [value gid] at [gid] when the
    work-item is within [rows] and [cols]. *)
Lemma write_range_scatter (value : Z * Z -> @Kernels.float4 F) (rows cols : Z)
    (items : list (Z * Z)) (out : @ImageKernels.imagef_t F) :
  fold_left
    (fun o gid =>
       if (snd gid <? rows) && (fst gid <? cols)
       then ImageKernels.write_imagef o gid (value gid)
       else o)
    items out
  = ImageKernels.set_imagef_data out
      (scatter (conv_guard (ImageKernels.imagef_width out) (ImageKernels.imagef_height out)
                  rows cols)
               (conv_index (ImageKernels.imagef_width out))
               (fun gid => ImageKernels.stored (ImageKernels.imagef_order out) (value gid))
               items (ImageKernels.imagef_data out)).
Proof.
  revert out. induction items as [|[c r] items IH]; intros out.
  - cbn. symmetry. apply set_imagef_data_id.
  - cbn [fold_left]. rewrite IH. unfold scatter at 2. cbn [fold_left].
    fold (scatter (conv_guard (ImageKernels.imagef_width out) (ImageKernels.imagef_height out)
                     rows cols)
                  (conv_index (ImageKernels.imagef_width out))
                  (fun gid => ImageKernels.stored (ImageKernels.imagef_order out) (value gid))).
    unfold ImageKernels.write_imagef, conv_guard, ImageKernels.in_imagef. cbn [fst snd].
    destruct ((r <? rows) && (c <? cols)); cbn [andb]; [|reflexivity].
    destruct ((0 <=? c) && (c <? ImageKernels.imagef_width out) && (0 <=? r)
              && (r <? ImageKernels.imagef_height out));
      reflexivity.
Qed.

Lemma write_range_ok (value : Z * Z -> @Kernels.float4 F) (order : ImageKernels.channel_order)
    (w h : Z) (out : @ImageKernels.imagef_t F) :
  0 < w -> 0 < h -> ImageKernels.imagef_ok order w h out ->
  let out' :=
    fold_left
      (fun o gid =>
         if (snd gid <? h) && (fst gid <? w)
         then ImageKernels.write_imagef o gid (value gid)
         else o)
      (work_items (w, h)) out in
  ImageKernels.imagef_ok order w h out'
  /\ forall x y, 0 <= x < w -> 0 <= y < h ->
       ImageKernels.imagef_data out' !! Z.to_nat (y * w + x)
       = Some (ImageKernels.stored order (value (x, y))).
Proof.
  intros Hw Hh (Ho & Hiw & Hih & Hlen). cbv zeta. rewrite write_range_scatter.
  rewrite Ho, Hiw, Hih. split.
  - unfold ImageKernels.imagef_ok, ImageKernels.set_imagef_data.
    cbn [ImageKernels.imagef_order ImageKernels.imagef_width ImageKernels.imagef_height
         ImageKernels.imagef_data].
    rewrite scatter_length. repeat split; assumption.
  - intros x y Hx Hy. cbn [ImageKernels.set_imagef_data ImageKernels.imagef_data].
    apply (scatter_image_lookup _
             (fun gid => ImageKernels.stored order (value gid))); try assumption.
    intros [c r] Hin. apply work_items_elem in Hin; [|lia].
    unfold conv_guard. cbn [fst snd]. repeat (apply andb_true_intro; split); lia.
Qed.

Lemma normalizeImg_pixels (src : image2d_t) (inter : @ImageKernels.imagef_t F) (w h : Z) :
  0 < w < 2 ^ 31 -> 0 < h < 2 ^ 31 ->
  ImageKernels.imagef_ok ImageKernels.CL_R w h inter ->
  let inter' := ImageKernels.normalizeImg_range src inter h w Clc.the_sampler (w, h) in
  ImageKernels.imagef_ok ImageKernels.CL_R w h inter'
  /\ forall x y, 0 <= x < w -> 0 <= y < h ->
       ImageKernels.imagef_data inter' !! Z.to_nat (y * w + x)
       = Some (ImageKernels.normalized (read_imageui src Clc.the_sampler (x, y)),
               f_of_Z 0, f_of_Z 0, f_of_Z 1).
Proof.
  intros Hw Hh Hok. cbv zeta. unfold ImageKernels.normalizeImg_range.
  rewrite (fold_left_ext_elem _
             (fun o gid =>
                if (snd gid <? h) && (fst gid <? w)
                then ImageKernels.write_imagef o gid
                       (ImageKernels.normalized (read_imageui src Clc.the_sampler gid),
                        f_div (f_of_Z 0) (f_of_Z 255), f_div (f_of_Z 0) (f_of_Z 255),
                        f_of_Z 1)
                else o)).
  - destruct (write_range_ok
                (fun gid =>
                   (ImageKernels.normalized (read_imageui src Clc.the_sampler gid),
                    f_div (f_of_Z 0) (f_of_Z 255), f_div (f_of_Z 0) (f_of_Z 255),
                    f_of_Z 1))
                ImageKernels.CL_R w h inter ltac:(lia) ltac:(lia) Hok) as [Hok' Hpix].
    split; [exact Hok'|]. intros x y Hx Hy. exact (Hpix x y Hx Hy).
  - intros o [c r] Hin. apply work_items_elem in Hin; [|lia].
    unfold ImageKernels.normalizeImg. cbn [fst snd].
    rewrite !int32_uint32 by lia. reflexivity.
Qed.

Lemma convolutionGL_sum_3 (src : @ImageKernels.imagef_t F) (flt : list F) (smp : sampler_t)
    (column row : Z) :
  ImageKernels.convolutionGL_sum src flt 3 smp column row
  = ImageKernels.sumf3x3
      (fun j i => ImageKernels.float4_x
                    (ImageKernels.read_imagef src smp
                       (int32 (uint32 (column + j)), int32 (uint32 (row + i))))) flt.
Proof.
  unfold ImageKernels.convolutionGL_sum. cbv zeta.
  change (int32 (uint32 3 / 2)) with 1. change (interval (Z.opp 1) 1) with [-1; 0; 1].
  reflexivity.
Qed.

Lemma sumf3x3_ext (p q : Z -> Z -> F) (flt : list F) :
  (forall j i, -1 <= j <= 1 -> -1 <= i <= 1 -> p j i = q j i) ->
  ImageKernels.sumf3x3 p flt = ImageKernels.sumf3x3 q flt.
Proof. intros Hpq. unfold ImageKernels.sumf3x3. rewrite !Hpq by lia. reflexivity. Qed.

Lemma convolutionGL_pixels (src out : @ImageKernels.imagef_t F) (flt : list F)
    (order : ImageKernels.channel_order) (w h : Z) :
  0 < w < 2 ^ 31 -> 0 < h < 2 ^ 31 ->
  ImageKernels.imagef_ok order w h out ->
  let out' := ImageKernels.convolutionGL_range src out h w flt 3 Clc.the_sampler (w, h) in
  ImageKernels.imagef_ok order w h out'
  /\ forall x y, 0 <= x < w -> 0 <= y < h ->
       ImageKernels.imagef_data out' !! Z.to_nat (y * w + x)
       = Some (ImageKernels.stored order
                 (let sum :=
                    ImageKernels.sumf3x3
                      (fun j i => ImageKernels.float4_x
                                    (ImageKernels.read_imagef src Clc.the_sampler (x + j, y + i)))
                      flt in
                  (sum, sum, sum, f_of_Z 1))).
Proof.
  intros Hw Hh Hok. cbv zeta. unfold ImageKernels.convolutionGL_range.
  rewrite (fold_left_ext_elem _
             (fun o gid =>
                if (snd gid <? h) && (fst gid <? w)
                then ImageKernels.write_imagef o gid
                       (let sum :=
                          ImageKernels.sumf3x3
                            (fun j i =>
                               ImageKernels.float4_x
                                 (ImageKernels.read_imagef src Clc.the_sampler
                                    (fst gid + j, snd gid + i))) flt in
                        (sum, sum, sum, f_of_Z 1))
                else o)).
  - exact (write_range_ok
             (fun gid =>
                let sum :=
                  ImageKernels.sumf3x3
                    (fun j i =>
                       ImageKernels.float4_x
                         (ImageKernels.read_imagef src Clc.the_sampler
                            (fst gid + j, snd gid + i))) flt in
                (sum, sum, sum, f_of_Z 1))
             order w h out ltac:(lia) ltac:(lia) Hok).
  - intros o [c r] Hin. apply work_items_elem in Hin; [|lia].
    unfold ImageKernels.convolutionGL. cbn [fst snd]. cbv zeta.
    rewrite convolutionGL_sum_3.
    rewrite (sumf3x3_ext _
               (fun j i => ImageKernels.float4_x
                             (ImageKernels.read_imagef src Clc.the_sampler (c + j, r + i)))).
    + reflexivity.
    + intros j i Hj Hi. rewrite !int32_uint32 by lia. reflexivity.
Qed.

Lemma clamp_clamp (hi v : Z) : 0 <= hi -> clamp 0 hi (clamp 0 hi v) = clamp 0 hi v.
Proof. intros Hhi. unfold clamp. lia. Qed.

(** What [Filter::convolve] leaves in the texture without smoothing. *)
Lemma raw_texture_pixels (src : image2d_t) (inter texture : @ImageKernels.imagef_t F) :
  0 < image_width src < 2 ^ 31 -> 0 < image_height src < 2 ^ 31 ->
  ImageKernels.imagef_ok ImageKernels.CL_R (image_width src) (image_height src) inter ->
  ImageKernels.imagef_ok ImageKernels.CL_RGBA (image_width src) (image_height src) texture ->
  forall x y, 0 <= x < image_width src -> 0 <= y < image_height src ->
    ImageKernels.imagef_data (ImageKernels.raw_texture src inter texture)
      !! Z.to_nat (y * image_width src + x)
    = Some (let sum :=
              ImageKernels.sumf3x3
                (fun j i => ImageKernels.normalized
                              (read_imageui src Clc.the_sampler (x + j, y + i)))
                GLTexture.laplacian_filter in
            (sum, sum, sum, f_of_Z 1)).
Proof.
  intros Hw Hh Hinter Htex x y Hx Hy.
  unfold ImageKernels.raw_texture. cbv zeta.
  destruct src as [w h data]. cbn [image_width image_height] in *.
  destruct (normalizeImg_pixels (Image2D w h data) inter w h Hw Hh Hinter) as [Hok' Hpix'].
  cbv zeta in Hok', Hpix'.
  remember (ImageKernels.normalizeImg_range (Image2D w h data) inter h w
              Clc.the_sampler (w, h)) as inter' eqn:Hinter'.
  clear Hinter'.
  change GLTexture.filterWidth with 3.
  destruct (convolutionGL_pixels inter' texture GLTexture.laplacian_filter
              ImageKernels.CL_RGBA w h Hw Hh Htex) as [_ Hpix].
  cbv zeta in Hpix. refine (eq_trans (Hpix x y Hx Hy) _). cbn [ImageKernels.stored].
  rewrite (sumf3x3_ext _
             (fun j i => ImageKernels.normalized
                           (read_imageui (Image2D w h data) Clc.the_sampler (x + j, y + i)))).
  - reflexivity.
  - intros j i Hj Hi. unfold ImageKernels.read_imagef. cbn [addressing Clc.the_sampler].
    destruct Hok' as (_ & Hiw & Hih & _). rewrite Hiw, Hih.
    pose proof (clamp_range 0 (w - 1) (x + j) ltac:(lia)) as Hcx.
    pose proof (clamp_range 0 (h - 1) (y + i) ltac:(lia)) as Hcy.
    unfold ImageKernels.pixelf_at, ImageKernels.pixelf_index. rewrite Hiw.
    rewrite nth_lookup.
    unfold Kernels.float4 in *.
    rewrite (Hpix' (clamp 0 (w - 1) (x + j)) (clamp 0 (h - 1) (y + i))) by lia. cbn [default from_option].
    cbn [ImageKernels.float4_x]. f_equal.
    unfold read_imageui. cbn [addressing Clc.the_sampler image_width image_height].
    rewrite !clamp_clamp by lia. reflexivity.
Qed.

End FloatImages.

(** ** What the texture program displays without smoothing *)

Lemma uniform_read_all (img : image2d_t) (c : Z) :
  0 < image_width img -> 0 < image_height img ->
  (forall x y, 0 <= x < image_width img -> 0 <= y < image_height img ->
               pixel_at img x y = c) ->
  forall x y, read_imageui img Clc.the_sampler (x, y) = c.
Proof.
  intros Hw Hh Hc x y. unfold read_imageui. cbn [addressing Clc.the_sampler].
  pose proof (clamp_range 0 (image_width img - 1) x ltac:(lia)).
  pose proof (clamp_range 0 (image_height img - 1) y ltac:(lia)).
  apply Hc; lia.
Qed.

Lemma read_in_image (img : image2d_t) (x y : Z) :
  0 <= x < image_width img -> 0 <= y < image_height img ->
  read_imageui img Clc.the_sampler (x, y) = pixel_at img x y.
Proof.
  intros Hx Hy. unfold read_imageui. cbn [addressing Clc.the_sampler].
  rewrite !clamp_id by lia. reflexivity.
Qed.

(** Of two bytes the larger has the larger quotient by 255, on a device
    whose quotients are accurate. *)
Lemma colour_of_byte_lt (c c' : float32) (v v' : Z) :
  colour_of_byte c v -> colour_of_byte c' v' -> v < v' ->
  exists q q', b32_to_Q c = Some q /\ b32_to_Q c' = Some q' /\ (q < q')%Q.
Proof.
  intros (q & Hq & _ & Hb & _) (q' & Hq' & _ & Hb' & _) Hlt.
  exists q, q'. split; [exact Hq|]. split; [exact Hq'|].
  apply Qabs_Qle_condition in Hb, Hb'.
  assert (Hv : (inject_Z (v + 1) <= inject_Z v')%Q) by (rewrite <- Zle_Qle; lia).
  rewrite inject_Z_plus in Hv. change (inject_Z 1) with 1%Q in Hv.
  unfold Qdiv in Hb, Hb'. change (/ 255)%Q with (1 # 255)%Q in Hb, Hb'.
  change (Qpower 2 (-21)) with (1 # 2097152)%Q in Hb, Hb'.
  lra.
Qed.

(** [normalizeImg] writes, for a pixel [v] of an 8-bit image, on a device
    whose quotients are accurate, a float that is not negative, is at
    most 2^-21 away from [v / 255] and is 0 for a black pixel only; a
    brighter pixel gets a larger float. *)
Theorem normalizeImg_unit (oor : float32 -> Z) (divide : float32 -> float32 -> float32)
    (src : image2d_t)
    (inter : @ImageKernels.imagef_t float32) (x y : Z) :
  divide_accurate divide ->
  byte_image src ->
  ImageKernels.imagef_ok ImageKernels.CL_R (image_width src) (image_height src) inter ->
  0 <= x < image_width src -> 0 <= y < image_height src ->
  let inter' :=
    @ImageKernels.normalizeImg_range _ (binary32 oor divide) src inter (image_height src)
      (image_width src) Clc.the_sampler (image_width src, image_height src) in
  exists n q,
    ImageKernels.imagef_data inter' !! Z.to_nat (y * image_width src + x)
    = Some (n, S754_zero false, S754_zero false, b32_int 1)
    /\ b32_to_Q n = Some q
    /\ (0 <= q)%Q
    /\ (Qabs (q - inject_Z (pixel_at src x y) / 255) <= Qpower 2 (-21))%Q
    /\ ((q == 0)%Q <-> pixel_at src x y = 0)
    /\ forall x' y', 0 <= x' < image_width src -> 0 <= y' < image_height src ->
         pixel_at src x y < pixel_at src x' y' ->
         exists n' q',
           ImageKernels.imagef_data inter' !! Z.to_nat (y' * image_width src + x')
           = Some (n', S754_zero false, S754_zero false, b32_int 1)
           /\ b32_to_Q n' = Some q' /\ (q < q')%Q.
Proof.
  intros Hacc Himg Hinter Hx Hy inter'. pose proof Himg as (Hw & Hh & _).
  destruct (@normalizeImg_pixels _ (binary32 oor divide) src inter _ _ Hw Hh Hinter)
    as [_ Hpix].
  cbv zeta in Hpix. fold inter' in Hpix.
  pose proof (read_byte src x y Himg) as Hv.
  rewrite read_in_image in Hv by assumption.
  pose proof (byte_colour divide Hacc (pixel_at src x y) Hv) as Hc.
  pose proof Hc as (q & Hq & H0 & Hb & Hz).
  exists (@ImageKernels.normalized _ (binary32 oor divide) (pixel_at src x y)), q.
  split.
  { refine (eq_trans (Hpix x y Hx Hy) _). rewrite read_in_image by assumption. reflexivity. }
  split; [exact Hq|]. split; [exact H0|]. split; [exact Hb|]. split; [exact Hz|].
  intros x' y' Hx' Hy' Hlt.
  pose proof (read_byte src x' y' Himg) as Hv'.
  rewrite read_in_image in Hv' by assumption.
  pose proof (byte_colour divide Hacc (pixel_at src x' y') Hv') as Hc'.
  destruct (colour_of_byte_lt _ _ _ _ Hc Hc' Hlt) as (p & q' & Hp & Hq' & Hpq).
  rewrite Hq in Hp. injection Hp as <-.
  exists (@ImageKernels.normalized _ (binary32 oor divide) (pixel_at src x' y')), q'.
  split.
  { refine (eq_trans (Hpix x' y' Hx' Hy') _). rewrite read_in_image by assumption.
    reflexivity. }
  split; [exact Hq'|exact Hpq].
Qed.

Lemma laplacian_sum_exact (oor : Q -> Z) (p : Z -> Z -> Z) :
  (@ImageKernels.sumf3x3 _ (exactQ oor)
     (fun j i => @ImageKernels.normalized _ (exactQ oor) (p j i))
     (@GLTexture.laplacian_filter _ (exactQ oor))
   == inject_Z (p (-1) (-1) + p 0 (-1) + p 1 (-1) + p (-1) 0 + p 0 0 + p 1 0
                + p (-1) 1 + p 0 1 + p 1 1 - 9 * p 0 0)%Z / 255)%Q.
Proof.
  unfold ImageKernels.sumf3x3, ImageKernels.normalized, GLTexture.laplacian_filter.
  cbv zeta. cbn [nth].
  generalize (p (-1) (-1)), (p 0 (-1)), (p 1 (-1)), (p (-1) 0), (p 0 0), (p 1 0),
    (p (-1) 1), (p 0 1), (p 1 1).
  intros p1 p2 p3 p4 p5 p6 p7 p8 p9.
  rewrite !Q_of_Z_exact. cbn [f_add f_mul f_div exactQ].
  unfold Z.sub. rewrite !inject_Z_plus, inject_Z_opp, inject_Z_mult.
  change (inject_Z 255) with (255 # 1). change (inject_Z 1) with (1 # 1).
  change (inject_Z (-8)) with (-8 # 1). change (inject_Z 0) with (0 # 1).
  change (inject_Z 9) with (9 # 1).
  field.
Qed.

(** Without smoothing and without rounding, the texture program writes
    at each pixel the response of the Laplacian filter divided by 255, in
    the three colour channels. *)
Theorem texture_raw_exact (oor : Q -> Z) (src : image2d_t)
    (inter texture : @ImageKernels.imagef_t Q) (x y : Z) :
  0 < image_width src < 2 ^ 31 -> 0 < image_height src < 2 ^ 31 ->
  ImageKernels.imagef_ok ImageKernels.CL_R (image_width src) (image_height src) inter ->
  ImageKernels.imagef_ok ImageKernels.CL_RGBA (image_width src) (image_height src) texture ->
  0 <= x < image_width src -> 0 <= y < image_height src ->
  exists s,
    ImageKernels.imagef_data (@ImageKernels.raw_texture _ (exactQ oor) src inter texture)
      !! Z.to_nat (y * image_width src + x)
    = Some (s, s, s, @f_of_Z _ (exactQ oor) 1)
    /\ (s == inject_Z (laplacian_response src x y) / 255)%Q.
Proof.
  intros Hw Hh Hinter Htex Hx Hy.
  eexists. split.
  { exact (@raw_texture_pixels _ (exactQ oor) src inter texture Hw Hh Hinter Htex x y Hx Hy). }
  unfold laplacian_response, neighbourhood_sum. cbv zeta.
  replace (read_imageui src Clc.the_sampler (x, y))
    with (read_imageui src Clc.the_sampler (x + 0, y + 0))
    by (rewrite !Z.add_0_r; reflexivity).
  exact (laplacian_sum_exact oor (fun j i => read_imageui src Clc.the_sampler (x + j, y + i))).
Qed.

Lemma uniform_sum_device (oor : float32 -> Z) (divide : float32 -> float32 -> float32)
    (n : float32) :
  @ImageKernels.sumf3x3 _ (binary32 oor divide) (fun _ _ => n)
    (@GLTexture.laplacian_filter _ (binary32 oor divide))
  = uniform_sum n.
Proof.
  unfold uniform_sum.
  unfold ImageKernels.sumf3x3, GLTexture.laplacian_filter, device0.
  cbv zeta. cbn [nth]. unfold f_of_Z. cbn [f_add f_mul f_dyadic binary32].
  reflexivity.
Qed.

Lemma b32_small_spec (x : float32) :
  b32_small x = true -> exists q, b32_to_Q x = Some q /\ (Qabs q <= Qpower 2 (-22))%Q.
Proof.
  unfold b32_small. destruct (b32_to_Q x) as [q|]; [|discriminate].
  intros Hq. exists q. split; [reflexivity|]. apply Qle_bool_iff. exact Hq.
Qed.

Lemma uniform_table : byte_quotients_ok (fun _ n => b32_small (uniform_sum n)) = true.
Proof. vm_compute. reflexivity. Qed.

Lemma uniform_sum_bound (oor : float32 -> Z) (divide : float32 -> float32 -> float32) (v : Z) :
  divide_accurate divide -> 0 <= v <= 255 ->
  exists q,
    b32_to_Q (@ImageKernels.sumf3x3 _ (binary32 oor divide)
                (fun _ _ => @ImageKernels.normalized _ (binary32 oor divide) v)
                (@GLTexture.laplacian_filter _ (binary32 oor divide))) = Some q
    /\ (Qabs q <= Qpower 2 (-22))%Q.
Proof.
  intros Hacc Hb. rewrite (uniform_sum_device oor divide).
  apply b32_small_spec.
  exact (byte_quotient divide Hacc (fun _ n => b32_small (uniform_sum n)) v uniform_table Hb).
Qed.

(** Without smoothing, what the texture program writes at a pixel of a
    frame of one grey level is at most 2^-22 in magnitude, in the three
    colour channels, on a device whose quotients are accurate: the
    roundings of the float sum need not cancel, but they stay below what a
    display shows. *)
Theorem texture_raw_uniform (oor : float32 -> Z) (divide : float32 -> float32 -> float32)
    (src : image2d_t)
    (inter texture : @ImageKernels.imagef_t float32) (v x y : Z) :
  divide_accurate divide ->
  byte_image src ->
  (forall x y, 0 <= x < image_width src -> 0 <= y < image_height src ->
               pixel_at src x y = v) ->
  ImageKernels.imagef_ok ImageKernels.CL_R (image_width src) (image_height src) inter ->
  ImageKernels.imagef_ok ImageKernels.CL_RGBA (image_width src) (image_height src) texture ->
  0 <= x < image_width src -> 0 <= y < image_height src ->
  exists s q,
    ImageKernels.imagef_data (@ImageKernels.raw_texture _ (binary32 oor divide) src inter texture)
      !! Z.to_nat (y * image_width src + x)
    = Some (s, s, s, b32_int 1)
    /\ b32_to_Q s = Some q
    /\ (Qabs q <= Qpower 2 (-22))%Q.
Proof.
  intros Hacc Himg Hv Hinter Htex Hx Hy. pose proof Himg as (Hw & Hh & _).
  pose proof (uniform_read_all src v ltac:(lia) ltac:(lia) Hv) as Hread.
  pose proof (read_byte src x y Himg) as Hb. rewrite Hread in Hb.
  destruct (uniform_sum_bound oor divide v Hacc Hb) as (q & Hq & Hbound).
  eexists _, q. split; [|split; [exact Hq|exact Hbound]].
  refine (eq_trans
            (@raw_texture_pixels _ (binary32 oor divide) src inter texture Hw Hh Hinter Htex
               x y Hx Hy) _).
  cbv zeta.
  rewrite (sumf3x3_ext _ (fun _ _ => @ImageKernels.normalized _ (binary32 oor divide) v));
    [reflexivity|].
  intros j i _ _. rewrite Hread. reflexivity.
Qed.

Lemma example_image_bytes (a b c d : Z) :
  0 <= a <= 255 -> 0 <= b <= 255 -> 0 <= c <= 255 -> 0 <= d <= 255 ->
  byte_image (Image2D 2 2 [a; b; c; d]).
Proof.
  intros Ha Hb Hc Hd. unfold byte_image. cbn [image_width image_height image_data length].
  repeat split; try lia.
  repeat apply List.Forall_cons; try apply List.Forall_nil; assumption.
Qed.

Lemma example_imagef_ok {F : Type} (order : ImageKernels.channel_order)
    (p : @Kernels.float4 F) :
  ImageKernels.imagef_ok order 2 2 (ImageKernels.ImageF order 2 2 [p; p; p; p]).
Proof. repeat split. Qed.

Lemma normalizeImg_unit_witness :
  divide_accurate ieee_divide
  /\ exists n q,
       ImageKernels.imagef_data
         (@ImageKernels.normalizeImg_range _ device0 (Image2D 2 2 [10; 20; 30; 40])
            (ImageKernels.ImageF ImageKernels.CL_R 2 2
               (repeat (S754_zero false, S754_zero false, S754_zero false, S754_zero false) 4))
            2 2 Clc.the_sampler (2, 2))
         !! 0%nat
       = Some (n, S754_zero false, S754_zero false, b32_int 1)
       /\ b32_to_Q n = Some q
       /\ (Qabs (q - 10 / 255) <= Qpower 2 (-21))%Q.
Proof.
  split; [exact ieee_divide_accurate|].
  destruct (normalizeImg_unit oor_zero ieee_divide (Image2D 2 2 [10; 20; 30; 40])
              (ImageKernels.ImageF ImageKernels.CL_R 2 2
                 (repeat (S754_zero false, S754_zero false, S754_zero false, S754_zero false) 4))
              0 0)
    as (n & q & Hn & Hq & _ & Hnear & _).
  - exact ieee_divide_accurate.
  - apply example_image_bytes; lia.
  - apply example_imagef_ok.
  - cbn [image_width]. lia.
  - cbn [image_height]. lia.
  - exists n, q. split; [exact Hn|]. split; [exact Hq|exact Hnear].
Defined.

Lemma texture_raw_exact_witness :
  exists s,
    ImageKernels.imagef_data
      (@ImageKernels.raw_texture _ (exactQ (fun _ => 0)) (Image2D 2 2 [10; 20; 30; 40])
         (ImageKernels.ImageF ImageKernels.CL_R 2 2 (repeat (0, 0, 0, 0)%Q 4))
         (ImageKernels.ImageF ImageKernels.CL_RGBA 2 2 (repeat (0, 0, 0, 0)%Q 4)))
      !! 0%nat
    = Some (s, s, s, @f_of_Z _ (exactQ (fun _ => 0)) 1)
    /\ (s == 90 # 255)%Q.
Proof.
  destruct (texture_raw_exact (fun _ => 0) (Image2D 2 2 [10; 20; 30; 40])
              (ImageKernels.ImageF ImageKernels.CL_R 2 2 (repeat (0, 0, 0, 0)%Q 4))
              (ImageKernels.ImageF ImageKernels.CL_RGBA 2 2 (repeat (0, 0, 0, 0)%Q 4))
              0 0)
    as (s & Hs & Heq).
  - cbn [image_width]. lia.
  - cbn [image_height]. lia.
  - apply example_imagef_ok.
  - apply example_imagef_ok.
  - cbn [image_width]. lia.
  - cbn [image_height]. lia.
  - exists s. split; [exact Hs|]. rewrite Heq. reflexivity.
Defined.

Lemma texture_raw_uniform_witness :
  divide_accurate ieee_divide
  /\ exists s q,
       ImageKernels.imagef_data
         (@ImageKernels.raw_texture _ device0 (Image2D 2 2 [1; 1; 1; 1])
            (ImageKernels.ImageF ImageKernels.CL_R 2 2
               (repeat (S754_zero false, S754_zero false, S754_zero false, S754_zero false) 4))
            (ImageKernels.ImageF ImageKernels.CL_RGBA 2 2
               (repeat (S754_zero false, S754_zero false, S754_zero false, S754_zero false) 4)))
         !! 0%nat
       = Some (s, s, s, b32_int 1)
       /\ b32_to_Q s = Some q
       /\ (Qabs q <= Qpower 2 (-22))%Q.
Proof.
  split; [exact ieee_divide_accurate|].
  apply (texture_raw_uniform oor_zero ieee_divide (Image2D 2 2 [1; 1; 1; 1])
           (ImageKernels.ImageF ImageKernels.CL_R 2 2
              (repeat (S754_zero false, S754_zero false, S754_zero false, S754_zero false) 4))
           (ImageKernels.ImageF ImageKernels.CL_RGBA 2 2
              (repeat (S754_zero false, S754_zero false, S754_zero false, S754_zero false) 4))
           1 0 0).
  - exact ieee_divide_accurate.
  - apply example_image_bytes; lia.
  - intros x y Hx Hy. cbn [image_width image_height] in Hx, Hy.
    assert (Hc : (x = 0 \/ x = 1) /\ (y = 0 \/ y = 1)) by lia.
    destruct Hc as [[-> | ->] [-> | ->]]; reflexivity.
  - apply example_imagef_ok.
  - apply example_imagef_ok.
  - cbn [image_width]. lia.
  - cbn [image_height]. lia.
Defined.

(** ** Sums of integers in binary32 *)

Lemma pos_shl_succ (p : positive) (n : nat) : pos_shl p (S n) = xO (pos_shl p n).
Proof. reflexivity. Qed.

Lemma pos_shl_add (p : positive) (a b : nat) : pos_shl (pos_shl p a) b = pos_shl p (a + b).
Proof.
  induction b as [|b IH]; [rewrite Nat.add_0_r; reflexivity|].
  rewrite Nat.add_succ_r, !pos_shl_succ, IH. reflexivity.
Qed.

Lemma pos_iter_shl (p j : positive) : Pos.iter xO p j = pos_shl p (Pos.to_nat j).
Proof.
  induction j as [|j IH] using Pos.peano_ind.
  - reflexivity.
  - rewrite Pos.iter_succ, Pos2Nat.inj_succ, pos_shl_succ, IH. reflexivity.
Qed.

Lemma pos_shl_digits (p : positive) (n : nat) :
  Zpos (digits2_pos (pos_shl p n)) = Zpos (digits2_pos p) + Z.of_nat n.
Proof.
  induction n as [|n IH]; [cbn; lia|].
  rewrite pos_shl_succ. cbn [digits2_pos]. lia.
Qed.

Lemma pos_shl_Z (p : positive) (n : nat) : Zpos (pos_shl p n) = Zpos p * 2 ^ Z.of_nat n.
Proof.
  induction n as [|n IH]; [cbn; lia|].
  rewrite pos_shl_succ. change (Zpos (pos_shl p n)~0) with (2 * Zpos (pos_shl p n)).
  rewrite IH, Nat2Z.inj_succ, Z.pow_succ_r by lia. lia.
Qed.

Lemma digits2_pos_le (p : positive) : Zpos p < 2 ^ 24 -> Zpos (digits2_pos p) <= 24.
Proof.
  intros Hp. pose proof (digits2_pos_bounds p) as [Hlo _].
  destruct (Z.le_gt_cases (Zpos (digits2_pos p)) 24) as [Hle|Hgt]; [exact Hle|].
  assert (2 ^ 24 <= 2 ^ (Zpos (digits2_pos p) - 1)) by (apply Z.pow_le_mono_r; lia).
  lia.
Qed.

Lemma iter_pos_iter {A : Type} (f : A -> A) (n : positive) (x : A) :
  SpecFloat.iter_pos f n x = Pos.iter f x n.
Proof.
  revert x. induction n as [n IH|n IH|]; intros x; cbn [SpecFloat.iter_pos Pos.iter].
  - rewrite !IH, !Pos.iter_swap. reflexivity.
  - rewrite !IH. reflexivity.
  - reflexivity.
Qed.

Lemma nat_iter_shr (q : positive) (n : nat) :
  Nat.iter n shr_1 {| shr_m := Zpos (pos_shl q n); shr_r := false; shr_s := false |}
  = {| shr_m := Zpos q; shr_r := false; shr_s := false |}.
Proof.
  induction n as [|n IH]; [reflexivity|].
  rewrite Nat.iter_succ_r, pos_shl_succ. cbn [shr_1 orb]. exact IH.
Qed.

Lemma iter_pos_shr (q j : positive) :
  SpecFloat.iter_pos shr_1 j {| shr_m := Zpos (pos_shl q (Pos.to_nat j)); shr_r := false; shr_s := false |}
  = {| shr_m := Zpos q; shr_r := false; shr_s := false |}.
Proof.
  rewrite iter_pos_iter, Pos2Nat.inj_iter. apply nat_iter_shr.
Qed.

Lemma round_aux_canonical (s : bool) (m : positive) (e : Z) :
  Zpos (digits2_pos m) = 24 -> -149 <= e <= 104 ->
  binary_round_aux 24 128 s (Zpos m) e loc_Exact = S754_finite s m e.
Proof.
  intros Hd He. unfold binary_round_aux, shr_fexp. cbn [Zdigits2 shr_record_of_loc].
  rewrite Hd. replace (fexp 24 128 (24 + e) - e) with 0 by (unfold fexp, emin; lia).
  cbn [shr shr_m loc_of_shr_record round_nearest_even Zdigits2 shr_record_of_loc].
  rewrite Hd. replace (fexp 24 128 (24 + e) - e) with 0 by (unfold fexp, emin; lia).
  cbn [shr shr_m].
  destruct (Z.leb_spec e (128 - 24)) as [_|Hgt]; [reflexivity|lia].
Qed.

Lemma round_aux_shift (s : bool) (q j : positive) (e : Z) :
  Zpos (digits2_pos q) = 24 -> -149 <= e + Zpos j <= 104 ->
  binary_round_aux 24 128 s (Zpos (pos_shl q (Pos.to_nat j))) e loc_Exact
  = S754_finite s q (e + Zpos j).
Proof.
  intros Hd He. unfold binary_round_aux, shr_fexp. cbn [Zdigits2 shr_record_of_loc].
  rewrite pos_shl_digits, Hd, positive_nat_Z.
  replace (fexp 24 128 (24 + Zpos j + e) - e) with (Zpos j) by (unfold fexp, emin; lia).
  cbn [shr]. rewrite iter_pos_shr.
  cbn [shr_m loc_of_shr_record round_nearest_even Zdigits2 shr_record_of_loc].
  rewrite Hd.
  replace (fexp 24 128 (24 + (e + Zpos j)) - (e + Zpos j)) with 0
    by (unfold fexp, emin; lia).
  cbn [shr shr_m].
  destruct (Z.leb_spec (e + Zpos j) (128 - 24)) as [_|Hgt]; [reflexivity|lia].
Qed.

Lemma b32_round_shift (s : bool) (p : positive) (k : nat) :
  Zpos p < 2 ^ 24 ->
  binary_round 24 128 s (pos_shl p k) (- Z.of_nat k) = b32_canon s p.
Proof.
  intros Hp. pose proof (digits2_pos_le p Hp) as Hd.
  unfold binary_round, b32_canon. rewrite pos_shl_digits.
  set (d := Zpos (digits2_pos p)) in *. assert (Hd1 : 1 <= d) by (unfold d; lia).
  replace (fexp 24 128 (d + Z.of_nat k + - Z.of_nat k)) with (d - 24)
    by (unfold fexp, emin; lia).
  unfold shl_align.
  destruct (d - 24 - - Z.of_nat k) as [|j|j] eqn:Hj.
  - replace (Z.to_nat (24 - d)) with k by lia.
    replace (- Z.of_nat k) with (d - 24) by lia.
    apply round_aux_canonical; [|lia].
    rewrite pos_shl_digits. fold d. lia.
  - replace k with (Z.to_nat (24 - d) + Pos.to_nat j)%nat at 1 by lia.
    rewrite <- pos_shl_add.
    replace (d - 24) with (- Z.of_nat k + Zpos j) by lia.
    apply round_aux_shift; [|lia].
    rewrite pos_shl_digits. fold d. lia.
  - rewrite pos_iter_shl, pos_shl_add.
    replace (k + Pos.to_nat j)%nat with (Z.to_nat (24 - d)) by lia.
    apply round_aux_canonical; [|lia].
    rewrite pos_shl_digits. fold d. lia.
Qed.

Lemma b32_int_pos (p : positive) : Zpos p < 2 ^ 24 -> b32_int (Zpos p) = b32_canon false p.
Proof. intros Hp. exact (b32_round_shift false p 0 Hp). Qed.

Lemma b32_int_neg (p : positive) : Zpos p < 2 ^ 24 -> b32_int (Zneg p) = b32_canon true p.
Proof. intros Hp. exact (b32_round_shift true p 0 Hp). Qed.

Lemma canon_align (p : positive) (ez : Z) :
  Zpos (digits2_pos p) <= 24 -> ez <= Zpos (digits2_pos p) - 24 ->
  fst (shl_align (pos_shl p (Z.to_nat (24 - Zpos (digits2_pos p))))
         (Zpos (digits2_pos p) - 24) ez)
  = pos_shl p (Z.to_nat (- ez)).
Proof.
  intros Hd Hez. unfold shl_align.
  set (d := Zpos (digits2_pos p)) in *.
  destruct (ez - (d - 24)) as [|j|j] eqn:Hj; cbn [fst].
  - f_equal. lia.
  - lia.
  - rewrite pos_iter_shl, pos_shl_add. f_equal. lia.
Qed.

Lemma b32_add_canon (sa sb : bool) (pa pb : positive) :
  Zpos pa < 2 ^ 24 -> Zpos pb < 2 ^ 24 ->
  Z.abs (cond_Zopp sa (Zpos pa) + cond_Zopp sb (Zpos pb)) < 2 ^ 24 ->
  SFadd 24 128 (b32_canon sa pa) (b32_canon sb pb)
  = b32_int (cond_Zopp sa (Zpos pa) + cond_Zopp sb (Zpos pb)).
Proof.
  intros Ha Hb Hab.
  pose proof (digits2_pos_le pa Ha) as Hda. pose proof (digits2_pos_le pb Hb) as Hdb.
  unfold b32_canon. cbn [SFadd].
  set (ez := Z.min (Zpos (digits2_pos pa) - 24) (Zpos (digits2_pos pb) - 24)).
  rewrite (canon_align pa ez Hda) by (unfold ez; lia).
  rewrite (canon_align pb ez Hdb) by (unfold ez; lia).
  set (k := Z.to_nat (- ez)).
  assert (Hez : ez = - Z.of_nat k) by (unfold k, ez; lia).
  rewrite Hez. clearbody k. clear ez Hez.
  assert (Hsum : cond_Zopp sa (Zpos (pos_shl pa k)) + cond_Zopp sb (Zpos (pos_shl pb k))
                 = (cond_Zopp sa (Zpos pa) + cond_Zopp sb (Zpos pb)) * 2 ^ Z.of_nat k).
  { rewrite !pos_shl_Z. destruct sa, sb; cbn [cond_Zopp]; ring. }
  rewrite Hsum. clear Hsum.
  destruct (cond_Zopp sa (Zpos pa) + cond_Zopp sb (Zpos pb)) as [|q|q].
  - reflexivity.
  - rewrite <- pos_shl_Z. cbn [binary_normalize].
    rewrite b32_round_shift by lia. symmetry. apply b32_int_pos. lia.
  - replace (Zneg q * 2 ^ Z.of_nat k) with (Zneg (pos_shl q k))
      by (change (Zneg q) with (- Zpos q);
          change (Zneg (pos_shl q k)) with (- Zpos (pos_shl q k));
          rewrite pos_shl_Z; ring).
    cbn [binary_normalize].
    rewrite b32_round_shift by lia. symmetry. apply b32_int_neg. lia.
Qed.

(** Integers below 2^24 in magnitude are binary32 floats, and their sum
    is computed without rounding when it is below 2^24 too. *)
Lemma b32_int_add (a b : Z) :
  Z.abs a < 2 ^ 24 -> Z.abs b < 2 ^ 24 -> Z.abs (a + b) < 2 ^ 24 ->
  SFadd b32_prec b32_emax (b32_int a) (b32_int b) = b32_int (a + b).
Proof.
  intros Ha Hb Hab. change b32_prec with 24. change b32_emax with 128.
  destruct a as [|pa|pa].
  - rewrite Z.add_0_l. change (b32_int 0) with (S754_zero false).
    destruct b as [|pb|pb]; [reflexivity| |].
    + rewrite b32_int_pos by lia. reflexivity.
    + rewrite b32_int_neg by lia. reflexivity.
  - destruct b as [|pb|pb].
    + rewrite Z.add_0_r. change (b32_int 0) with (S754_zero false).
      rewrite b32_int_pos by lia. reflexivity.
    + rewrite (b32_int_pos pa), (b32_int_pos pb) by lia.
      exact (b32_add_canon false false pa pb ltac:(lia) ltac:(lia) Hab).
    + rewrite (b32_int_pos pa), (b32_int_neg pb) by lia.
      exact (b32_add_canon false true pa pb ltac:(lia) ltac:(lia) Hab).
  - destruct b as [|pb|pb].
    + rewrite Z.add_0_r. change (b32_int 0) with (S754_zero false).
      rewrite b32_int_neg by lia. reflexivity.
    + rewrite (b32_int_neg pa), (b32_int_pos pb) by lia.
      exact (b32_add_canon true false pa pb ltac:(lia) ltac:(lia) Hab).
    + rewrite (b32_int_neg pa), (b32_int_neg pb) by lia.
      exact (b32_add_canon true true pa pb ltac:(lia) ltac:(lia) Hab).
Qed.

(** ** Dragging the camera *)

Lemma last_nonempty {A : Type} (c : A) (l : list A) (d1 d2 : A) :
  List.last (c :: l) d1 = List.last (c :: l) d2.
Proof.
  revert c. induction l as [|c' l IH]; intros c; [reflexivity|].
  change (List.last (c :: c' :: l) d1) with (List.last (c' :: l) d1).
  change (List.last (c :: c' :: l) d2) with (List.last (c' :: l) d2).
  apply IH.
Qed.

Section MouseDrag.

Variable oor : float32 -> Z.

Local Abbreviation B32 := (binary32 oor ieee_divide).

(** Motion events while the callbacks track the pointer: the angles move
    by the displacement of the pointer, whatever its path. *)
Lemma moves_tracked (path : list (Z * Z)) (g : @Mouse.Globals float32) (a b x0 y0 : Z) :
  Mouse.in_window (Mouse.mouseX g, Mouse.mouseY g) ->
  Mouse.in_window (x0, y0) ->
  Forall Mouse.in_window path ->
  Z.abs a <= 2 ^ 23 -> Z.abs b <= 2 ^ 23 ->
  Mouse.angleX g = b32_int (a + (Mouse.mouseX g - x0)) ->
  Mouse.angleY g = b32_int (b + (Mouse.mouseY g - y0)) ->
  let g' := @Mouse.run _ B32 (Mouse.moves path) g in
  (Mouse.mouseX g', Mouse.mouseY g') = List.last path (Mouse.mouseX g, Mouse.mouseY g)
  /\ Mouse.angleX g' = b32_int (a + (Mouse.mouseX g' - x0))
  /\ Mouse.angleY g' = b32_int (b + (Mouse.mouseY g' - y0))
  /\ Mouse.zoom g' = Mouse.zoom g.
Proof.
  revert g. induction path as [|[x y] path IH]; intros g Hg H0 Hpath Ha Hb HX HY.
  - cbn. repeat split; assumption.
  - apply Forall_cons in Hpath as [Hxy Hpath].
    destruct Hg as [Hgx Hgy], H0 as [H0x H0y], Hxy as [Hx Hy]. cbn [fst snd] in *.
    cbv zeta. unfold Mouse.run, Mouse.moves. cbn [map fold_left fst snd Mouse.step].
    fold (@Mouse.moves). 
    match goal with |- context [fold_left _ _ ?g1] => set (g1' := g1) end.
    assert (Hmx : Mouse.mouseX g1' = x) by reflexivity.
    assert (Hmy : Mouse.mouseY g1' = y) by reflexivity.
    assert (HX1 : Mouse.angleX g1' = b32_int (a + (x - x0))).
    { unfold g1', Mouse.mouseMoved.
      destruct (Z.leb_spec 0 (Mouse.mouseX g)) as [_|]; [|lia].
      destruct (Z.leb_spec 0 (Mouse.mouseY g)) as [_|]; [|lia].
      cbn [andb Mouse.set_mouse Mouse.angleX]. rewrite HX.
      rewrite int32_small by lia.
      change (@f_of_Z _ B32 (x - Mouse.mouseX g)) with (b32_int (x - Mouse.mouseX g)).
      change (@f_add _ B32) with (SFadd b32_prec b32_emax).
      rewrite b32_int_add by lia. f_equal. lia. }
    assert (HY1 : Mouse.angleY g1' = b32_int (b + (y - y0))).
    { unfold g1', Mouse.mouseMoved.
      destruct (Z.leb_spec 0 (Mouse.mouseX g)) as [_|]; [|lia].
      destruct (Z.leb_spec 0 (Mouse.mouseY g)) as [_|]; [|lia].
      cbn [andb Mouse.set_mouse Mouse.angleY]. rewrite HY.
      rewrite int32_small by lia.
      change (@f_of_Z _ B32 (y - Mouse.mouseY g)) with (b32_int (y - Mouse.mouseY g)).
      change (@f_add _ B32) with (SFadd b32_prec b32_emax).
      rewrite b32_int_add by lia. f_equal. lia. }
    assert (Hz1 : Mouse.zoom g1' = Mouse.zoom g).
    { unfold g1', Mouse.mouseMoved.
      destruct ((0 <=? Mouse.mouseX g) && (0 <=? Mouse.mouseY g)); reflexivity. }
    clearbody g1'.
    destruct (IH g1') as (Hlast & HX' & HY' & Hz');
      try assumption.
    + rewrite Hmx, Hmy. split; assumption.
    + split; assumption.
    + rewrite Hmx. exact HX1.
    + rewrite Hmy. exact HY1.
    + cbv zeta in Hlast, HX', HY', Hz'. unfold Mouse.run in *.
      split; [|split; [exact HX'|split; [exact HY'|exact (eq_trans Hz' Hz1)]]].
      refine (eq_trans Hlast _). rewrite Hmx, Hmy.
      destruct path as [|c path']; [reflexivity|].
      change (List.last ((x, y) :: c :: path') (Mouse.mouseX g, Mouse.mouseY g))
        with (List.last (c :: path') (Mouse.mouseX g, Mouse.mouseY g)).
      apply last_nonempty.
Qed.

Lemma run_app (es1 es2 : list Mouse.event) (g : @Mouse.Globals float32) :
  @Mouse.run _ B32 (es1 ++ es2) g = @Mouse.run _ B32 es2 (@Mouse.run _ B32 es1 g).
Proof. apply fold_left_app. Qed.

(** A drag with the left button turns the camera by the displacement of
    the pointer between the press and the last motion event, whatever the
    path in between and without any rounding; the release ends the
    tracking, and the zoom is as before. *)
Theorem drag_rotates (g : @Mouse.Globals float32) (press release : Z * Z)
    (path : list (Z * Z)) (a b : Z) :
  Mouse.angleX g = b32_int a -> Mouse.angleY g = b32_int b ->
  Z.abs a <= 2 ^ 23 -> Z.abs b <= 2 ^ 23 ->
  Mouse.in_window press -> Forall Mouse.in_window path ->
  let g' :=
    @Mouse.run _ B32
      (Mouse.Button Mouse.GLUT_LEFT_BUTTON Mouse.GLUT_DOWN (fst press) (snd press)
       :: Mouse.moves path
       ++ [Mouse.Button Mouse.GLUT_LEFT_BUTTON Mouse.GLUT_UP (fst release) (snd release)])
      g in
  Mouse.mouseX g' = -1 /\ Mouse.mouseY g' = -1
  /\ Mouse.angleX g' = b32_int (a + (fst (List.last path press) - fst press))
  /\ Mouse.angleY g' = b32_int (b + (snd (List.last path press) - snd press))
  /\ Mouse.zoom g' = Mouse.zoom g.
Proof.
  intros HX HY Ha Hb Hpress Hpath. cbv zeta.
  change (Mouse.Button Mouse.GLUT_LEFT_BUTTON Mouse.GLUT_DOWN (fst press) (snd press)
          :: Mouse.moves path
          ++ [Mouse.Button Mouse.GLUT_LEFT_BUTTON Mouse.GLUT_UP (fst release) (snd release)])
    with ([Mouse.Button Mouse.GLUT_LEFT_BUTTON Mouse.GLUT_DOWN (fst press) (snd press)]
          ++ Mouse.moves path
          ++ [Mouse.Button Mouse.GLUT_LEFT_BUTTON Mouse.GLUT_UP (fst release) (snd release)]).
  rewrite run_app. rewrite (run_app (Mouse.moves path)).
  set (g1 := @Mouse.run _ B32
               [Mouse.Button Mouse.GLUT_LEFT_BUTTON Mouse.GLUT_DOWN (fst press) (snd press)] g).
  destruct press as [x0 y0]. cbn [fst snd] in *.
  assert (HX1 : Mouse.angleX g1 = b32_int (a + (Mouse.mouseX g1 - x0))).
  { change (Mouse.angleX g = b32_int (a + (x0 - x0))). rewrite HX. f_equal. lia. }
  assert (HY1 : Mouse.angleY g1 = b32_int (b + (Mouse.mouseY g1 - y0))).
  { change (Mouse.angleY g = b32_int (b + (y0 - y0))). rewrite HY. f_equal. lia. }
  destruct (moves_tracked path g1 a b x0 y0 Hpress Hpress Hpath Ha Hb HX1 HY1)
    as (Hlast & HX' & HY' & Hz).
  - cbv zeta in Hlast, HX', HY', Hz.
    change (Mouse.mouseX g1, Mouse.mouseY g1) with (x0, y0) in Hlast.
    set (g2 := @Mouse.run _ B32 (Mouse.moves path) g1) in *.
    rewrite <- Hlast. cbn [fst snd].
    split; [reflexivity|]. split; [reflexivity|].
    split; [exact HX'|]. split; [exact HY'|exact Hz].
Qed.

(** A drag with another button turns the camera too, but by the
    displacement from the first motion event on, not from the press; and
    its release does not end the tracking: the pointer's last position
    stays recorded. *)
Theorem drag_other_button (g : @Mouse.Globals float32) (button : Z)
    (press first release : Z * Z) (path : list (Z * Z)) (a b : Z) :
  button <> Mouse.GLUT_LEFT_BUTTON -> button <> 3 -> button <> 4 ->
  Mouse.mouseX g = -1 -> Mouse.mouseY g = -1 ->
  Mouse.angleX g = b32_int a -> Mouse.angleY g = b32_int b ->
  Z.abs a <= 2 ^ 23 -> Z.abs b <= 2 ^ 23 ->
  Mouse.in_window first -> Forall Mouse.in_window path ->
  let g' :=
    @Mouse.run _ B32
      (Mouse.Button button Mouse.GLUT_DOWN (fst press) (snd press)
       :: Mouse.Moved (fst first) (snd first)
       :: Mouse.moves path
       ++ [Mouse.Button button Mouse.GLUT_UP (fst release) (snd release)])
      g in
  (Mouse.mouseX g', Mouse.mouseY g') = List.last path first
  /\ Mouse.angleX g' = b32_int (a + (fst (List.last path first) - fst first))
  /\ Mouse.angleY g' = b32_int (b + (snd (List.last path first) - snd first))
  /\ Mouse.zoom g' = Mouse.zoom g.
Proof.
  intros Hb0 Hb3 Hb4 Hmx Hmy HX HY Ha Hb Hfirst Hpath. cbv zeta.
  change (Mouse.Button button Mouse.GLUT_DOWN (fst press) (snd press)
          :: Mouse.Moved (fst first) (snd first)
          :: Mouse.moves path
          ++ [Mouse.Button button Mouse.GLUT_UP (fst release) (snd release)])
    with ([Mouse.Button button Mouse.GLUT_DOWN (fst press) (snd press);
           Mouse.Moved (fst first) (snd first)]
          ++ Mouse.moves path
          ++ [Mouse.Button button Mouse.GLUT_UP (fst release) (snd release)]).
  rewrite run_app. rewrite (run_app (Mouse.moves path)).
  assert (Hdown : forall x y, @Mouse.mouseButtonPressed _ B32 button Mouse.GLUT_DOWN x y g = g).
  { intros x y. unfold Mouse.mouseButtonPressed. cbn [Z.eqb Mouse.GLUT_DOWN].
    destruct (Z.eqb_spec button Mouse.GLUT_LEFT_BUTTON); [contradiction|].
    destruct (Z.eqb_spec button 3); [contradiction|].
    destruct (Z.eqb_spec button 4); [contradiction|]. reflexivity. }
  assert (Hup : forall x y g0,
             @Mouse.mouseButtonPressed _ B32 button Mouse.GLUT_UP x y g0 = g0).
  { intros x y g0. unfold Mouse.mouseButtonPressed. cbn [Z.eqb Mouse.GLUT_DOWN Mouse.GLUT_UP].
    destruct (Z.eqb_spec button Mouse.GLUT_LEFT_BUTTON); [contradiction|]. reflexivity. }
  destruct first as [x1 y1]. cbn [fst snd] in *.
  set (g1 := @Mouse.run _ B32
               [Mouse.Button button Mouse.GLUT_DOWN (fst press) (snd press);
                Mouse.Moved x1 y1] g).
  assert (Hg1 : g1 = Mouse.set_mouse x1 y1 g).
  { unfold g1, Mouse.run. cbn [fold_left Mouse.step]. rewrite Hdown.
    unfold Mouse.mouseMoved. rewrite Hmx. reflexivity. }
  clearbody g1. subst g1.
  assert (HX1 : Mouse.angleX (Mouse.set_mouse x1 y1 g)
                = b32_int (a + (Mouse.mouseX (Mouse.set_mouse x1 y1 g) - x1))).
  { change (Mouse.angleX g = b32_int (a + (x1 - x1))). rewrite HX. f_equal. lia. }
  assert (HY1 : Mouse.angleY (Mouse.set_mouse x1 y1 g)
                = b32_int (b + (Mouse.mouseY (Mouse.set_mouse x1 y1 g) - y1))).
  { change (Mouse.angleY g = b32_int (b + (y1 - y1))). rewrite HY. f_equal. lia. }
  destruct (moves_tracked path (Mouse.set_mouse x1 y1 g) a b x1 y1 Hfirst Hfirst Hpath
              Ha Hb HX1 HY1)
    as (Hlast & HX' & HY' & Hz).
  - cbv zeta in Hlast, HX', HY', Hz.
    change (Mouse.mouseX (Mouse.set_mouse x1 y1 g), Mouse.mouseY (Mouse.set_mouse x1 y1 g))
      with (x1, y1) in Hlast.
    set (g2 := @Mouse.run _ B32 (Mouse.moves path) (Mouse.set_mouse x1 y1 g)) in *.
    assert (Hrel : @Mouse.run _ B32
                     [Mouse.Button button Mouse.GLUT_UP (fst release) (snd release)] g2 = g2).
    { unfold Mouse.run at 1. cbn [fold_left Mouse.step]. apply Hup. }
    rewrite Hrel.
    rewrite <- Hlast. cbn [fst snd].
    split; [reflexivity|]. split; [exact HX'|]. split; [exact HY'|exact Hz].
Qed.

End MouseDrag.

Lemma drag_rotates_witness :
  let g' :=
    @Mouse.run _ device0
      [Mouse.Button 0 0 100 100; Mouse.Moved 110 105; Mouse.Moved 120 90;
       Mouse.Button 0 1 120 90]
      (@Mouse.Globals_init _ device0) in
  Mouse.mouseX g' = -1 /\ Mouse.mouseY g' = -1
  /\ Mouse.angleX g' = b32_int 20 /\ Mouse.angleY g' = b32_int (-10).
Proof.
  destruct (drag_rotates oor_zero (@Mouse.Globals_init _ device0) (100, 100) (120, 90)
              [(110, 105); (120, 90)] 0 0)
    as (Hx & Hy & HX & HY & _).
  - reflexivity.
  - reflexivity.
  - cbn. lia.
  - cbn. lia.
  - unfold Mouse.in_window. cbn [fst snd]. lia.
  - repeat apply List.Forall_cons; try apply List.Forall_nil;
      unfold Mouse.in_window; cbn [fst snd]; lia.
  - cbv zeta. split; [exact Hx|]. split; [exact Hy|]. split; [exact HX|exact HY].
Defined.

Lemma drag_other_button_witness :
  let g' :=
    @Mouse.run _ device0
      [Mouse.Button 2 0 100 100; Mouse.Moved 110 105; Mouse.Moved 120 90;
       Mouse.Button 2 1 120 90]
      (@Mouse.Globals_init _ device0) in
  Mouse.mouseX g' = 120 /\ Mouse.mouseY g' = 90
  /\ Mouse.angleX g' = b32_int 10 /\ Mouse.angleY g' = b32_int (-15).
Proof.
  destruct (drag_other_button oor_zero (@Mouse.Globals_init _ device0) 2
              (100, 100) (110, 105) (120, 90) [(120, 90)] 0 0)
    as (Hm & HX & HY & _).
  - discriminate.
  - discriminate.
  - discriminate.
  - reflexivity.
  - reflexivity.
  - reflexivity.
  - reflexivity.
  - cbn. lia.
  - cbn. lia.
  - unfold Mouse.in_window. cbn [fst snd]. lia.
  - repeat apply List.Forall_cons; try apply List.Forall_nil;
      unfold Mouse.in_window; cbn [fst snd]; lia.
  - cbv zeta. split; [exact (f_equal fst Hm)|]. split; [exact (f_equal snd Hm)|].
    split; [exact HX|exact HY].
Defined.

(** ** The limits of the zoom *)

Section Zoom.

Variable oor : float32 -> Z.

Local Abbreviation B32 := (binary32 oor ieee_divide).

Lemma zoom_of_step (g : @Mouse.Globals float32) (e : Mouse.event) :
  Mouse.zoom (@Mouse.step _ B32 g e) = @zoom_step _ B32 (Mouse.zoom g) e.
Proof.
  destruct e as [x y|button state x y]; cbn [Mouse.step].
  - unfold Mouse.mouseMoved, zoom_step. cbn [is_press].
    destruct ((0 <=? Mouse.mouseX g) && (0 <=? Mouse.mouseY g)); reflexivity.
  - unfold Mouse.mouseButtonPressed, zoom_step, is_press.
    destruct (state =? Mouse.GLUT_DOWN) eqn:Hs; cbn [andb].
    + destruct (Z.eqb_spec button Mouse.GLUT_LEFT_BUTTON) as [->|_]; [reflexivity|].
      destruct (button =? 3); [reflexivity|].
      destruct (button =? 4); reflexivity.
    + destruct ((state =? Mouse.GLUT_UP) && (button =? Mouse.GLUT_LEFT_BUTTON)); reflexivity.
Qed.

Lemma zoom_of_run (es : list Mouse.event) (g : @Mouse.Globals float32) :
  Mouse.zoom (@Mouse.run _ B32 es g) = fold_left (@zoom_step _ B32) es (Mouse.zoom g).
Proof.
  revert g. induction es as [|e es IH]; intros g; [reflexivity|].
  unfold Mouse.run. cbn [fold_left]. fold (@Mouse.run _ B32 es (@Mouse.step _ B32 g e)).
  rewrite IH, zoom_of_step. reflexivity.
Qed.

Lemma zoom_fixed (z : float32) (es : list Mouse.event) :
  @f_mul _ B32 z (f_dyadic 10066330 (-23)) = z ->
  @f_div _ B32 z (f_dyadic 10066330 (-23)) = z ->
  fold_left (@zoom_step _ B32) es z = z.
Proof.
  intros Hmul Hdiv. induction es as [|e es IH]; [reflexivity|].
  cbn [fold_left].
  replace (@zoom_step _ B32 z e) with z; [exact IH|].
  unfold zoom_step.
  destruct (is_press 3 e); [symmetry; exact Hmul|].
  destruct (is_press 4 e); [symmetry; exact Hdiv|reflexivity].
Qed.

Lemma press_3_not_4 (e : Mouse.event) : is_press 3 e = true -> is_press 4 e = false.
Proof.
  destruct e as [|b s x y]; [reflexivity|]. cbn [is_press].
  destruct (s =? Mouse.GLUT_DOWN); [|reflexivity]. cbn [andb].
  intros H3. apply Z.eqb_eq in H3. subst b. reflexivity.
Qed.

Lemma zoom_in_steps (es : list Mouse.event) (n : nat) :
  List.filter (is_press 4) es = [] ->
  fold_left (@zoom_step _ B32) es (b32_zoom_in n)
  = b32_zoom_in (n + length (List.filter (is_press 3) es)).
Proof.
  revert n. induction es as [|e es IH]; intros n Hdown.
  - cbn. rewrite Nat.add_0_r. reflexivity.
  - cbn [fold_left List.filter] in *.
    destruct (is_press 3 e) eqn:H3.
    + rewrite (press_3_not_4 e H3) in Hdown.
      replace (@zoom_step _ B32 (b32_zoom_in n) e) with (b32_zoom_in (S n))
        by (unfold zoom_step; rewrite H3; reflexivity).
      rewrite (IH (S n) Hdown). cbn [length]. f_equal. lia.
    + destruct (is_press 4 e) eqn:H4; [discriminate Hdown|].
      replace (@zoom_step _ B32 (b32_zoom_in n) e) with (b32_zoom_in n)
        by (unfold zoom_step; rewrite H3, H4; reflexivity).
      apply IH. exact Hdown.
Qed.

Lemma zoom_out_steps (es : list Mouse.event) (n : nat) :
  List.filter (is_press 3) es = [] ->
  fold_left (@zoom_step _ B32) es (b32_zoom_out n)
  = b32_zoom_out (n + length (List.filter (is_press 4) es)).
Proof.
  revert n. induction es as [|e es IH]; intros n Hup.
  - cbn. rewrite Nat.add_0_r. reflexivity.
  - cbn [fold_left List.filter] in *.
    destruct (is_press 3 e) eqn:H3; [discriminate Hup|].
    destruct (is_press 4 e) eqn:H4.
    + replace (@zoom_step _ B32 (b32_zoom_out n) e) with (b32_zoom_out (S n))
        by (unfold zoom_step; rewrite H3, H4; symmetry; apply b32_div_ieee).
      rewrite (IH (S n) Hup). cbn [length]. f_equal. lia.
    + replace (@zoom_step _ B32 (b32_zoom_out n) e) with (b32_zoom_out n)
        by (unfold zoom_step; rewrite H3, H4; reflexivity).
      apply IH. exact Hup.
Qed.

Lemma zoom_in_limit : b32_zoom_in 487 = S754_infinity false.
Proof. vm_compute. reflexivity. Qed.

Lemma zoom_out_limit : b32_zoom_out 561 = S754_finite false 2 (-149).
Proof. vm_compute. reflexivity. Qed.

(** The zoom has two values it never leaves. From the start of the
    program, 487 presses of the scroll-up button with no scroll-down
    among them make it infinite, and 561 presses of the scroll-down
    button with no scroll-up among them make it 2^-148; whatever events
    follow, scrolling in either direction included, the zoom stays
    there. *)
Theorem zoom_stuck (es1 es2 : list Mouse.event) :
  (length (List.filter (is_press 3) es1) = 487%nat ->
   List.filter (is_press 4) es1 = [] ->
   Mouse.zoom (@Mouse.run _ B32 (es1 ++ es2) (@Mouse.Globals_init _ B32))
   = S754_infinity false)
  /\ (length (List.filter (is_press 4) es1) = 561%nat ->
      List.filter (is_press 3) es1 = [] ->
      Mouse.zoom (@Mouse.run _ B32 (es1 ++ es2) (@Mouse.Globals_init _ B32))
      = S754_finite false 2 (-149)).
Proof.
  split; intros Hn Hnone.
  - rewrite zoom_of_run, fold_left_app.
    change (Mouse.zoom (@Mouse.Globals_init _ B32)) with (b32_zoom_in 0).
    rewrite (zoom_in_steps es1 0 Hnone), Hn. cbn [Nat.add]. rewrite zoom_in_limit.
    apply zoom_fixed; reflexivity.
  - rewrite zoom_of_run, fold_left_app.
    change (Mouse.zoom (@Mouse.Globals_init _ B32)) with (b32_zoom_out 0).
    rewrite (zoom_out_steps es1 0 Hnone), Hn. cbn [Nat.add]. rewrite zoom_out_limit.
    apply zoom_fixed; reflexivity.
Qed.

End Zoom.

Lemma zoom_stuck_witness :
  Mouse.zoom (@Mouse.run _ device0
                (repeat (Mouse.Button 3 0 0 0) 487 ++ [Mouse.Button 4 0 0 0])
                (@Mouse.Globals_init _ device0))
  = S754_infinity false
  /\ Mouse.zoom (@Mouse.run _ device0
                   (repeat (Mouse.Button 4 0 0 0) 561 ++ [Mouse.Button 3 0 0 0])
                   (@Mouse.Globals_init _ device0))
     = S754_finite false 2 (-149).
Proof.
  split.
  - apply (proj1 (zoom_stuck oor_zero (repeat (Mouse.Button 3 0 0 0) 487)
                    [Mouse.Button 4 0 0 0])).
    + vm_compute. reflexivity.
    + vm_compute. reflexivity.
  - apply (proj2 (zoom_stuck oor_zero (repeat (Mouse.Button 4 0 0 0) 561)
                    [Mouse.Button 3 0 0 0])).
    + vm_compute. reflexivity.
    + vm_compute. reflexivity.
Defined.
